(* ===== verification/_CoqProject ===== *)
-Q . S2P
Prelude.v
Bytes.v
Order.v
Float.v
FloatRound.v
Types.v
Config.v
Breaker.v
Routing.v
Text.v
Analysis.v
Posting.v
Disk.v
EditDistance.v
Inverted.v
Column.v
DocStore.v
Segment.v
Scorer.v
Collector.v
Understanding.v
Wand.v
Executor.v
Recall.v
Multi.v
Object.v
Wal.v
Decimal.v
WriteBuffer.v
SegmentList.v
Proto.v
Replication.v
Shard.v
ShardSpecs.v
Async.v
ShardGrpc.v
Suggest.v
Ranker.v
Cache.v
Availability.v
Client.v
Router.v
RouterSearch.v
Meli.v
Server.v
HttpApp.v
Startup.v
Process.v
ReadBack.v
MatchAll.v
EndToEnd.v
Sections.v
Interleaving.v
Restart.v
Effects.v
Typed.v
Follow.v
Races.v
Locks.v
BreakerRaces.v
Testing.v
TestsIndex.v
TestsQuery.v
TestsShard.v
TestsEngine.v
TestsRouter.v
TestsServices.v
