(* ===== verification/Prelude.v ===== *)
(** * zearch: a verification library for the zearch search engine

    The repository is a distributed product search engine in Rust.  A router
    scatters requests over shards chosen by jump consistent hash; a shard keeps
    a write-ahead log, a write buffer searched through a temporary segment, and
    immutable segments (inverted index, columns, document store) on disk; a
    query runs Block-Max WAND over the posting lists of a segment.  The router
    also ranks, filters by availability, caches, and asks a suggest cluster for
    completions; an HTTP front end validates requests.  This library translates
    that code into executable definitions and proves what each part promises.

    ** Files and the code they model (paths under src/crates/)

    - [Prelude] outcomes of fallible code ([Ret], [Fail], [Panic]), fixed-width
      integers, generic lemmas; [Bytes] byte buffers; [Order] sorting, and the
      orders the standard library leaves open as the class [UnspecifiedOrder];
      [Float], [FloatRound] IEEE-754 arithmetic; [Text], [Decimal] strings;
      [Disk] the file system and the interfaces of the third-party formats;
      [Object], [Async] the state monads the methods run in.
    - [Types], [Config], [Breaker]: core/src/{types,schema,error,config,breaker}.rs.
    - [Analysis]: analysis/src.
    - [Posting], [Inverted], [Column], [DocStore], [Segment]: index/src.
    - [Scorer], [Collector], [Understanding], [EditDistance], [Wand],
      [Executor], [Multi]: query/src; [Recall] what a text query finds.
    - [Wal], [WriteBuffer], [SegmentList] (with merge.rs), [Replication],
      [Shard], [ShardSpecs], [ShardGrpc]: shard/src; [Proto]: the messages of
      proto/shard.proto.
    - Concurrency: [Sections] cuts the methods of shard.rs at their locks,
      [Interleaving] runs the sections of many calls in any order, [Races] has
      the orders that lose data, [Locks] the guards themselves; [BreakerRaces]
      the atomics of core/src/breaker.rs; the tasks of replication.rs are steps
      in [Replication].
    - [Suggest]: suggest/src; [Ranker]: ranker/src.
    - [Routing], [Cache], [Availability], [Client] (with breaker.rs), [Router],
      [RouterSearch]: router/src/{routing,cache,availability,client,router}.rs;
      [Router] holds the router and every operation but the search, which is
      [RouterSearch]; [ReadBack] documents written and read by id, through the
      engine and through a router.
    - [MatchAll] follows a search without words through the executor, the
      segments and the shard; [EndToEnd] composes it with the router: a shard is
      abstracted to a [View], a cluster to the list of its views.
    - [Meli]: meli/src; server/src/main.rs is [Server] (the handlers), [HttpApp]
      (the route table), [Startup] (the configuration and the routers of a
      process) and [Process] (a process of each mode from start to stop);
      [Restart] stops a shard and opens it again.
    - [Effects] has what each method of the engine does to documents, log and
      queues in one relation; from it, [Typed] proves the integer types of a shard
      server's messages and [Follow] that a replica follows its primary.
    - Conformance: [Testing] has the assertions of a Rust test; [TestsIndex],
      [TestsQuery], [TestsShard], [TestsEngine], [TestsRouter] and
      [TestsServices] translate the unit and integration tests of the crates and
      run them on the definitions above.

    ** How the parts interact

    A shard's services meet the router at the record of operations [ShardClient]:
    [LocalShardClient] calls a [ShardEngine] in the world at a [Lens],
    [RemoteShardClient] calls a [ShardService] (the record of handlers that
    [ShardGrpcServer] and [SuggestGrpcServer] build) through the interface
    [ShardNet], and [BreakerShardClient] wraps any of them; the router's theorems
    are proved for every client.  [Ranker] and [AvailabilityStrategy] are records
    of the same kind.  An asynchronous operation is a [Task] over an abstract
    world ([Async]); the class [Runtime] gives time-outs, which may strike any
    task, and the clock, its laws are [RuntimeLaws].

    ** Modelling choices

    A struct is a [Record], an enum an [Inductive], a [HashMap] a [gmap] whose
    iteration order is a parameter ([hm_iter]).  Integers are [Z] with the
    wrap-around of the release profile written out ([wrap 32], [wrap 64]); the
    casts between [usize] and [u64] are identities (64-bit targets).  [f32] and
    [f64] are [spec_float], computed exactly as IEEE-754 prescribes; NaN
    payloads are not distinguished.  A method is a computation over its object
    and the disk ([Obj]), and keeps its changes when it fails, as [?] does.
    In [Shard] and what is built on it, methods run one after the other, and
    joined futures and spawned tasks in the order they were created.  [Sections]
    gives each method of the engine again as a sequence of sections (what it
    does under one guard, or on files no other call uses), which run alone are
    the method ([sections_refine_methods]); calls interleave at their sections.

    Third-party crates are classes with their documented laws: Unicode tables,
    segmentation and stemming ([TextLib]), fst ([FstLib]), roaring bitmaps
    ([RoaringLib]), bincode and serde_json ([Serde]), tempfile ([TempDirLib]),
    the natural logarithm ([MathLib]), moka ([MokaLib]), the text of an [f64]
    ([FloatDebug], [ParseF64]), reading items ([ItemJson]) and the
    configuration file ([ConfigReader]), axum ([HttpLib]), the ranking and stock
    services ([RankerNet], [StockService]).  Each has an instance, which the
    witnesses evaluate.

    ** What the theorems show

    - Round trips: posting lists, the inverted index, the document store, the
      write-ahead log, documents through the gRPC messages.
    - Refinements: a segment built from documents serves the postings,
      filters and aggregations of an inductive reference ([segment_holds]);
      a multi-segment search refines the executor on each segment; the
      counters of the circuit breaker refine the history of outcomes.
    - Exactness: WAND returns a true top-k when the block bounds dominate the
      scores, returns every match while there is room when they are positive,
      and is sound and terminates always; a document with a term for every word
      of a query is found ([executor_finds]), except where a word's expansions
      outnumber the documents ([expansions_hide_documents]); the edit distance is
      the Levenshtein distance.
    - The invariant [shard_ok] of the engine: indexing, deleting, flushing,
      merging, reindexing and searching keep it, and reopening after a crash
      restores it from the disk.
    - Concurrency: calls of the engine other than [reindex_self], interleaved
      in any way, keep the invariant and lose no document; every call returns,
      whatever the others do and whoever gets a lock; the two orders that lose
      documents over a crash or a reindex; the circuit breaker's counters under
      any interleaving of its atomics; replication delivers while the replica
      is up.
    - End to end: a search without words lists exactly the documents that pass
      the filters and counts them, on a shard ([shard_match_all]) and over a
      router of in-process shards ([cluster_search_correct]); what such a router
      has written, the next search finds ([written_document_found]).
    - Replication: whatever is written, arrives, is flushed or reindexed on either
      side, the replica stores what the primary stores but for the entries under
      way ([replica_follows_primary]); those arrive ([replication_delivers]).
    - Types: the integers of this development are unbounded, those of the code
      are not; a shard server whose data fit their types answers every request
      within the types of the messages and stays so ([shard_server_typed]).
    - Routing: the hash is in range, terminates and is consistent.
    - The cluster: a remote shard refines a local one up to what the messages
      drop; reads rotate over the endpoints with closed circuits; a search
      answers from the healthy shards, a cached answer is the one computed for
      an equal key, bulk writes reach every shard's primary whole, suggestions
      merge with the best score.  Ranking degrades to BM25, availability only
      removes candidates.
    - The front door: which requests pass, what they become and what the others
      are answered, which path and method reaches which handler; reading JSON
      lines; mapping items; the configuration of a process and the router it
      gives ([router_wiring]).
    - The process: a shard stopped and started again has every document it had
      ([shard_restart]); what a suggest process answers depends on the documents
      indexed before its last tick ([suggest_mode_answers]).
    - Conformance: every translated test of the repository passes on the model
      ([index_tests_pass] and its like).  Not translated are the tests of the
      real stemmers and of Unicode case, those of thousands of documents or keys,
      and the measurements of time other than the ranker's time-out.

    ** Fuel

    [jump_loop] has one unit per bucket: each step moves to a larger bucket.
    [wand_loop] has one unit per remaining posting: each step passes one.
    [read_loop] and the varint and posting decoders have one per byte of input.
    [format_digits] has one per decimal digit of a [u64].

    ** Not modelled

    Metrics, tracing and telemetry; the YAML and JSON readers, command-line
    parsing, listeners and signals, the text of the admin page; HTTP and gRPC
    transport (a call either fails or runs the handler); the guest module of the WASM ranker,
    which is not in the repository and enters as a parameter; interleavings of
    the router's tasks; poisoned locks (no section panics in
    [concurrent_calls_keep_documents]); I/O errors other than a missing file or
    directory. *)

From Stdlib Require Export ZArith Lia.
From stdpp Require Export base tactics strings gmap sorting numbers.
From stdpp Require Export list.


(** ** Notation scope of the development *)
Declare Scope zearch_scope.
Delimit Scope zearch_scope with zearch.

(** ** Automation shared by the components *)

Create HintDb zearch.

(** Splits a hypothesis of the shape [if c then _ else _ = _] or a [match]. *)
Ltac case_all :=
  repeat (case_match || case_decide || case_bool_decide); simplify_eq/=; auto.

(** Turns boolean comparisons on [Z] and [nat] into propositions. *)
Ltac zbool :=
  repeat match goal with
  | H : (_ <? _)%Z = true |- _ => apply Z.ltb_lt in H
  | H : (_ <? _)%Z = false |- _ => apply Z.ltb_ge in H
  | H : (_ <=? _)%Z = true |- _ => apply Z.leb_le in H
  | H : (_ <=? _)%Z = false |- _ => apply Z.leb_gt in H
  | H : (_ =? _)%Z = true |- _ => apply Z.eqb_eq in H
  | H : (_ =? _)%Z = false |- _ => apply Z.eqb_neq in H
  | H : (_ <? _)%nat = true |- _ => apply Nat.ltb_lt in H
  | H : (_ <? _)%nat = false |- _ => apply Nat.ltb_ge in H
  | H : (_ <=? _)%nat = true |- _ => apply Nat.leb_le in H
  | H : (_ <=? _)%nat = false |- _ => apply Nat.leb_gt in H
  | H : (_ =? _)%nat = true |- _ => apply Nat.eqb_eq in H
  | H : (_ =? _)%nat = false |- _ => apply Nat.eqb_neq in H
  | H : (_ && _) = true |- _ => apply andb_true_iff in H as [? ?]
  | H : negb _ = true |- _ => apply negb_true_iff in H
  | H : negb _ = false |- _ => apply negb_false_iff in H
  end.

(** Closes a decidable proposition on a concrete input by evaluation. *)
Ltac vm_decide := apply (bool_decide_unpack _); vm_compute; exact I.

(** ** Fixed-width integers

    A Rust integer of width [w] is a [Z]; the range is a predicate and the
    wrap-around of the release profile is written out. *)
Section Width.
Local Open Scope Z_scope.

Definition u8_max : Z := 2 ^ 8 - 1.
Definition u16_max : Z := 2 ^ 16 - 1.
Definition u32_max : Z := 2 ^ 32 - 1.
Definition u64_max : Z := 2 ^ 64 - 1.
Definition i64_max : Z := 2 ^ 63 - 1.

Definition wrap (w : Z) (x : Z) : Z := x `mod` 2 ^ w.
Definition in_width (w : Z) (x : Z) : Prop := 0 <= x < 2 ^ w.

#[global] Instance in_width_dec w x : Decision (in_width w x) | 100.
Proof. unfold in_width. apply _. Defined.

(** [a.saturating_add(b)] and [a.saturating_sub(b)] at width [w]. *)
Definition sat_add (w a b : Z) : Z := Z.min (2 ^ w - 1) (a + b).
Definition sat_sub (a b : Z) : Z := Z.max 0 (a - b).

Lemma wrap_in_width w x : 0 <= w -> in_width w (wrap w x).
Proof. intros Hw. unfold wrap, in_width. apply Z.mod_pos_bound. lia. Qed.

Lemma wrap_id w x : in_width w x -> wrap w x = x.
Proof. intros H. apply Z.mod_small, H. Qed.

Lemma sat_add_in_width w a b :
  0 <= w -> in_width w a -> in_width w b -> in_width w (sat_add w a b).
Proof. unfold in_width, sat_add. intros. lia. Qed.

Lemma sat_add_assoc w a b c :
  0 <= a -> 0 <= b -> 0 <= c ->
  sat_add w (sat_add w a b) c = sat_add w a (sat_add w b c).
Proof. unfold sat_add. lia. Qed.

Lemma sat_add_comm w a b : sat_add w a b = sat_add w b a.
Proof. unfold sat_add. lia. Qed.
End Width.

#[export] Hint Resolve wrap_in_width sat_add_in_width : zearch.

(** ** Outcomes of fallible code

    [Ret] is a normal return, [Fail e] is [Err(e)] of a [Result], [Panic] is a
    Rust panic (index out of range, [unwrap] on [None], ...). *)
Inductive outcome (E A : Type) : Type :=
  | Ret (a : A)
  | Fail (e : E)
  | Panic.
Arguments Ret {E A} a.
Arguments Fail {E A} e.
Arguments Panic {E A}.

#[global] Instance outcome_ret E : MRet (outcome E) := fun A a => Ret a.
#[global] Instance outcome_bind E : MBind (outcome E) := fun A B f m =>
  match m with Ret a => f a | Fail e => Fail e | Panic => Panic end.
#[global] Instance outcome_fmap E : FMap (outcome E) := fun A B f m =>
  match m with Ret a => Ret (f a) | Fail e => Fail e | Panic => Panic end.

#[global] Instance outcome_eq_dec E A `{EqDecision E, EqDecision A} :
  EqDecision (outcome E A).
Proof. solve_decision. Defined.

Definition is_ret {E A} (m : outcome E A) : bool :=
  match m with Ret _ => true | _ => false end.

(** [Option::ok_or], and the panic of [v\[i\]] and [Option::unwrap]. *)
Definition ok_or {E A} (e : E) (o : option A) : outcome E A :=
  match o with Some a => Ret a | None => Fail e end.
Definition unwrap {E A} (o : option A) : outcome E A :=
  match o with Some a => Ret a | None => Panic end.
(** [Result::ok] on code that does not panic. *)
Definition outcome_ok {E A} (m : outcome E A) : option A :=
  match m with Ret a => Some a | _ => None end.
Definition map_err {E E' A} (f : E -> E') (m : outcome E A) : outcome E' A :=
  match m with Ret a => Ret a | Fail e => Fail (f e) | Panic => Panic end.

Lemma bind_ret_inv {E A B} (m : outcome E A) (f : A -> outcome E B) b :
  m ≫= f = Ret b -> exists a, m = Ret a /\ f a = Ret b.
Proof. destruct m; simpl; naive_solver. Qed.

Lemma unwrap_ret_inv {E A} (o : option A) (a : A) :
  unwrap (E := E) o = Ret a -> o = Some a.
Proof. destruct o; naive_solver. Qed.

(** A sequential loop whose body may fail: [for x in l { s = f(s, x)?; }]. *)
Fixpoint try_fold {E S A} (f : S -> A -> outcome E S) (s : S) (l : list A)
  : outcome E S :=
  match l with
  | [] => Ret s
  | x :: l => s' ← f s x; try_fold f s' l
  end.

Lemma try_fold_app {E S A} (f : S -> A -> outcome E S) s l1 l2 :
  try_fold f s (l1 ++ l2) = (s' ← try_fold f s l1; try_fold f s' l2).
Proof.
  revert s. induction l1 as [|x l1 IH]; intros s; simpl; [done|].
  destruct (f s x); simpl; auto.
Qed.

(** An index loop [for i in 0..n]. *)
Definition iota (n : nat) : list nat := seq 0 n.
Definition ziota (n : Z) : list Z := Z.of_nat <$> seq 0 (Z.to_nat n).

Lemma elem_of_ziota n i : i ∈ ziota n <-> (0 <= i < n)%Z.
Proof.
  unfold ziota. rewrite list_elem_of_fmap. split.
  - intros (k & -> & Hk%elem_of_seq). lia.
  - intros H. exists (Z.to_nat i). rewrite elem_of_seq. lia.
Qed.

Lemma NoDup_ziota n : NoDup (ziota n).
Proof. apply NoDup_fmap_2; [apply _|apply NoDup_seq]. Qed.

(** ** Sorted lists of integers *)
Lemma sorted_lt_NoDup l : StronglySorted Z.lt l -> NoDup l.
Proof.
  induction 1 as [|x l Hs IH Hx]; constructor; [|done].
  intros Hin. pose proof (proj1 (Forall_forall _ _) Hx x Hin). simpl in *. lia.
Qed.

Lemma sorted_snoc_lt l x y : StronglySorted Z.lt (l ++ [x]) -> y ∈ l -> (y < x)%Z.
Proof.
  induction l as [|z l IH]; intros Hs Hy; [by apply elem_of_nil in Hy|].
  simpl in Hs. inversion Hs as [|? ? Hs' Hz]; subst.
  apply elem_of_cons in Hy as [->|Hy]; [|by apply IH].
  apply (proj1 (Forall_forall _ _) Hz). apply elem_of_app. right. by left.
Qed.

(** ** Loops that collect *)
Lemma mapM_ret {E A B} (f : A -> outcome E B) l l' :
  Forall2 (fun x y => f x = Ret y) l l' -> mapM f l = Ret l'.
Proof.
  induction 1 as [|x y l l' Hxy _ IH]; [done|].
  cbn [mapM]. rewrite Hxy. cbn [mbind outcome_bind]. by rewrite IH.
Qed.

Lemma Forall2_filter {A B} (R : A -> B -> Prop) (P : A -> Prop) (Q : B -> Prop)
    `{!forall x, Decision (P x), !forall y, Decision (Q y)} l k :
  (forall x y, R x y -> P x <-> Q y) -> Forall2 R l k -> Forall2 R (filter P l) (filter Q k).
Proof.
  intros HPQ. induction 1 as [|x y l k Hxy _ IH]; [constructor|].
  rewrite !filter_cons. specialize (HPQ x y Hxy).
  repeat case_decide; [by constructor|tauto|tauto|done].
Qed.

Lemma filter_all {A} (P : A -> Prop) `{!forall x, Decision (P x)} (l : list A) :
  (forall x, x ∈ l -> P x) -> filter P l = l.
Proof.
  induction l as [|x l IH]; intros HP; [done|].
  rewrite filter_cons_True by (apply HP; by left). f_equal. apply IH. intros. apply HP. by right.
Qed.

Lemma filter_none {A} (P : A -> Prop) `{!forall x, Decision (P x)} (l : list A) :
  (forall x, x ∈ l -> ~ P x) -> filter P l = [].
Proof.
  induction l as [|x l IH]; intros HP; [done|].
  rewrite filter_cons_False by (apply HP; by left). apply IH. intros. apply HP. by right.
Qed.

Lemma StronglySorted_filter {A} (R : A -> A -> Prop) (P : A -> Prop)
    `{!forall x, Decision (P x)} (l : list A) :
  StronglySorted R l -> StronglySorted R (filter P l).
Proof.
  induction 1 as [|x l _ IH Hx]; [constructor|].
  destruct (decide (P x)).
  - rewrite filter_cons_True by done. constructor; [done|].
    apply Forall_forall. intros y [_ Hy]%list_elem_of_filter.
    exact (proj1 (Forall_forall _ _) Hx y Hy).
  - by rewrite filter_cons_False.
Qed.

Lemma ziota_sorted n : StronglySorted Z.lt (ziota n).
Proof.
  unfold ziota. generalize 0. induction (Z.to_nat n) as [|k IH]; intros m; [constructor|].
  cbn [seq fmap list_fmap]. constructor; [apply IH|].
  apply Forall_fmap, Forall_forall. intros j Hj%elem_of_seq. cbn. lia.
Qed.

Lemma length_ziota n : length (ziota n) = Z.to_nat n.
Proof. unfold ziota. by rewrite length_fmap, length_seq. Qed.

(** A loop whose body always returns, keeping an invariant. *)
Lemma try_fold_ret {E S A} (f : S -> A -> outcome E S) (P : S -> Prop) s l :
  P s -> (forall s x, P s -> x ∈ l -> exists s', f s x = Ret s' /\ P s') ->
  exists s', try_fold f s l = Ret s' /\ P s'.
Proof.
  revert s. induction l as [|x l IH]; intros s Hs Hf; [by exists s|].
  destruct (Hf s x Hs) as (s' & E1 & Hs'); [by left|]. cbn [try_fold]. rewrite E1.
  cbn [mbind outcome_bind]. apply IH; [done|]. intros. apply Hf; [done|]. by right.
Qed.
