(* ===== verification/Bytes.v ===== *)
(** Byte buffers: [Vec<u8>] as [list byte], conversions between bytes and
    integers, little-endian encoding ([to_le_bytes] / [from_le_bytes]) and
    checked slicing.  Shared by the on-disk formats of [Posting], [Inverted],
    [DocStore] and [Wal]. *)
From Stdlib Require Import Strings.Byte.
From S2P Require Import Prelude.

Local Open Scope Z_scope.

Abbreviation bytes := (list byte).

(** [b as u64] and [z as u8]. *)
Definition byte_to_Z (b : byte) : Z := Z.of_N (Byte.to_N b).
Definition byte_of_Z (z : Z) : byte :=
  match Byte.of_N (Z.to_N (wrap 8 z)) with Some b => b | None => Byte.x00 end.

Lemma byte_to_Z_range b : 0 <= byte_to_Z b < 256.
Proof. unfold byte_to_Z. pose proof (Byte.to_N_bounded b). lia. Qed.

Lemma byte_to_of_Z z : byte_to_Z (byte_of_Z z) = wrap 8 z.
Proof.
  unfold byte_to_Z, byte_of_Z.
  assert (0 <= wrap 8 z < 256) as Hr by (unfold wrap; apply Z.mod_pos_bound; lia).
  destruct (Byte.of_N _) as [b|] eqn:E.
  - apply Byte.to_of_N in E. lia.
  - apply Byte.of_N_None_iff in E. lia.
Qed.

Lemma byte_of_to_Z b : byte_of_Z (byte_to_Z b) = b.
Proof.
  unfold byte_of_Z. pose proof (byte_to_Z_range b).
  unfold wrap. rewrite Z.mod_small by (simpl; lia).
  unfold byte_to_Z. by rewrite N2Z.id, Byte.of_to_N.
Qed.

#[global] Instance byte_eq_dec : EqDecision byte := Byte.byte_eq_dec.

(** [x.to_le_bytes()] of an [n]-byte integer, [from_le_bytes]. *)
Fixpoint to_le (n : nat) (z : Z) : bytes :=
  match n with
  | O => []
  | S n => byte_of_Z z :: to_le n (z / 256)
  end.

Fixpoint from_le (bs : bytes) : Z :=
  match bs with
  | [] => 0
  | b :: bs => byte_to_Z b + 256 * from_le bs
  end.

Lemma length_to_le n z : length (to_le n z) = n.
Proof. revert z. induction n; intros z; simpl; auto. Qed.

Lemma from_to_le n z :
  0 <= z < 256 ^ Z.of_nat n -> from_le (to_le n z) = z.
Proof.
  revert z. induction n as [|n IH]; intros z Hz; simpl.
  - simpl in Hz. lia.
  - rewrite Nat2Z.inj_succ, Z.pow_succ_r in Hz by lia.
    rewrite byte_to_of_Z, IH.
    + unfold wrap. change (2 ^ 8) with 256. pose proof (Z.div_mod z 256). lia.
    + split; [apply Z.div_pos; lia|apply Z.div_lt_upper_bound; lia].
Qed.

Lemma from_le_range bs : 0 <= from_le bs < 256 ^ Z.of_nat (length bs).
Proof.
  induction bs as [|b bs IH]; [simpl; lia|].
  cbn [from_le length]. rewrite Nat2Z.inj_succ, Z.pow_succ_r by lia.
  pose proof (byte_to_Z_range b). nia.
Qed.

Definition u32_le (z : Z) : bytes := to_le 4 z.
Definition u64_le (z : Z) : bytes := to_le 8 z.

Lemma from_u32_le z : in_width 32 z -> from_le (u32_le z) = z.
Proof. intros H. apply from_to_le. exact H. Qed.
Lemma from_u64_le z : in_width 64 z -> from_le (u64_le z) = z.
Proof. intros H. apply from_to_le. exact H. Qed.
#[export] Hint Rewrite length_to_le : zearch.

(** [&v\[start..stop\]]: panics when the range is out of bounds. *)
Definition slice {E A} (v : list A) (start stop : nat) : outcome E (list A) :=
  if (start <=? stop)%nat && (stop <=? length v)%nat
  then Ret (take (stop - start) (drop start v)) else Panic.

(** [v\[i\]]: panics when out of bounds. *)
Definition index {E A} (v : list A) (i : nat) : outcome E A := unwrap (v !! i).

Lemma slice_app_middle {E A} (l1 l2 l3 : list A) (start stop : nat) :
  start = length l1 -> stop = (length l1 + length l2)%nat ->
  slice (E := E) (l1 ++ l2 ++ l3) start stop = Ret l2.
Proof.
  intros -> ->. unfold slice. rewrite !length_app.
  destruct (_ && _) eqn:Hb.
  - rewrite drop_app_length. f_equal.
    replace (_ - _)%nat with (length l2) by lia. apply take_app_length.
  - exfalso. apply andb_false_iff in Hb as [Hb|Hb]; apply Nat.leb_gt in Hb; lia.
Qed.

Lemma slice_ret_inv {E A} (v : list A) start stop r :
  slice (E := E) v start stop = Ret r ->
  (start <= stop <= length v)%nat /\ r = take (stop - start) (drop start v).
Proof.
  unfold slice. destruct (_ && _) eqn:Hb; [|done].
  apply andb_true_iff in Hb as [?%Nat.leb_le ?%Nat.leb_le]. naive_solver.
Qed.

(** Text as bytes: a Rust [str] is its UTF-8 bytes, a [string]. *)
Definition string_bytes (s : string) : bytes := String.list_byte_of_string s.
