(* ===== verification/Order.v ===== *)
(** Ordering: what the source relies on of [slice::sort_by], of the unstable
    sorts, of [select_nth_unstable_by] and of the iteration order of a
    [HashMap] or [BinaryHeap].  The stable sort is a definition; the facilities whose
    result the standard library leaves unspecified are an interface
    ([UnspecifiedOrder]) with its laws, and one implementation of it. *)

From S2P Require Import Prelude.

(** ** Comparators *)

(** A comparator is a total preorder on the elements satisfying [P]. *)
Class CmpPreorder {A} (P : A -> Prop) (cmp : A -> A -> comparison) : Prop := {
  cmp_antisym x y : P x -> P y -> cmp y x = CompOpp (cmp x y);
  cmp_trans x y z : P x -> P y -> P z -> cmp x y <> Gt -> cmp y z <> Gt -> cmp x z <> Gt;
}.

Definition cmp_le {A} (cmp : A -> A -> comparison) (x y : A) : Prop := cmp x y <> Gt.

#[global] Instance cmp_le_dec {A} (cmp : A -> A -> comparison) : RelDecision (cmp_le cmp).
Proof. intros x y. unfold cmp_le. apply _. Defined.

(** [Ordering::reverse] by swapping the operands, [Ordering::then_with], and a
    key function ([sort_by_key]). *)
Definition cmp_desc {A} (cmp : A -> A -> comparison) : A -> A -> comparison :=
  fun a b => cmp b a.
Definition then_with (c d : comparison) : comparison :=
  match c with Eq => d | _ => c end.
Definition cmp_on {A B} (f : A -> B) (cmp : B -> B -> comparison) : A -> A -> comparison :=
  fun a b => cmp (f a) (f b).

#[global] Instance cmp_desc_preorder {A} (P : A -> Prop) cmp :
  CmpPreorder P cmp -> CmpPreorder P (cmp_desc cmp).
Proof.
  intros [Ha Ht]. split; unfold cmp_desc; intros.
  - by apply Ha.
  - eapply Ht; [| | |eassumption|eassumption]; done.
Qed.

#[global] Instance cmp_on_preorder {A B} (f : A -> B) P cmp :
  CmpPreorder P cmp -> CmpPreorder (fun a => P (f a)) (cmp_on f cmp).
Proof. intros [Ha Ht]. split; unfold cmp_on; eauto. Qed.

Lemma cmp_refl {A} {P : A -> Prop} {cmp} `{!CmpPreorder P cmp} x : P x -> cmp x x = Eq.
Proof. intros Hx. pose proof (cmp_antisym x x Hx Hx) as E. by destruct (cmp x x). Qed.

#[global] Instance then_with_preorder {A} (P : A -> Prop) (c d : A -> A -> comparison) :
  CmpPreorder P c -> CmpPreorder P d -> CmpPreorder P (fun a b => then_with (c a b) (d a b)).
Proof.
  intros Hc Hd. split.
  - intros x y Hx Hy. rewrite (cmp_antisym (cmp := c) x y), (cmp_antisym (cmp := d) x y) by done.
    by destruct (c x y).
  - intros x y z Hx Hy Hz H1 H2.
    assert (c x y <> Gt) as C1 by (by intros E; rewrite E in H1).
    assert (c y z <> Gt) as C2 by (by intros E; rewrite E in H2).
    pose proof (cmp_trans (cmp := c) x y z Hx Hy Hz C1 C2) as C3.
    destruct (c x z) eqn:E; [|done|done]. cbn [then_with].
    assert (c z x <> Gt) as C4 by (rewrite (cmp_antisym (cmp := c) x z), E by done; done).
    pose proof (cmp_trans (cmp := c) y z x Hy Hz Hx C2 C4) as C5.
    pose proof (cmp_trans (cmp := c) z x y Hz Hx Hy C4 C1) as C6.
    rewrite (cmp_antisym (cmp := c) x y) in C5 by done.
    rewrite (cmp_antisym (cmp := c) y z) in C6 by done.
    destruct (c x y); [|done|done]. destruct (c y z); [|done|done].
    exact (cmp_trans (cmp := d) x y z Hx Hy Hz H1 H2).
Qed.

#[global] Instance Zcompare_preorder : CmpPreorder (fun _ => True) Z.compare.
Proof.
  split.
  - intros. apply Z.compare_antisym.
  - intros x y z _ _ _ H1 H2. apply -> Z.compare_le_iff in H1.
    apply -> Z.compare_le_iff in H2. apply Z.compare_le_iff. lia.
Qed.

(** ** The stable sort [slice::sort_by] *)
Section StableSort.
Context {A : Type} (cmp : A -> A -> comparison).

(** Inserts [x] before the first element that is not smaller. *)
Fixpoint sort_insert (x : A) (l : list A) : list A :=
  match l with
  | [] => [x]
  | y :: l' => match cmp x y with Gt => y :: sort_insert x l' | _ => x :: l end
  end.

Definition sort_by (l : list A) : list A := foldr sort_insert [] l.

Lemma sort_insert_perm x l : sort_insert x l ≡ₚ x :: l.
Proof.
  induction l as [|y l IH]; simpl; [done|].
  destruct (cmp x y); [done|done|]. rewrite IH. constructor.
Qed.

Lemma sort_by_perm l : sort_by l ≡ₚ l.
Proof.
  induction l as [|x l IH]; simpl; [done|]. by rewrite sort_insert_perm, IH.
Qed.

Lemma length_sort_by l : length (sort_by l) = length l.
Proof. apply Permutation_length, sort_by_perm. Qed.

Lemma elem_of_sort_by x l : x ∈ sort_by l <-> x ∈ l.
Proof. by rewrite (sort_by_perm l). Qed.

Lemma Forall_sort_by P l : Forall P (sort_by l) <-> Forall P l.
Proof. by rewrite (sort_by_perm l). Qed.

Context (P : A -> Prop) `{!CmpPreorder P cmp}.

Lemma cmp_gt_flip x y : P x -> P y -> cmp x y = Gt -> cmp_le cmp y x.
Proof. intros Hx Hy H. unfold cmp_le. rewrite (cmp_antisym x y), H by done. done. Qed.

Lemma sort_insert_sorted x l :
  P x -> Forall P l -> StronglySorted (cmp_le cmp) l ->
  StronglySorted (cmp_le cmp) (sort_insert x l).
Proof.
  intros Hx HP Hs. induction Hs as [|y l Hs IH Hy]; simpl.
  { repeat constructor. }
  apply Forall_cons in HP as [Py Pl].
  assert (cmp x y <> Gt -> StronglySorted (cmp_le cmp) (x :: y :: l)) as Hle.
  { intros Hxy. constructor; [by constructor|]. constructor; [done|].
    apply Forall_forall. intros z Hz.
    pose proof (proj1 (Forall_forall _ _) Hy z Hz) as Hyz.
    pose proof (proj1 (Forall_forall _ _) Pl z Hz) as Pz.
    by eapply (cmp_trans x y z). }
  destruct (cmp x y) eqn:E; [by apply Hle|by apply Hle|].
  constructor; [by apply IH|].
  rewrite (sort_insert_perm x l). constructor; [|done].
  by apply cmp_gt_flip.
Qed.

Lemma sort_by_sorted l : Forall P l -> StronglySorted (cmp_le cmp) (sort_by l).
Proof.
  induction l as [|x l IH]; intros HP; simpl; [constructor|].
  apply Forall_cons in HP as [Hx Hl]. apply sort_insert_sorted; [done| |by apply IH].
  by apply Forall_sort_by.
Qed.
End StableSort.

(** ** Facilities with an unspecified order

    [sort_unstable_by] may permute equal elements; [select_nth_unstable_by]
    only separates the smallest elements; a [HashMap] is iterated in an
    arbitrary order.  A [CmpPreorder] premise is needed for sortedness: for a
    comparator that is not a total order the standard library only keeps the
    elements. *)
Class UnspecifiedOrder := {
  sort_unstable_by : forall {A : Type}, (A -> A -> comparison) -> list A -> list A;
  select_nth_unstable_by :
    forall {A : Type}, (A -> A -> comparison) -> nat -> list A -> list A;
  hm_iter : forall {K : Type} `{Countable K} {V : Type}, gmap K V -> list (K * V);
  heap_iter : forall {A : Type}, list A -> list A;    (* BinaryHeap::into_iter *)
}.

Class UnspecifiedOrderLaws `{UO : UnspecifiedOrder} : Prop := {
  sort_unstable_perm {A} (cmp : A -> A -> comparison) l :
    sort_unstable_by cmp l ≡ₚ l;
  sort_unstable_sorted {A} (P : A -> Prop) cmp `{!CmpPreorder P cmp} l :
    Forall P l -> StronglySorted (cmp_le cmp) (sort_unstable_by cmp l);
  select_nth_perm {A} (cmp : A -> A -> comparison) n l :
    select_nth_unstable_by cmp n l ≡ₚ l;
  select_nth_split {A} (P : A -> Prop) cmp `{!CmpPreorder P cmp} n l x y :
    Forall P l -> (n < length l)%nat ->
    x ∈ take (S n) (select_nth_unstable_by cmp n l) ->
    y ∈ drop (S n) (select_nth_unstable_by cmp n l) -> cmp_le cmp x y;
  hm_iter_perm {K} `{Countable K} {V} (m : gmap K V) : hm_iter m ≡ₚ map_to_list m;
  heap_iter_perm {A} (l : list A) : heap_iter l ≡ₚ l;
}.

Section UnspecifiedOrder.
Context `{UOL : UnspecifiedOrderLaws}.

Lemma length_sort_unstable {A} (cmp : A -> A -> comparison) l :
  length (sort_unstable_by cmp l) = length l.
Proof. apply Permutation_length, sort_unstable_perm. Qed.

Lemma elem_of_sort_unstable {A} (cmp : A -> A -> comparison) l x :
  x ∈ sort_unstable_by cmp l <-> x ∈ l.
Proof. by rewrite sort_unstable_perm. Qed.

Lemma elem_of_hm_iter {K} `{Countable K} {V} (m : gmap K V) k v :
  (k, v) ∈ hm_iter m <-> m !! k = Some v.
Proof. rewrite hm_iter_perm. apply elem_of_map_to_list. Qed.

Lemma NoDup_fst_hm_iter {K} `{Countable K} {V} (m : gmap K V) :
  NoDup (hm_iter m).*1.
Proof. rewrite hm_iter_perm. apply NoDup_fst_map_to_list. Qed.

(** [m.into_iter().collect::<HashMap<_,_>>()] gives the map back. *)
Lemma list_to_map_hm_iter {K} `{Countable K} {V} (m : gmap K V) :
  list_to_map (hm_iter m) = m.
Proof.
  rewrite <- (list_to_map_to_list m) at 2.
  apply list_to_map_proper; [apply NoDup_fst_hm_iter|apply hm_iter_perm].
Qed.
End UnspecifiedOrder.

Lemma StronglySorted_take_drop {A} (R : A -> A -> Prop) n l x y :
  StronglySorted R l -> x ∈ take n l -> y ∈ drop n l -> R x y.
Proof.
  intros Hs. revert n. induction Hs as [|z l Hs IH Hz]; intros n Hx Hy.
  { rewrite take_nil in Hx. by apply elem_of_nil in Hx. }
  destruct n as [|n]; simpl in *; [by apply elem_of_nil in Hx|].
  apply elem_of_cons in Hx as [->|Hx]; [|by eapply IH].
  apply (proj1 (Forall_forall _ _) Hz).
  rewrite <- (take_drop n l). apply elem_of_app. by right.
Qed.

(** One implementation: stable sorting, and the iteration order of [gmap]. *)
Module StableOrder.
#[export] Instance stable_order : UnspecifiedOrder := {
  sort_unstable_by := fun A => sort_by;
  select_nth_unstable_by := fun A cmp _ => sort_by cmp;
  hm_iter := fun K _ _ V => map_to_list;
  heap_iter := fun A l => l;
}.

#[export] Instance stable_order_laws : UnspecifiedOrderLaws (UO := stable_order).
Proof.
  split; simpl; intros.
  - apply sort_by_perm.
  - by eapply sort_by_sorted.
  - apply sort_by_perm.
  - eapply StronglySorted_take_drop; [by eapply sort_by_sorted|done|done].
  - done.
  - done.
Qed.
End StableOrder.

(** ** Binary search [partition_point] *)

(** Specification: the length of the longest prefix satisfying [p].  On a
    slice partitioned by [p] (all elements satisfying [p] first) this is the
    index [slice::partition_point] returns. *)
Fixpoint partition_point {A} (p : A -> bool) (l : list A) : nat :=
  match l with
  | [] => 0
  | x :: l => if p x then S (partition_point p l) else 0
  end.

Lemma partition_point_le {A} (p : A -> bool) l : (partition_point p l <= length l)%nat.
Proof. induction l as [|x l IH]; simpl; [lia|]. destruct (p x); lia. Qed.

Lemma partition_point_before {A} (p : A -> bool) l i x :
  (i < partition_point p l)%nat -> l !! i = Some x -> p x = true.
Proof.
  revert i. induction l as [|y l IH]; intros i Hi Hl; simpl in *; [lia|].
  destruct (p y) eqn:E; [|lia]. destruct i as [|i]; simplify_eq/=; [done|].
  eapply IH; [|done]. lia.
Qed.

Lemma partition_point_at {A} (p : A -> bool) l x :
  l !! partition_point p l = Some x -> p x = false.
Proof.
  induction l as [|y l IH]; simpl; [done|].
  destruct (p y) eqn:E; simpl; [done|]. by intros [= ->].
Qed.
