(* ===== verification/Float.v ===== *)
(** IEEE-754 arithmetic of the source: [f32] and [f64] are the standard
    library's [spec_float] at precision (24, 128) and (53, 1024), so every
    operation is executable and rounds to nearest even.  NaN payloads are not
    distinguished.  The file also has the bit patterns of [f32] ([to_bits],
    [from_bits]), the saturating cast [as i64] and the order lemmas. *)
From Stdlib Require Import Floats.SpecFloat.
From S2P Require Import Prelude Bytes Order.

Local Open Scope Z_scope.

Abbreviation f32 := spec_float.
Abbreviation f64 := spec_float.

#[global] Instance spec_float_eq_dec : EqDecision spec_float.
Proof. solve_decision. Defined.

(** ** Operations *)
Definition f32_add : f32 -> f32 -> f32 := SFadd 24 128.
Definition f32_sub : f32 -> f32 -> f32 := SFsub 24 128.
Definition f32_mul : f32 -> f32 -> f32 := SFmul 24 128.
Definition f32_div : f32 -> f32 -> f32 := SFdiv 24 128.
Definition f64_add : f64 -> f64 -> f64 := SFadd 53 1024.
Definition f64_mul : f64 -> f64 -> f64 := SFmul 53 1024.
Definition f64_div : f64 -> f64 -> f64 := SFdiv 53 1024.

(** [z as f32] and [z as f64] of an integer. *)
Definition f32_of_Z (z : Z) : f32 := binary_normalize 24 128 z 0 false.
Definition f64_of_Z (z : Z) : f64 := binary_normalize 53 1024 z 0 false.

(** [x as f32] of an [f64]. *)
Definition f32_of_f64 (x : f64) : f32 :=
  match x with
  | S754_finite s m e => binary_round 24 128 s m e
  | _ => x
  end.

(** A decimal literal [n / d] with exactly representable [n] and [d]. *)
Definition f32_lit (n d : Z) : f32 := f32_div (f32_of_Z n) (f32_of_Z d).
Definition f64_lit (n d : Z) : f64 := f64_div (f64_of_Z n) (f64_of_Z d).

Definition f_zero : spec_float := S754_zero false.
Definition f_neg_infinity : spec_float := S754_infinity true.
Definition f_nan (x : spec_float) : bool :=
  match x with S754_nan => true | _ => false end.

Definition f_lt : spec_float -> spec_float -> bool := SFltb.
Definition f_le : spec_float -> spec_float -> bool := SFleb.
Definition f_eq : spec_float -> spec_float -> bool := SFeqb.
Definition f_gt (x y : spec_float) : bool := SFltb y x.
Definition f_ge (x y : spec_float) : bool := SFleb y x.

(** [f32::max]: the other operand when one is NaN. *)
Definition f_max (x y : spec_float) : spec_float :=
  if f_nan x then y else if f_nan y then x else if f_lt x y then y else x.

(** [a.partial_cmp(&b).unwrap_or(Ordering::Equal)]. *)
Definition f_cmp (x y : spec_float) : comparison :=
  match SFcompare x y with Some c => c | None => Eq end.

(** [x as i64]: truncation toward zero, saturating, NaN to 0. *)
Definition i64_clamp (z : Z) : Z := Z.max (- 2 ^ 63) (Z.min i64_max z).
Definition f64_to_i64 (x : f64) : Z :=
  match x with
  | S754_nan | S754_zero _ => 0
  | S754_infinity s => if s then - 2 ^ 63 else i64_max
  | S754_finite s m e =>
      let a := if 0 <=? e then Z.pos m * 2 ^ e else Z.pos m / 2 ^ (- e) in
      i64_clamp (if s then - a else a)
  end.

(** ** Order *)

(** [SFcompare] is the lexicographic order of (class, exponent, mantissa). *)
Definition f_key (x : spec_float) : Z * Z * Z :=
  match x with
  | S754_nan => (0, 0, 0)
  | S754_infinity s => (if s then -2 else 2, 0, 0)
  | S754_zero _ => (0, 0, 0)
  | S754_finite true m e => (-1, - e, - Z.pos m)
  | S754_finite false m e => (1, e, Z.pos m)
  end.

Definition lex3 (a b : Z * Z * Z) : comparison :=
  let '(a1, a2, a3) := a in
  let '(b1, b2, b3) := b in
  then_with (Z.compare a1 b1) (then_with (Z.compare a2 b2) (Z.compare a3 b3)).

Lemma lex3_spec a b :
  match lex3 a b with
  | Eq => a = b
  | Lt => a.1.1 < b.1.1 \/ (a.1.1 = b.1.1 /\ (a.1.2 < b.1.2 \/ (a.1.2 = b.1.2 /\ a.2 < b.2)))
  | Gt => b.1.1 < a.1.1 \/ (a.1.1 = b.1.1 /\ (b.1.2 < a.1.2 \/ (a.1.2 = b.1.2 /\ b.2 < a.2)))
  end.
Proof.
  destruct a as [[a1 a2] a3], b as [[b1 b2] b3]. simpl.
  destruct (Z.compare_spec a1 b1), (Z.compare_spec a2 b2), (Z.compare_spec a3 b3);
    simpl; subst; try lia; auto.
Qed.

#[global] Instance lex3_preorder : CmpPreorder (fun _ => True) lex3.
Proof.
  split.
  - intros [[a1 a2] a3] [[b1 b2] b3] _ _. simpl.
    rewrite (Z.compare_antisym a1 b1), (Z.compare_antisym a2 b2), (Z.compare_antisym a3 b3).
    by destruct (a1 ?= b1), (a2 ?= b2), (a3 ?= b3).
  - intros a b c _ _ _ Hab Hbc Hac.
    pose proof (lex3_spec a b) as H1. pose proof (lex3_spec b c) as H2.
    pose proof (lex3_spec a c) as H3. rewrite Hac in H3.
    destruct (lex3 a b), (lex3 b c); try done; subst; lia.
Qed.

Lemma f_cmp_key x y :
  f_nan x = false -> f_nan y = false -> f_cmp x y = lex3 (f_key x) (f_key y).
Proof.
  intros Hx Hy. destruct x as [|[]| |[] m e], y as [|[]| |[] m' e']; try done.
  - unfold f_cmp. simpl. rewrite <- Z.compare_opp.
    rewrite (Z.compare_antisym (- e)). by destruct (- e ?= - e').
  - unfold f_cmp. simpl. by destruct (e ?= e').
Qed.

#[global] Instance f_cmp_preorder : CmpPreorder (fun x => f_nan x = false) f_cmp.
Proof.
  split.
  - intros x y Hx Hy. rewrite !f_cmp_key by done. by apply (cmp_antisym (P := fun _ => True)).
  - intros x y z Hx Hy Hz. rewrite !f_cmp_key by done.
    by apply (cmp_trans (P := fun _ => True)).
Qed.

Lemma f_lt_cmp x y : f_nan x = false -> f_nan y = false -> f_lt x y = true <-> f_cmp x y = Lt.
Proof.
  intros Hx Hy. unfold f_lt, f_cmp, SFltb.
  destruct x, y; try done; simpl; repeat case_match; naive_solver.
Qed.

Lemma f_le_cmp x y : f_nan x = false -> f_nan y = false -> f_le x y = true <-> f_cmp x y <> Gt.
Proof.
  intros Hx Hy. unfold f_le, f_cmp, SFleb.
  destruct x, y; try done; simpl; repeat case_match; naive_solver.
Qed.

Lemma f_lt_total x y :
  f_nan x = false -> f_nan y = false -> f_lt x y = false -> f_le y x = true.
Proof.
  intros Hx Hy H. apply f_le_cmp; [done..|].
  rewrite (cmp_antisym x y) by done.
  destruct (f_cmp x y) eqn:E; try done.
  apply f_lt_cmp in E; [congruence|done..].
Qed.

Lemma f_max_le_l x y : f_nan x = false -> f_nan y = false -> f_le x (f_max x y) = true.
Proof.
  intros Hx Hy. unfold f_max. rewrite Hx, Hy. destruct (f_lt x y) eqn:E.
  - apply f_le_cmp; [done..|]. apply f_lt_cmp in E; congruence.
  - apply f_le_cmp; [done..|]. rewrite f_cmp_key by done.
    pose proof (lex3_spec (f_key x) (f_key x)). destruct (lex3 _ _); try done; lia.
Qed.

Lemma f_max_le_r x y : f_nan x = false -> f_nan y = false -> f_le y (f_max x y) = true.
Proof.
  intros Hx Hy. unfold f_max. rewrite Hx, Hy. destruct (f_lt x y) eqn:E.
  - apply f_le_cmp; [done..|]. rewrite f_cmp_key by done.
    pose proof (lex3_spec (f_key y) (f_key y)). destruct (lex3 _ _); try done; lia.
  - by apply f_lt_total.
Qed.

Lemma f_max_nan x y : f_nan x = false -> f_nan (f_max x y) = false.
Proof. intros Hx. unfold f_max. rewrite Hx. destruct (f_nan y) eqn:?, (f_lt x y); done. Qed.

Lemma f_le_trans x y z :
  f_nan x = false -> f_nan y = false -> f_nan z = false ->
  f_le x y = true -> f_le y z = true -> f_le x z = true.
Proof.
  intros Hx Hy Hz H1 H2. apply f_le_cmp in H1; [|done..]. apply f_le_cmp in H2; [|done..].
  apply f_le_cmp; [done..|]. by eapply (cmp_trans x y z).
Qed.
