(* ===== verification/FloatRound.v ===== *)
(** Facts on the rounding of [SpecFloat] the components rely on: operations on
    valid numbers give valid numbers, results of non-negative operands are
    non-negative, and the bit pattern of an [f32] is a bijection that orders
    the non-negative numbers. *)
From Stdlib Require Import Floats.SpecFloat.
From S2P Require Import Prelude Bytes Order Float.

Local Open Scope Z_scope.

(** ** Digits *)
Lemma digits2_pos_bounds p :
  2 ^ (Z.pos (digits2_pos p) - 1) <= Z.pos p < 2 ^ Z.pos (digits2_pos p).
Proof.
  induction p as [p IH|p IH|]; cbn [digits2_pos]; [| |simpl; lia].
  all: rewrite Pos2Z.inj_succ; replace (Z.succ _ - 1) with (Z.pos (digits2_pos p)) by lia.
  all: replace (Z.pos (digits2_pos p)) with (Z.succ (Z.pos (digits2_pos p) - 1)) at 1 by lia.
  all: rewrite !Z.pow_succ_r by lia; lia.
Qed.

Lemma pow2_lt_mono a b c : 0 <= a -> 2 ^ a <= c -> c < 2 ^ b -> a < b.
Proof.
  intros Ha H1 H2. apply (Z.pow_lt_mono_r_iff 2); [lia| |lia].
  destruct (Z.le_gt_cases 0 b); [done|]. rewrite (Z.pow_neg_r 2 b) in H2 by lia. lia.
Qed.

Lemma Zdigits2_bounds m : 0 < m -> 2 ^ (Zdigits2 m - 1) <= m < 2 ^ Zdigits2 m.
Proof. destruct m; try lia. intros _. apply digits2_pos_bounds. Qed.

Lemma Zdigits2_pos m : 0 < m -> 0 < Zdigits2 m.
Proof. destruct m; simpl; lia. Qed.

Lemma Zdigits2_unique m d : 0 < m -> 0 < d -> 2 ^ (d - 1) <= m < 2 ^ d -> Zdigits2 m = d.
Proof.
  intros Hm Hd [H1 H2]. pose proof (Zdigits2_bounds m Hm) as [H3 H4].
  pose proof (Zdigits2_pos m Hm).
  pose proof (pow2_lt_mono (d - 1) (Zdigits2 m) m).
  pose proof (pow2_lt_mono (Zdigits2 m - 1) d m). lia.
Qed.

Lemma Zdigits2_div m n :
  0 < m -> 0 <= n < Zdigits2 m -> Zdigits2 (m / 2 ^ n) = Zdigits2 m - n.
Proof.
  intros Hm Hn. pose proof (Zdigits2_bounds m Hm) as [H1 H2].
  assert (2 ^ (Zdigits2 m - n - 1) <= m / 2 ^ n < 2 ^ (Zdigits2 m - n)) as Hb.
  { split.
    - apply Z.div_le_lower_bound; [lia|]. rewrite <- Z.pow_add_r by lia.
      by replace (n + (Zdigits2 m - n - 1)) with (Zdigits2 m - 1) by lia.
    - apply Z.div_lt_upper_bound; [lia|]. rewrite <- Z.pow_add_r by lia.
      by replace (n + (Zdigits2 m - n)) with (Zdigits2 m) by lia. }
  apply Zdigits2_unique; [|lia|done].
  assert (0 < 2 ^ (Zdigits2 m - n - 1)) by (apply Z.pow_pos_nonneg; lia). lia.
Qed.

Lemma Zdigits2_div_zero m n : 0 <= m -> Zdigits2 m <= n -> m / 2 ^ n = 0.
Proof.
  intros Hm Hn. destruct (Z.eq_dec m 0) as [->|]; [by rewrite Zdiv_0_l|].
  apply Z.div_small. pose proof (Zdigits2_bounds m ltac:(lia)) as [_ ?]. split; [done|].
  eapply Z.lt_le_trans; [eassumption|]. apply Z.pow_le_mono_r; lia.
Qed.

(** ** Right shifts *)
Lemma shr_1_m mrs : 0 <= shr_m mrs -> shr_m (shr_1 mrs) = shr_m mrs / 2.
Proof.
  destruct mrs as [m r s]. simpl. intros Hm.
  destruct m as [|[p|p|]|]; simpl; try done; try lia.
  - apply (Z.div_unique _ _ _ 1); lia.
  - apply (Z.div_unique _ _ _ 0); lia.
Qed.

Lemma iter_shr_m n mrs :
  0 <= shr_m mrs -> shr_m (SpecFloat.iter_pos shr_1 n mrs) = shr_m mrs / 2 ^ Z.pos n.
Proof.
  revert mrs. induction n as [n IH|n IH|]; intros mrs Hm; cbn [SpecFloat.iter_pos].
  - assert (0 <= shr_m (shr_1 mrs)) by (rewrite shr_1_m by done; apply Z.div_pos; lia).
    rewrite IH; rewrite IH; [|done|apply Z.div_pos; lia|done].
    rewrite shr_1_m by done. rewrite !Z.div_div by lia. f_equal.
    rewrite <- Z.pow_add_r by lia. change 2 with (2 ^ 1) at 1.
    rewrite <- !Z.pow_add_r by lia. f_equal. lia.
  - rewrite IH; rewrite IH; [|done|apply Z.div_pos; lia|done].
    rewrite !Z.div_div by lia. f_equal.
    rewrite <- Z.pow_add_r by lia. f_equal. lia.
  - by rewrite shr_1_m.
Qed.

Section Round.
Context (prec emax : Z) (Hprec : 0 < prec).
Abbreviation fexp := (SpecFloat.fexp prec emax).
Abbreviation emin := (SpecFloat.emin prec emax).

Lemma shr_record_of_loc_m m l : shr_m (shr_record_of_loc m l) = m.
Proof. by destruct l as [|[]]. Qed.

Lemma shr_fexp_spec m e l :
  0 <= m ->
  shr_m (shr_fexp prec emax m e l).1 = m / 2 ^ Z.max 0 (fexp (Zdigits2 m + e) - e) /\
  (shr_fexp prec emax m e l).2 = e + Z.max 0 (fexp (Zdigits2 m + e) - e).
Proof.
  intros Hm. unfold shr_fexp, shr.
  destruct (fexp (Zdigits2 m + e) - e) as [|n|n] eqn:E; cbn [fst snd].
  - rewrite shr_record_of_loc_m. simpl. rewrite Z.div_1_r. lia.
  - rewrite iter_shr_m; rewrite shr_record_of_loc_m; [|done].
    rewrite Z.max_r by lia. done.
  - rewrite shr_record_of_loc_m. simpl. rewrite Z.div_1_r. lia.
Qed.

(** After the first shift the mantissa is canonical or zero at [emin]. *)
Definition shifted (m e : Z) : Prop :=
  0 <= m /\ emin <= e /\
  (m = 0 /\ e = emin \/ 0 < m /\ fexp (Zdigits2 m + e) = e).

Lemma shr_fexp_shifted m e l :
  0 <= m -> e <= fexp (Zdigits2 m + e) -> (m = 0 -> e <= emin) ->
  shifted (shr_m (shr_fexp prec emax m e l).1) (shr_fexp prec emax m e l).2.
Proof.
  intros Hm He H0. destruct (shr_fexp_spec m e l Hm) as [-> ->].
  rewrite Z.max_r by lia. set (n := fexp _ - e) in *.
  replace (e + n) with (fexp (Zdigits2 m + e)) by lia.
  assert (0 <= m / 2 ^ n) by (apply Z.div_pos; [done|apply Z.pow_pos_nonneg; lia]).
  split_and!; [done|unfold SpecFloat.fexp; lia|].
  destruct (Z.eq_dec m 0) as [->|Hm0].
  { left. rewrite Zdiv_0_l. split; [done|].
    unfold SpecFloat.fexp in *. simpl. lia. }
  destruct (Z.lt_ge_cases n (Zdigits2 m)) as [Hn|Hn].
  - right. assert (0 < m / 2 ^ n).
    { apply Z.div_str_pos. split; [apply Z.pow_pos_nonneg; lia|].
      pose proof (Zdigits2_bounds m). transitivity (2 ^ (Zdigits2 m - 1)); [|lia].
      apply Z.pow_le_mono_r; lia. }
    split; [done|]. rewrite Zdigits2_div by lia.
    replace (Zdigits2 m - n + fexp (Zdigits2 m + e)) with (Zdigits2 m + e) by lia. done.
  - left. rewrite Zdigits2_div_zero by lia. split; [done|].
    unfold SpecFloat.fexp in *. lia.
Qed.

Lemma shifted_succ m e :
  shifted m e -> e <= fexp (Zdigits2 (m + 1) + e) /\
  shifted ((m + 1) / 2 ^ (fexp (Zdigits2 (m + 1) + e) - e)) (fexp (Zdigits2 (m + 1) + e)).
Proof.
  intros (Hm & He & Hs). unfold SpecFloat.fexp in *.
  destruct Hs as [[-> ->]|[Hm0 Hc]].
  { change (Zdigits2 (0 + 1)) with 1. rewrite Z.max_r by lia. split; [lia|].
    replace (emin - emin) with 0 by lia. rewrite Z.div_1_r.
    split_and!; [lia|lia|right]. split; [lia|]. simpl. unfold SpecFloat.fexp. lia. }
  pose proof (Zdigits2_bounds m Hm0) as [Hb1 Hb2]. pose proof (Zdigits2_pos m Hm0).
  destruct (Z.eq_dec (m + 1) (2 ^ Zdigits2 m)) as [Hp|Hp].
  - assert (Zdigits2 (m + 1) = Zdigits2 m + 1) as ->.
    { apply Zdigits2_unique; [lia|lia|]. rewrite Hp. split.
      - apply Z.pow_le_mono_r; lia.
      - apply Z.pow_lt_mono_r; lia. }
    destruct (Z.le_gt_cases (Zdigits2 m + 1 + e - prec) e) as [Hk|Hk].
    + split; [lia|]. replace (Z.max _ _) with e by lia. rewrite Z.sub_diag, Z.div_1_r.
      split_and!; [lia|lia|right]. split; [lia|]. unfold SpecFloat.fexp.
      rewrite (Zdigits2_unique (m + 1) (Zdigits2 m + 1)); [lia|lia|lia|].
      rewrite Hp. split; [apply Z.pow_le_mono_r; lia|apply Z.pow_lt_mono_r; lia].
    + split; [lia|]. assert (Zdigits2 m = prec) as Hd by lia.
      replace (Z.max _ _) with (e + 1) by lia. replace (e + 1 - e) with 1 by lia.
      assert ((m + 1) / 2 ^ 1 = 2 ^ (Zdigits2 m - 1)) as ->.
      { rewrite Hp. replace (Zdigits2 m) with (Zdigits2 m - 1 + 1) at 1 by lia.
        rewrite Z.pow_add_r by lia. apply Z.div_mul. lia. }
      assert (0 < 2 ^ (Zdigits2 m - 1)) by (apply Z.pow_pos_nonneg; lia).
      split_and!; [lia|lia|right]. split; [done|]. unfold SpecFloat.fexp.
      rewrite (Zdigits2_unique _ (Zdigits2 m)); [lia|done|lia|].
      split; [lia|apply Z.pow_lt_mono_r; lia].
  - rewrite (Zdigits2_unique (m + 1) (Zdigits2 m)) by lia.
    split; [lia|]. rewrite Hc, Z.sub_diag, Z.div_1_r.
    split_and!; [lia|lia|right]. split; [lia|]. unfold SpecFloat.fexp.
    by rewrite (Zdigits2_unique (m + 1) (Zdigits2 m)) by lia.
Qed.

(** Rounding a mantissa with enough digits gives a valid number. *)
Lemma round_aux_valid s m e l :
  0 <= m -> e <= fexp (Zdigits2 m + e) -> (m = 0 -> e <= emin) ->
  valid_binary prec emax (binary_round_aux prec emax s m e l) = true.
Proof.
  intros Hm He H0. unfold binary_round_aux.
  pose proof (shr_fexp_shifted m e l Hm He H0) as H1.
  destruct (shr_fexp prec emax m e l) as [mrs1 e1]. cbn [fst snd] in H1.
  set (r := round_nearest_even _ _).
  assert (shifted (r / 2 ^ Z.max 0 (fexp (Zdigits2 r + e1) - e1))
                  (e1 + Z.max 0 (fexp (Zdigits2 r + e1) - e1)) /\ 0 <= r) as [H2 Hr].
  { assert (r = shr_m mrs1 \/ r = shr_m mrs1 + 1) as [-> | ->].
    { unfold r. destruct (loc_of_shr_record mrs1) as [|[]]; simpl; auto.
      destruct (Z.even _); auto. }
    - split; [|by destruct H1]. destruct H1 as (? & ? & [[Hm0 Hem]|[? Hc]]); [rewrite Hm0, Hem|].
      + rewrite Zdiv_0_l.
        replace (_ + _) with emin.
        { split_and!; [lia|lia|by left]. }
        simpl. unfold SpecFloat.fexp. lia.
      + rewrite Hc, Z.sub_diag, Z.div_1_r, Z.add_0_r. split_and!; [done|done|by right].
    - destruct (shifted_succ _ _ H1) as [Hle H2]. rewrite Z.max_r by lia.
      replace (e1 + _) with (fexp (Zdigits2 (shr_m mrs1 + 1) + e1)) by lia.
      split; [done|]. destruct H1; lia. }
  pose proof (shr_fexp_spec r e1 loc_Exact Hr) as [E1 E2].
  destruct (shr_fexp prec emax r e1 loc_Exact) as [mrs2 e2]. cbn [fst snd] in E1, E2.
  rewrite <- E1, <- E2 in H2. destruct H2 as (? & ? & H2).
  destruct (shr_m mrs2) as [|p|p]; [done| |lia].
  destruct H2 as [[? _]|[_ Hc]]; [done|].
  destruct (e2 <=? emax - prec) eqn:Hle; [|done].
  simpl. unfold bounded, canonical_mantissa. rewrite Hle, andb_true_r.
  by apply Z.eqb_eq.
Qed.
End Round.

(** The sign of a number; NaN has none. *)
Definition f_sign (x : spec_float) : option bool :=
  match x with
  | S754_nan => None
  | S754_zero s | S754_infinity s | S754_finite s _ _ => Some s
  end.

Section Ops.
Context (prec emax : Z) (Hprec : 0 < prec) (Hemin : SpecFloat.emin prec emax <= 0).
Abbreviation fexp := (SpecFloat.fexp prec emax).
Abbreviation emin := (SpecFloat.emin prec emax).
Abbreviation valid x := (valid_binary prec emax x = true).

Lemma round_aux_sign s m e l :
  0 <= m -> f_sign (binary_round_aux prec emax s m e l) = Some s.
Proof.
  intros Hm. unfold binary_round_aux.
  pose proof (shr_fexp_spec prec emax m e l Hm) as [E1 _].
  destruct (shr_fexp prec emax m e l) as [mrs1 e1]. cbn [fst snd] in E1.
  assert (0 <= shr_m mrs1) as H1.
  { rewrite E1. apply Z.div_pos; [done|apply Z.pow_pos_nonneg; lia]. }
  set (r := round_nearest_even _ _).
  assert (0 <= r) as Hr.
  { unfold r. destruct (loc_of_shr_record mrs1) as [|[]]; simpl; try done; [|lia].
    destruct (Z.even _); lia. }
  pose proof (shr_fexp_spec prec emax r e1 loc_Exact Hr) as [E2 _].
  destruct (shr_fexp prec emax r e1 loc_Exact) as [mrs2 e2]. cbn [fst snd] in E2.
  assert (0 <= shr_m mrs2) as H2.
  { rewrite E2. apply Z.div_pos; [done|apply Z.pow_pos_nonneg; lia]. }
  destruct (shr_m mrs2); [done| |lia]. by destruct (e2 <=? _).
Qed.

(** Rounding stays in range where the exponent leaves room for a carry. *)
Definition f_inf (x : spec_float) : bool := match x with S754_infinity _ => true | _ => false end.

Lemma Zdigits2_succ m : 0 <= m -> Zdigits2 (m + 1) <= Zdigits2 m + 1.
Proof.
  intros Hm. destruct (Z.eq_dec m 0) as [->|Hne]; [done|].
  pose proof (Zdigits2_bounds m ltac:(lia)) as [_ B1]. pose proof (Zdigits2_pos m ltac:(lia)).
  pose proof (Zdigits2_bounds (m + 1) ltac:(lia)) as [B2 _].
  destruct (Z.le_gt_cases (Zdigits2 (m + 1)) (Zdigits2 m + 1)) as [|Hgt]; [done|].
  assert (2 ^ (Zdigits2 m + 1) <= 2 ^ (Zdigits2 (m + 1) - 1)) by (apply Z.pow_le_mono_r; lia).
  rewrite Z.pow_add_r in * by lia. lia.
Qed.

Lemma round_aux_finite s m e l :
  0 <= m -> emin <= emax - prec -> e <= emax - prec -> Zdigits2 m + e < emax ->
  f_inf (binary_round_aux prec emax s m e l) = false.
Proof.
  intros Hm Hmin He Hd. unfold binary_round_aux.
  pose proof (shr_fexp_spec prec emax m e l Hm) as [E1 E1'].
  destruct (shr_fexp prec emax m e l) as [mrs1 e1]. cbn [fst snd] in E1, E1'.
  set (n := Z.max 0 (fexp (Zdigits2 m + e) - e)) in *.
  assert (0 <= shr_m mrs1) as H1.
  { rewrite E1. apply Z.div_pos; [done|apply Z.pow_pos_nonneg; lia]. }
  assert (e1 <= emax - prec) as He1 by (unfold SpecFloat.fexp in *; lia).
  assert (Zdigits2 (shr_m mrs1) + e1 < emax) as Hd1.
  { destruct (Z.eq_dec m 0) as [->|Hm0].
    { rewrite E1, Zdiv_0_l. simpl. lia. }
    destruct (Z.lt_ge_cases n (Zdigits2 m)).
    - rewrite E1, Zdigits2_div by lia. lia.
    - rewrite E1, Zdigits2_div_zero by lia. simpl. lia. }
  set (r := round_nearest_even _ _).
  assert (0 <= r <= shr_m mrs1 + 1 /\ Zdigits2 r <= Zdigits2 (shr_m mrs1) + 1) as [Hr Hdr].
  { pose proof (Zdigits2_succ _ H1).
    assert (r = shr_m mrs1 \/ r = shr_m mrs1 + 1) as [-> | ->]; [|lia..].
    unfold r. destruct (loc_of_shr_record mrs1) as [|[]]; simpl; auto. destruct (Z.even _); auto. }
  pose proof (shr_fexp_spec prec emax r e1 loc_Exact ltac:(lia)) as [E2 E2'].
  destruct (shr_fexp prec emax r e1 loc_Exact) as [mrs2 e2]. cbn [fst snd] in E2, E2'.
  assert (e2 <= emax - prec) as He2 by (unfold SpecFloat.fexp in *; lia).
  destruct (shr_m mrs2); [done| |done]. by rewrite (proj2 (Z.leb_le _ _) He2).
Qed.

Lemma canonical_digits m e :
  bounded prec emax m e = true ->
  emin <= e /\ (e = emin \/ Z.pos (digits2_pos m) = prec) /\ Z.pos (digits2_pos m) <= prec.
Proof.
  unfold bounded, canonical_mantissa. intros [H _]%andb_true_iff.
  apply Z.eqb_eq in H. unfold SpecFloat.fexp in H. lia.
Qed.

Lemma pos_iter_xO m d : Z.pos (Pos.iter xO m d) = Z.pos m * 2 ^ Z.pos d.
Proof.
  induction d as [|d IH] using Pos.peano_ind; [simpl; lia|].
  rewrite Pos.iter_succ, Pos2Z.inj_succ, Z.pow_succ_r by lia.
  rewrite (Pos2Z.inj_xO (Pos.iter xO m d)), IH. lia.
Qed.

Lemma Zdigits2_mul_pow m n :
  0 < m -> 0 <= n -> Zdigits2 (m * 2 ^ n) = Zdigits2 m + n.
Proof.
  intros Hm Hn. pose proof (Zdigits2_bounds m Hm) as [H1 H2].
  pose proof (Zdigits2_pos m Hm). assert (0 < 2 ^ n) by (apply Z.pow_pos_nonneg; lia).
  apply Zdigits2_unique; [nia|lia|].
  replace (Zdigits2 m + n - 1) with (Zdigits2 m - 1 + n) by lia.
  rewrite !Z.pow_add_r by lia. nia.
Qed.

Lemma binary_round_valid s m e : valid (binary_round prec emax s m e).
Proof.
  unfold binary_round, shl_align.
  set (d := Zdigits2 (Z.pos m)). change (Z.pos (digits2_pos m)) with d.
  assert (0 < d) by (apply Zdigits2_pos; lia).
  destruct (fexp (d + e) - e) as [|n|n] eqn:E;
    apply round_aux_valid; try lia; try done.
  - fold d. lia.
  - fold d. lia.
  - rewrite pos_iter_xO, Zdigits2_mul_pow by lia. fold d.
    replace (d + Z.pos n + fexp (d + e)) with (d + e) by lia. done.
Qed.

Lemma binary_round_sign s m e : f_sign (binary_round prec emax s m e) = Some s.
Proof.
  unfold binary_round. destruct (shl_align _ _ _). by apply round_aux_sign.
Qed.

Lemma normalize_valid m e sz : valid (binary_normalize prec emax m e sz).
Proof. destruct m; simpl; [done|apply binary_round_valid..]. Qed.

Lemma normalize_sign m e : 0 <= m -> f_sign (binary_normalize prec emax m e false) = Some false.
Proof. destruct m; simpl; intros; [done|apply binary_round_sign|lia]. Qed.

Lemma normalize_finite m e sz :
  emin <= emax - prec -> e <= emax - prec -> Zdigits2 (Z.abs m) + e < emax ->
  f_inf (binary_normalize prec emax m e sz) = false.
Proof.
  intros Hmin He Hd.
  assert (forall s p, Z.abs m = Z.pos p -> f_inf (binary_round prec emax s p e) = false) as Hp.
  { intros s p Hp. rewrite Hp in Hd. unfold binary_round, shl_align.
    set (d := Zdigits2 (Z.pos p)) in *. change (Z.pos (digits2_pos p)) with d.
    destruct (fexp (d + e) - e) as [|n|n] eqn:E; try by apply round_aux_finite.
    apply round_aux_finite; [lia|done|lia|].
    rewrite pos_iter_xO, Zdigits2_mul_pow by lia. fold d. lia. }
  destruct m; [done|by apply Hp..].
Qed.

Lemma SFadd_valid x y : valid x -> valid y -> valid (SFadd prec emax x y).
Proof.
  destruct x as [[]|[]| |[] m e], y as [[]|[]| |[] m' e']; intros Hx Hy; try done;
    apply normalize_valid.
Qed.

Lemma SFmul_valid x y : valid x -> valid y -> valid (SFmul prec emax x y).
Proof.
  destruct x as [|[]| |s m e], y as [|[]| |s' m' e']; intros Hx Hy; try done.
  apply round_aux_valid; [done..| |done].
  apply canonical_digits in Hx as (Hx1 & Hx2 & Hx3).
  apply canonical_digits in Hy as (Hy1 & Hy2 & Hy3).
  pose proof (digits2_pos_bounds m) as [B1 B2]. pose proof (digits2_pos_bounds m') as [B3 B4].
  set (d := digits2_pos m) in *. set (d' := digits2_pos m') in *.
  assert (Z.pos d - 1 + Z.pos d' <= Zdigits2 (Z.pos (m * m'))) as HD.
  { pose proof (Zdigits2_bounds (Z.pos (m * m')) ltac:(lia)) as [_ HB].
    assert (2 ^ (Z.pos d - 1 + (Z.pos d' - 1)) <= Z.pos (m * m'))
      by (rewrite Z.pow_add_r by lia; nia).
    pose proof (pow2_lt_mono (Z.pos d - 1 + (Z.pos d' - 1)) (Zdigits2 (Z.pos (m * m')))
      (Z.pos (m * m')) ltac:(lia) ltac:(assumption) HB). lia. }
  unfold SpecFloat.fexp. lia.
Qed.

Lemma SFmul_sign x y :
  f_sign x = Some false -> f_sign y = Some false ->
  SFmul prec emax x y <> S754_nan -> f_sign (SFmul prec emax x y) = Some false.
Proof.
  destruct x as [[]|[]| |[] m e], y as [[]|[]| |[] m' e']; intros Hx Hy Hn; try done.
  by apply round_aux_sign.
Qed.

Lemma SFdiv_valid x y : valid x -> valid y -> valid (SFdiv prec emax x y).
Proof.
  destruct x as [|[]| |s m e], y as [|[]| |s' m' e']; intros Hx Hy; try done.
  unfold SFdiv, SFdiv_core_binary.
  set (d := Zdigits2 (Z.pos m)). set (d' := Zdigits2 (Z.pos m')).
  pose proof (Zdigits2_bounds (Z.pos m) ltac:(lia)) as [B1 B2].
  pose proof (Zdigits2_bounds (Z.pos m') ltac:(lia)) as [B3 B4].
  fold d in B1, B2. fold d' in B3, B4.
  assert (0 < d) by (apply Zdigits2_pos; lia). assert (0 < d') by (apply Zdigits2_pos; lia).
  set (e0 := Z.min (fexp (d + e - (d' + e'))) (e - e')).
  assert (0 <= e - e' - e0) as Hs by lia.
  assert (match e - e' - e0 with Z0 => Z.pos m | Z.pos _ => Z.shiftl (Z.pos m) (e - e' - e0)
          | Z.neg _ => 0 end = Z.pos m * 2 ^ (e - e' - e0)) as ->.
  { rewrite <- Z.shiftl_mul_pow2 by done. destruct (e - e' - e0); [done|done|lia]. }
  pose proof (Z_div_mod (Z.pos m * 2 ^ (e - e' - e0)) (Z.pos m') ltac:(lia)) as Hdiv.
  destruct (Z.div_eucl _ _) as [q r]. destruct Hdiv as [Hq Hr].
  assert (0 < 2 ^ (e - e' - e0)) by (apply Z.pow_pos_nonneg; lia).
  assert (0 <= q) as Hq0 by nia.
  assert (d + (e - e' - e0) - d' <= Zdigits2 q \/ q = 0 /\ d + (e - e' - e0) - d' <= 0) as HD.
  { destruct (Z.eq_dec q 0) as [->|Hq1].
    - right. split; [done|].
      assert (2 ^ (d - 1 + (e - e' - e0)) <= r) by (rewrite Z.pow_add_r by lia; nia).
      pose proof (pow2_lt_mono (d - 1 + (e - e' - e0)) d' r ltac:(lia)). lia.
    - left. pose proof (Zdigits2_bounds q ltac:(lia)) as [_ HB].
      assert (0 < Zdigits2 q) by (apply Zdigits2_pos; lia).
      assert (2 ^ (d - 1 + (e - e' - e0)) <= Z.pos m * 2 ^ (e - e' - e0))
        by (rewrite Z.pow_add_r by lia; nia).
      assert (Z.pos m * 2 ^ (e - e' - e0) < 2 ^ (d' + Zdigits2 q)).
      { rewrite Z.pow_add_r by lia. nia. }
      pose proof (pow2_lt_mono (d - 1 + (e - e' - e0)) (d' + Zdigits2 q) _ ltac:(lia)
        H3 H4). lia. }
  apply round_aux_valid; [done|done| |]; unfold SpecFloat.fexp in *.
  - destruct HD as [HD|[-> HD]]; [lia|]. simpl. lia.
  - intros ->. simpl in HD. lia.
Qed.

Lemma SFdiv_sign x y :
  f_sign x = Some false -> f_sign y = Some false ->
  SFdiv prec emax x y <> S754_nan -> f_sign (SFdiv prec emax x y) = Some false.
Proof.
  destruct x as [[]|[]| |[] m e], y as [[]|[]| |[] m' e']; intros Hx Hy Hn; try done.
  unfold SFdiv in *. destruct (SFdiv_core_binary _ _ _ _ _ _) as [[q e0] l] eqn:E.
  apply round_aux_sign.
  unfold SFdiv_core_binary in E.
  match goal with H : context [Z.div_eucl ?a ?b] |- _ =>
    assert (0 <= a) by (repeat case_match; try lia; apply Z.shiftl_nonneg; lia);
    pose proof (Z_div_mod a b ltac:(lia)) as Hdiv; destruct (Z.div_eucl a b) as [q' r'] end.
  simplify_eq. nia.
Qed.
End Ops.

(** ** Bit patterns of [f32] *)
Definition f32_to_bits (x : f32) : Z :=
  match x with
  | S754_zero s => if s then 2 ^ 31 else 0
  | S754_infinity s => (if s then 2 ^ 31 else 0) + 255 * 2 ^ 23
  | S754_nan => 255 * 2 ^ 23 + 2 ^ 22
  | S754_finite s m e => (if s then 2 ^ 31 else 0) + (e + 149) * 2 ^ 23 + Z.pos m
  end.

Definition f32_from_bits (z : Z) : f32 :=
  let s := 2 ^ 31 <=? z in
  let ex := z `mod` 2 ^ 31 / 2 ^ 23 in
  let fr := z `mod` 2 ^ 23 in
  if ex =? 255 then (if fr =? 0 then S754_infinity s else S754_nan)
  else if ex =? 0 then
    match fr with Z.pos m => S754_finite s m (-149) | _ => S754_zero s end
  else match fr + 2 ^ 23 with Z.pos m => S754_finite s m (ex - 150) | _ => S754_nan end.

Definition f32_to_le (x : f32) : bytes := u32_le (f32_to_bits x).
Definition f32_from_le (bs : bytes) : f32 := f32_from_bits (from_le bs).

Definition f32_valid (x : f32) : Prop := valid_binary 24 128 x = true.

Lemma f32_finite_bounds s m e :
  f32_valid (S754_finite s m e) ->
  -149 <= e <= 104 /\ Z.pos m < 2 ^ 24 /\ (e = -149 \/ 2 ^ 23 <= Z.pos m).
Proof.
  intros H. pose proof H as H'. apply (canonical_digits 24 128) in H as (H1 & H2 & H3).
  unfold f32_valid in H'. simpl in H'. apply andb_true_iff in H' as [_ H4%Z.leb_le].
  change (emin 24 128) with (-149) in *.
  pose proof (digits2_pos_bounds m) as [B1 B2].
  assert (2 ^ Z.pos (digits2_pos m) <= 2 ^ 24) by (apply Z.pow_le_mono_r; lia).
  split_and!; [lia|lia|lia|].
  destruct H2 as [->| H2]; [by left|right]. rewrite H2 in B1. exact B1.
Qed.

Lemma f32_to_bits_range x : f32_valid x -> in_width 32 (f32_to_bits x).
Proof.
  intros H. unfold in_width. destruct x as [[]|[]| |s m e]; simpl; try lia.
  apply f32_finite_bounds in H. change (Z.pow_pos 2 23) with 8388608.
  change (2 ^ 24) with 16777216 in H. change (2 ^ 23) with 8388608 in H.
  destruct s; simpl; lia.
Qed.

Lemma f32_from_to_bits x : f32_valid x -> f32_from_bits (f32_to_bits x) = x.
Proof.
  destruct x as [[]|[]| |s m e]; intros H; try reflexivity.
  apply f32_finite_bounds in H as ([He1 He2] & Hm & Hc).
  change (2 ^ 24) with 16777216 in Hm. change (2 ^ 23) with 8388608 in Hc.
  unfold f32_from_bits, f32_to_bits.
  set (w := (e + 149) * 2 ^ 23 + Z.pos m).
  assert (0 < w < 255 * 8388608) as Hw by (unfold w; change (2 ^ 23) with 8388608; lia).
  assert ((2 ^ 31 <=? (if s then 2 ^ 31 else 0) + (e + 149) * 2 ^ 23 + Z.pos m) = s) as ->.
  { rewrite <- Z.add_assoc. fold w. destruct s; [apply Z.leb_le|apply Z.leb_gt]; lia. }
  assert (((if s then 2 ^ 31 else 0) + (e + 149) * 2 ^ 23 + Z.pos m) `mod` 2 ^ 31 = w) as ->.
  { rewrite <- Z.add_assoc. fold w. symmetry.
    apply (Z.mod_unique _ _ (if s then 1 else 0)); destruct s; lia. }
  assert (((if s then 2 ^ 31 else 0) + (e + 149) * 2 ^ 23 + Z.pos m) `mod` 2 ^ 23
    = Z.pos m `mod` 2 ^ 23) as ->.
  { replace ((if s then 2 ^ 31 else 0) + (e + 149) * 2 ^ 23 + Z.pos m)
      with (Z.pos m + ((if s then 2 ^ 8 else 0) + (e + 149)) * 2 ^ 23)
      by (destruct s; lia). apply Z_mod_plus_full. }
  assert (w / 2 ^ 23 < 255) by (apply Z.div_lt_upper_bound; lia).
  destruct (Z.eqb_spec (w / 2 ^ 23) 255); [lia|].
  destruct (Z.lt_ge_cases (Z.pos m) (2 ^ 23)) as [Hs|Hs].
  - assert (e = -149) as -> by (change (2 ^ 23) with 8388608 in Hs; lia).
    rewrite (Z.div_small w) by (unfold w; lia).
    rewrite Z.mod_small by lia. simpl. done.
  - assert (w / 2 ^ 23 = e + 150) as ->.
    { symmetry. apply (Z.div_unique _ _ _ (Z.pos m - 2 ^ 23)); unfold w; lia. }
    destruct (Z.eqb_spec (e + 150) 0); [lia|].
    assert (Z.pos m `mod` 2 ^ 23 = Z.pos m - 2 ^ 23) as ->.
    { symmetry. apply (Z.mod_unique _ _ 1); lia. }
    replace (Z.pos m - 2 ^ 23 + 2 ^ 23) with (Z.pos m) by lia.
    f_equal; lia.
Qed.

Lemma f32_from_to_le x : f32_valid x -> f32_from_le (f32_to_le x) = x.
Proof.
  intros H. unfold f32_from_le, f32_to_le.
  rewrite from_u32_le by by apply f32_to_bits_range. by apply f32_from_to_bits.
Qed.

(** Non-negative numbers are ordered like their bit patterns. *)
Lemma f32_bits_cmp x y :
  f32_valid x -> f32_valid y -> f_sign x = Some false -> f_sign y = Some false ->
  Z.compare (f32_to_bits x) (f32_to_bits y) = f_cmp x y.
Proof.
  intros Hx Hy Sx Sy.
  destruct x as [[]|[]| |[] m e], y as [[]|[]| |[] m' e']; try done.
  - apply f32_finite_bounds in Hy. unfold f_cmp, f32_to_bits. cbn [SFcompare].
    apply Z.compare_lt_iff. change (2 ^ 23) with 8388608. lia.
  - apply f32_finite_bounds in Hy. unfold f_cmp, f32_to_bits. cbn [SFcompare].
    apply Z.compare_gt_iff. change (2 ^ 23) with 8388608.
    change (2 ^ 24) with 16777216 in Hy. lia.
  - apply f32_finite_bounds in Hx. unfold f_cmp, f32_to_bits. cbn [SFcompare].
    apply Z.compare_gt_iff. change (2 ^ 23) with 8388608. lia.
  - apply f32_finite_bounds in Hx. unfold f_cmp, f32_to_bits. cbn [SFcompare].
    apply Z.compare_lt_iff. change (2 ^ 23) with 8388608.
    change (2 ^ 24) with 16777216 in Hx. lia.
  - apply f32_finite_bounds in Hx. apply f32_finite_bounds in Hy.
    rewrite f_cmp_key by done. unfold f32_to_bits, f_key, lex3. rewrite Z.compare_refl. cbn [then_with].
    change (2 ^ 23) with 8388608.
    change (2 ^ 24) with 16777216 in *. change (2 ^ 23) with 8388608 in *.
    destruct (Z.compare_spec e e') as [->|He|He]; cbn [then_with].
    + destruct (Z.compare_spec (Z.pos m) (Z.pos m')); cbn [then_with].
      * apply Z.compare_eq_iff. lia.
      * apply Z.compare_lt_iff. lia.
      * apply Z.compare_gt_iff. lia.
    + apply Z.compare_lt_iff. lia.
    + apply Z.compare_gt_iff. lia.
Qed.

Lemma f_sign_not_nan x s : f_sign x = Some s -> f_nan x = false.
Proof. by destruct x. Qed.

(** Validity of the [f32] operations. *)
Lemma f32_of_Z_valid z : f32_valid (f32_of_Z z).
Proof. apply normalize_valid; lia. Qed.
Lemma f32_add_valid x y : f32_valid x -> f32_valid y -> f32_valid (f32_add x y).
Proof. apply SFadd_valid; lia. Qed.
Lemma f32_mul_valid x y : f32_valid x -> f32_valid y -> f32_valid (f32_mul x y).
Proof. apply SFmul_valid; done. Qed.
Lemma f32_div_valid x y : f32_valid x -> f32_valid y -> f32_valid (f32_div x y).
Proof. apply SFdiv_valid; done. Qed.
Lemma f_max_valid x y : f32_valid x -> f32_valid y -> f32_valid (f_max x y).
Proof. unfold f_max. intros. repeat case_match; done. Qed.

(** Counters divide without NaN. *)
Lemma f32_of_Z_finite z : 0 <= z < 2 ^ 64 -> f_inf (f32_of_Z z) = false.
Proof.
  intros [H0 H1]. apply normalize_finite; [done|by vm_compute|by vm_compute|]. rewrite Z.abs_eq by done.
  destruct (Z.eq_dec z 0) as [->|]; [done|].
  pose proof (Zdigits2_bounds z ltac:(lia)) as [B _].
  assert (Zdigits2 z - 1 < 64); [|lia]. apply (Z.pow_lt_mono_r_iff 2); lia.
Qed.

Lemma SFdiv_no_nan x y :
  f_sign x = Some false -> f_inf x = false -> (exists s m e, y = S754_finite s m e) ->
  f_nan (f32_div x y) = false.
Proof.
  intros Hx Hi (s & m & e & ->). unfold f32_div, SFdiv. destruct x as [|[]| |[] m1 e1]; try done.
  destruct (SFdiv_core_binary _ _ _ _ _ _) as [[q e0] l] eqn:E.
  eapply f_sign_not_nan, round_aux_sign. unfold SFdiv_core_binary in E.
  match goal with H : context [Z.div_eucl ?a ?b] |- _ =>
    assert (0 <= a) by (repeat case_match; try lia; apply Z.shiftl_nonneg; lia);
    pose proof (Z_div_mod a b ltac:(lia)) as Hdiv; destruct (Z.div_eucl a b) as [q' r'] end.
  simplify_eq. nia.
Qed.

#[export] Hint Resolve f32_of_Z_valid f32_add_valid f32_mul_valid f32_div_valid
  f_max_valid : zearch.

(** ** Lower bounds through rounding

    [f_lb K n a x]: the number [n * 2^a] is at most [x]; [K] scales both sides
    to integers. *)
Definition f_lb (K n a : Z) (x : spec_float) : Prop :=
  match x with
  | S754_finite false m e => 0 <= e + K /\ n * 2 ^ (a + K) <= Z.pos m * 2 ^ (e + K)
  | S754_infinity false => True
  | S754_zero _ => n <= 0
  | _ => False
  end.

Section LowerBound.
Context (prec emax : Z) (Hprec : 0 < prec).
Abbreviation fexp := (SpecFloat.fexp prec emax).
Abbreviation emin := (SpecFloat.emin prec emax).
Context (K n a : Z) (Hn : 0 <= n < 2 ^ prec) (Ha : emin <= a) (HK : 0 <= a + K).

Lemma shr_fexp_lb m e l :
  0 <= m -> 0 <= e + K -> n * 2 ^ (a + K) <= m * 2 ^ (e + K) ->
  let r := shr_fexp prec emax m e l in
  0 <= r.2 + K /\ n * 2 ^ (a + K) <= shr_m r.1 * 2 ^ (r.2 + K).
Proof.
  intros Hm He Hle r. unfold r. destruct (shr_fexp_spec prec emax m e l Hm) as [-> ->].
  set (s := Z.max 0 (fexp (Zdigits2 m + e) - e)). assert (0 <= s) by lia.
  split; [lia|].
  destruct (Z.eq_dec s 0) as [->|Hs0].
  { rewrite Z.div_1_r, Z.add_0_r. done. }
  destruct (Z.le_gt_cases (e + s) a) as [Hc|Hc].
  - replace (a + K) with (a - (e + s) + (e + s + K)) by lia.
    rewrite (Z.pow_add_r 2 (a - (e + s))) by lia. rewrite Z.mul_assoc.
    apply Z.mul_le_mono_nonneg_r; [apply Z.pow_nonneg; lia|].
    apply Z.div_le_lower_bound; [apply Z.pow_pos_nonneg; lia|].
    apply (Z.mul_le_mono_pos_r _ _ (2 ^ (e + K))); [apply Z.pow_pos_nonneg; lia|].
    etransitivity; [|exact Hle]. apply Z.eq_le_incl.
    assert (2 ^ (a + K) = 2 ^ s * 2 ^ (a - (e + s)) * 2 ^ (e + K)) as ->; [|ring].
    rewrite <- !Z.pow_add_r by lia. f_equal. lia.
  - assert (s = Zdigits2 m - prec) as Hs by (unfold s, SpecFloat.fexp in *; lia).
    assert (0 < m) as Hm0.
    { destruct (Z.eq_dec m 0) as [->|]; [|lia]. simpl in Hs. lia. }
    assert (2 ^ (prec - 1) <= m / 2 ^ s) as Hq.
    { pose proof (Zdigits2_div m s Hm0 ltac:(lia)) as Hd.
      assert (0 < m / 2 ^ s) as Hp.
      { apply Z.div_str_pos. split; [apply Z.pow_pos_nonneg; lia|].
        pose proof (Zdigits2_bounds m Hm0). transitivity (2 ^ (Zdigits2 m - 1)); [|lia].
        apply Z.pow_le_mono_r; lia. }
      pose proof (Zdigits2_bounds _ Hp) as [HB _]. rewrite Hd, Hs in HB.
      replace (Zdigits2 m - (Zdigits2 m - prec) - 1) with (prec - 1) in HB by lia.
      by rewrite Hs. }
    transitivity (2 ^ prec * 2 ^ (a + K)).
    { apply Z.mul_le_mono_nonneg_r; [apply Z.pow_nonneg; lia|lia]. }
    transitivity (2 ^ (prec - 1) * 2 ^ (e + s + K)).
    { rewrite <- !Z.pow_add_r by lia. apply Z.pow_le_mono_r; lia. }
    apply Z.mul_le_mono_nonneg_r; [apply Z.pow_nonneg; lia|done].
Qed.

Lemma round_aux_lb m e l :
  0 <= m -> 0 <= e + K -> n * 2 ^ (a + K) <= m * 2 ^ (e + K) ->
  f_lb K n a (binary_round_aux prec emax false m e l).
Proof.
  intros Hm He Hle. unfold binary_round_aux.
  pose proof (shr_fexp_lb m e l Hm He Hle) as [H1 H2].
  pose proof (shr_fexp_spec prec emax m e l Hm) as [E1 _].
  destruct (shr_fexp prec emax m e l) as [mrs1 e1]. cbn [fst snd] in *.
  assert (0 <= shr_m mrs1) as Hm1.
  { rewrite E1. apply Z.div_pos; [done|apply Z.pow_pos_nonneg; lia]. }
  set (r := round_nearest_even _ _).
  assert (shr_m mrs1 <= r) as Hr.
  { unfold r. destruct (loc_of_shr_record mrs1) as [|[]]; simpl; try lia.
    destruct (Z.even _); lia. }
  assert (n * 2 ^ (a + K) <= r * 2 ^ (e1 + K)) as H3.
  { etransitivity; [exact H2|]. apply Z.mul_le_mono_nonneg_r; [apply Z.pow_nonneg; lia|done]. }
  pose proof (shr_fexp_lb r e1 loc_Exact ltac:(lia) H1 H3) as [H4 H5].
  pose proof (shr_fexp_spec prec emax r e1 loc_Exact ltac:(lia)) as [E2 _].
  destruct (shr_fexp prec emax r e1 loc_Exact) as [mrs2 e2]. cbn [fst snd] in *.
  assert (0 <= shr_m mrs2) as Hm2.
  { rewrite E2. apply Z.div_pos; [lia|apply Z.pow_pos_nonneg; lia]. }
  destruct (shr_m mrs2) as [|p|p]; [|by destruct (e2 <=? _)|lia].
  simpl. assert (0 < 2 ^ (a + K)) by (apply Z.pow_pos_nonneg; lia). nia.
Qed.

End LowerBound.

(** A positive counter is a finite number, and not zero. *)
Lemma f32_of_Z_pos z : 0 < z < 2 ^ 64 -> exists s m e, f32_of_Z z = S754_finite s m e.
Proof.
  intros [H0 H1]. pose proof (f32_of_Z_finite z ltac:(lia)) as Hinf.
  pose proof (normalize_sign 24 128 z 0 ltac:(lia)) as Hsign. fold (f32_of_Z z) in Hsign.
  assert (exists K, f_lb K 1 0 (f32_of_Z z)) as [K Hlb].
  { destruct z as [|p|p]; [done| |done]. unfold f32_of_Z. cbn [binary_normalize].
    unfold binary_round, shl_align. set (d := Zdigits2 (Z.pos p)). change (Z.pos (digits2_pos p)) with d.
    assert (0 < d) by (apply Zdigits2_pos; lia).
    destruct (SpecFloat.fexp 24 128 (d + 0) - 0) as [|n|n] eqn:E.
    - exists 0. apply round_aux_lb; try lia; by vm_compute.
    - exists 0. apply round_aux_lb; try lia; by vm_compute.
    - exists (Z.pos n). apply round_aux_lb; try lia; try (by vm_compute).
      rewrite pos_iter_xO. replace (SpecFloat.fexp 24 128 (d + 0) + Z.pos n) with 0 by lia.
      rewrite Z.pow_0_r, Z.mul_1_r, Z.mul_1_l, Z.add_0_l. assert (0 < 2 ^ Z.pos n) by (apply Z.pow_pos_nonneg; lia). nia. }
  destruct (f32_of_Z z) as [s0|s0| |s0 m e]; [cbn in Hlb; lia|done|done|by exists s0, m, e].
Qed.

Section DivisionLowerBound.
Context (prec emax : Z) (Hprec : 0 < prec).
Abbreviation fexp := (SpecFloat.fexp prec emax).
Abbreviation emin := (SpecFloat.emin prec emax).
Context (K n : Z) (Hn : 0 <= n < 2 ^ prec) (HK : 0 <= K).

(** If [n * y <= x] then [n] is a lower bound of the rounded [x / y]. *)
Lemma SFdiv_lb m1 e1 m2 e2 :
  0 <= e1 - e2 + K -> 0 <= e2 + K + K ->
  0 <= Z.min (fexp (Zdigits2 (Z.pos m1) + e1 - (Zdigits2 (Z.pos m2) + e2))) (e1 - e2) + K ->
  n * Z.pos m2 * 2 ^ (e2 + K + K) <= Z.pos m1 * 2 ^ (e1 + K + K) ->
  emin <= 0 -> 0 <= e1 + K + K ->
  f_lb K n 0 (SFdiv prec emax (S754_finite false m1 e1) (S754_finite false m2 e2)).
Proof.
  intros Hd He2 HeK Hle Hem He1. unfold SFdiv, SFdiv_core_binary.
  set (d1 := Zdigits2 (Z.pos m1)) in *. set (d2 := Zdigits2 (Z.pos m2)) in *.
  set (e0 := Z.min (fexp (d1 + e1 - (d2 + e2))) (e1 - e2)) in *.
  assert (0 <= e1 - e2 - e0) as Hs by lia.
  assert (match e1 - e2 - e0 with Z0 => Z.pos m1 | Z.pos _ => Z.shiftl (Z.pos m1) (e1 - e2 - e0)
          | Z.neg _ => 0 end = Z.pos m1 * 2 ^ (e1 - e2 - e0)) as ->.
  { rewrite <- Z.shiftl_mul_pow2 by done. destruct (e1 - e2 - e0); [done|done|lia]. }
  pose proof (Z_div_mod (Z.pos m1 * 2 ^ (e1 - e2 - e0)) (Z.pos m2) ltac:(lia)) as Hdiv.
  destruct (Z.div_eucl _ _) as [q r]. destruct Hdiv as [Hq Hr].
  assert (0 < 2 ^ (e1 - e2 - e0)) by (apply Z.pow_pos_nonneg; lia).
  assert (0 <= q) as Hq0 by nia.
  change (xorb false false) with false. apply round_aux_lb; [done|done|lia|lia|done|lia|].
  destruct (Z.le_gt_cases e0 0) as [Hc|Hc].
  - assert (n * 2 ^ (- e0) <= q) as HN.
    { assert (n * 2 ^ (- e0) * Z.pos m2 <= Z.pos m1 * 2 ^ (e1 - e2 - e0)) as HX.
      { apply (Z.mul_le_mono_pos_r _ _ (2 ^ (e2 + K + K))); [apply Z.pow_pos_nonneg; lia|].
        replace (Z.pos m1 * 2 ^ (e1 - e2 - e0) * 2 ^ (e2 + K + K))
          with (Z.pos m1 * 2 ^ (e1 + K + K) * 2 ^ (- e0)).
        - replace (n * 2 ^ (- e0) * Z.pos m2 * 2 ^ (e2 + K + K))
            with (n * Z.pos m2 * 2 ^ (e2 + K + K) * 2 ^ (- e0)) by ring.
          apply Z.mul_le_mono_nonneg_r; [apply Z.pow_nonneg; lia|done].
        - rewrite <- !Z.mul_assoc. f_equal. rewrite <- !Z.pow_add_r by lia. f_equal. lia. }
      nia. }
    rewrite Z.add_0_l. replace (2 ^ K) with (2 ^ (- e0) * 2 ^ (e0 + K))
      by (rewrite <- Z.pow_add_r by lia; f_equal; lia).
    rewrite Z.mul_assoc. apply Z.mul_le_mono_nonneg_r; [apply Z.pow_nonneg; lia|done].
  - pose proof (Zdigits2_bounds (Z.pos m1) ltac:(lia)) as [B1 _].
    pose proof (Zdigits2_bounds (Z.pos m2) ltac:(lia)) as [_ B2].
    fold d1 in B1. fold d2 in B2.
    assert (0 < d1) by (apply Zdigits2_pos; lia). assert (0 < d2) by (apply Zdigits2_pos; lia).
    assert (2 ^ (prec - 1) <= q) as Hqb.
    { assert (2 ^ (d1 - 1 + (e1 - e2 - e0)) <= Z.pos m1 * 2 ^ (e1 - e2 - e0))
        by (rewrite Z.pow_add_r by lia; nia).
      assert (prec + d2 <= d1 + (e1 - e2 - e0)) by (unfold SpecFloat.fexp in *; lia).
      assert (2 ^ (prec - 1) * 2 ^ d2 <= 2 ^ (d1 - 1 + (e1 - e2 - e0))).
      { rewrite <- Z.pow_add_r by lia. apply Z.pow_le_mono_r; lia. }
      assert (0 < 2 ^ (prec - 1)) by (apply Z.pow_pos_nonneg; lia).
      assert (0 < 2 ^ d2) by (apply Z.pow_pos_nonneg; lia). nia. }
    transitivity (2 ^ prec * 2 ^ K).
    { rewrite Z.add_0_l. apply Z.mul_le_mono_nonneg_r; [apply Z.pow_nonneg; lia|lia]. }
    transitivity (2 ^ (prec - 1) * 2 ^ (e0 + K)).
    { rewrite <- !Z.pow_add_r by lia. apply Z.pow_le_mono_r; lia. }
    apply Z.mul_le_mono_nonneg_r; [apply Z.pow_nonneg; lia|done].
Qed.
End DivisionLowerBound.

(** An integer of at most 53 bits is exact in [f64]. *)
Lemma f64_of_Z_exact z :
  0 < z < 2 ^ 53 ->
  exists m e, f64_of_Z z = S754_finite false m e /\ -52 <= e <= 0 /\ Z.pos m = z * 2 ^ (- e).
Proof.
  intros Hz. destruct z as [|p|]; try lia.
  pose proof (digits2_pos_bounds p) as [B1 B2].
  set (d := Z.pos (digits2_pos p)) in *. assert (1 <= d) by (unfold d; lia).
  assert (d - 1 < 53) by (apply (pow2_lt_mono _ _ (Z.pos p)); [lia|done|apply Hz]).
  set (m := Z.to_pos (Z.pos p * 2 ^ (53 - d))).
  assert (0 < 2 ^ (53 - d)) by (apply Z.pow_pos_nonneg; lia).
  assert (Z.pos m = Z.pos p * 2 ^ (53 - d)) as Hm by (unfold m; rewrite Z2Pos.id; lia).
  exists m, (d - 53). split_and!; [|lia|lia|by replace (- (d - 53)) with (53 - d) by lia].
  unfold f64_of_Z, binary_normalize, binary_round. fold d.
  assert (fexp 53 1024 (d + 0) = d - 53) as -> by (unfold fexp, emin; lia).
  assert (shl_align p 0 (d - 53) = (m, d - 53)) as ->.
  { unfold shl_align. destruct (d - 53 - 0) as [|q|q] eqn:E; [|lia|].
    - f_equal; [|lia]. apply Pos2Z.inj. rewrite Hm. replace (53 - d) with 0 by lia. lia.
    - f_equal. apply Pos2Z.inj. rewrite pos_iter_xO, Hm. f_equal. f_equal. lia. }
  assert (Zdigits2 (Z.pos m) = 53) as Hdm.
  { rewrite Hm, Zdigits2_mul_pow by lia. change (Zdigits2 (Z.pos p)) with d. lia. }
  assert (forall l, shr_fexp 53 1024 (Z.pos m) (d - 53) l
    = (shr_record_of_loc (Z.pos m) l, d - 53)) as Hshr.
  { intros l. unfold shr_fexp. rewrite Hdm.
    assert (fexp 53 1024 (53 + (d - 53)) - (d - 53) = 0) as -> by (unfold fexp, emin; lia).
    done. }
  unfold binary_round_aux. rewrite Hshr. cbn -[Z.leb shr_fexp]. rewrite Hshr.
  cbn -[Z.leb]. destruct (Z.leb_spec (d - 53) (1024 - 53)); [done|lia].
Qed.

Lemma f64_to_i64_lb K n x :
  0 <= n <= i64_max -> 0 <= K -> f_lb K n 0 x -> n <= f64_to_i64 x.
Proof.
  intros Hn HK. destruct x as [s|[]| |[] m e]; simpl; try done; [intros _; apply Hn|].
  intros [He Hle]. rewrite ?Z.add_0_l in Hle.
  set (v := if 0 <=? e then Z.pos m * 2 ^ e else Z.pos m / 2 ^ (- e)).
  enough (n <= v) by (unfold i64_clamp; lia). unfold v. clear v.
  destruct (Z.leb_spec 0 e) as [He0|He0].
  - apply (Z.mul_le_mono_pos_r _ _ (2 ^ K)); [apply Z.pow_pos_nonneg; lia|].
    rewrite <- Z.mul_assoc, <- Z.pow_add_r by lia. done.
  - apply Z.div_le_lower_bound; [apply Z.pow_pos_nonneg; lia|].
    apply (Z.mul_le_mono_pos_r _ _ (2 ^ (e + K))); [apply Z.pow_pos_nonneg; lia|].
    etransitivity; [|exact Hle]. rewrite (Z.mul_comm _ n), <- Z.mul_assoc, <- Z.pow_add_r by lia.
    by replace (- e + (e + K)) with K by lia.
Qed.

Lemma f32_of_f64_valid x : f32_valid (f32_of_f64 x).
Proof. destruct x as [[]|[]| |s m e]; try done. apply binary_round_valid; lia. Qed.
