(* ===== verification/Types.v ===== *)
(** The shared data of [crates/core]: documents, search requests and
    responses, ranking candidates ([types.rs]), the index schema
    ([schema.rs]) and the error type ([error.rs]). *)
From S2P Require Import Prelude Order Float.

Local Open Scope Z_scope.

(** ** error.rs *)
Inductive Error :=
  | EIo (msg : string)
  | ESerialization (msg : string)
  | EInvalidDocument (msg : string)
  | EInvalidQuery (msg : string)
  | EShard (msg : string)
  | EIndex (msg : string)
  | EWal (msg : string)
  | EGrpc (msg : string)
  | ERanker (msg : string)
  | EConfig (msg : string)
  | ENotFound (id : Z)
  | ETimeout (msg : string)
  | EInternal (msg : string).

#[global] Instance Error_eq_dec : EqDecision Error.
Proof. solve_decision. Defined.

(** [search_core::Result<A>], with the panics of the code that computes it. *)
Abbreviation Result := (outcome Error).

(** ** types.rs: documents *)
Inductive Value :=
  | VString (s : string)
  | VNumber (n : f64)
  | VBool (b : bool)
  | VStringArray (l : list string).

#[global] Instance Value_eq_dec : EqDecision Value.
Proof. solve_decision. Defined.

Record Document := mkDocument {
  doc_id : Z;                           (* u64 *)
  doc_title : string;
  doc_description : string;
  doc_price : f64;
  doc_category : string;
  doc_attributes : gmap string Value;
}.

#[global] Instance Document_eq_dec : EqDecision Document.
Proof. solve_decision. Defined.

(** ** types.rs: search request and response *)
Inductive FilterValue :=
  | FEquality (eq : string)
  | FRange (gte lte : option f64)
  | FMultiValue (in_ : list string).

Inductive SortOrder := Desc | Asc.

#[global] Instance SortOrder_eq_dec : EqDecision SortOrder.
Proof. solve_decision. Defined.
#[global] Instance FilterValue_eq_dec : EqDecision FilterValue.
Proof. solve_decision. Defined.

Record SortSpec := mkSortSpec { ss_field : string; ss_order : SortOrder }.

#[global] Instance SortSpec_eq_dec : EqDecision SortSpec.
Proof. solve_decision. Defined.

Record SearchRequest := mkSearchRequest {
  rq_query : string;
  rq_filters : gmap string FilterValue;
  rq_aggregations : list string;
  rq_sort : option SortSpec;
  rq_offset : Z;                        (* usize *)
  rq_limit : Z;                         (* usize *)
  rq_typo_tolerance : bool;
  rq_language : option string;
  rq_destination_zone : option string;
  rq_include_docs : bool;
}.

Definition default_limit : Z := 20.
Definition default_true : bool := true.

(** [SearchRequest::default()]. *)
Definition SearchRequest_default : SearchRequest := {|
  rq_query := "";
  rq_filters := ∅;
  rq_aggregations := [];
  rq_sort := None;
  rq_offset := 0;
  rq_limit := 20;
  rq_typo_tolerance := true;
  rq_language := None;
  rq_destination_zone := None;
  rq_include_docs := false;
|}.

(** [SortOrder::default()]. *)
Definition SortOrder_default : SortOrder := Desc.

Record SearchHit := mkSearchHit {
  hit_id : Z;
  hit_score : f32;
  hit_document : option Document;
}.

Record AggregationBucket := mkAggregationBucket {
  ab_value : string;
  ab_count : Z;                         (* u64 *)
}.

Inductive RetrievalMode := RmAnd | RmOrFallback.

#[global] Instance RetrievalMode_eq_dec : EqDecision RetrievalMode.
Proof. solve_decision. Defined.

Record SearchResponse := mkSearchResponse {
  rs_hits : list SearchHit;
  rs_total_hits : Z;
  rs_aggregations : gmap string (list AggregationBucket);
  rs_reranked : bool;
  rs_took_ms : Z;
  rs_retrieval_mode : RetrievalMode;
  rs_cache_hit : bool;
}.

(** ** types.rs: ranking *)
Record RankCandidate := mkRankCandidate {
  rc_doc_id : Z;
  rc_bm25_score : f32;
  rc_title : string;
  rc_category : string;
  rc_price : f64;
  rc_attributes : gmap string Value;
}.

Record RankedResult := mkRankedResult { rr_doc_id : Z; rr_score : f32 }.

(** ** schema.rs *)
Inductive FieldType := FtText | FtKeyword | FtNumeric | FtBoolean.
Inductive Language := English | Spanish | Portuguese.
Inductive AnalyzerType := AtStandard (language : Language) | AtKeyword.

#[global] Instance FieldType_eq_dec : EqDecision FieldType.
Proof. solve_decision. Defined.
#[global] Instance Language_eq_dec : EqDecision Language.
Proof. solve_decision. Defined.
#[global] Instance AnalyzerType_eq_dec : EqDecision AnalyzerType.
Proof. solve_decision. Defined.

Record FieldConfig := mkFieldConfig {
  fc_name : string;
  fc_field_type : FieldType;
  fc_indexed : bool;
  fc_stored : bool;
  fc_filterable : bool;
  fc_aggregatable : bool;
  fc_boost : f32;
  fc_analyzer : AnalyzerType;
}.

Record IndexSchema := mkIndexSchema { schema_fields : list FieldConfig }.

(** [IndexSchema::default_product_schema]. *)
Definition default_product_schema : IndexSchema := {|
  schema_fields := [
    {| fc_name := "title"; fc_field_type := FtText; fc_indexed := true;
       fc_stored := true; fc_filterable := false; fc_aggregatable := false;
       fc_boost := f32_of_Z 2; fc_analyzer := AtStandard Spanish |};
    {| fc_name := "description"; fc_field_type := FtText; fc_indexed := true;
       fc_stored := true; fc_filterable := false; fc_aggregatable := false;
       fc_boost := f32_of_Z 1; fc_analyzer := AtStandard Spanish |};
    {| fc_name := "price"; fc_field_type := FtNumeric; fc_indexed := false;
       fc_stored := true; fc_filterable := true; fc_aggregatable := false;
       fc_boost := f_zero; fc_analyzer := AtKeyword |};
    {| fc_name := "category"; fc_field_type := FtKeyword; fc_indexed := false;
       fc_stored := true; fc_filterable := true; fc_aggregatable := true;
       fc_boost := f_zero; fc_analyzer := AtKeyword |}
  ]
|}.

(** The text field a field name selects: the source matches on ["title"] and
    ["description"] and skips every other name. *)
Definition text_of_field (field_name : string) (d : Document) : option string :=
  if bool_decide (field_name = "title") then Some (doc_title d)
  else if bool_decide (field_name = "description") then Some (doc_description d)
  else None.

(** [f.indexed && f.field_type == FieldType::Text]. *)
Definition is_text_field (f : FieldConfig) : bool :=
  fc_indexed f && bool_decide (fc_field_type f = FtText).
