(* ===== verification/Config.v ===== *)
(** Configuration records and their defaults ([crates/core/src/config.rs]).
    Deserialisation itself (serde, clap) is not modelled; the [default = ...]
    functions it uses are. *)
From S2P Require Import Prelude Float Types.

Local Open Scope Z_scope.

Inductive Mode := MRouter | MShard | MStandalone | MSuggest.

#[global] Instance Mode_eq_dec : EqDecision Mode.
Proof. solve_decision. Defined.

Definition default_mode : Mode := MStandalone.

(** ** Telemetry *)
Record TelemetryConfig := mkTelemetryConfig {
  tc_enabled : bool;
  tc_otlp_endpoint : string;
  tc_service_name : string;
  tc_sample_rate : f64;
}.
Definition default_otlp_endpoint : string := "http://otel-collector:4317".
Definition default_service_name : string := "search-engine".
Definition default_sample_rate : f64 := f64_of_Z 1.
Definition TelemetryConfig_default : TelemetryConfig := {|
  tc_enabled := false;
  tc_otlp_endpoint := default_otlp_endpoint;
  tc_service_name := default_service_name;
  tc_sample_rate := default_sample_rate;
|}.

(** ** Circuit breaker *)
Record CircuitBreakerConfig := mkCircuitBreakerConfig {
  cb_enabled : bool;
  cb_failure_threshold : Z;             (* u32 *)
  cb_recovery_ms : Z;                   (* u64 *)
}.
Definition default_cb_threshold : Z := 5.
Definition default_cb_recovery_ms : Z := 10000.
Definition CircuitBreakerConfig_default : CircuitBreakerConfig := {|
  cb_enabled := false;
  cb_failure_threshold := default_cb_threshold;
  cb_recovery_ms := default_cb_recovery_ms;
|}.

(** ** Query cache *)
Record QueryCacheConfig := mkQueryCacheConfig {
  qc_enabled : bool;
  qc_max_entries : Z;
  qc_ttl_seconds : Z;
}.
Definition default_cache_max_entries : Z := 10000.
Definition default_cache_ttl_seconds : Z := 60.
Definition QueryCacheConfig_default : QueryCacheConfig := {|
  qc_enabled := false;
  qc_max_entries := default_cache_max_entries;
  qc_ttl_seconds := default_cache_ttl_seconds;
|}.

(** ** Availability *)
Inductive AvailabilityStrategyType := AsNoop | AsStatic | AsRegionStock.
Record StaticAvailabilityConfig := mkStaticAvailabilityConfig {
  sa_stock_attribute_prefix : string;
  sa_default_available : bool;
  sa_min_stock : f64;
}.
Definition default_stock_prefix : string := "stock_".
Definition default_true_bool : bool := true.
Definition default_min_stock : f64 := f64_of_Z 1.
Definition StaticAvailabilityConfig_default : StaticAvailabilityConfig := {|
  sa_stock_attribute_prefix := default_stock_prefix;
  sa_default_available := true;
  sa_min_stock := default_min_stock;
|}.
Record RegionStockConfig := mkRegionStockConfig {
  rsc_base_url : string;
  rsc_timeout_ms : Z;
}.
Definition default_stock_timeout_ms : Z := 50.
Record AvailabilityConfig := mkAvailabilityConfig {
  av_strategy : AvailabilityStrategyType;
  av_static : option StaticAvailabilityConfig;
  av_region_stock : option RegionStockConfig;
}.
Definition AvailabilityConfig_default : AvailabilityConfig := {|
  av_strategy := AsNoop; av_static := None; av_region_stock := None |}.

(** ** Router *)
Inductive ShardDiscovery := SdStatic | SdDns.
Record ShardGroupConfig := mkShardGroupConfig {
  sg_primary : string;
  sg_replicas : list string;
}.
Definition default_http_port : Z := 8080.
Definition default_discovery : ShardDiscovery := SdStatic.
Definition default_query_timeout_ms : Z := 5000.
Definition default_suggest_write_timeout_ms : Z := 200.
Definition default_suggest_query_timeout_ms : Z := 100.
Record RouterConfig := mkRouterConfig {
  rt_http_port : Z;
  rt_shard_endpoints : list string;
  rt_shards : list ShardGroupConfig;
  rt_shard_discovery : ShardDiscovery;
  rt_dns_service : option string;
  rt_query_timeout_ms : Z;
  rt_availability : AvailabilityConfig;
  rt_cache : QueryCacheConfig;
  rt_circuit_breaker : CircuitBreakerConfig;
  rt_suggest_shards : list string;
  rt_suggest_write_timeout_ms : Z;
  rt_suggest_query_timeout_ms : Z;
}.
Definition RouterConfig_default : RouterConfig := {|
  rt_http_port := default_http_port;
  rt_shard_endpoints := [];
  rt_shards := [];
  rt_shard_discovery := default_discovery;
  rt_dns_service := None;
  rt_query_timeout_ms := default_query_timeout_ms;
  rt_availability := AvailabilityConfig_default;
  rt_cache := QueryCacheConfig_default;
  rt_circuit_breaker := CircuitBreakerConfig_default;
  rt_suggest_shards := [];
  rt_suggest_write_timeout_ms := default_suggest_write_timeout_ms;
  rt_suggest_query_timeout_ms := default_suggest_query_timeout_ms;
|}.

(** ** Shard *)
Inductive ShardRole := Primary | Replica.

#[global] Instance ShardRole_eq_dec : EqDecision ShardRole.
Proof. solve_decision. Defined.

Record ShardConfig := mkShardConfig {
  sc_grpc_port : Z;
  sc_shard_id : Z;
  sc_data_dir : string;
  sc_num_shards : Z;
  sc_write_buffer_size : Z;
  sc_merge_threads : Z;
  sc_role : ShardRole;
  sc_replica_endpoints : list string;
  sc_replica_endpoint_template : option string;
  sc_primary_endpoint : option string;
  sc_primary_endpoint_template : option string;
}.
Definition default_grpc_port : Z := 9001.
Definition default_data_dir : string := "./data".
Definition default_num_shards : Z := 4.
Definition default_write_buffer_size : Z := 64 * 1024 * 1024.
Definition default_merge_threads : Z := 2.
Definition ShardConfig_default : ShardConfig := {|
  sc_grpc_port := default_grpc_port;
  sc_shard_id := 0;
  sc_data_dir := default_data_dir;
  sc_num_shards := default_num_shards;
  sc_write_buffer_size := default_write_buffer_size;
  sc_merge_threads := default_merge_threads;
  sc_role := Primary;
  sc_replica_endpoints := [];
  sc_replica_endpoint_template := None;
  sc_primary_endpoint := None;
  sc_primary_endpoint_template := None;
|}.

(** ** Suggest shard *)
Record SuggestShardConfig := mkSuggestShardConfig {
  su_grpc_port : Z;
  su_shard_id : Z;
  su_num_suggest_shards : Z;
  su_min_doc_frequency : Z;             (* u32 *)
  su_max_terms_per_shard : Z;           (* u32 *)
  su_fields : list string;
}.
Definition default_suggest_grpc_port : Z := 9002.
Definition default_num_suggest_shards : Z := 2.
Definition default_min_doc_frequency : Z := 2.
Definition default_max_terms_per_shard : Z := 50000.
Definition default_suggest_fields : list string := ["title"].
Definition SuggestShardConfig_default : SuggestShardConfig := {|
  su_grpc_port := default_suggest_grpc_port;
  su_shard_id := 0;
  su_num_suggest_shards := default_num_suggest_shards;
  su_min_doc_frequency := default_min_doc_frequency;
  su_max_terms_per_shard := default_max_terms_per_shard;
  su_fields := default_suggest_fields;
|}.

(** ** Ranker *)
Inductive RankerType := RtNone | RtGrpc | RtWasm.

#[global] Instance RankerType_eq_dec : EqDecision RankerType.
Proof. solve_decision. Defined.

Record RankerConfig := mkRankerConfig {
  rk_type : RankerType;
  rk_grpc_endpoint : option string;
  rk_wasm_module : option string;
  rk_timeout_ms : Z;
  rk_candidates : Z;
  rk_circuit_breaker : CircuitBreakerConfig;
}.
Definition default_ranker_type : RankerType := RtNone.
Definition default_ranker_timeout_ms : Z := 30.
Definition default_ranker_candidates : Z := 200.
Definition RankerConfig_default : RankerConfig := {|
  rk_type := default_ranker_type;
  rk_grpc_endpoint := None;
  rk_wasm_module := None;
  rk_timeout_ms := default_ranker_timeout_ms;
  rk_candidates := default_ranker_candidates;
  rk_circuit_breaker := CircuitBreakerConfig_default;
|}.

(** ** The whole configuration *)
Record Config := mkConfig {
  cfg_mode : Mode;
  cfg_router : RouterConfig;
  cfg_shard : ShardConfig;
  cfg_suggest_shard : SuggestShardConfig;
  cfg_ranker : RankerConfig;
  cfg_telemetry : TelemetryConfig;
}.
Definition Config_default : Config := {|
  cfg_mode := default_mode;
  cfg_router := RouterConfig_default;
  cfg_shard := ShardConfig_default;
  cfg_suggest_shard := SuggestShardConfig_default;
  cfg_ranker := RankerConfig_default;
  cfg_telemetry := TelemetryConfig_default;
|}.
