(* ===== verification/Breaker.v ===== *)
(** The circuit breaker of [crates/core/src/breaker.rs].

    The two atomics are the state; the clock is an argument of the operations
    that read it.  [breaker_open_iff] refines the counters to the history of
    outcomes: the circuit is open exactly while the recovery window that starts
    at the [threshold]-th failure of the current run of failures lasts. *)
From S2P Require Import Prelude Config.

Local Open Scope Z_scope.

(** ** State and operations *)
Record CircuitBreaker := mkCircuitBreaker {
  br_failures : Z;                      (* AtomicU32 *)
  br_opened_at_ms : Z;                  (* AtomicU64, 0 = closed *)
  br_threshold : Z;                     (* u32 *)
  br_recovery_ms : Z;                   (* u64 *)
}.

#[global] Instance CircuitBreaker_eq_dec : EqDecision CircuitBreaker.
Proof. solve_decision. Defined.

Definition breaker_new (config : CircuitBreakerConfig) : CircuitBreaker := {|
  br_failures := 0;
  br_opened_at_ms := 0;
  br_threshold := cb_failure_threshold config;
  br_recovery_ms := cb_recovery_ms config;
|}.

(** [is_open], reading the clock at [now]. *)
Definition is_open (now : Z) (b : CircuitBreaker) : bool :=
  let opened_at := br_opened_at_ms b in
  if opened_at =? 0 then false
  else let elapsed := sat_sub now opened_at in elapsed <? br_recovery_ms b.

Definition record_success (b : CircuitBreaker) : CircuitBreaker := {|
  br_failures := 0;
  br_opened_at_ms := 0;
  br_threshold := br_threshold b;
  br_recovery_ms := br_recovery_ms b;
|}.

(** [record_failure]: [fetch_add] wraps at 32 bits, [compare_exchange] only
    replaces a zero. *)
Definition record_failure (now : Z) (b : CircuitBreaker) : CircuitBreaker :=
  let prev := br_failures b in
  let opened :=
    if br_threshold b <=? wrap 32 (prev + 1)
    then (if br_opened_at_ms b =? 0 then now else br_opened_at_ms b)
    else br_opened_at_ms b in
  {| br_failures := wrap 32 (prev + 1);
     br_opened_at_ms := opened;
     br_threshold := br_threshold b;
     br_recovery_ms := br_recovery_ms b |}.

(** ** Histories of outcomes, latest first *)
Inductive event := EvSuccess | EvFailure (now : Z).

Definition breaker_step (b : CircuitBreaker) (e : event) : CircuitBreaker :=
  match e with
  | EvSuccess => record_success b
  | EvFailure now => record_failure now b
  end.

Definition breaker_run (b : CircuitBreaker) (h : list event) : CircuitBreaker :=
  foldr (fun e b => breaker_step b e) b h.

(** Times of the failures since the last success, latest first. *)
Fixpoint failure_run (h : list event) : list Z :=
  match h with
  | EvFailure t :: h => t :: failure_run h
  | _ => []
  end.

(** The time of the failure that opened the circuit: the [threshold]-th (the
    first when the threshold is 0) of the run, counted from its start. *)
Definition opening_time (threshold : Z) (run : list Z) : option Z :=
  reverse run !! Z.to_nat (threshold - 1).

Section Refinement.
Context (config : CircuitBreakerConfig).

Definition times_ok (h : list event) : Prop :=
  Forall (fun e => match e with EvSuccess => True | EvFailure t => 0 < t end) h.

Lemma failure_run_times h : times_ok h -> Forall (fun t => 0 < t) (failure_run h).
Proof. induction 1 as [|[|t] h Ht Hh IH]; simpl; auto. Qed.

Lemma breaker_run_params h :
  br_threshold (breaker_run (breaker_new config) h) = cb_failure_threshold config /\
  br_recovery_ms (breaker_run (breaker_new config) h) = cb_recovery_ms config.
Proof. induction h as [|[|t] h IH]; simpl; auto. Qed.

Lemma opening_time_range run t :
  Forall (fun t => 0 < t) run -> opening_time (cb_failure_threshold config) run = Some t -> 0 < t.
Proof.
  intros HF Ho. apply (Forall_lookup_1 (fun t => 0 < t) (reverse run)) in Ho; [done|].
  by apply Forall_reverse.
Qed.

(** The abstraction: the counter is the length of the run of failures and
    the stored time is the opening time. *)
Lemma breaker_run_abs h :
  times_ok h -> Z.of_nat (length (failure_run h)) < 2 ^ 32 ->
  br_failures (breaker_run (breaker_new config) h) = Z.of_nat (length (failure_run h)) /\
  br_opened_at_ms (breaker_run (breaker_new config) h)
    = default 0 (opening_time (cb_failure_threshold config) (failure_run h)).
Proof.
  induction h as [|[|t] h IH]; intros Hok Hlen; simpl in *.
  - done.
  - done.
  - apply Forall_cons in Hok as [Ht Hok].
    destruct IH as [IH1 IH2]; [done|lia|].
    pose proof (failure_run_times _ Hok) as Htimes.
    rewrite IH1, IH2. destruct (breaker_run_params h) as [-> _].
    rewrite wrap_id by (unfold in_width; lia).
    split; [lia|]. unfold opening_time in *.
    rewrite reverse_cons.
    assert (length (reverse (failure_run h)) = length (failure_run h)) as HL
      by apply length_reverse.
    destruct (Z.leb_spec (cb_failure_threshold config)
      (Z.of_nat (length (failure_run h)) + 1)) as [Hle|Hgt].
    + destruct (Z.eqb_spec
        (default 0 (reverse (failure_run h) !! Z.to_nat (cb_failure_threshold config - 1))) 0)
        as [E|E].
      * destruct (reverse (failure_run h) !! _) as [t0|] eqn:El.
        { exfalso. simpl in E. subst t0.
          apply (Forall_lookup_1 (fun t => 0 < t)) in El; [lia|].
          by rewrite Forall_reverse. }
        apply lookup_ge_None in El.
        rewrite lookup_app_r by lia.
        replace (_ - _)%nat with 0%nat by lia. done.
      * destruct (reverse (failure_run h) !! _) as [t0|] eqn:El; [|done].
        by rewrite (lookup_app_l_Some _ _ _ _ El).
    + rewrite !lookup_ge_None_2; [done| |lia]. rewrite length_app. simpl. lia.
Qed.

(** Shared form of the two properties below. *)
Lemma breaker_open_abs h now :
  times_ok h -> Z.of_nat (length (failure_run h)) < 2 ^ 32 ->
  is_open now (breaker_run (breaker_new config) h) =
    match opening_time (cb_failure_threshold config) (failure_run h) with
    | Some t => sat_sub now t <? cb_recovery_ms config
    | None => false
    end.
Proof.
  intros Hok Hlen. destruct (breaker_run_abs h Hok Hlen) as [_ Ho].
  destruct (breaker_run_params h) as [_ Hr]. unfold is_open. rewrite Ho, Hr.
  destruct (opening_time _ _) as [t|] eqn:E; simpl; [|done].
  apply opening_time_range in E; [|by apply failure_run_times].
  by destruct (Z.eqb_spec t 0); [lia|].
Qed.

Lemma opening_time_grows run t new :
  opening_time (cb_failure_threshold config) run = Some t ->
  opening_time (cb_failure_threshold config) (new ++ run) = Some t.
Proof.
  unfold opening_time. rewrite reverse_app. intros. by apply lookup_app_l_Some.
Qed.

Lemma failure_run_app fs h :
  failure_run ((EvFailure <$> fs) ++ h) = fs ++ failure_run h.
Proof. induction fs as [|t fs IH]; [done|]. rewrite fmap_cons. cbn [app failure_run]. by rewrite IH. Qed.
End Refinement.

(** The breaker refines the history of outcomes: it is open exactly when
    the current run of failures has reached the threshold and less than the
    recovery time has passed since the failure that reached it. *)
Theorem breaker_open_iff (config : CircuitBreakerConfig) (h : list event) (now : Z) :
  times_ok h -> Z.of_nat (length (failure_run h)) < 2 ^ 32 ->
  is_open now (breaker_run (breaker_new config) h) = true <->
  exists t, opening_time (cb_failure_threshold config) (failure_run h) = Some t /\
            sat_sub now t < cb_recovery_ms config.
Proof.
  intros Hok Hlen. rewrite breaker_open_abs by done.
  destruct (opening_time _ _) as [t|].
  - rewrite Z.ltb_lt. split; [by exists t|by intros (? & [= ->] & ?)].
  - split; [done|by intros (? & ? & ?)].
Qed.

Lemma breaker_open_iff_witness :
  let config := mkCircuitBreakerConfig true 2 1000 in
  let h := [EvFailure 70; EvFailure 50; EvSuccess; EvFailure 10] in
  is_open 1069 (breaker_run (breaker_new config) h) = true /\
  (is_open 1069 (breaker_run (breaker_new config) h) = true <->
   exists t, opening_time 2 (failure_run h) = Some t /\ sat_sub 1069 t < 1000).
Proof.
  split; [reflexivity|].
  apply (breaker_open_iff (mkCircuitBreakerConfig true 2 1000)
    [EvFailure 70; EvFailure 50; EvSuccess; EvFailure 10] 1069);
    [repeat constructor; lia|simpl; lia].
Defined.

(** After the recovery window of an opened circuit has passed, failures
    alone never open it again: a failing probe of the half-open circuit leaves
    it closed for every later call. *)
Theorem breaker_never_reopens (config : CircuitBreakerConfig) (h : list event)
    (t now : Z) (probes : list Z) :
  times_ok h -> opening_time (cb_failure_threshold config) (failure_run h) = Some t ->
  cb_recovery_ms config <= sat_sub now t ->
  Forall (fun p => 0 < p) probes ->
  Z.of_nat (length (probes ++ failure_run h)) < 2 ^ 32 ->
  is_open now (breaker_run (breaker_new config) ((EvFailure <$> probes) ++ h)) = false.
Proof.
  intros Hok Ho Hnow Hp Hlen.
  rewrite breaker_open_abs; [| |by rewrite failure_run_app].
  - rewrite failure_run_app. rewrite (opening_time_grows config _ t) by done.
    apply Z.ltb_ge. done.
  - apply Forall_app. split; [|exact Hok]. apply Forall_fmap. by eapply Forall_impl; [exact Hp|].
Qed.

Lemma breaker_never_reopens_witness :
  is_open 2000 (breaker_run (breaker_new (mkCircuitBreakerConfig true 2 1000))
    ((EvFailure <$> [1990; 1980; 1970]) ++ [EvFailure 70; EvFailure 50])) = false.
Proof.
  apply (breaker_never_reopens (mkCircuitBreakerConfig true 2 1000)
    [EvFailure 70; EvFailure 50] 70 2000 [1990; 1980; 1970]);
    [repeat constructor; lia|reflexivity|vm_compute; congruence
    |repeat constructor; lia|simpl; lia].
Defined.
