(* ===== verification/Routing.v ===== *)
(** Shard routing by jump consistent hash ([crates/router/src/routing.rs]).

    The loop is fuelled; [jump_total] shows that [num_buckets] iterations are
    enough, because every step of the [f64] computation moves to a strictly
    larger bucket ([jump_next_gt]). *)
From Stdlib Require Import Floats.SpecFloat.
From S2P Require Import Prelude Bytes Order Float FloatRound.

Local Open Scope Z_scope.

(** ** Definitions *)

(** [k.wrapping_mul(2862933555777941757).wrapping_add(1)]. *)
Definition lcg (k : Z) : Z := wrap 64 (wrap 64 (k * 2862933555777941757) + 1).

(** [((b + 1) as f64 * (1u64 << 31) as f64 / ((k >> 33) + 1) as f64) as i64]. *)
Definition jump_next (k b : Z) : Z :=
  f64_to_i64 (f64_div (f64_mul (f64_of_Z (b + 1)) (f64_of_Z (Z.shiftl 1 31)))
                      (f64_of_Z (Z.shiftr k 33 + 1))).

(** The loop [while j < num_buckets]; [None] when the fuel runs out. *)
Fixpoint jump_loop (fuel : nat) (k b j num_buckets : Z) : option Z :=
  if j <? num_buckets then
    match fuel with
    | O => None
    | S fuel => let k' := lcg k in jump_loop fuel k' j (jump_next k' j) num_buckets
    end
  else Some b.

(** [jump_consistent_hash(key, num_buckets)]; the final [b as u32] maps the
    initial [-1] to [u32::MAX]. *)
Definition jump_consistent_hash (key num_buckets : Z) : option Z :=
  wrap 32 <$> jump_loop (Z.to_nat num_buckets) key (-1) 0 num_buckets.

(** ** The loop advances *)

Lemma lcg_range k : in_width 64 (lcg k).
Proof. apply wrap_in_width. lia. Qed.

Lemma shiftr33_range k : in_width 64 k -> 0 <= Z.shiftr k 33 < 2 ^ 31.
Proof.
  unfold in_width. intros [H1 H2]. rewrite Z.shiftr_div_pow2 by lia.
  split; [apply Z.div_pos; lia|apply Z.div_lt_upper_bound; lia].
Qed.

(** The product [(b + 1) * 2^31] is not rounded below its value. *)
Lemma jump_product_lb n :
  1 <= n <= 2 ^ 32 ->
  f_lb 200 n 31 (f64_mul (f64_of_Z n) (f64_of_Z (Z.shiftl 1 31))) /\
  valid_binary 53 1024 (f64_mul (f64_of_Z n) (f64_of_Z (Z.shiftl 1 31))) = true.
Proof.
  intros Hn. destruct (f64_of_Z_exact n) as (m & e & -> & He & Hm); [lia|].
  assert (f64_of_Z (Z.shiftl 1 31) = S754_finite false 4503599627370496 (-21)) as ->
    by (vm_compute; reflexivity).
  unfold f64_mul, SFmul. cbn [xorb].
  set (P := Z.pos (m * 4503599627370496)).
  assert (P = n * 2 ^ (- e) * 2 ^ 52) as HP.
  { unfold P. rewrite Pos2Z.inj_mul, Hm. f_equal. }
  assert (0 < 2 ^ (- e)) by (apply Z.pow_pos_nonneg; lia).
  split.
  - apply round_aux_lb; [lia|lia|unfold emin; lia|lia|lia|lia|].
    rewrite HP. apply Z.eq_le_incl. rewrite <- !Z.mul_assoc. f_equal.
    rewrite <- !Z.pow_add_r by lia. f_equal. lia.
  - apply round_aux_valid; [lia|lia| |lia].
    assert (Zdigits2 P >= 53).
    { pose proof (Zdigits2_bounds P ltac:(lia)) as [_ HB].
      assert (2 ^ 52 <= P) by nia.
      pose proof (pow2_lt_mono 52 (Zdigits2 P) P ltac:(lia) ltac:(done) HB). lia. }
    unfold fexp, emin. lia.
Qed.

Lemma jump_next_gt k b :
  in_width 64 k -> 0 <= b < 2 ^ 32 -> b < jump_next k b.
Proof.
  intros Hk Hb. unfold jump_next. apply Z.lt_le_trans with (b + 1); [lia|].
  pose proof (shiftr33_range k Hk) as Hs.
  destruct (f64_of_Z_exact (Z.shiftr k 33 + 1)) as (my & ey & -> & Hey & Hmy); [lia|].
  apply (f64_to_i64_lb 1200); [unfold i64_max; lia|lia|].
  destruct (jump_product_lb (b + 1)) as [Hlb Hv]; [lia|].
  destruct (f64_mul _ _) as [s|[]| |[] mx ex] eqn:E; try done.
  destruct Hlb as [Hex Hlb].
    apply (canonical_digits 53 1024) in Hv as (Hv1 & _ & _).
    change (emin 53 1024) with (-1074) in Hv1.
    set (d := Z.shiftr k 33 + 1) in *. set (n := b + 1) in *.
    unfold f64_div.
    apply (SFdiv_lb 53 1024 ltac:(lia) 1200 n); [lia|lia|lia|lia| | |unfold emin; lia|lia].
    { unfold fexp, emin. lia. }
    rewrite Hmy. apply (Z.mul_le_mono_pos_r _ _ (2 ^ 0)); [lia|]. rewrite Z.mul_1_r, Z.mul_1_r.
    assert (Z.pos mx * 2 ^ (ex + 1200 + 1200) = Z.pos mx * 2 ^ (ex + 200) * 2 ^ 2200) as ->.
    { rewrite <- Z.mul_assoc, <- Z.pow_add_r by lia. do 2 f_equal. lia. }
    assert (n * (d * 2 ^ (- ey)) * 2 ^ (ey + 1200 + 1200) = n * d * 2 ^ 200 * 2 ^ 2200) as ->.
    { rewrite <- !Z.mul_assoc. do 2 f_equal. rewrite <- !Z.pow_add_r by lia. f_equal. lia. }
    apply Z.mul_le_mono_nonneg_r; [apply Z.pow_nonneg; lia|].
    etransitivity; [|exact Hlb]. replace (31 + 200) with (200 + 31) by lia.
    rewrite Z.pow_add_r by lia. assert (0 < 2 ^ 200) by (apply Z.pow_pos_nonneg; lia). nia.
Qed.

(** The loop terminates within [num_buckets - j] iterations. *)
Lemma jump_loop_total fuel k b j n :
  0 <= j -> n < 2 ^ 32 -> n - j <= Z.of_nat fuel ->
  exists r, jump_loop fuel k b j n = Some r.
Proof.
  revert k b j. induction fuel as [|fuel IH]; intros k b j Hj Hn Hf; simpl.
  - destruct (Z.ltb_spec j n); [lia|]. by exists b.
  - destruct (Z.ltb_spec j n); [|by exists b].
    pose proof (jump_next_gt (lcg k) j (lcg_range k) ltac:(lia)). apply IH; lia.
Qed.

Lemma jump_loop_range fuel k b j n r :
  0 <= j -> n < 2 ^ 32 -> jump_loop fuel k b j n = Some r ->
  j < n -> j <= r < n.
Proof.
  revert k b j. induction fuel as [|fuel IH]; intros k b j Hj Hn; simpl;
    (destruct (Z.ltb_spec j n); [|lia]); [done|].
  intros Hr _. pose proof (jump_next_gt (lcg k) j (lcg_range k) ltac:(lia)).
  destruct (Z.le_gt_cases n (jump_next (lcg k) j)) as [Hout|Hin].
  - destruct fuel; simpl in Hr; (destruct (Z.ltb_spec (jump_next (lcg k) j) n); [lia|]);
      simplify_eq; lia.
  - apply IH in Hr; lia.
Qed.

(** Adding a bucket: the loop for [n + 1] buckets stops where the loop for [n]
    does, or at the new bucket. *)
Lemma jump_loop_add_bucket fuel fuel' k b j n r r' :
  0 <= j -> n + 1 < 2 ^ 32 -> b < n + 1 ->
  jump_loop fuel k b j n = Some r -> jump_loop fuel' k b j (n + 1) = Some r' ->
  r' = r \/ r' = n.
Proof.
  revert fuel' k b j. induction fuel as [|fuel IH]; intros fuel' k b j Hj Hn Hb Hr Hr';
    simpl in Hr; destruct (Z.ltb_spec j n) as [Hlt|Hge]; try done.
  2: { pose proof (jump_next_gt (lcg k) j (lcg_range k) ltac:(lia)).
       destruct fuel' as [|fuel']; simpl in Hr';
         (destruct (Z.ltb_spec j (n + 1)); [|lia]); [done|].
       eapply IH; [| | |exact Hr|exact Hr']; lia. }
  all: simplify_eq; destruct fuel' as [|fuel']; simpl in Hr';
    destruct (Z.ltb_spec j (n + 1)) as [Hlt'|]; simplify_eq; auto.
  all: assert (j = n) as -> by lia;
    pose proof (jump_next_gt (lcg k) n (lcg_range k) ltac:(lia));
    destruct fuel' as [|fuel']; simpl in Hr';
    (destruct (Z.ltb_spec (jump_next (lcg k) n) (n + 1)); [lia|]); simplify_eq; auto.
Qed.

Lemma jump_hash_inv key n s :
  0 <= n < 2 ^ 32 -> jump_consistent_hash key n = Some s ->
  (n = 0 /\ s = u32_max) \/
  (0 < n /\ 0 <= s < n /\ jump_loop (Z.to_nat n) key (-1) 0 n = Some s).
Proof.
  intros Hn H. unfold jump_consistent_hash in H.
  destruct (jump_loop _ _ _ _ _) as [r|] eqn:E; simplify_eq/=.
  destruct (Z.eq_dec n 0) as [->|Hn0].
  - left. simpl in E. simplify_eq. done.
  - right. pose proof (jump_loop_range (Z.to_nat n) key (-1) 0 n r ltac:(lia) ltac:(lia) E ltac:(lia)).
    rewrite wrap_id by (unfold in_width; lia). split_and!; [lia..|done].
Qed.

Lemma jump_hash_some key n : 0 <= n < 2 ^ 32 -> is_Some (jump_consistent_hash key n).
Proof.
  intros Hn. unfold jump_consistent_hash.
  destruct (jump_loop_total (Z.to_nat n) key (-1) 0 n) as [r ->]; [lia..|]. by eexists.
Qed.

(** C37: for every key and every number of buckets [1 <= n < 2^32] the hash
    terminates and is a bucket index below [n]; and growing a cluster from [n]
    to [n + 1] shards leaves a key where it was or moves it to the new shard
    [n], so no key moves between old shards. *)
Theorem jump_hash_correct (key n : Z) :
  0 < n < 2 ^ 32 -> exists s, jump_consistent_hash key n = Some s /\ 0 <= s < n /\
    (n + 1 < 2 ^ 32 -> exists s', jump_consistent_hash key (n + 1) = Some s' /\ (s' = s \/ s' = n)).
Proof.
  intros Hn. destruct (jump_hash_some key n) as [s Hs]; [lia|]. exists s. split; [done|].
  destruct (jump_hash_inv key n s) as [[? _]|(_ & ? & Hl)]; [lia|done|lia|]. split; [done|].
  intros Hn'. destruct (jump_hash_some key (n + 1)) as [s' Hs']; [lia|]. exists s'. split; [done|].
  destruct (jump_hash_inv key (n + 1) s') as [[? _]|(_ & _ & Hl')]; [lia|done|lia|].
  eapply (jump_loop_add_bucket _ _ key (-1) 0 n); [| | |exact Hl|exact Hl']; lia.
Qed.

Lemma jump_hash_correct_witness :
  jump_consistent_hash 42 4 = Some 2 /\
  exists s, jump_consistent_hash 42 4 = Some s /\ 0 <= s < 4.
Proof.
  split; [vm_compute; reflexivity|].
  destruct (jump_hash_correct 42 4) as (s & Hs & Hr & _); [lia|].
  exists s. split; [exact Hs|exact Hr].
Defined.

(** With no bucket the loop never runs and [-1 as u32] is returned. *)
Lemma jump_hash_no_bucket key : jump_consistent_hash key 0 = Some u32_max.
Proof. reflexivity. Qed.
