(* ===== verification/Text.v ===== *)
(** Rust strings as UTF-8 byte sequences: [chars], [char_indices], slicing,
    [starts_with], [strip_prefix], [join], [parse::<u64>], [contains] and the
    byte order of [str].  A [string] holds the UTF-8 bytes, so [String.length]
    is [str::len]. *)
From Stdlib Require Import Strings.Ascii.
From S2P Require Import Prelude Bytes Order.

Local Open Scope Z_scope.

Definition ascii_Z (a : ascii) : Z := Z.of_N (N_of_ascii a).

(** ** Characters *)

Definition is_continuation (a : ascii) : bool := (128 <=? ascii_Z a) && (ascii_Z a <? 192).

(** The payload of the next [n] continuation bytes appended to [acc]. *)
Fixpoint continuation (n : nat) (acc : Z) (s : string) : Z :=
  match n, s with
  | S n, String a s => continuation n (acc * 64 + ascii_Z a `mod` 64) s
  | _, _ => acc
  end.

(** The code point whose encoding starts with byte [a], followed by [s]. *)
Definition decode_char (a : ascii) (s : string) : Z :=
  let b := ascii_Z a in
  if b <? 128 then b
  else if b <? 224 then continuation 1 (b `mod` 32) s
  else if b <? 240 then continuation 2 (b `mod` 16) s
  else continuation 3 (b `mod` 8) s.

(** [s.char_indices()], offsets counted from [off]. *)
Fixpoint char_indices_from (off : nat) (s : string) : list (nat * Z) :=
  match s with
  | EmptyString => []
  | String a s' =>
      if is_continuation a then char_indices_from (S off) s'
      else (off, decode_char a s') :: char_indices_from (S off) s'
  end.

Definition char_indices (s : string) : list (nat * Z) := char_indices_from 0 s.
Definition chars (s : string) : list Z := (char_indices s).*2.

(** [std::str::from_utf8], [fs::read_to_string]: the well-formed byte sequences. *)
Definition cont (a : ascii) : bool := is_continuation a.
Definition cont_in (lo hi : Z) (a : ascii) : bool := (lo <=? ascii_Z a) && (ascii_Z a <=? hi).
Fixpoint utf8_valid (s : string) : bool :=
  match s with
  | EmptyString => true
  | String a s1 =>
      let b := ascii_Z a in
      if b <? 128 then utf8_valid s1
      else if (194 <=? b) && (b <=? 223) then
        match s1 with String c s2 => cont c && utf8_valid s2 | _ => false end
      else if (224 <=? b) && (b <=? 239) then
        match s1 with
        | String c (String d s3) =>
            cont_in (if b =? 224 then 160 else 128) (if b =? 237 then 159 else 191) c
            && cont d && utf8_valid s3
        | _ => false
        end
      else if (240 <=? b) && (b <=? 244) then
        match s1 with
        | String c (String d (String e s4)) =>
            cont_in (if b =? 240 then 144 else 128) (if b =? 244 then 143 else 191) c
            && cont d && cont e && utf8_valid s4
        | _ => false
        end
      else false
  end.

(** [c.len_utf8()]. *)
Definition len_utf8 (c : Z) : nat :=
  if c <? 128 then 1 else if c <? 2048 then 2 else if c <? 65536 then 3 else 4.

(** Every character of [s] ends inside [s]: true of every [str]. *)
Definition utf8_ok (s : string) : Prop :=
  Forall (fun p : nat * Z => (p.1 + len_utf8 p.2 <= String.length s)%nat) (char_indices s).

#[global] Instance utf8_ok_dec s : Decision (utf8_ok s) | 100.
Proof. unfold utf8_ok. apply _. Defined.

(** ** Slices *)

(** [&s\[a..b\]] for [a <= b]. *)
Definition str_slice (s : string) (a b : nat) : string := String.substring a (b - a) s.

Lemma substring_length a n s :
  String.length (String.substring a n s) = Nat.min n (String.length s - a).
Proof.
  revert a n. induction s as [|c s IH]; intros [|a] [|n]; simpl; auto; rewrite IH; lia.
Qed.

Lemma substring_substring a n b m s :
  (b + m <= n)%nat ->
  String.substring b m (String.substring a n s) = String.substring (a + b) m s.
Proof.
  revert a n b m. induction s as [|c s IH]; intros a n b m H.
  - destruct a, n; simpl; destruct b, m; simpl; auto; destruct b; auto.
  - destruct a as [|a].
    + destruct n as [|n].
      { assert (b = 0 /\ m = 0)%nat as [-> ->] by lia. done. }
      destruct b as [|b]; cbn [Nat.add String.substring].
      * destruct m as [|m]; [done|]. f_equal. apply (IH 0%nat n 0%nat m). lia.
      * apply (IH 0%nat n b m). lia.
    + cbn [Nat.add]. destruct n as [|n]; cbn [String.substring]; by apply IH.
Qed.

Lemma substring_trunc a n s :
  String.substring a (String.length (String.substring a n s)) s = String.substring a n s.
Proof.
  revert a n. induction s as [|c s IH]; intros [|a] [|n]; simpl; auto.
  f_equal. apply IH.
Qed.

(** ** Prefixes *)

(** [s.starts_with(p)]. *)
Definition starts_with (s p : string) : bool := String.prefix p s.

(** [s.contains(p)]. *)
Fixpoint str_contains (s p : string) : bool :=
  starts_with s p || match s with EmptyString => false | String _ s => str_contains s p end.

(** [s.strip_prefix(p)]. *)
Fixpoint str_strip_prefix (s p : string) {struct p} : option string :=
  match p, s with
  | EmptyString, _ => Some s
  | String a p, String b s => if ascii_dec a b then str_strip_prefix s p else None
  | String _ _, EmptyString => None
  end.

Lemma str_strip_prefix_spec s p r : str_strip_prefix s p = Some r <-> s = (p +:+ r)%string.
Proof.
  revert s. induction p as [|a p IH]; intros s; simpl.
  - split; [by intros [= ->]|by intros ->].
  - destruct s as [|b s]; [done|]. destruct (ascii_dec a b) as [->|Hne].
    + rewrite IH. split; [by intros ->|by intros [= ->]].
    + split; [done|]. intros [= ? ?]. congruence.
Qed.

Lemma starts_with_app p r : starts_with (p +:+ r)%string p = true.
Proof.
  unfold starts_with. induction p as [|a p IH]; simpl; [by destruct r|].
  by destruct (ascii_dec a a).
Qed.

Lemma starts_with_iff s p : starts_with s p = true <-> exists r, s = (p +:+ r)%string.
Proof.
  split; [|intros [r ->]; apply starts_with_app].
  unfold starts_with. revert s. induction p as [|a p IH]; intros s; simpl.
  - by exists s.
  - destruct s as [|b s]; simpl; [done|].
    destruct (ascii_dec a b) as [->|]; [|done].
    intros [r ->]%IH. by exists r.
Qed.

(** ** Characters and concatenation *)

(** The byte [c] occurs in [s]. *)
Fixpoint str_mem (c : ascii) (s : string) : bool :=
  match s with
  | EmptyString => false
  | String a s => bool_decide (a = c) || str_mem c s
  end.

Lemma str_mem_app c s r : str_mem c (s +:+ r)%string = str_mem c s || str_mem c r.
Proof.
  induction s as [|a s IH]; [done|].
  change (String a s +:+ r)%string with (String a (s +:+ r)). cbn [str_mem].
  by rewrite IH, orb_assoc.
Qed.

Lemma split_at_char c s s' r r' :
  str_mem c s = false -> str_mem c s' = false ->
  (s +:+ String c r)%string = (s' +:+ String c r')%string -> s = s' /\ r = r'.
Proof.
  revert s'. induction s as [|a s IH]; intros [|a' s'] Hs Hs' E.
  - by injection E.
  - injection E as -> _. cbn in Hs'. by rewrite bool_decide_true in Hs'.
  - injection E as -> _. cbn in Hs. by rewrite bool_decide_true in Hs.
  - cbn [str_mem] in Hs, Hs'. apply orb_false_iff in Hs as [_ Hs].
    apply orb_false_iff in Hs' as [_ Hs'].
    change ((String a s +:+ String c r)%string) with (String a (s +:+ String c r)) in E.
    change ((String a' s' +:+ String c r')%string) with (String a' (s' +:+ String c r')) in E.
    injection E as -> E. by destruct (IH s' Hs Hs' E) as [-> ->].
Qed.

Lemma str_app_inv_r r s s' : (s +:+ r)%string = (s' +:+ r)%string -> s = s'.
Proof.
  assert (forall t, String.length (t +:+ r)%string = (String.length t + String.length r)%nat) as Hlen.
  { induction t as [|a t IH]; [done|]. change (String a t +:+ r)%string with (String a (t +:+ r)).
    cbn [String.length]. by rewrite IH. }
  revert s'. induction s as [|a s IH]; intros [|a' s'] E; [done| | |].
  - apply (f_equal String.length) in E. rewrite !Hlen in E. cbn in E. lia.
  - apply (f_equal String.length) in E. rewrite !Hlen in E. cbn in E. lia.
  - change (String a s +:+ r)%string with (String a (s +:+ r)) in E.
    change (String a' s' +:+ r)%string with (String a' (s' +:+ r)) in E.
    injection E as -> E. by rewrite (IH s' E).
Qed.

Lemma str_app_nil_r s : (s +:+ "")%string = s.
Proof. induction s as [|a s IH]; [done|]. change (String a (s +:+ "") = String a s)%string. by rewrite IH. Qed.

Lemma str_app_assoc a b c : ((a +:+ b) +:+ c = a +:+ (b +:+ c))%string.
Proof.
  induction a as [|x a IH]; [done|].
  change (String x ((a +:+ b) +:+ c) = String x (a +:+ (b +:+ c)))%string. by rewrite IH.
Qed.

Lemma str_app_cons a s r : (String a s +:+ r = String a (s +:+ r))%string.
Proof. done. Qed.

(** ** Order of [str]: bytewise lexicographic *)
Fixpoint str_cmp (a b : string) : comparison :=
  match a, b with
  | EmptyString, EmptyString => Eq
  | EmptyString, _ => Lt
  | _, EmptyString => Gt
  | String x a, String y b => then_with (Z.compare (ascii_Z x) (ascii_Z y)) (str_cmp a b)
  end.

Definition str_lt (a b : string) : bool :=
  match str_cmp a b with Lt => true | _ => false end.

Lemma ascii_Z_inj a b : ascii_Z a = ascii_Z b -> a = b.
Proof.
  unfold ascii_Z. intros H%N2Z.inj.
  by rewrite <- (ascii_N_embedding a), <- (ascii_N_embedding b), H.
Qed.

Lemma str_cmp_eq a b : str_cmp a b = Eq <-> a = b.
Proof.
  revert b. induction a as [|x a IH]; intros [|y b]; simpl; try done.
  destruct (Z.compare_spec (ascii_Z x) (ascii_Z y)) as [E|E|E]; simpl.
  - apply ascii_Z_inj in E as ->. rewrite IH. split; [by intros ->|by intros [= ->]].
  - split; [done|]. intros [= -> ->]. lia.
  - split; [done|]. intros [= -> ->]. lia.
Qed.

#[global] Instance str_cmp_preorder : CmpPreorder (fun _ => True) str_cmp.
Proof.
  split.
  - intros a b _ _. revert b. induction a as [|x a IH]; intros [|y b]; simpl; try done.
    rewrite (Z.compare_antisym (ascii_Z x)).
    destruct (ascii_Z x ?= ascii_Z y); simpl; auto.
  - intros a b c _ _ _. revert b c.
    induction a as [|x a IH]; intros [|y b] [|z c]; simpl; try done.
    destruct (Z.compare_spec (ascii_Z x) (ascii_Z y)),
      (Z.compare_spec (ascii_Z y) (ascii_Z z)),
      (Z.compare_spec (ascii_Z x) (ascii_Z z)); simpl; try done; try lia. apply IH.
Qed.

Lemma str_cmp_prefix p r : str_cmp (p +:+ r)%string p <> Lt.
Proof.
  induction p as [|a p IH]; simpl; [by destruct r|]. by rewrite Z.compare_refl.
Qed.

(** ** [join], [parse::<u64>] *)
Fixpoint str_join (sep : string) (l : list string) : string :=
  match l with
  | [] => ""
  | [s] => s
  | s :: l => (s +:+ sep +:+ str_join sep l)%string
  end.

(** One decimal digit, and the accumulating parser with the overflow check of
    [u64::from_str]. *)
Definition digit_value (a : ascii) : option Z :=
  let b := ascii_Z a in if (48 <=? b) && (b <=? 57) then Some (b - 48) else None.

Fixpoint parse_digits (max acc : Z) (s : string) : option Z :=
  match s with
  | EmptyString => Some acc
  | String a s =>
      d ← digit_value a;
      let acc' := acc * 10 + d in
      if acc' <=? max then parse_digits max acc' s else None
  end.

(** [s.parse::<uN>().ok()]: an optional [+], then at least one digit. *)
Definition parse_unsigned (max : Z) (s : string) : option Z :=
  match s with
  | EmptyString => None
  | String a s' =>
      if bool_decide (a = "+"%char) then
        match s' with EmptyString => None | _ => parse_digits max 0 s' end
      else parse_digits max 0 s
  end.

Lemma parse_digits_range max acc s z :
  0 <= acc <= max -> parse_digits max acc s = Some z -> acc <= z <= max.
Proof.
  revert acc. induction s as [|a s IH]; intros acc Hacc; cbn [parse_digits].
  - intros [= ->]. lia.
  - unfold digit_value. destruct (_ && _) eqn:Hd; [|done]. zbool.
    cbn [mbind option_bind]. destruct (_ <=? max) eqn:Hm; [|done]. zbool.
    intros Hp%IH; lia.
Qed.

Lemma parse_unsigned_range max s z :
  0 <= max -> parse_unsigned max s = Some z -> 0 <= z <= max.
Proof.
  intros Hmax. unfold parse_unsigned. destruct s as [|a s]; [done|].
  case_bool_decide; [destruct s; [done|]|]; intros Hp%parse_digits_range; lia.
Qed.

(** ** [BTreeMap<String, V>]: a map iterated in the order of its keys *)
Definition btree_iter {V} (m : gmap string V) : list (string * V) :=
  sort_by (cmp_on fst str_cmp) (map_to_list m).

Definition keys_sorted (keys : list string) : Prop :=
  StronglySorted (fun a b => str_cmp a b = Lt) keys.

#[global] Instance keys_sorted_dec keys : Decision (keys_sorted keys) | 100.
Proof. unfold keys_sorted. apply StronglySorted_dec. intros x y. apply _. Defined.

Section BTree.
Context {V : Type} (m : gmap string V).

Lemma btree_iter_perm : btree_iter m ≡ₚ map_to_list m.
Proof. apply sort_by_perm. Qed.

Lemma elem_of_btree_iter k v : (k, v) ∈ btree_iter m <-> m !! k = Some v.
Proof. rewrite btree_iter_perm. apply elem_of_map_to_list. Qed.

Lemma NoDup_btree_iter : NoDup (btree_iter m).*1.
Proof. rewrite btree_iter_perm. apply NoDup_fst_map_to_list. Qed.

Lemma list_to_map_btree_iter : list_to_map (btree_iter m) = m.
Proof.
  rewrite <- (list_to_map_to_list m) at 2.
  apply list_to_map_proper; [apply NoDup_btree_iter|apply btree_iter_perm].
Qed.

Lemma btree_iter_sorted : keys_sorted (btree_iter m).*1.
Proof.
  pose proof NoDup_btree_iter as Hnd.
  assert (StronglySorted (cmp_le (cmp_on fst str_cmp)) (btree_iter m)) as Hs.
  { apply (sort_by_sorted _ (fun a : string * V => (fun _ : string => True) a.1)).
    by apply Forall_true. }
  induction Hs as [|x l Hs IH Hx]; [constructor|].
  cbn [fmap list_fmap] in *. apply NoDup_cons in Hnd as [Hxl Hnd].
  constructor; [by apply IH|]. apply Forall_forall. intros k Hk.
  apply list_elem_of_fmap in Hk as (y & -> & Hy).
  pose proof (proj1 (Forall_forall _ _) Hx y Hy) as Hxy. unfold cmp_le, cmp_on in Hxy.
  destruct (str_cmp x.1 y.1) eqn:E; [|done|done].
  apply str_cmp_eq in E. destruct Hxl. rewrite E. by apply list_elem_of_fmap_2.
Qed.
End BTree.
