(* ===== verification/Analysis.v ===== *)
(** Text analysis ([crates/analysis]): the Unicode tokenizer, the token
    filters and the analyzers built from a schema's [AnalyzerType].

    The Unicode tables, the word segmentation crate and the Snowball stemmer
    are an interface ([TextLib]); the laws state what the tokenizer relies on:
    the words are slices of the text at their offsets. *)
From Stdlib Require Import Strings.Ascii.
From S2P Require Import Prelude Bytes Order Float Types Text.

(** ** Interface to the text libraries *)
Class TextLib := {
  is_alphanumeric : Z -> bool;                            (* char::is_alphanumeric *)
  to_lowercase : string -> string;                        (* str::to_lowercase *)
  unicode_word_indices : string -> list (nat * string);   (* unicode-segmentation *)
  snowball_stem : Language -> string -> string;           (* rust-stemmers *)
}.

Class TextLibLaws `{TL : TextLib} : Prop := {
  word_indices_slice text off w :
    utf8_ok text -> (off, w) ∈ unicode_word_indices text ->
    (off + String.length w <= String.length text)%nat /\
    String.substring off (String.length w) text = w /\ utf8_ok w;
}.

(** ** token.rs *)
Record Token := mkToken {
  tok_text : string;
  tok_start : nat;
  tok_end : nat;
  tok_position : nat;
}.

#[global] Instance Token_eq_dec : EqDecision Token.
Proof. solve_decision. Defined.

(** The traits [Tokenizer] and [TokenFilter]. *)
Record Tokenizer := mkTokenizer { tokenize : string -> list Token }.
Record TokenFilter := mkTokenFilter { filter_apply : list Token -> list Token }.

Section Analysis.
Context `{TL : TextLib}.

(** ** tokenizer.rs *)

(** The trimmed range of a word: from its first alphanumeric character to the
    end of its last one. *)
Definition trimmed_start (word : string) : nat :=
  match list_find (fun p : nat * Z => is_alphanumeric p.2) (char_indices word) with
  | Some (_, (i, _)) => i
  | None => 0
  end.
Definition trimmed_end (word : string) : nat :=
  match list_find (fun p : nat * Z => is_alphanumeric p.2) (reverse (char_indices word)) with
  | Some (_, (i, c)) => i + len_utf8 c
  | None => String.length word
  end.

Fixpoint tokenize_words (position : nat) (words : list (nat * string)) : list Token :=
  match words with
  | [] => []
  | (byte_offset, word) :: words =>
      if negb (existsb is_alphanumeric (chars word)) then tokenize_words position words
      else
        let trimmed := str_slice word (trimmed_start word) (trimmed_end word) in
        if bool_decide (trimmed = "") then tokenize_words position words
        else
          {| tok_text := trimmed;
             tok_start := byte_offset + trimmed_start word;
             tok_end := byte_offset + trimmed_end word;
             tok_position := position |}
          :: tokenize_words (S position) words
  end.

Definition UnicodeTokenizer : Tokenizer :=
  mkTokenizer (fun text => tokenize_words 0 (unicode_word_indices text)).

(** ** filter.rs *)
Definition with_text (t : Token) (text : string) : Token :=
  {| tok_text := text; tok_start := tok_start t; tok_end := tok_end t;
     tok_position := tok_position t |}.

Definition LowercaseFilter : TokenFilter :=
  mkTokenFilter (fun tokens => (fun t => with_text t (to_lowercase (tok_text t))) <$> tokens).

Definition StemmerFilter (language : Language) : TokenFilter :=
  mkTokenFilter
    (fun tokens => (fun t => with_text t (snowball_stem language (tok_text t))) <$> tokens).

(** ** analyzer.rs *)
Record Analyzer := mkAnalyzer {
  an_tokenizer : Tokenizer;
  an_filters : list TokenFilter;
}.

Definition analyze (a : Analyzer) (text : string) : list Token :=
  foldl (fun tokens f => filter_apply f tokens) (tokenize (an_tokenizer a) text) (an_filters a).

Definition analyze_to_terms (a : Analyzer) (text : string) : list string :=
  tok_text <$> analyze a text.

Definition KeywordTokenizer : Tokenizer :=
  mkTokenizer (fun text =>
    if bool_decide (text = "") then []
    else [{| tok_text := text; tok_start := 0; tok_end := String.length text;
             tok_position := 0 |}]).

Definition analyzer_standard (language : Language) : Analyzer :=
  mkAnalyzer UnicodeTokenizer [LowercaseFilter; StemmerFilter language].
Definition analyzer_keyword : Analyzer := mkAnalyzer KeywordTokenizer [].
Definition analyzer_build (ty : AnalyzerType) : Analyzer :=
  match ty with
  | AtStandard language => analyzer_standard language
  | AtKeyword => analyzer_keyword
  end.

(** ** The pipeline *)

(** A token lies in the text it was cut from. *)
Definition token_of (text : string) (t : Token) : Prop :=
  (tok_start t < tok_end t <= String.length text)%nat /\
  str_slice text (tok_start t) (tok_end t) = tok_text t.

Lemma str_slice_nonempty s a b :
  (b <= String.length s)%nat -> str_slice s a b <> "" -> (a < b)%nat.
Proof.
  intros Hb Hne. destruct (Nat.lt_ge_cases a b); [done|]. exfalso. apply Hne.
  unfold str_slice. replace (b - a)%nat with 0%nat by lia.
  assert (String.length (String.substring a 0 s) = 0) as HL by (rewrite substring_length; lia).
  by destruct (String.substring a 0 s).
Qed.

Lemma trimmed_end_le word : utf8_ok word -> (trimmed_end word <= String.length word)%nat.
Proof.
  intros Hok. unfold trimmed_end. destruct (list_find _ _) as [[k [i c]]|] eqn:E; [|lia].
  apply list_find_Some in E as (E & _ & _). apply list_elem_of_lookup_2 in E.
  rewrite elem_of_reverse in E. exact (proj1 (Forall_forall _ _) Hok (i, c) E).
Qed.

Lemma tokenize_words_spec `{!TextLibLaws} text position words :
  (forall off w, (off, w) ∈ words -> (off + String.length w <= String.length text)%nat /\
    String.substring off (String.length w) text = w /\ utf8_ok w) ->
  forall i t, tokenize_words position words !! i = Some t ->
  tok_position t = position + i /\ token_of text t.
Proof.
  revert position. induction words as [|[off w] words IH]; intros position Hw i t; simpl;
    [done|].
  assert (forall off' w', (off', w') ∈ words -> (off' + String.length w' <= String.length text)%nat /\
    String.substring off' (String.length w') text = w' /\ utf8_ok w') as Hw'.
  { intros. apply Hw. by right. }
  destruct (negb _); [by apply IH|].
  case_bool_decide as Hne; [by apply IH|].
  destruct i as [|i]; simpl.
  2: { intros [-> ?]%IH; [|done]. split; [lia|done]. }
  intros [= <-]. split; [simpl; lia|]. unfold token_of. cbn.
  destruct (Hw off w) as (Hlen & Hsub & Hok); [by left|].
  pose proof (trimmed_end_le w Hok) as Hte.
  pose proof (str_slice_nonempty _ _ _ Hte Hne).
  split; [lia|]. unfold str_slice.
  transitivity (String.substring (trimmed_start w) (trimmed_end w - trimmed_start w)
    (String.substring off (String.length w) text)); [|by rewrite Hsub].
  rewrite substring_substring by lia. f_equal. lia.
Qed.

(** The standard pipeline only rewrites the text of each token. *)
Lemma analyze_standard_spec language text :
  analyze (analyzer_standard language) text =
  (fun t => with_text t (snowball_stem language (to_lowercase (tok_text t))))
    <$> tokenize UnicodeTokenizer text.
Proof. unfold analyze. simpl. rewrite <- list_fmap_compose. done. Qed.

Lemma tokenize_wf `{!TextLibLaws} text i t :
  utf8_ok text -> tokenize UnicodeTokenizer text !! i = Some t ->
  tok_position t = i /\ token_of text t.
Proof.
  intros Hok Ht. apply (tokenize_words_spec text 0) in Ht; [done|].
  intros. by apply word_indices_slice.
Qed.
End Analysis.

(** ** An ASCII implementation of the interface

    Words are the maximal runs of non-space bytes, the stemmer drops a final
    [s].  It is used to evaluate the pipeline on concrete inputs. *)
Module AsciiText.
Definition alnum (c : Z) : bool :=
  ((48 <=? c) && (c <=? 57) || (65 <=? c) && (c <=? 90) || (97 <=? c) && (c <=? 122)
   || (128 <=? c))%Z.

Definition lower_ascii (a : ascii) : ascii :=
  let c := N_of_ascii a in
  if ((65 <=? c) && (c <=? 90))%N then ascii_of_N (c + 32) else a.
Fixpoint lower (s : string) : string :=
  match s with EmptyString => EmptyString | String a s => String (lower_ascii a) (lower s) end.

(** Ranges of the maximal runs of non-space bytes; [start] is the start of
    the current run. *)
Fixpoint runs (off : nat) (start : option nat) (s : string) : list (nat * nat) :=
  match s with
  | EmptyString => match start with Some b => [(b, off)] | None => [] end
  | String a s =>
      if bool_decide (a = " "%char) then
        match start with
        | Some b => (b, off) :: runs (S off) None s
        | None => runs (S off) None s
        end
      else runs (S off) (Some (default off start)) s
  end.

Definition words (text : string) : list (nat * string) :=
  filter (fun p => utf8_ok p.2)
    ((fun r : nat * nat => (r.1, String.substring r.1 (r.2 - r.1) text))
      <$> filter (fun r : nat * nat => r.1 < String.length text) (runs 0 None text)).

Definition stem (_ : Language) (s : string) : string :=
  let n := String.length s in
  if bool_decide (String.substring (n - 1) 1 s = "s") then String.substring 0 (n - 1) s else s.

#[export] Instance lib : TextLib := {
  is_alphanumeric := alnum;
  to_lowercase := lower;
  unicode_word_indices := words;
  snowball_stem := stem;
}.

#[export] Instance laws : TextLibLaws (TL := lib).
Proof.
  split. intros text off w _ Hin. simpl in Hin. unfold words in Hin.
  apply list_elem_of_filter in Hin as [Hok Hin]. simpl in Hok.
  apply list_elem_of_fmap in Hin as ([a b] & [= -> ->] & Hr). cbn [fst snd] in *.
  apply list_elem_of_filter in Hr as [Hr _]. simpl in Hr.
  split_and!; [rewrite substring_length; lia|apply substring_trunc|done].
Qed.
End AsciiText.

(** Every token of the Unicode tokenizer is a non-empty slice of the text
    between its byte offsets, and positions number the tokens from 0; the
    standard pipeline (lowercase, stem) rewrites only the token texts, so its
    tokens keep those spans and positions. *)
Theorem standard_analyzer_spans `{TLL : TextLibLaws} (language : Language)
    (text : string) (i : nat) (t : Token) :
  utf8_ok text -> analyze (analyzer_standard language) text !! i = Some t ->
  tok_position t = i /\
  (tok_start t < tok_end t <= String.length text)%nat /\
  tok_text t = snowball_stem language (to_lowercase (str_slice text (tok_start t) (tok_end t))).
Proof.
  intros Hok. rewrite analyze_standard_spec, list_lookup_fmap_Some.
  intros (t' & -> & Ht). apply tokenize_wf in Ht as (Hp & Hr & Hs); [|done].
  cbn. rewrite Hs. auto.
Qed.

Section Witness.
Import AsciiText.

Lemma standard_analyzer_spans_witness :
  let t := mkToken "shoe" 8 13 1 in
  analyze (analyzer_standard English) "running Shoes!" !! 1 = Some t /\
  (tok_position t = 1 /\ (tok_start t < tok_end t <= 14)%nat /\
   tok_text t = snowball_stem English (to_lowercase (str_slice "running Shoes!" 8 13))).
Proof.
  split; [vm_compute; reflexivity|].
  apply (standard_analyzer_spans English "running Shoes!" 1 (mkToken "shoe" 8 13 1)).
  - vm_decide.
  - vm_compute. reflexivity.
Defined.

End Witness.
