(* ===== verification/Posting.v ===== *)
(** Posting lists ([crates/index/src/posting.rs]): BM25 block maxima, merging
    of the lists of a prefix expansion, and the varint encoding on disk. *)
From Stdlib Require Import Strings.Byte.
From S2P Require Import Prelude Bytes Order Float FloatRound Types.

Local Open Scope Z_scope.

(** ** Data *)
Definition BLOCK_SIZE : nat := 64.
Definition K1 : f32 := f32_lit 12 10.
Definition B : f32 := f32_lit 75 100.

Record Posting := mkPosting {
  p_doc_id : Z;                         (* u32 *)
  p_term_freq : Z;                      (* u8 *)
  p_doc_len : Z;                        (* u16 *)
}.

Record PostingBlock := mkPostingBlock { max_impact : f32 }.

Record PostingList := mkPostingList {
  postings : list Posting;
  blocks : list PostingBlock;
}.

#[global] Instance Posting_eq_dec : EqDecision Posting.
Proof. solve_decision. Defined.
#[global] Instance PostingBlock_eq_dec : EqDecision PostingBlock.
Proof. solve_decision. Defined.
#[global] Instance PostingList_eq_dec : EqDecision PostingList.
Proof. solve_decision. Defined.

Definition posting_wf (p : Posting) : Prop :=
  in_width 32 (p_doc_id p) /\ in_width 8 (p_term_freq p) /\ in_width 16 (p_doc_len p).

#[global] Instance posting_wf_dec p : Decision (posting_wf p) | 100.
Proof. unfold posting_wf. apply _. Defined.

(** ** Operations *)
Definition bm25_impact (tf doc_len : Z) (avgdl : f32) : f32 :=
  let tf := f32_of_Z tf in
  let dl := f32_of_Z doc_len in
  let avgdl := f_max avgdl (f32_of_Z 1) in
  let num := f32_mul tf (f32_add K1 (f32_of_Z 1)) in
  let denom := f32_add tf (f32_mul K1
    (f32_add (f32_sub (f32_of_Z 1) B) (f32_div (f32_mul B dl) avgdl))) in
  f32_div num denom.

Definition pl_new : PostingList := {| postings := []; blocks := [] |}.
Definition pl_add (pl : PostingList) (doc_id term_freq doc_len : Z) : PostingList :=
  {| postings := postings pl ++ [mkPosting doc_id term_freq doc_len]; blocks := blocks pl |}.
Definition pl_len (pl : PostingList) : nat := length (postings pl).
Definition pl_is_empty (pl : PostingList) : bool :=
  match postings pl with [] => true | _ => false end.

Definition div_ceil (a b : nat) : nat := (a + b - 1) / b.

(** The header of block [b]. *)
Definition block_of (ps : list Posting) (avgdl : f32) (b : nat) : PostingBlock :=
  let start := (b * BLOCK_SIZE)%nat in
  let stop := Nat.min (start + BLOCK_SIZE) (length ps) in
  {| max_impact :=
       foldl f_max f_zero
         ((fun p => bm25_impact (p_term_freq p) (p_doc_len p) avgdl)
           <$> take (stop - start) (drop start ps)) |}.

Definition rebuild_blocks (pl : PostingList) (avgdl : f32) : PostingList :=
  let num_blocks := div_ceil (length (postings pl)) BLOCK_SIZE in
  {| postings := postings pl;
     blocks := block_of (postings pl) avgdl <$> iota num_blocks |}.

(** The loop of [merge]; [acc] is the output in reverse, its head is
    [postings.last_mut()]. *)
Fixpoint merge_loop (acc : list Posting) (merged : list Posting) : list Posting :=
  match merged with
  | [] => reverse acc
  | p :: merged =>
      match acc with
      | last :: acc' =>
          if p_doc_id last =? p_doc_id p
          then merge_loop
                 ({| p_doc_id := p_doc_id last;
                     p_term_freq := sat_add 8 (p_term_freq last) (p_term_freq p);
                     p_doc_len := p_doc_len last |} :: acc') merged
          else merge_loop (p :: acc) merged
      | [] => merge_loop [p] merged
      end
  end.

Definition pl_merge `{UO : UnspecifiedOrder} (lists : list PostingList) : PostingList :=
  let merged := sort_unstable_by (cmp_on p_doc_id Z.compare) (lists ≫= postings) in
  {| postings := merge_loop [] merged; blocks := [] |}.

(** [encode_varint]: ten groups of seven bits cover a [u64]. *)
Fixpoint encode_varint_fuel (fuel : nat) (value : Z) : bytes :=
  match fuel with
  | O => []
  | S fuel =>
      let byte := Z.land value 127 in
      let value := Z.shiftr value 7 in
      if negb (value =? 0)
      then byte_of_Z (Z.lor byte 128) :: encode_varint_fuel fuel value
      else [byte_of_Z byte]
  end.
Definition encode_varint (value : Z) : bytes := encode_varint_fuel 10 value.

(** [decode_varint] on the bytes from the offset on: the value and the number
    of bytes read; [None] is the panic of running off the end.  A shift is
    taken modulo 64 as in the release profile. *)
Fixpoint decode_varint_from (data : bytes) (result shift : Z) : option (Z * nat) :=
  match data with
  | [] => None
  | byte :: data =>
      let b := byte_to_Z byte in
      let result := Z.lor result (wrap 64 (Z.shiftl (Z.land b 127) (shift `mod` 64))) in
      if Z.land b 128 =? 0 then Some (result, 1%nat)
      else '(r, n) ← decode_varint_from data result (shift + 7); Some (r, S n)
  end.
Definition decode_varint (data : bytes) (offset : nat) : Result (Z * nat) :=
  match decode_varint_from (drop offset data) 0 0 with
  | Some (v, n) => Ret (v, (offset + n)%nat)
  | None => Panic
  end.

Definition encode_blocks (bs : list PostingBlock) : bytes :=
  bs ≫= (fun b => f32_to_le (max_impact b)).

(** The loop over the postings; [doc_id - prev] wraps at 32 bits. *)
Fixpoint encode_postings (prev : Z) (ps : list Posting) : bytes :=
  match ps with
  | [] => []
  | p :: ps =>
      encode_varint (wrap 32 (p_doc_id p - prev)) ++ encode_varint (p_term_freq p) ++
      encode_varint (p_doc_len p) ++ encode_postings (p_doc_id p) ps
  end.

Definition pl_encode (pl : PostingList) : bytes :=
  encode_varint (Z.of_nat (length (blocks pl))) ++ encode_blocks (blocks pl) ++
  encode_varint (Z.of_nat (length (postings pl))) ++ encode_postings 0 (postings pl).

Fixpoint decode_blocks (n : nat) (data : bytes) (offset : nat)
  : Result (list PostingBlock * nat) :=
  match n with
  | O => Ret ([], offset)
  | S n =>
      bs ← slice data offset (offset + 4);
      '(rest, offset') ← decode_blocks n data (offset + 4);
      Ret (mkPostingBlock (f32_from_le bs) :: rest, offset')
  end.

Fixpoint decode_postings (n : nat) (data : bytes) (offset : nat) (prev : Z)
  : Result (list Posting) :=
  match n with
  | O => Ret []
  | S n =>
      '(delta, o1) ← decode_varint data offset;
      '(tf, o2) ← decode_varint data o1;
      '(dl, o3) ← decode_varint data o2;
      let doc_id := wrap 32 (prev + wrap 32 delta) in
      rest ← decode_postings n data o3 doc_id;
      Ret (mkPosting doc_id (wrap 8 tf) (wrap 16 dl) :: rest)
  end.

Definition pl_decode (data : bytes) : Result PostingList :=
  '(num_blocks, o1) ← decode_varint data 0;
  '(bs, o2) ← decode_blocks (Z.to_nat num_blocks) data o1;
  '(count, o3) ← decode_varint data o2;
  ps ← decode_postings (Z.to_nat count) data o3 0;
  Ret {| postings := ps; blocks := bs |}.

(** ** Varints *)
Lemma lor_add_low a b s : 0 <= s -> 0 <= a < 2 ^ s -> Z.lor a (b * 2 ^ s) = a + b * 2 ^ s.
Proof.
  intros Hs Ha. rewrite <- Z.shiftl_mul_pow2 by done.
  assert (Z.land a (Z.shiftl b s) = 0) as Hl.
  { apply Z.bits_inj'. intros i Hi. rewrite Z.land_spec, Z.bits_0.
    destruct (Z.lt_ge_cases i s).
    - rewrite Z.shiftl_spec_low by lia. apply andb_false_r.
    - destruct (Z.eq_dec a 0) as [->|]; [by rewrite Z.bits_0|].
      rewrite Z.bits_above_log2; [done|lia|].
      apply Z.log2_lt_pow2; [lia|]. apply Z.lt_le_trans with (2 ^ s); [lia|].
      apply Z.pow_le_mono_r; lia. }
  rewrite Z.add_nocarry_lxor by done. by rewrite Z.lxor_lor.
Qed.

Lemma land_127 v : Z.land v 127 = v `mod` 128.
Proof. apply (Z.land_ones v 7). lia. Qed.

Lemma varint_byte_last v :
  0 <= v < 128 -> byte_to_Z (byte_of_Z v) = v /\ Z.land v 128 = 0 /\ Z.land v 127 = v.
Proof.
  intros Hv. rewrite byte_to_of_Z, wrap_id by (unfold in_width; lia).
  split_and!; [done| |rewrite land_127; apply Z.mod_small; lia].
  apply Z.bits_inj'. intros i Hi. rewrite Z.land_spec, Z.bits_0.
  change 128 with (2 ^ 7). rewrite Z.pow2_bits_eqb by lia.
  destruct (Z.eqb_spec 7 i) as [<-|]; [|apply andb_false_r].
  assert (Z.testbit v 7 = false) as ->; [|done].
  apply Z.testbit_false; [lia|]. rewrite Z.div_small by lia. done.
Qed.

Lemma varint_byte_more v :
  0 <= v < 128 ->
  byte_to_Z (byte_of_Z (Z.lor v 128)) = v + 128 /\
  Z.land (v + 128) 128 <> 0 /\ Z.land (v + 128) 127 = v.
Proof.
  intros Hv. change 128 with (1 * 2 ^ 7) at 1. rewrite lor_add_low by lia.
  rewrite byte_to_of_Z, wrap_id by (unfold in_width; lia). split_and!; [lia| |].
  - intros H. apply (f_equal (fun z => Z.testbit z 7)) in H.
    rewrite Z.land_spec, Z.bits_0 in H. change (Z.testbit 128 7) with true in H.
    rewrite andb_true_r in H. apply Z.testbit_false in H; [|lia].
    replace ((v + 128) / 2 ^ 7) with 1 in H by (apply (Z.div_unique _ _ _ v); lia). done.
  - rewrite land_127. symmetry. apply (Z.mod_unique _ _ 1); lia.
Qed.

Lemma decode_varint_from_encode fuel v acc shift rest :
  0 <= v < 2 ^ (7 * Z.of_nat fuel) -> (fuel <> 0)%nat -> 0 <= shift ->
  0 <= acc < 2 ^ shift -> v * 2 ^ shift < 2 ^ 64 -> shift < 64 ->
  decode_varint_from (encode_varint_fuel fuel v ++ rest) acc shift
    = Some (acc + v * 2 ^ shift, length (encode_varint_fuel fuel v)).
Proof.
  revert v acc shift. induction fuel as [|fuel IH]; intros v acc shift Hv Hf Hs Hacc Hv64 Hs64;
    [done|].
  assert (0 < 2 ^ shift) as Hp by (apply Z.pow_pos_nonneg; lia).
  cbn [encode_varint_fuel]. rewrite (Z.shiftr_div_pow2 v 7) by lia. change (2 ^ 7) with 128.
  assert (0 <= Z.land v 127 < 128) as Hlow by (rewrite land_127; apply Z.mod_pos_bound; lia).
  pose proof (Z.div_mod v 128 ltac:(lia)) as Hdm. rewrite <- land_127 in Hdm.
  assert (forall x, 0 <= x <= v -> wrap 64 (Z.shiftl x (shift `mod` 64)) = x * 2 ^ shift) as Hsh.
  { intros x Hx. rewrite (Z.mod_small shift) by lia. rewrite Z.shiftl_mul_pow2 by lia.
    apply wrap_id. unfold in_width. nia. }
  assert (0 <= v / 128) by (apply Z.div_pos; lia).
  destruct (Z.eqb_spec (v / 128) 0) as [E|E]; cbn [negb app decode_varint_from length].
  - destruct (varint_byte_last _ Hlow) as (-> & -> & ->). cbn.
    rewrite Hsh by lia. rewrite lor_add_low by lia. do 3 f_equal. lia.
  - destruct (varint_byte_more _ Hlow) as (-> & Hne & ->).
    destruct (Z.eqb_spec (Z.land (Z.land v 127 + 128) 128) 0); [done|].
    rewrite Hsh by lia. rewrite lor_add_low by lia.
    assert (2 ^ (shift + 7) = 2 ^ shift * 128) as Hp7 by (rewrite Z.pow_add_r by lia; done).
    assert (fuel <> 0)%nat.
    { intros ->. change (2 ^ (7 * Z.of_nat 1)) with 128 in Hv. rewrite Z.div_small in E; lia. }
    rewrite IH; [| |done|lia| | |].
    + cbn. do 2 f_equal. rewrite Hp7. nia.
    + rewrite Nat2Z.inj_succ in Hv. split; [done|]. apply Z.div_lt_upper_bound; [lia|].
      replace (7 * Z.succ (Z.of_nat fuel)) with (7 + 7 * Z.of_nat fuel) in Hv by lia.
      rewrite Z.pow_add_r in Hv by lia. lia.
    + rewrite Hp7. nia.
    + rewrite Hp7. nia.
    + assert (1 * (2 ^ shift * 128) < 2 ^ 64) as Hx by nia.
      rewrite <- Hp7, Z.mul_1_l in Hx. apply Z.pow_lt_mono_r_iff in Hx; lia.
Qed.

Lemma decode_encode_varint pre v rest offset :
  in_width 64 v -> offset = length pre ->
  decode_varint (pre ++ encode_varint v ++ rest) offset
    = Ret (v, (offset + length (encode_varint v))%nat).
Proof.
  intros Hv ->. unfold decode_varint, encode_varint. rewrite drop_app_length. unfold in_width in Hv.
  rewrite decode_varint_from_encode; [|lia|done|lia|lia|lia|lia].
  do 2 f_equal. lia.
Qed.

Lemma decode_encode_varint_0 v rest :
  in_width 64 v ->
  decode_varint (encode_varint v ++ rest) 0 = Ret (v, length (encode_varint v)).
Proof. intros Hv. by apply (decode_encode_varint [] v rest 0). Qed.

(** ** Round trip *)
Lemma encode_postings_decode ps : forall pre prev rest,
  Forall posting_wf ps -> in_width 32 prev ->
  decode_postings (length ps) (pre ++ encode_postings prev ps ++ rest) (length pre) prev
    = Ret ps.
Proof.
  induction ps as [|p ps IH]; intros pre prev rest Hwf Hprev; [done|].
  apply Forall_cons in Hwf as [(Hid & Htf & Hdl) Hwf].
  cbn [encode_postings decode_postings length].
  assert (forall w x, 0 <= w <= 64 -> in_width w x -> in_width 64 x) as Hw.
  { unfold in_width. intros w x Hw [H1 H2]. split; [done|].
    eapply Z.lt_le_trans; [done|]. apply Z.pow_le_mono_r; lia. }
  rewrite <- !app_assoc.
  rewrite decode_encode_varint; [|apply (Hw 32); [lia|apply wrap_in_width; lia]|done].
  cbn [mbind outcome_bind].
  rewrite (app_assoc pre), decode_encode_varint;
    [|apply (Hw 8); [lia|done]|by rewrite length_app].
  cbn [mbind outcome_bind].
  rewrite (app_assoc (pre ++ _)), decode_encode_varint;
    [|apply (Hw 16); [lia|done]|rewrite !length_app; lia].
  cbn [mbind outcome_bind].
  assert (wrap 32 (prev + wrap 32 (wrap 32 (p_doc_id p - prev))) = p_doc_id p) as ->.
  { unfold wrap. rewrite Zmod_mod, Zplus_mod_idemp_r.
    replace (prev + (p_doc_id p - prev)) with (p_doc_id p) by lia. apply Z.mod_small, Hid. }
  rewrite (app_assoc ((pre ++ _) ++ _)).
  match goal with |- context [decode_postings _ (?q ++ _) ?o _] =>
    replace o with (length q) by (rewrite !length_app; lia) end.
  rewrite IH by done. cbn. by rewrite !wrap_id by done; destruct p.
Qed.

Lemma encode_blocks_decode bs : forall pre rest,
  Forall (fun b => f32_valid (max_impact b)) bs ->
  decode_blocks (length bs) (pre ++ encode_blocks bs ++ rest) (length pre)
    = Ret (bs, (length pre + length (encode_blocks bs))%nat).
Proof.
  induction bs as [|b bs IH]; intros pre rest Hv.
  { cbn. do 2 f_equal. lia. }
  apply Forall_cons in Hv as [Hb Hv]. cbn [decode_blocks length encode_blocks].
  change (encode_blocks (b :: bs)) with (f32_to_le (max_impact b) ++ encode_blocks bs).
  assert (length (f32_to_le (max_impact b)) = 4%nat) as Hl by apply length_to_le.
  rewrite <- app_assoc, slice_app_middle by lia. cbn [mbind outcome_bind].
  rewrite (app_assoc pre).
  replace (length pre + 4)%nat with (length (pre ++ f32_to_le (max_impact b)))
    by (rewrite length_app; lia).
  rewrite IH by done. cbn [mbind outcome_bind]. rewrite f32_from_to_le by done.
  rewrite !length_app. destruct b. do 2 f_equal. lia.
Qed.

(** The values a [PostingList] can hold. *)
Definition posting_list_wf (pl : PostingList) : Prop :=
  Forall posting_wf (postings pl) /\ Forall (fun b => f32_valid (max_impact b)) (blocks pl) /\
  in_width 64 (Z.of_nat (length (postings pl))) /\ in_width 64 (Z.of_nat (length (blocks pl))).

Lemma decode_encode_list pl rest :
  posting_list_wf pl -> pl_decode (pl_encode pl ++ rest) = Ret pl.
Proof.
  destruct pl as [ps bs]. intros (Hp & Hb & Hlp & Hlb). unfold pl_decode, pl_encode.
  cbn [postings blocks] in *. rewrite <- !app_assoc.
  rewrite decode_encode_varint_0 by done. cbn [mbind outcome_bind].
  rewrite Nat2Z.id, encode_blocks_decode by done. cbn [mbind outcome_bind].
  rewrite (app_assoc (encode_varint _)), decode_encode_varint; [|done|by rewrite length_app].
  cbn [mbind outcome_bind]. rewrite Nat2Z.id, (app_assoc (_ ++ _)).
  match goal with |- context [decode_postings _ (?q ++ _) ?o _] =>
    replace o with (length q) by (rewrite !length_app; lia) end.
  rewrite encode_postings_decode; [done|done|unfold in_width; lia].
Qed.

Lemma pl_decode_encode pl : posting_list_wf pl -> pl_decode (pl_encode pl) = Ret pl.
Proof. intros H. rewrite <- (app_nil_r (pl_encode pl)). by apply decode_encode_list. Qed.

(** C18: what [encode] writes, [decode] reads back: every posting, unsorted
    lists included, and every block maximum bit for bit. *)
Theorem posting_list_roundtrip pl :
  posting_list_wf pl -> pl_decode (pl_encode pl) = Ret pl.
Proof. apply pl_decode_encode. Qed.

Lemma posting_list_roundtrip_witness :
  let pl := rebuild_blocks (pl_add (pl_add pl_new 7 2 300) 300 255 10) (f32_of_Z 9) in
  length (blocks pl) = 1%nat /\ pl_decode (pl_encode pl) = Ret pl.
Proof.
  split; [vm_compute; reflexivity|].
  apply posting_list_roundtrip. unfold posting_list_wf. split_and!.
  - repeat constructor; vm_decide.
  - unfold rebuild_blocks. repeat constructor.
  - vm_decide.
  - vm_decide.
Defined.

(** ** Merging *)

(** The summed frequency of the postings of a document. *)
Definition tf_sum (id : Z) (ps : list Posting) : Z :=
  foldr (fun p s => (if p_doc_id p =? id then p_term_freq p else 0) + s) 0 ps.

Lemma tf_sum_app id l1 l2 : tf_sum id (l1 ++ l2) = tf_sum id l1 + tf_sum id l2.
Proof. induction l1 as [|p l1 IH]; simpl; [done|]. lia. Qed.

Lemma tf_sum_nonneg id ps : Forall posting_wf ps -> 0 <= tf_sum id ps.
Proof.
  induction 1 as [|p ps (_ & [? _] & _) _ IH]; simpl; [lia|]. destruct (_ =? _); lia.
Qed.

Lemma tf_sum_absent id ps : id ∉ p_doc_id <$> ps -> tf_sum id ps = 0.
Proof.
  induction ps as [|p ps IH]; intros H; simpl; [done|].
  cbn in H. apply not_elem_of_cons in H as [Hne H].
  destruct (Z.eqb_spec (p_doc_id p) id); [congruence|]. by rewrite IH.
Qed.

Lemma tf_sum_perm id l1 l2 : l1 ≡ₚ l2 -> tf_sum id l1 = tf_sum id l2.
Proof. induction 1; simpl; lia. Qed.

(** What a merged list must satisfy with respect to its input. *)
Record merge_spec (input output : list Posting) : Prop := {
  ms_sorted : StronglySorted Z.lt (p_doc_id <$> output);
  ms_ids id : id ∈ p_doc_id <$> output <-> id ∈ p_doc_id <$> input;
  ms_tf p : p ∈ output -> p_term_freq p = Z.min 255 (tf_sum (p_doc_id p) input);
  ms_len p : p ∈ output ->
    exists q, q ∈ input /\ p_doc_id q = p_doc_id p /\ p_doc_len q = p_doc_len p;
}.

(** A posting with a new, larger id is pushed. *)
Lemma merge_spec_push seen out p :
  merge_spec seen out -> posting_wf p ->
  (forall q, q ∈ out -> p_doc_id q < p_doc_id p) ->
  merge_spec (seen ++ [p]) (out ++ [p]).
Proof.
  intros Hacc (_ & [? Htf] & _) Hlt. change (2 ^ 8) with 256 in Htf.
  assert (p_doc_id p ∉ p_doc_id <$> seen) as Hni.
  { intros Hin. apply (ms_ids _ _ Hacc) in Hin.
    apply list_elem_of_fmap in Hin as (q & Hq & Hin). apply Hlt in Hin. lia. }
  split.
  - rewrite fmap_app. apply StronglySorted_app_2; [|apply (ms_sorted _ _ Hacc)|repeat constructor].
    intros x y Hx Hy. apply list_elem_of_fmap in Hx as (q & -> & Hx).
    cbn in Hy. apply list_elem_of_singleton in Hy as ->. by apply Hlt.
  - intros id. rewrite !fmap_app, !elem_of_app. by rewrite (ms_ids _ _ Hacc id).
  - intros q [Hq|Hq]%elem_of_app.
    + rewrite tf_sum_app, (tf_sum_absent _ [p]).
      * rewrite Z.add_0_r. by apply (ms_tf _ _ Hacc).
      * cbn. rewrite list_elem_of_singleton. apply Hlt in Hq. lia.
    + apply list_elem_of_singleton in Hq as ->. rewrite tf_sum_app, tf_sum_absent by done.
      cbn. rewrite Z.eqb_refl. lia.
  - intros q [Hq|Hq]%elem_of_app.
    + apply (ms_len _ _ Hacc) in Hq as (r & ? & ?). exists r. by rewrite elem_of_app; auto.
    + apply list_elem_of_singleton in Hq as ->. exists p. rewrite elem_of_app.
      split; [right; by left|done].
Qed.

(** A posting with the id of the last one is added to it. *)
Lemma merge_spec_bump seen out last p :
  merge_spec seen (out ++ [last]) -> Forall posting_wf seen -> posting_wf p ->
  p_doc_id last = p_doc_id p ->
  merge_spec (seen ++ [p])
    (out ++ [mkPosting (p_doc_id last) (sat_add 8 (p_term_freq last) (p_term_freq p))
                       (p_doc_len last)]).
Proof.
  intros Hacc Hseen (_ & [? _] & _) E. set (upd := mkPosting _ _ _).
  assert (p_doc_id <$> (out ++ [upd]) = p_doc_id <$> (out ++ [last])) as Eids
    by by rewrite !fmap_app.
  assert (forall q, q ∈ out -> p_doc_id q < p_doc_id last) as Hlt.
  { intros q Hq. apply (sorted_snoc_lt (p_doc_id <$> out)); [|by apply list_elem_of_fmap_2].
    pose proof (ms_sorted _ _ Hacc) as Hs. by rewrite fmap_app in Hs. }
  split.
  - rewrite Eids. apply (ms_sorted _ _ Hacc).
  - intros id. rewrite Eids, (ms_ids _ _ Hacc id), fmap_app, elem_of_app. cbn.
    rewrite list_elem_of_singleton. split; [by left|]. intros [?| ->]; [done|].
    apply (ms_ids _ _ Hacc). rewrite fmap_app, elem_of_app. right. cbn. rewrite E. by left.
  - intros q [Hq|Hq]%elem_of_app.
    + rewrite tf_sum_app, (tf_sum_absent _ [p]).
      * rewrite Z.add_0_r. apply (ms_tf _ _ Hacc). apply elem_of_app. by left.
      * cbn. rewrite list_elem_of_singleton. apply Hlt in Hq. lia.
    + apply list_elem_of_singleton in Hq as ->. unfold upd. cbn [p_term_freq p_doc_id].
      rewrite (ms_tf _ _ Hacc last) by (apply elem_of_app; right; by left).
      rewrite tf_sum_app. cbn [tf_sum foldr]. rewrite <- E, Z.eqb_refl.
      pose proof (tf_sum_nonneg (p_doc_id last) seen Hseen).
      unfold sat_add. change (2 ^ 8 - 1) with 255. lia.
  - intros q [Hq|Hq]%elem_of_app.
    + destruct (ms_len _ _ Hacc q) as (r & ? & ?); [apply elem_of_app; by left|].
      exists r. by rewrite elem_of_app; auto.
    + apply list_elem_of_singleton in Hq as ->. unfold upd. cbn [p_doc_id p_doc_len].
      destruct (ms_len _ _ Hacc last) as (r & ? & ?); [apply elem_of_app; right; by left|].
      exists r. by rewrite elem_of_app; auto.
Qed.

(** [acc], the output so far in reverse, is the merge of [seen]. *)
Lemma merge_loop_spec merged : forall acc seen,
  merge_spec seen (reverse acc) -> Forall posting_wf (seen ++ merged) ->
  StronglySorted (cmp_le (cmp_on p_doc_id Z.compare)) (seen ++ merged) ->
  merge_spec (seen ++ merged) (merge_loop acc merged).
Proof.
  induction merged as [|p merged IH]; intros acc seen Hacc Hwf Hs.
  { by rewrite app_nil_r. }
  assert (Forall posting_wf seen /\ posting_wf p) as [Hwseen Hwp].
  { apply Forall_app in Hwf as [? [? ?]%Forall_cons]. done. }
  assert (forall q, q ∈ reverse acc -> p_doc_id q <= p_doc_id p) as Hle.
  { intros q Hq. apply (list_elem_of_fmap_2 p_doc_id), (ms_ids _ _ Hacc) in Hq.
    apply list_elem_of_fmap in Hq as (r & -> & Hq).
    assert (cmp_le (cmp_on p_doc_id Z.compare) r p) as Hc.
    { eapply (StronglySorted_take_drop _ (length seen)); [done| |].
      - by rewrite take_app_length.
      - rewrite drop_app_length. by left. }
    unfold cmp_le, cmp_on in Hc. by apply Z.compare_le_iff in Hc. }
  rewrite cons_middle, app_assoc in Hwf, Hs |- *.
  cbn [merge_loop]. destruct acc as [|last acc'].
  { apply IH; [|done|done]. apply (merge_spec_push seen []); [done|done|].
    intros q Hq. by apply elem_of_nil in Hq. }
  rewrite reverse_cons in Hacc, Hle.
  destruct (Z.eqb_spec (p_doc_id last) (p_doc_id p)) as [E|E]; (apply IH; [|done|done]).
  - rewrite reverse_cons. by apply merge_spec_bump.
  - rewrite reverse_cons, reverse_cons. apply merge_spec_push; [done|done|].
    pose proof (Hle last ltac:(apply elem_of_app; right; by left)) as Hl.
    intros q [Hq|Hq]%elem_of_app.
    + pose proof (ms_sorted _ _ Hacc) as Hss. rewrite fmap_app in Hss.
      apply (list_elem_of_fmap_2 p_doc_id) in Hq.
      pose proof (sorted_snoc_lt _ _ _ Hss Hq). lia.
    + apply list_elem_of_singleton in Hq as ->. lia.
Qed.

Lemma merge_spec_perm l1 l2 out : l1 ≡ₚ l2 -> merge_spec l1 out -> merge_spec l2 out.
Proof.
  intros Hp [H1 H2 H3 H4]. split.
  - done.
  - intros id. by rewrite H2, Hp.
  - intros p Hin. rewrite H3 by done. by rewrite (tf_sum_perm _ _ _ Hp).
  - intros p Hin. destruct (H4 p Hin) as (q & Hq & ?). exists q. by rewrite <- Hp.
Qed.

Lemma pl_merge_spec `{UnspecifiedOrderLaws} lists :
  Forall posting_wf (lists ≫= postings) ->
  merge_spec (lists ≫= postings) (postings (pl_merge lists)).
Proof.
  intros Hwf. set (cmp := cmp_on p_doc_id Z.compare).
  pose proof (sort_unstable_perm cmp (lists ≫= postings)) as Hp.
  eapply merge_spec_perm; [apply Hp|]. unfold pl_merge. cbn [postings]. fold cmp.
  apply (merge_loop_spec _ [] []); cbn [app].
  - split; cbn.
    + constructor.
    + done.
    + intros p Hin. by apply elem_of_nil in Hin.
    + intros p Hin. by apply elem_of_nil in Hin.
  - by rewrite Hp.
  - apply (sort_unstable_sorted (fun _ => True)); [|by apply Forall_true].
    exact (cmp_on_preorder p_doc_id (fun _ => True) Z.compare _).
Qed.

(** merging the lists of a prefix expansion gives one posting per document
    of the inputs, in strictly increasing id order whatever order the unstable
    sort leaves equal ids in; its frequency is the sum of the document's
    frequencies saturated at 255 and its length is that of one of them. *)
Theorem pl_merge_correct `{UnspecifiedOrderLaws} (lists : list PostingList) :
  Forall posting_wf (lists ≫= postings) ->
  let out := postings (pl_merge lists) in
  StronglySorted Z.lt (p_doc_id <$> out) /\
  (forall id, id ∈ p_doc_id <$> out <-> id ∈ p_doc_id <$> (lists ≫= postings)) /\
  (forall p, p ∈ out ->
     p_term_freq p = Z.min 255 (tf_sum (p_doc_id p) (lists ≫= postings)) /\
     exists q, q ∈ lists ≫= postings /\ p_doc_id q = p_doc_id p /\ p_doc_len q = p_doc_len p).
Proof.
  intros Hwf. destruct (pl_merge_spec lists Hwf) as [H1 H2 H3 H4].
  split_and!; [done|done|]. intros p Hp. split; [by apply H3|by apply H4].
Qed.

Section MergeWitness.
Import StableOrder.

Lemma pl_merge_correct_witness :
  let l1 := {| postings := [mkPosting 1 200 5; mkPosting 3 1 6]; blocks := [] |} in
  let l2 := {| postings := [mkPosting 1 100 5; mkPosting 2 4 9]; blocks := [] |} in
  postings (pl_merge [l1; l2]) = [mkPosting 1 255 5; mkPosting 2 4 9; mkPosting 3 1 6] /\
  StronglySorted Z.lt (p_doc_id <$> postings (pl_merge [l1; l2])).
Proof.
  intros l1 l2. split; [vm_compute; reflexivity|].
  apply (pl_merge_correct [l1; l2]). repeat constructor; vm_decide.
Defined.

End MergeWitness.

(** ** Block maxima *)

Lemma foldl_f_max_ge l : forall acc x,
  f_nan acc = false -> Forall (fun y => f_nan y = false) l ->
  x = acc \/ x ∈ l -> f_le x (foldl f_max acc l) = true.
Proof.
  induction l as [|y l IH]; intros acc x Ha Hl Hx; cbn [foldl].
  - destruct Hx as [->|Hx%elem_of_nil]; [|done].
    pose proof (f_max_le_l acc acc Ha Ha) as Hm. unfold f_max in Hm. rewrite Ha in Hm.
    by destruct (f_lt acc acc).
  - apply Forall_cons in Hl as [Hy Hl].
    assert (f_nan (f_max acc y) = false) as Hm by by apply f_max_nan.
    assert (f_nan (foldl f_max (f_max acc y) l) = false) as Hf.
    { clear -Hm. revert Hm. generalize (f_max acc y).
      induction l as [|z l IH]; intros a Ha; [done|]. cbn. by apply IH, f_max_nan. }
    destruct Hx as [->|[->|Hx]%elem_of_cons].
    + eapply f_le_trans; [..|apply (IH (f_max acc y)); auto]; auto. by apply f_max_le_l.
    + eapply f_le_trans; [..|apply (IH (f_max acc y)); auto]; auto. by apply f_max_le_r.
    + apply IH; auto.
Qed.

Lemma div_ceil_spec a b i : (0 < b)%nat -> (i < div_ceil a b <-> i * b < a)%nat.
Proof.
  intros Hb. unfold div_ceil. split; intros H.
  - assert (i * b + b <= a + b - 1)%nat; [|lia].
    pose proof (Nat.Div0.mul_div_le (a + b - 1) b). nia.
  - apply Nat.div_le_lower_bound; [lia|]. nia.
Qed.

(** [rebuild_blocks] has one header per 64 postings, and the header of
    block [i / 64] bounds the impact of posting [i] (whenever no impact of the
    list is NaN): the bound Block-Max WAND skips on. *)
Theorem rebuild_blocks_bound (pl : PostingList) (avgdl : f32) (i : nat) (p : Posting) :
  Forall (fun q => f_nan (bm25_impact (p_term_freq q) (p_doc_len q) avgdl) = false)
    (postings pl) ->
  postings pl !! i = Some p ->
  exists b, blocks (rebuild_blocks pl avgdl) !! (i / BLOCK_SIZE)%nat = Some b /\
    f_le (bm25_impact (p_term_freq p) (p_doc_len p) avgdl) (max_impact b) = true.
Proof.
  intros Hnan Hi. pose proof (lookup_lt_Some _ _ _ Hi) as Hlt.
  exists (block_of (postings pl) avgdl (i / BLOCK_SIZE)). unfold rebuild_blocks. cbn [blocks].
  pose proof (Nat.div_mod i BLOCK_SIZE ltac:(done)) as Hdm.
  pose proof (Nat.mod_upper_bound i BLOCK_SIZE ltac:(done)) as Hmod. split.
  - apply list_lookup_fmap_Some. exists (i / BLOCK_SIZE)%nat. split; [done|].
    apply lookup_seq. split; [lia|]. apply div_ceil_spec; [unfold BLOCK_SIZE; lia|]. lia.
  - unfold block_of. cbn [max_impact]. apply foldl_f_max_ge; [done| |].
    + apply Forall_fmap, Forall_take, Forall_drop. done.
    + right. apply list_elem_of_fmap. exists p. split; [done|].
      apply list_elem_of_lookup. exists (i mod BLOCK_SIZE)%nat.
      rewrite lookup_take_lt by (unfold BLOCK_SIZE in *; lia).
      rewrite lookup_drop, <- Hi. f_equal. unfold BLOCK_SIZE in *. lia.
Qed.

Lemma rebuild_blocks_bound_witness :
  let pl := pl_add (pl_add pl_new 0 1 3) 1 1 20 in
  exists b, blocks (rebuild_blocks pl (f32_of_Z 10)) !! 0%nat = Some b /\
    f_le (bm25_impact 1 20 (f32_of_Z 10)) (max_impact b) = true.
Proof.
  apply (rebuild_blocks_bound (pl_add (pl_add pl_new 0 1 3) 1 1 20) (f32_of_Z 10) 1
           (mkPosting 1 1 20)).
  - repeat constructor.
  - reflexivity.
Defined.
