(* ===== verification/Disk.v ===== *)
(** The file system, and the binary formats of third-party crates.

    A [Disk] has files and directories; [IO] computations thread it, and keep
    its changes when they fail, as the source's [?] does.  The only I/O error
    modelled is a missing file or parent directory.  The serialisation crates
    (bincode, serde_json) and the roaring bitmap are interfaces with their
    documented laws, each with an instance to evaluate with. *)
From Stdlib Require Import Strings.Byte Floats.SpecFloat.
From S2P Require Import Prelude Bytes Order Float Types.

Local Open Scope Z_scope.

(** ** The file system *)
Abbreviation path := (list string).

Record Disk := mkDisk {
  dk_files : gmap path bytes;
  dk_dirs : gset path;
}.

Definition disk_empty : Disk := {| dk_files := ∅; dk_dirs := ∅ |}.

#[global] Instance Disk_eq_dec : EqDecision Disk.
Proof. solve_decision. Defined.

(** [dir.join(name)]. *)
Definition join (dir : path) (name : string) : path := dir ++ [name].
Definition parent (p : path) : path := take (length p - 1) p.

Definition IO (A : Type) : Type := Disk -> Disk * Result A.
#[global] Instance IO_ret : MRet IO := fun A a d => (d, Ret a).
#[global] Instance IO_bind : MBind IO := fun A B f m d =>
  match m d with
  | (d, Ret a) => f a d
  | (d, Fail e) => (d, Fail e)
  | (d, Panic) => (d, Panic)
  end.

(** A computation that does not touch the disk. *)
Definition lift {A} (r : Result A) : IO A := fun d => (d, r).

Definition not_found : Error := EIo "No such file or directory".
Definition invalid_data : Error := EIo "invalid data".

(** [fs::create_dir_all], [fs::write], [fs::read], [Path::exists] of a file,
    [fs::remove_dir_all], [fs::read_dir] (the directories only, in the order
    of the file system). *)
Definition prefixes (p : path) : list path := (fun n => take n p) <$> seq 1 (length p).
Definition create_dir_all (p : path) : IO unit := fun d =>
  ({| dk_files := dk_files d; dk_dirs := dk_dirs d ∪ list_to_set (prefixes p) |}, Ret tt).
Definition fs_write (p : path) (b : bytes) : IO unit := fun d =>
  if bool_decide (parent p ∈ dk_dirs d)
  then ({| dk_files := <[p := b]> (dk_files d); dk_dirs := dk_dirs d |}, Ret tt)
  else (d, Fail not_found).
Definition fs_read (p : path) : IO bytes := fun d =>
  (d, ok_or not_found (dk_files d !! p)).
Definition fs_exists (p : path) : IO bool := fun d =>
  (d, Ret (bool_decide (is_Some (dk_files d !! p)))).
Definition under (dir p : path) : Prop := take (length dir) p = dir.
#[global] Instance under_dec dir p : Decision (under dir p) | 100.
Proof. unfold under. apply _. Defined.
Definition remove_dir_all (dir : path) : IO unit := fun d =>
  if bool_decide (dir ∈ dk_dirs d)
  then ({| dk_files := filter (fun kv => ~ under dir kv.1) (dk_files d);
           dk_dirs := filter (fun p => ~ under dir p) (dk_dirs d) |}, Ret tt)
  else (d, Fail not_found).
Definition subdirs (dir : path) (d : Disk) : list string :=
  omap (fun p => if bool_decide (parent p = dir /\ p <> []) then last p else None)
    (elements (dk_dirs d)).

(** [for x in l { s = f(s, x)?; }] with effects. *)
Fixpoint io_fold {S A} (f : S -> A -> IO S) (s : S) (l : list A) : IO S :=
  match l with
  | [] => mret s
  | x :: l => s' ← f s x; io_fold f s' l
  end.

(** The result of a computation from a disk, and the disk it leaves. *)
Definition result_of {A} (m : IO A) (d : Disk) : Result A := (m d).2.
Definition disk_of {A} (m : IO A) (d : Disk) : Disk := (m d).1.

Lemma io_bind_ret {A B} (m : IO A) (f : A -> IO B) d d' a :
  m d = (d', Ret a) -> (m ≫= f) d = f a d'.
Proof. unfold mbind, IO_bind. by intros ->. Qed.

Lemma io_bind_ret_inv {A B} (m : IO A) (f : A -> IO B) d d' b :
  (m ≫= f) d = (d', Ret b) -> exists d1 a, m d = (d1, Ret a) /\ f a d1 = (d', Ret b).
Proof. unfold mbind, IO_bind. destruct (m d) as [d1 [a|e|]]; naive_solver. Qed.

Lemma parent_join dir name : parent (join dir name) = dir.
Proof.
  unfold parent, join. rewrite length_app. simpl.
  replace (_ - 1)%nat with (length dir) by lia. apply take_app_length.
Qed.

Lemma join_inj dir dir' a b : join dir a = join dir' b -> dir = dir' /\ a = b.
Proof. unfold join. intros [-> H]%app_inj_2; [|done]. by simplify_eq. Qed.

Lemma elem_of_prefixes_self p : p <> [] -> p ∈ prefixes p.
Proof.
  intros Hp. apply list_elem_of_fmap. exists (length p). rewrite firstn_all. split; [done|].
  apply elem_of_seq. destruct p; [done|]. simpl. lia.
Qed.

Lemma create_dir_all_spec p d :
  exists d', create_dir_all p d = (d', Ret tt) /\ dk_files d' = dk_files d /\
    dk_dirs d ⊆ dk_dirs d' /\ (p <> [] -> p ∈ dk_dirs d').
Proof.
  eexists. split; [reflexivity|]. cbn. split_and!; [done|set_solver|].
  intros Hp. pose proof (elem_of_prefixes_self p Hp). set_solver.
Qed.

Lemma fs_write_spec dir name b d :
  dir ∈ dk_dirs d ->
  fs_write (join dir name) b d
    = ({| dk_files := <[join dir name := b]> (dk_files d); dk_dirs := dk_dirs d |}, Ret tt).
Proof. intros H. unfold fs_write. rewrite parent_join. by rewrite bool_decide_true. Qed.

Lemma fs_read_spec p b d : dk_files d !! p = Some b -> fs_read p d = (d, Ret b).
Proof. intros H. unfold fs_read. by rewrite H. Qed.

(** *** Computations that only read the files of a directory *)
Definition same_dir (dir : path) (d d' : Disk) : Prop :=
  forall n, dk_files d' !! join dir n = dk_files d !! join dir n.

Definition reads {A} (dir : path) (m : IO A) : Prop :=
  forall d d', same_dir dir d d' -> m d = (d, (m d).2) /\ m d' = (d', (m d).2).

Lemma reads_lift {A} dir (r : Result A) : reads dir (lift r).
Proof. by intros d d' _. Qed.
Lemma reads_ret {A} dir (a : A) : reads dir (mret a : IO A).
Proof. by intros d d' _. Qed.
Lemma reads_read dir n : reads dir (fs_read (join dir n)).
Proof. intros d d' H. unfold fs_read. by rewrite (H n). Qed.
Lemma reads_exists dir n : reads dir (fs_exists (join dir n)).
Proof. intros d d' H. unfold fs_exists. by rewrite (H n). Qed.
Lemma reads_bind {A B} dir (m : IO A) (f : A -> IO B) :
  reads dir m -> (forall a, reads dir (f a)) -> reads dir (m ≫= f).
Proof.
  intros Hm Hf d d' H. destruct (Hm d d' H) as [H1 H2].
  unfold mbind, IO_bind. rewrite H1, H2. cbn [snd].
  destruct ((m d).2) as [a|e|]; [|done|done]. by apply Hf.
Qed.
#[export] Hint Resolve reads_lift reads_ret reads_read reads_exists reads_bind : zearch.

Lemma reads_frame {A} dir (m : IO A) d d' a :
  reads dir m -> same_dir dir d d' -> m d = (d, Ret a) -> m d' = (d', Ret a).
Proof. intros Hm Hd Ha. destruct (Hm d d' Hd) as [_ ->]. by rewrite Ha. Qed.

(** ** bincode and serde_json *)
Class Serde (A : Type) := {
  serialize : A -> Result bytes;
  deserialize : bytes -> Result A;
}.
Class SerdeLaws (A : Type) `{SD : Serde A} : Prop := {
  serde_roundtrip (a : A) : exists b, serialize a = Ret b /\ deserialize b = Ret a;
}.

(** An encoding of any countable type, used as the instance. *)
Fixpoint bits_of (p : positive) : bytes :=
  match p with
  | xH => []
  | xO p => x00 :: bits_of p
  | xI p => x01 :: bits_of p
  end.
Fixpoint of_bits (b : bytes) : option positive :=
  match b with
  | [] => Some xH
  | x00 :: b => xO <$> of_bits b
  | x01 :: b => xI <$> of_bits b
  | _ => None
  end.

Lemma of_bits_of p : of_bits (bits_of p) = Some p.
Proof. induction p as [p IH|p IH|]; simpl; [by rewrite IH|by rewrite IH|done]. Qed.

Module CountableSerde.
#[export] Instance serde A `{Countable A} : Serde A := {
  serialize a := Ret (bits_of (encode a));
  deserialize b := ok_or invalid_data (of_bits b ≫= decode);
}.
#[export] Instance laws A `{Countable A} : SerdeLaws A.
Proof.
  split. intros a. eexists. split; [reflexivity|]. simpl.
  rewrite of_bits_of. simpl. by rewrite decode_encode.
Qed.
End CountableSerde.

#[global] Instance spec_float_countable : Countable spec_float.
Proof.
  refine (inj_countable'
    (fun x => match x with
      | S754_zero s => inl (inl s) | S754_infinity s => inl (inr s)
      | S754_nan => inr (inl tt) | S754_finite s m e => inr (inr (s, m, e))
      end : (bool + bool) + (unit + (bool * positive * Z)))
    (fun x => match x with
      | inl (inl s) => S754_zero s | inl (inr s) => S754_infinity s
      | inr (inl _) => S754_nan | inr (inr (s, m, e)) => S754_finite s m e
      end) _). by intros [].
Defined.
#[global] Instance Value_countable : Countable Value.
Proof.
  refine (inj_countable'
    (fun x => match x with
      | VString s => inl (inl s) | VNumber n => inl (inr n)
      | VBool b => inr (inl b) | VStringArray l => inr (inr l)
      end : (string + spec_float) + (bool + list string))
    (fun x => match x with
      | inl (inl s) => VString s | inl (inr n) => VNumber n
      | inr (inl b) => VBool b | inr (inr l) => VStringArray l
      end) _). by intros [].
Defined.
#[global] Instance Document_countable : Countable Document.
Proof.
  refine (inj_countable'
    (fun d => (doc_id d, doc_title d, doc_description d, doc_price d, doc_category d,
               doc_attributes d))
    (fun '(i, t, de, p, c, a) => mkDocument i t de p c a) _). by intros [].
Defined.

(** ** Roaring bitmaps: sets of [u32] *)
Class RoaringLib := {
  RoaringBitmap : Type;
  rb_new : RoaringBitmap;
  rb_insert : Z -> RoaringBitmap -> RoaringBitmap;
  rb_contains : RoaringBitmap -> Z -> bool;
  rb_len : RoaringBitmap -> nat;
  rb_iter : RoaringBitmap -> list Z;
  rb_sub : RoaringBitmap -> RoaringBitmap -> RoaringBitmap;     (* a -= b *)
  rb_and : RoaringBitmap -> RoaringBitmap -> RoaringBitmap;     (* a &= b *)
  rb_or : RoaringBitmap -> RoaringBitmap -> RoaringBitmap;      (* a |= b *)
  rb_serde :: Serde RoaringBitmap;
}.

Class RoaringLaws `{RL : RoaringLib} : Prop := {
  rb_contains_new x : rb_contains rb_new x = false;
  rb_contains_insert x b y : rb_contains (rb_insert x b) y = (x =? y) || rb_contains b y;
  rb_contains_sub a b x : rb_contains (rb_sub a b) x = rb_contains a x && negb (rb_contains b x);
  rb_contains_and a b x : rb_contains (rb_and a b) x = rb_contains a x && rb_contains b x;
  rb_contains_or a b x : rb_contains (rb_or a b) x = rb_contains a x || rb_contains b x;
  rb_iter_sorted b : StronglySorted Z.lt (rb_iter b);
  rb_elem_of_iter b x : x ∈ rb_iter b <-> rb_contains b x = true;
  rb_len_iter b : rb_len b = length (rb_iter b);
  rb_roundtrip b :
    exists bs b', serialize b = Ret bs /\ deserialize bs = Ret b' /\
      forall x, rb_contains b' x = rb_contains b x;
}.

Section Roaring.
Context `{RLL : RoaringLaws}.

Definition rb_is_empty (b : RoaringBitmap) : bool := (rb_len b =? 0)%nat.
Definition rb_from (l : list Z) : RoaringBitmap := foldl (fun b x => rb_insert x b) rb_new l.

Lemma rb_contains_foldl l b x :
  rb_contains (foldl (fun b x => rb_insert x b) b l) x = true
    <-> x ∈ l \/ rb_contains b x = true.
Proof.
  revert b. induction l as [|y l IH]; intros b; cbn [foldl].
  - split; [by right|]. intros [?%elem_of_nil|]; done.
  - rewrite IH, rb_contains_insert, elem_of_cons, orb_true_iff, Z.eqb_eq. naive_solver.
Qed.

Lemma rb_contains_from l x : rb_contains (rb_from l) x = true <-> x ∈ l.
Proof. unfold rb_from. rewrite rb_contains_foldl, rb_contains_new. naive_solver. Qed.

Lemma rb_is_empty_iff b : rb_is_empty b = true <-> forall x, rb_contains b x = false.
Proof.
  unfold rb_is_empty. rewrite Nat.eqb_eq, rb_len_iter. split.
  - intros H%length_zero_iff_nil x. apply not_true_is_false.
    rewrite <- rb_elem_of_iter, H. apply not_elem_of_nil.
  - intros H. destruct (rb_iter b) as [|x l] eqn:E; [done|].
    specialize (H x). assert (rb_contains b x = true); [|congruence].
    apply rb_elem_of_iter. rewrite E. by left.
Qed.

(** Two bitmaps with the same elements have the same iteration. *)
Lemma rb_iter_ext a b :
  (forall x, rb_contains a x = rb_contains b x) -> rb_iter a = rb_iter b.
Proof.
  intros H. apply (StronglySorted_unique_strong Z.lt).
  - intros x1 x2 _ _ ? ?. lia.
  - apply rb_iter_sorted.
  - apply rb_iter_sorted.
  - apply NoDup_Permutation.
    + apply sorted_lt_NoDup, rb_iter_sorted.
    + apply sorted_lt_NoDup, rb_iter_sorted.
    + intros x. by rewrite !rb_elem_of_iter, H.
Qed.
End Roaring.

(** The instance: finite sets of integers. *)
Module SetRoaring.
#[export] Instance lib : RoaringLib := {
  RoaringBitmap := gset Z;
  rb_new := ∅;
  rb_insert x b := {[x]} ∪ b;
  rb_contains b x := bool_decide (x ∈ b);
  rb_len b := size b;
  rb_iter b := sort_by Z.compare (elements b);
  rb_sub a b := a ∖ b;
  rb_and a b := a ∩ b;
  rb_or a b := a ∪ b;
  rb_serde := CountableSerde.serde (gset Z);
}.
#[export] Instance laws : RoaringLaws (RL := lib).
Proof.
  split; simpl.
  - intros x. by apply bool_decide_false, not_elem_of_empty.
  - intros x b y. apply eq_true_iff_eq. rewrite orb_true_iff, Z.eqb_eq, !bool_decide_eq_true.
    set_solver.
  - intros a b x. apply eq_true_iff_eq.
    rewrite andb_true_iff, negb_true_iff, !bool_decide_eq_true, bool_decide_eq_false. set_solver.
  - intros a b x. apply eq_true_iff_eq. rewrite andb_true_iff, !bool_decide_eq_true. set_solver.
  - intros a b x. apply eq_true_iff_eq. rewrite orb_true_iff, !bool_decide_eq_true. set_solver.
  - intros b. assert (StronglySorted (cmp_le Z.compare) (sort_by Z.compare (elements b))) as Hs.
    { apply (sort_by_sorted _ (fun _ => True)). by apply Forall_true. }
    assert (NoDup (sort_by Z.compare (elements b))) as Hn.
    { rewrite sort_by_perm. apply NoDup_elements. }
    induction Hs as [|x l Hs IH Hx]; [constructor|].
    apply NoDup_cons in Hn as [Hxl Hn]. constructor; [by apply IH|].
    apply Forall_forall. intros y Hy. pose proof (proj1 (Forall_forall _ _) Hx y Hy) as Hxy.
    unfold cmp_le in Hxy. apply -> Z.compare_le_iff in Hxy.
    assert (x <> y) by (intros ->; done). lia.
  - intros b x. by rewrite elem_of_sort_by, elem_of_elements, bool_decide_eq_true.
  - intros b. by rewrite length_sort_by.
  - intros b. destruct (CountableSerde.laws (gset Z)) as [Hrt]. destruct (Hrt b) as (bs & H1 & H2). by exists bs, b.
Qed.
End SetRoaring.
