(* ===== verification/EditDistance.v ===== *)
(** Edit distance: the dynamic program of [crates/query/src/executor.rs]
    computes the least number of insertions, deletions and substitutions
    between two words.  The reference [lev] is also what the laws of the
    Levenshtein automaton of the term dictionary speak about. *)
From S2P Require Import Prelude Bytes Order Text.

(** ** Specification: alignments and their cost *)
Inductive edits {A} : list A -> list A -> nat -> Prop :=
  | ed_nil : edits [] [] 0
  | ed_keep x a b n : edits a b n -> edits (x :: a) (x :: b) n
  | ed_subst x y a b n : edits a b n -> edits (x :: a) (y :: b) (S n)
  | ed_delete x a b n : edits a b n -> edits (x :: a) b (S n)
  | ed_insert y a b n : edits a b n -> edits a (y :: b) (S n).

(** The recursive distance. *)
Fixpoint lev (a : list Z) : list Z -> nat :=
  match a with
  | [] => fun b => length b
  | x :: a' =>
      fix lev_a (b : list Z) : nat :=
        match b with
        | [] => S (length a')
        | y :: b' =>
            if bool_decide (x = y) then lev a' b'
            else S (Nat.min (Nat.min (lev a' b) (lev_a b')) (lev a' b'))
        end
  end.

Lemma lev_nil_r a : lev a [] = length a.
Proof. by destruct a. Qed.

Lemma lev_cons x a y b :
  lev (x :: a) (y :: b) =
    if bool_decide (x = y) then lev a b
    else S (Nat.min (Nat.min (lev a (y :: b)) (lev (x :: a) b)) (lev a b)).
Proof. done. Qed.

(** Adding or dropping one letter changes the distance by at most one. *)
Lemma lev_step s : forall a b x y, (length a + length b <= s)%nat ->
  (lev a b <= S (lev (x :: a) b) /\ lev a b <= S (lev a (y :: b)) /\
   lev (x :: a) b <= S (lev a b) /\ lev a (y :: b) <= S (lev a b))%nat.
Proof.
  induction s as [|s IH]; intros a b x y Hs.
  { destruct a, b; simpl in Hs; try lia. simpl. lia. }
  destruct a as [|x' a], b as [|y' b].
  - simpl. lia.
  - rewrite lev_cons. cbn [length] in Hs. specialize (IH [] b x y ltac:(simpl; lia)).
    change (lev [] (y' :: b)) with (S (length b)) in *.
    change (lev [] (y :: y' :: b)) with (S (S (length b))) in *.
    change (lev [] b) with (length b) in *. case_bool_decide; lia.
  - rewrite lev_cons. cbn [length] in Hs. specialize (IH a [] x y ltac:(simpl; lia)).
    rewrite !lev_nil_r in *. cbn [length] in *. case_bool_decide; lia.
  - cbn [length] in Hs.
    pose proof (IH a (y' :: b) x' y ltac:(simpl; lia)) as H1.
    pose proof (IH (x' :: a) b x y' ltac:(simpl; lia)) as H2.
    pose proof (IH a b x' y' ltac:(lia)) as H3.
    rewrite (lev_cons x), (lev_cons x' a y (y' :: b)).
    repeat case_bool_decide; subst; lia.
Qed.

Lemma lev_edits a b : edits a b (lev a b).
Proof.
  revert b. induction a as [|x a IHa]; intros b.
  - simpl. induction b; simpl; by constructor.
  - induction b as [|y b IHb].
    + rewrite lev_nil_r. clear IHa. simpl. constructor. induction a; simpl; by constructor.
    + rewrite lev_cons. case_bool_decide; [subst; by constructor|].
      destruct (Nat.min_dec (Nat.min (lev a (y :: b)) (lev (x :: a) b)) (lev a b)) as [-> | ->];
        [|by constructor].
      destruct (Nat.min_dec (lev a (y :: b)) (lev (x :: a) b)) as [-> | ->]; by constructor.
Qed.

Lemma lev_minimal a b n : edits a b n -> (lev a b <= n)%nat.
Proof.
  induction 1 as [|x a b n _ IH|x y a b n _ IH|x a b n _ IH|y a b n _ IH].
  - done.
  - by rewrite lev_cons, bool_decide_true.
  - rewrite lev_cons. case_bool_decide; lia.
  - pose proof (lev_step _ a b x 0%Z (le_n _)). lia.
  - pose proof (lev_step _ a b 0%Z y (le_n _)). lia.
Qed.

Lemma edits_app {A} (a b a' b' : list A) n n' :
  edits a b n -> edits a' b' n' -> edits (a ++ a') (b ++ b') (n + n').
Proof. intros H H'. induction H; simpl; [done| | | |]; by constructor. Qed.

Lemma edits_reverse {A} (a b : list A) n : edits a b n -> edits (reverse a) (reverse b) n.
Proof.
  induction 1 as [|x a b n _ IH|x y a b n _ IH|x a b n _ IH|y a b n _ IH];
    rewrite ?reverse_cons; [constructor|..].
  - rewrite <- (Nat.add_0_r n). apply edits_app; [done|]. by repeat constructor.
  - rewrite <- Nat.add_1_r. apply edits_app; [done|]. by repeat constructor.
  - rewrite <- Nat.add_1_r, <- (app_nil_r (reverse b)).
    apply edits_app; [done|]. by repeat constructor.
  - rewrite <- Nat.add_1_r, <- (app_nil_r (reverse a)).
    apply edits_app; [done|]. by repeat constructor.
Qed.

Lemma lev_reverse a b : lev (reverse a) (reverse b) = lev a b.
Proof.
  apply Nat.le_antisymm; apply lev_minimal.
  - apply edits_reverse, lev_edits.
  - pose proof (edits_reverse _ _ _ (lev_edits (reverse a) (reverse b))) as H.
    by rewrite !reverse_involutive in H.
Qed.

(** ** The table of [edit_distance] *)

(** Row [i] from row [i-1]: [diag], [left] and the head of [up] are
    [dp\[i-1\]\[j-1\]], [dp\[i\]\[j-1\]] and [dp\[i-1\]\[j\]]. *)
Fixpoint dp_row (ai : Z) (diag left : nat) (up : list nat) (b : list Z) : list nat :=
  match b, up with
  | bj :: b, u :: up =>
      let v := if bool_decide (ai = bj) then diag
               else (1 + Nat.min (Nat.min u left) diag)%nat in
      v :: dp_row ai u v up b
  | _, _ => []
  end.

(** The rows [i+1..m] below row [i] ([prev]); the result is row [m]. *)
Fixpoint dp_rows (i : nat) (prev : list nat) (a b : list Z) : list nat :=
  match a with
  | [] => prev
  | ai :: a =>
      let row :=
        match prev with
        | diag :: up => S i :: dp_row ai diag (S i) up b
        | [] => []
        end in
      dp_rows (S i) row a b
  end.

Definition edit_distance (a b : string) : nat :=
  let a := chars a in
  let b := chars b in
  let row0 := seq 0 (S (length b)) in
  default 0%nat (last (dp_rows 0 row0 a b)).

(** The row of the letters [ra] (read backwards) against the prefixes of [b]
    that extend [rb]. *)
Fixpoint lev_row (ra rb b : list Z) : list nat :=
  lev ra rb :: match b with [] => [] | y :: b => lev_row ra (y :: rb) b end.

Lemma dp_row_spec x ra b : forall rb,
  dp_row x (lev ra rb) (lev (x :: ra) rb) (tail (lev_row ra rb b)) b
    = tail (lev_row (x :: ra) rb b).
Proof.
  induction b as [|y b IH]; intros rb; [done|].
  specialize (IH (y :: rb)). simpl tail in IH |- *.
  assert (forall r, lev_row r (y :: rb) b
    = lev r (y :: rb) :: tail (lev_row r (y :: rb) b)) as Hr by by destruct b.
  rewrite (Hr ra), (Hr (x :: ra)). cbn [dp_row].
  replace (if bool_decide (x = y) then _ else _) with (lev (x :: ra) (y :: rb)) by done.
  by rewrite IH.
Qed.

Lemma dp_rows_spec a b : forall ra i,
  i = length ra -> dp_rows i (lev_row ra [] b) a b = lev_row (reverse a ++ ra) [] b.
Proof.
  induction a as [|x a IH]; intros ra i ->; [done|].
  rewrite reverse_cons, <- app_assoc. cbn [dp_rows app].
  rewrite <- (IH (x :: ra) (S (length ra))) by done. f_equal.
  assert (forall r, lev_row r [] b = lev r [] :: tail (lev_row r [] b)) as Hr
    by by destruct b.
  rewrite (Hr ra), (Hr (x :: ra)), <- dp_row_spec. by rewrite !lev_nil_r.
Qed.

Lemma lev_row_nil b : forall rb, lev_row [] rb b = seq (length rb) (S (length b)).
Proof. induction b as [|y b IH]; intros rb; [done|]. simpl. f_equal. apply (IH (y :: rb)). Qed.

Lemma last_lev_row ra b : forall rb, last (lev_row ra rb b) = Some (lev ra (reverse b ++ rb)).
Proof.
  induction b as [|y b IH]; intros rb; [done|].
  rewrite reverse_cons, <- app_assoc. cbn [app]. rewrite <- IH. simpl.
  by destruct b.
Qed.

Lemma edit_distance_lev a b : edit_distance a b = lev (chars a) (chars b).
Proof.
  unfold edit_distance.
  replace (seq 0 (S (length (chars b)))) with (lev_row [] [] (chars b))
    by apply (lev_row_nil _ []).
  rewrite dp_rows_spec by done.
  rewrite last_lev_row, !app_nil_r. apply lev_reverse.
Qed.

(** [edit_distance] is the Levenshtein distance of the two words'
    characters: some alignment has that many insertions, deletions and
    substitutions, and none has fewer. *)
Theorem edit_distance_correct (a b : string) :
  edits (chars a) (chars b) (edit_distance a b) /\
  forall n, edits (chars a) (chars b) n -> (edit_distance a b <= n)%nat.
Proof.
  rewrite edit_distance_lev. split; [apply lev_edits|]. intros n. apply lev_minimal.
Qed.

Example edit_distance_samsng : edit_distance "samsng" "samsung" = 1%nat.
Proof. reflexivity. Qed.
