(* ===== verification/Inverted.v ===== *)
(** The inverted index of a segment ([crates/index/src/inverted.rs]): an FST
    from terms to offsets and length-framed posting lists.  The [fst] crate is
    an interface: a map built from strictly increasing keys, queried by key,
    prefix and Levenshtein automaton. *)
From Stdlib Require Import Strings.Byte.
From S2P Require Import Prelude Bytes Order Float FloatRound Types Text Posting Disk.
From S2P Require Import EditDistance.

Local Open Scope Z_scope.

(** ** Interface to the [fst] crate *)
Class FstLib := {
  FstBuilder : Type;
  FstMap : Type;
  fst_memory : FstBuilder;                                    (* MapBuilder::memory *)
  fst_insert : FstBuilder -> string -> Z -> Result FstBuilder;
  fst_into_inner : FstBuilder -> Result bytes;
  fst_new : bytes -> Result FstMap;                           (* Map::new *)
  fst_get : FstMap -> string -> option Z;
  fst_len : FstMap -> nat;
  fst_search_prefix : FstMap -> string -> list (string * Z);  (* Str::new(p).starts_with() *)
  (* Levenshtein::new(term, d) may refuse to build the automaton *)
  fst_search_levenshtein : FstMap -> string -> nat -> option (list (string * Z));
}.

Class FstLaws `{FL : FstLib} := {
  fst_entries : FstMap -> list (string * Z);
  fst_build l :
    keys_sorted l.*1 -> Forall (in_width 64) l.*2 ->
    exists b bs m,
      try_fold (fun b (kv : string * Z) => fst_insert b kv.1 kv.2) fst_memory l = Ret b /\
      fst_into_inner b = Ret bs /\ fst_new bs = Ret m /\ fst_entries m = l;
  fst_get_spec m k : fst_get m k = (list_to_map (fst_entries m) : gmap string Z) !! k;
  fst_len_spec m : fst_len m = length (fst_entries m);
  fst_prefix_spec m p :
    fst_search_prefix m p = filter (fun kv => starts_with kv.1 p = true) (fst_entries m);
  fst_levenshtein_spec m t d r :
    fst_search_levenshtein m t d = Some r ->
    r = filter (fun kv => (lev (chars t) (chars kv.1) <= d)%nat) (fst_entries m);
}.

(** ** Writer *)
Record InvertedIndexWriter := mkInvertedIndexWriter {
  term_postings : gmap string PostingList;
}.

Definition iw_new : InvertedIndexWriter := {| term_postings := ∅ |}.

Definition add_term_list (pl : PostingList) (doc_id doc_len : Z) : PostingList :=
  match last (postings pl) with
  | Some l =>
      if p_doc_id l =? doc_id
      then {| postings := take (length (postings pl) - 1) (postings pl) ++
                [mkPosting (p_doc_id l) (sat_add 8 (p_term_freq l) 1) (p_doc_len l)];
              blocks := blocks pl |}
      else pl_add pl doc_id 1 doc_len
  | None => pl_add pl doc_id 1 doc_len
  end.

Definition add_term (w : InvertedIndexWriter) (term : string) (doc_id doc_len : Z)
  : InvertedIndexWriter :=
  let pl := default pl_new (term_postings w !! term) in
  {| term_postings := <[term := add_term_list pl doc_id doc_len]> (term_postings w) |}.

(** ** Reader *)
Section Inverted.
Context `{FL : FstLib}.

Record InvertedIndexReader := mkInvertedIndexReader {
  fst_map : FstMap;
  posting_data : bytes;
}.

(** The body of the loop of [write]. *)
Definition write_term (avgdl : f32) (st : bytes * FstBuilder) (kv : string * PostingList)
  : Result (bytes * FstBuilder) :=
  let '(data, builder) := st in
  let offset := Z.of_nat (length data) in
  let encoded := pl_encode (rebuild_blocks kv.2 avgdl) in
  let data := data ++ u32_le (wrap 32 (Z.of_nat (length encoded))) ++ encoded in
  builder ← fst_insert builder kv.1 offset;
  Ret (data, builder).

Definition iw_write (w : InvertedIndexWriter) (dir : path) (avgdl : f32)
  : IO InvertedIndexWriter :=
  _ ← create_dir_all dir;
  '(data, builder) ←
    lift (try_fold (write_term avgdl) ([], fst_memory) (btree_iter (term_postings w)));
  fst_bytes ← lift (fst_into_inner builder);
  _ ← fs_write (join dir "inverted.fst") fst_bytes;
  _ ← fs_write (join dir "inverted.post") data;
  mret {| term_postings := (fun pl => rebuild_blocks pl avgdl) <$> term_postings w |}.

Definition iw_term_count (w : InvertedIndexWriter) : nat := size (term_postings w).

Definition ir_open (dir : path) : IO InvertedIndexReader :=
  fst_bytes ← fs_read (join dir "inverted.fst");
  data ← fs_read (join dir "inverted.post");
  m ← lift (fst_new fst_bytes);
  mret {| fst_map := m; posting_data := data |}.

Definition read_at (r : InvertedIndexReader) (offset : nat) : Result PostingList :=
  lb ← slice (posting_data r) offset (offset + 4);
  let len := Z.to_nat (from_le lb) in
  data ← slice (posting_data r) (offset + 4) (offset + 4 + len);
  pl_decode data.

Definition get_postings (r : InvertedIndexReader) (term : string)
  : Result (option PostingList) :=
  match fst_get (fst_map r) term with
  | None => Ret None
  | Some offset => pl ← read_at r (Z.to_nat offset); Ret (Some pl)
  end.

Definition read_entry (r : InvertedIndexReader) (kv : string * Z)
  : Result (string * PostingList) :=
  pl ← read_at r (Z.to_nat kv.2); Ret (kv.1, pl).

Definition fuzzy_search (r : InvertedIndexReader) (term : string) (max_distance : nat)
  : Result (list (string * PostingList)) :=
  match fst_search_levenshtein (fst_map r) term max_distance with
  | None => Ret []
  | Some entries => mapM (read_entry r) entries
  end.

Definition prefix_search (r : InvertedIndexReader) (prefix : string)
  : Result (list (string * PostingList)) :=
  mapM (read_entry r) (fst_search_prefix (fst_map r) prefix).

Definition ir_term_count (r : InvertedIndexReader) : nat := fst_len (fst_map r).
End Inverted.

(** ** What a reader holds *)
Section Holds.
Context `{FLL : FstLaws}.

(** The reader [r] serves exactly the term lists [l]. *)
Definition reader_holds (r : InvertedIndexReader) (l : list (string * PostingList)) : Prop :=
  Forall2 (fun e kv => e.1 = kv.1 /\ read_at r (Z.to_nat e.2) = Ret kv.2)
    (fst_entries (fst_map r)) l.

Lemma holds_read_entry r (es : list (string * Z)) (l : list (string * PostingList)) :
  Forall2 (fun e kv => e.1 = kv.1 /\ read_at r (Z.to_nat e.2) = Ret kv.2) es l ->
  mapM (read_entry r) es = Ret l.
Proof.
  intros H. apply mapM_ret. eapply Forall2_impl; [exact H|].
  intros e [k pl] [H1 H2]. unfold read_entry. simpl in *. by rewrite H2, H1.
Qed.

Lemma holds_get r l term :
  reader_holds r l ->
  get_postings r term = Ret ((list_to_map l : gmap string PostingList) !! term).
Proof.
  unfold reader_holds, get_postings. rewrite fst_get_spec.
  induction 1 as [|[k o] [k' pl] es l [Hk Hr] _ IH]; [done|].
  simpl in Hk; subst k'. cbn [list_to_map foldr uncurry].
  destruct (decide (k = term)) as [->|Hne].
  - cbn [snd] in *. rewrite !lookup_insert_eq. by rewrite Hr.
  - by rewrite !lookup_insert_ne.
Qed.

Lemma holds_prefix r l p :
  reader_holds r l ->
  prefix_search r p = Ret (filter (fun kv => starts_with kv.1 p = true) l).
Proof.
  intros H. unfold prefix_search. rewrite fst_prefix_spec. apply holds_read_entry.
  eapply Forall2_filter; [|exact H]. by intros e kv [-> _].
Qed.

Lemma holds_fuzzy r l t d :
  reader_holds r l ->
  fuzzy_search r t d =
    Ret (if fst_search_levenshtein (fst_map r) t d is Some _
         then filter (fun kv => (lev (chars t) (chars kv.1) <= d)%nat) l else []).
Proof.
  intros H. unfold fuzzy_search. destruct (fst_search_levenshtein _ _ _) as [es|] eqn:E; [|done].
  rewrite (fst_levenshtein_spec _ _ _ _ E). apply holds_read_entry.
  eapply Forall2_filter; [|exact H]. by intros e kv [-> _].
Qed.

Lemma holds_len r l : reader_holds r l -> ir_term_count r = length l.
Proof. intros H. unfold ir_term_count. rewrite fst_len_spec. by eapply Forall2_length. Qed.

(** *** The layout of the posting file *)
Definition frame (avgdl : f32) (pl : PostingList) : bytes :=
  let encoded := pl_encode (rebuild_blocks pl avgdl) in
  u32_le (wrap 32 (Z.of_nat (length encoded))) ++ encoded.

Definition frames (avgdl : f32) (l : list (string * PostingList)) : bytes :=
  l ≫= (fun kv => frame avgdl kv.2).

Fixpoint offsets (avgdl : f32) (off : nat) (l : list (string * PostingList))
  : list (string * Z) :=
  match l with
  | [] => []
  | kv :: l => (kv.1, Z.of_nat off) :: offsets avgdl (off + length (frame avgdl kv.2)) l
  end.

Lemma write_terms avgdl l : forall data builder,
  try_fold (write_term avgdl) (data, builder) l =
    (b ← try_fold (fun b (kv : string * Z) => fst_insert b kv.1 kv.2) builder
           (offsets avgdl (length data) l);
     Ret (data ++ frames avgdl l, b)).
Proof.
  induction l as [|kv l IH]; intros data builder; cbn [try_fold offsets].
  { cbn. by rewrite app_nil_r. }
  unfold write_term at 2. cbn zeta. cbn [fst snd].
  destruct (fst_insert builder kv.1 _) as [b|e|]; [|done|done].
  cbn [mbind outcome_bind]. rewrite IH. fold (frame avgdl kv.2).
  rewrite length_app. destruct (try_fold _ b _) as [b'| |]; [|done|done].
  cbn. by rewrite <- app_assoc.
Qed.

(** The sizes the file format can hold. *)
Definition list_fits (avgdl : f32) (pl : PostingList) : Prop :=
  Forall posting_wf (postings pl) /\
  in_width 32 (Z.of_nat (length (pl_encode (rebuild_blocks pl avgdl)))).

#[global] Instance list_fits_dec avgdl pl : Decision (list_fits avgdl pl) | 100.
Proof. unfold list_fits. apply _. Defined.

Lemma offsets_keys avgdl l : forall off, (offsets avgdl off l).*1 = l.*1.
Proof. induction l as [|kv l IH]; intros off; [done|]. cbn. by f_equal. Qed.

Lemma offsets_width avgdl l : forall off,
  Z.of_nat (off + length (frames avgdl l)) < 2 ^ 64 ->
  Forall (in_width 64) (offsets avgdl off l).*2.
Proof.
  induction l as [|kv l IH]; intros off H; [constructor|].
  change (frames avgdl (kv :: l)) with (frame avgdl kv.2 ++ frames avgdl l) in H.
  rewrite length_app in H. cbn [offsets fmap list_fmap]. constructor.
  - unfold in_width. cbn. lia.
  - apply IH. lia.
Qed.
End Holds.

Lemma bm25_impact_valid tf dl avgdl : f32_valid avgdl -> f32_valid (bm25_impact tf dl avgdl).
Proof.
  intros H. unfold bm25_impact.
  assert (f32_valid K1) by reflexivity. assert (f32_valid B) by reflexivity.
  assert (f32_valid (f32_sub (f32_of_Z 1) B)) by reflexivity.
  repeat first [done | apply f32_div_valid | apply f32_mul_valid | apply f32_add_valid
    | apply f_max_valid | apply f32_of_Z_valid].
Qed.

Lemma foldl_f_max_valid l : forall a,
  f32_valid a -> Forall f32_valid l -> f32_valid (foldl f_max a l).
Proof.
  induction l as [|x l IH]; intros a Ha Hl; [done|]. apply Forall_cons in Hl as [Hx Hl].
  apply IH; [by apply f_max_valid|done].
Qed.

Lemma length_blocks_le pl avgdl :
  (length (blocks (rebuild_blocks pl avgdl)) <= length (postings pl))%nat.
Proof.
  unfold rebuild_blocks. cbn [blocks]. rewrite length_fmap. unfold iota. rewrite length_seq.
  destruct (div_ceil (length (postings pl)) BLOCK_SIZE) as [|n] eqn:E; [lia|].
  assert (n * BLOCK_SIZE < length (postings pl))%nat; [|unfold BLOCK_SIZE in *; lia].
  apply div_ceil_spec; [unfold BLOCK_SIZE; lia|lia].
Qed.

Lemma rebuild_blocks_wf pl avgdl :
  f32_valid avgdl -> Forall posting_wf (postings pl) ->
  in_width 64 (Z.of_nat (length (postings pl))) ->
  posting_list_wf (rebuild_blocks pl avgdl).
Proof.
  intros Ha Hp Hl. pose proof (length_blocks_le pl avgdl).
  unfold posting_list_wf, in_width in *. split_and!.
  - done.
  - unfold rebuild_blocks. cbn [blocks]. apply Forall_fmap, Forall_true. intros b.
    unfold block_of. cbn. apply foldl_f_max_valid; [done|].
    apply Forall_fmap, Forall_true. intros p. by apply bm25_impact_valid.
  - lia.
  - cbn. lia.
  - lia.
  - lia.
Qed.

Lemma length_encode_varint_pos v : (0 < length (encode_varint v))%nat.
Proof. unfold encode_varint. cbn [encode_varint_fuel]. destruct (negb _); cbn [length]; lia. Qed.

Lemma length_encode_postings ps : forall prev,
  (length ps <= length (encode_postings prev ps))%nat.
Proof.
  induction ps as [|p ps IH]; intros prev; [done|]. cbn [encode_postings length].
  rewrite !length_app. pose proof (length_encode_varint_pos (p_term_freq p)).
  specialize (IH (p_doc_id p)). lia.
Qed.

Lemma read_at_frame `{FstLib} m avgdl pl pre post :
  f32_valid avgdl -> list_fits avgdl pl ->
  read_at {| fst_map := m; posting_data := pre ++ frame avgdl pl ++ post |} (length pre)
    = Ret (rebuild_blocks pl avgdl).
Proof.
  intros Ha [Hp Hf]. unfold read_at. cbn [posting_data]. unfold frame.
  set (enc := pl_encode _) in *. rewrite <- app_assoc.
  rewrite slice_app_middle by (rewrite ?length_to_le; done || lia).
  cbn [mbind outcome_bind]. rewrite wrap_id by done. rewrite from_u32_le by done.
  rewrite Nat2Z.id, app_assoc.
  assert (length (u32_le (Z.of_nat (length enc))) = 4%nat) as H4 by apply length_to_le.
  rewrite slice_app_middle by (rewrite ?length_app, H4; lia).
  cbn [mbind outcome_bind]. apply pl_decode_encode, rebuild_blocks_wf; [done|done|].
  assert (length (postings pl) <= length enc)%nat as Hle.
  { unfold enc, pl_encode. rewrite !length_app. cbn [rebuild_blocks postings].
    pose proof (length_encode_postings (postings pl) 0). lia. }
  unfold in_width in *. lia.
Qed.

Lemma holds_frames `{FstLaws} m avgdl l : forall pre,
  f32_valid avgdl -> Forall (fun kv => list_fits avgdl kv.2) l ->
  Forall2 (fun e kv => e.1 = kv.1 /\
      read_at {| fst_map := m; posting_data := pre ++ frames avgdl l |} (Z.to_nat e.2)
        = Ret kv.2)
    (offsets avgdl (length pre) l) (prod_map id (fun pl => rebuild_blocks pl avgdl) <$> l).
Proof.
  induction l as [|kv l IH]; intros pre Ha Hf; [constructor|].
  apply Forall_cons in Hf as [Hkv Hf]. cbn [offsets fmap list_fmap].
  change (frames avgdl (kv :: l)) with (frame avgdl kv.2 ++ frames avgdl l).
  constructor.
  - split; [done|]. cbn [snd]. rewrite Nat2Z.id. destruct kv. by apply read_at_frame.
  - rewrite <- length_app, app_assoc. by apply IH.
Qed.

(** ** Writing and opening *)
Section WriteOpen.
Context `{FLL : FstLaws}.

Definition rebuilt (avgdl : f32) (m : gmap string PostingList) : list (string * PostingList) :=
  prod_map id (fun pl => rebuild_blocks pl avgdl) <$> btree_iter m.

Definition writer_fits (avgdl : f32) (m : gmap string PostingList) : Prop :=
  Forall (fun kv => list_fits avgdl kv.2) (btree_iter m) /\
  Z.of_nat (length (frames avgdl (btree_iter m))) < 2 ^ 64.

#[global] Instance writer_fits_dec avgdl m : Decision (writer_fits avgdl m) | 100.
Proof. unfold writer_fits. apply _. Defined.

Lemma rebuilt_lookup avgdl m k :
  (list_to_map (rebuilt avgdl m) : gmap string PostingList) !! k
    = (fun pl => rebuild_blocks pl avgdl) <$> m !! k.
Proof.
  unfold rebuilt. rewrite list_to_map_fmap, list_to_map_btree_iter.
  apply lookup_fmap.
Qed.

(** The two files [iw_write] produces, and the reader they open to. *)
Lemma iw_write_open w dir avgdl :
  f32_valid avgdl -> writer_fits avgdl (term_postings w) -> dir <> [] ->
  exists fst_bytes data r,
    (forall d,
      iw_write w dir avgdl d =
        ({| dk_files := <[join dir "inverted.post" := data]>
              (<[join dir "inverted.fst" := fst_bytes]> (dk_files d));
            dk_dirs := dk_dirs d ∪ list_to_set (prefixes dir) |},
         Ret {| term_postings := (fun pl => rebuild_blocks pl avgdl) <$> term_postings w |})) /\
    (forall d,
      dk_files d !! join dir "inverted.fst" = Some fst_bytes ->
      dk_files d !! join dir "inverted.post" = Some data ->
      ir_open dir d = (d, Ret r)) /\
    reader_holds r (rebuilt avgdl (term_postings w)).
Proof.
  intros Ha [Hf Hlen] Hdir. set (l := btree_iter (term_postings w)) in *.
  destruct (fst_build (offsets avgdl 0 l)) as (b & bs & m & Hb & Hbs & Hm & He).
  { rewrite offsets_keys. apply btree_iter_sorted. }
  { by apply offsets_width. }
  assert (try_fold (write_term avgdl) ([], fst_memory) l = Ret (frames avgdl l, b)) as Hfold.
  { rewrite write_terms. cbn [length]. by rewrite Hb. }
  exists bs, (frames avgdl l), {| fst_map := m; posting_data := frames avgdl l |}.
  split_and!.
  - intros d. unfold iw_write. fold l.
    assert (dir ∈ dk_dirs d ∪ list_to_set (prefixes dir)) as Hin.
    { pose proof (elem_of_prefixes_self dir Hdir). set_solver. }
    erewrite io_bind_ret by reflexivity.
    erewrite io_bind_ret by (unfold lift; rewrite Hfold; reflexivity).
    cbn beta iota.
    erewrite io_bind_ret by (unfold lift; rewrite Hbs; reflexivity).
    erewrite io_bind_ret by (by apply fs_write_spec).
    erewrite io_bind_ret by (by apply fs_write_spec).
    done.
  - intros d H1 H2. unfold ir_open.
    erewrite io_bind_ret by (by apply fs_read_spec).
    erewrite io_bind_ret by (by apply fs_read_spec).
    erewrite io_bind_ret by (unfold lift; rewrite Hm; reflexivity). done.
  - unfold reader_holds. cbn [fst_map]. rewrite He.
    exact (holds_frames m avgdl l [] Ha Hf).
Qed.

End WriteOpen.

(** C33: the reader opened on the files [write] leaves serves exactly the terms
    of the writer: the exact lookup returns the term's list with its block
    maxima, a prefix search the terms with that prefix in byte order, a fuzzy
    search the terms within the edit distance (or nothing when the automaton
    is refused), and the term counts agree. *)
Theorem inverted_roundtrip `{FLL : FstLaws} (w : InvertedIndexWriter) (dir : path)
    (avgdl : f32) (d : Disk) :
  f32_valid avgdl -> writer_fits avgdl (term_postings w) -> dir <> [] ->
  exists d' r,
    (_ ← iw_write w dir avgdl; ir_open dir) d = (d', Ret r) /\
    (forall term, get_postings r term =
       Ret ((fun pl => rebuild_blocks pl avgdl) <$> term_postings w !! term)) /\
    (forall p, prefix_search r p =
       Ret (filter (fun kv => starts_with kv.1 p = true) (rebuilt avgdl (term_postings w)))) /\
    (forall t n, fuzzy_search r t n =
       Ret (if fst_search_levenshtein (fst_map r) t n is Some _
            then filter (fun kv => (lev (chars t) (chars kv.1) <= n)%nat)
                   (rebuilt avgdl (term_postings w))
            else [])) /\
    ir_term_count r = iw_term_count w.
Proof.
  intros Ha Hf Hdir.
  destruct (iw_write_open w dir avgdl Ha Hf Hdir) as (fb & data & r & Hw & Ho & Hr).
  eexists _, r. split_and!.
  - erewrite io_bind_ret by apply Hw. apply Ho; cbn [dk_files].
    + rewrite lookup_insert_ne by (intros [_ ?]%join_inj; done). apply lookup_insert_eq.
    + apply lookup_insert_eq.
  - intros term. rewrite (holds_get _ _ _ Hr). by rewrite rebuilt_lookup.
  - intros p. by apply holds_prefix.
  - intros t n. by apply holds_fuzzy.
  - rewrite (holds_len _ _ Hr). unfold rebuilt, iw_term_count. rewrite length_fmap.
    rewrite (Permutation_length (btree_iter_perm _)). apply length_map_to_list.
Qed.

(** An implementation of the FST interface: the entry list itself. *)
Module ListFst.
Import CountableSerde.

Definition insert (b : list (string * Z)) (k : string) (v : Z)
  : Result (list (string * Z)) :=
  match last b with
  | Some kv => if str_lt kv.1 k then Ret (b ++ [(k, v)]) else Fail (EIo "out of order")
  | None => Ret [(k, v)]
  end.

#[export] Instance lib : FstLib := {
  FstBuilder := list (string * Z);
  FstMap := list (string * Z);
  fst_memory := [];
  fst_insert := insert;
  fst_into_inner b := serialize b;
  fst_new := deserialize;
  fst_get m k := (list_to_map m : gmap string Z) !! k;
  fst_len := length;
  fst_search_prefix m p := filter (fun kv => starts_with kv.1 p = true) m;
  fst_search_levenshtein m t d :=
    Some (filter (fun kv => (lev (chars t) (chars kv.1) <= d)%nat) m);
}.

Lemma insert_all l : forall acc,
  keys_sorted (acc ++ l).*1 ->
  try_fold (fun b (kv : string * Z) => insert b kv.1 kv.2) acc l = Ret (acc ++ l).
Proof.
  induction l as [|[k v] l IH]; intros acc Hs; [by rewrite app_nil_r|].
  cbn [try_fold fst snd].
  assert (insert acc k v = Ret (acc ++ [(k, v)])) as ->.
  { unfold insert. destruct (last acc) as [[k0 v0]|] eqn:E.
    - apply last_Some in E as [acc' ->]. cbn [fst].
      rewrite !fmap_app in Hs.
      assert (keys_sorted ((acc'.*1 ++ [k0]) ++ k :: l.*1)) as Hs' by exact Hs.
      assert (str_cmp k0 k = Lt) as Hlt.
      { apply (StronglySorted_take_drop _ (length (acc'.*1 ++ [k0])) _ _ _ Hs').
        - rewrite take_app_length. apply elem_of_app. right. by left.
        - rewrite drop_app_length. by left. }
      unfold str_lt. by rewrite Hlt.
    - apply last_None in E as ->. done. }
  cbn [mbind outcome_bind]. rewrite IH; rewrite <- app_assoc; done.
Qed.

#[export] Instance laws : FstLaws (FL := lib).
Proof.
  refine {| fst_entries := fun m => m |}; try done.
  - intros l Hs _. destruct (serde_roundtrip l) as (bs & H1 & H2).
    exists l, bs, l. split_and!; [|done|done|done]. by apply (insert_all l []).
  - by intros m t d r [= <-].
Defined.
End ListFst.

Definition sample_writer : InvertedIndexWriter :=
  add_term (add_term (add_term (add_term iw_new "samsung" 0 5) "galaxy" 0 5) "galaxy" 0 5)
    "samsung" 1 6.

Section Witness.
Import ListFst.

Lemma inverted_roundtrip_witness :
  term_postings sample_writer !! "galaxy" =
    Some {| postings := [mkPosting 0 2 5]; blocks := [] |} /\
  exists d' r,
    (_ ← iw_write sample_writer ["seg"] (f32_of_Z 5); ir_open ["seg"]) disk_empty
      = (d', Ret r) /\
    (forall term, get_postings r term =
       Ret ((fun pl => rebuild_blocks pl (f32_of_Z 5)) <$> term_postings sample_writer !! term)).
Proof.
  split; [vm_compute; reflexivity|].
  destruct (inverted_roundtrip sample_writer ["seg"] (f32_of_Z 5) disk_empty)
    as (d' & r & H1 & H2 & _).
  - reflexivity.
  - vm_decide.
  - done.
  - exists d', r. split; [exact H1|exact H2].
Defined.
End Witness.
