(* ===== verification/Column.v ===== *)
(** The column store of a segment ([crates/index/src/column.rs]): dictionary
    encoded keyword columns and sparse numeric columns, their filters and the
    count aggregation. *)
From Stdlib Require Import Strings.Byte.
From S2P Require Import Prelude Bytes Order Float Types Text Disk.

Local Open Scope Z_scope.

(** ** Columns *)
Record KeywordColumn := mkKeywordColumn {
  kc_dict : list string;
  kc_ordinals : list Z;                 (* u32, [u32::MAX] when missing *)
}.

Record NumericColumn := mkNumericColumn {
  nc_values : list f64;
  nc_present : list bool;
}.

#[global] Instance KeywordColumn_eq_dec : EqDecision KeywordColumn.
Proof. solve_decision. Defined.
#[global] Instance NumericColumn_eq_dec : EqDecision NumericColumn.
Proof. solve_decision. Defined.

(** ** Writers *)
Record KeywordColumnWriter := mkKeywordColumnWriter {
  kw_value_to_ordinal : gmap string Z;
  kw_dict : list string;
  kw_ordinals : list Z;
}.

Definition kw_new : KeywordColumnWriter :=
  {| kw_value_to_ordinal := ∅; kw_dict := []; kw_ordinals := [] |}.

Definition kw_add (w : KeywordColumnWriter) (value : string) : KeywordColumnWriter :=
  match kw_value_to_ordinal w !! value with
  | Some ord =>
      {| kw_value_to_ordinal := kw_value_to_ordinal w; kw_dict := kw_dict w;
         kw_ordinals := kw_ordinals w ++ [ord] |}
  | None =>
      let ord := wrap 32 (Z.of_nat (length (kw_dict w))) in
      {| kw_value_to_ordinal := <[value := ord]> (kw_value_to_ordinal w);
         kw_dict := kw_dict w ++ [value];
         kw_ordinals := kw_ordinals w ++ [ord] |}
  end.

Definition kw_add_missing (w : KeywordColumnWriter) : KeywordColumnWriter :=
  {| kw_value_to_ordinal := kw_value_to_ordinal w; kw_dict := kw_dict w;
     kw_ordinals := kw_ordinals w ++ [u32_max] |}.

Definition kw_build (w : KeywordColumnWriter) : KeywordColumn :=
  {| kc_dict := kw_dict w; kc_ordinals := kw_ordinals w |}.

Record NumericColumnWriter := mkNumericColumnWriter {
  nw_values : list f64;
  nw_present : list bool;
}.

Definition nw_new : NumericColumnWriter := {| nw_values := []; nw_present := [] |}.
Definition nw_add (w : NumericColumnWriter) (value : f64) : NumericColumnWriter :=
  {| nw_values := nw_values w ++ [value]; nw_present := nw_present w ++ [true] |}.
Definition nw_add_missing (w : NumericColumnWriter) : NumericColumnWriter :=
  {| nw_values := nw_values w ++ [f_zero]; nw_present := nw_present w ++ [false] |}.
Definition nw_build (w : NumericColumnWriter) : NumericColumn :=
  {| nc_values := nw_values w; nc_present := nw_present w |}.

(** ** The store *)
Record ColumnStore := mkColumnStore {
  keyword_columns : gmap string KeywordColumn;
  numeric_columns : gmap string NumericColumn;
}.

Definition ColumnStore_default : ColumnStore :=
  {| keyword_columns := ∅; numeric_columns := ∅ |}.

#[global] Instance KeywordColumn_countable : Countable KeywordColumn.
Proof.
  refine (inj_countable' (fun c => (kc_dict c, kc_ordinals c))
            (fun '(d, o) => mkKeywordColumn d o) _). by intros [].
Defined.
#[global] Instance NumericColumn_countable : Countable NumericColumn.
Proof.
  refine (inj_countable' (fun c => (nc_values c, nc_present c))
            (fun '(v, p) => mkNumericColumn v p) _). by intros [].
Defined.
#[global] Instance ColumnStore_eq_dec : EqDecision ColumnStore.
Proof. solve_decision. Defined.
#[global] Instance ColumnStore_countable : Countable ColumnStore.
Proof.
  refine (inj_countable' (fun c => (keyword_columns c, numeric_columns c))
            (fun '(v, p) => mkColumnStore v p) _). by intros [].
Defined.

Definition cs_write `{Serde ColumnStore} (c : ColumnStore) (dir : path) : IO unit :=
  _ ← create_dir_all dir;
  data ← lift (serialize c);
  fs_write (join dir "columns.bin") data.

Definition cs_read `{Serde ColumnStore} (dir : path) : IO ColumnStore :=
  data ← fs_read (join dir "columns.bin");
  lift (deserialize data).

(** [l.iter().enumerate()]. *)
Definition enumerate {A} (l : list A) : list (nat * A) := imap pair l.

(** [dict.iter().position(|v| v == value)]. *)
Definition position (dict : list string) (value : string) : option nat :=
  fst <$> list_find (fun v => v = value) dict.

Section Filters.
Context `{RL : RoaringLib}.

(** The loop [for (doc_id, x) in l.enumerate() { if P(x) { result.insert(..) } }]. *)
Definition collect_docs {A} (P : A -> bool) (l : list A) : RoaringBitmap :=
  foldl (fun result (p : nat * A) =>
           if P p.2 then rb_insert (wrap 32 (Z.of_nat p.1)) result else result)
    rb_new (enumerate l).

Definition cs_filter_eq (cs : ColumnStore) (field value : string) : RoaringBitmap :=
  match keyword_columns cs !! field with
  | None => rb_new
  | Some col =>
      match position (kc_dict col) value with
      | None => rb_new
      | Some target_ord =>
          let target_ord := wrap 32 (Z.of_nat target_ord) in
          collect_docs (fun ord => ord =? target_ord) (kc_ordinals col)
      end
  end.

Definition cs_filter_in (cs : ColumnStore) (field : string) (values : list string)
  : RoaringBitmap :=
  match keyword_columns cs !! field with
  | None => rb_new
  | Some col =>
      let target_ords :=
        omap (fun v => (fun p => wrap 32 (Z.of_nat p)) <$> position (kc_dict col) v) values in
      collect_docs (fun ord => bool_decide (ord ∈ target_ords)) (kc_ordinals col)
  end.

Definition cs_filter_range (cs : ColumnStore) (field : string) (gte lte : option f64)
  : RoaringBitmap :=
  match numeric_columns cs !! field with
  | None => rb_new
  | Some col =>
      collect_docs
        (fun vp : f64 * bool =>
           let '(value, present) := vp in
           if negb present then false
           else
             let passes_gte := match gte with None => true | Some min => f_ge value min end in
             let passes_lte := match lte with None => true | Some max => f_le value max end in
             passes_gte && passes_lte)
        (zip (nc_values col) (nc_present col))
  end.

(** The counting loop of [aggregate_counts]. *)
Definition count_doc (ordinals : list Z) (counts : list Z) (doc_id : Z) : list Z :=
  match ordinals !! Z.to_nat doc_id with
  | Some ord =>
      if ord <? Z.of_nat (length counts)
      then alter (fun c => wrap 64 (c + 1)) (Z.to_nat ord) counts
      else counts
  | None => counts
  end.

Definition cs_aggregate_counts (cs : ColumnStore) (field : string)
    (matching_docs : RoaringBitmap) : list (string * Z) :=
  match keyword_columns cs !! field with
  | None => []
  | Some col =>
      let counts :=
        foldl (count_doc (kc_ordinals col)) (replicate (length (kc_dict col)) 0)
          (rb_iter matching_docs) in
      omap (fun p : nat * string =>
              c ← counts !! p.1; if 0 <? c then Some (p.2, c) else None)
        (enumerate (kc_dict col))
  end.
End Filters.

(** ** What a column holds *)

(** The column a sequence of [add] and [add_missing] calls builds. *)
Definition kw_step (w : KeywordColumnWriter) (v : option string) : KeywordColumnWriter :=
  match v with Some v => kw_add w v | None => kw_add_missing w end.
Definition nw_step (w : NumericColumnWriter) (v : option f64) : NumericColumnWriter :=
  match v with Some v => nw_add w v | None => nw_add_missing w end.
Definition keyword_column (vs : list (option string)) : KeywordColumn :=
  kw_build (foldl kw_step kw_new vs).
Definition numeric_column (vs : list (option f64)) : NumericColumn :=
  nw_build (foldl nw_step nw_new vs).

(** Ordinal [ord] of a dictionary encodes the value [v]. *)
Definition encodes (dict : list string) (ord : Z) (v : option string) : Prop :=
  match v with
  | None => ord = u32_max
  | Some v => 0 <= ord /\ dict !! Z.to_nat ord = Some v
  end.

Record kw_inv (w : KeywordColumnWriter) (vs : list (option string)) : Prop := {
  ki_nodup : NoDup (kw_dict w);
  ki_map v o : kw_value_to_ordinal w !! v = Some o <->
    0 <= o /\ kw_dict w !! Z.to_nat o = Some v;
  ki_ordinals : Forall2 (encodes (kw_dict w)) (kw_ordinals w) vs;
  ki_length : (length (kw_dict w) <= length vs)%nat;
}.

Lemma encodes_app dict d ord v : encodes dict ord v -> encodes (dict ++ d) ord v.
Proof.
  destruct v as [v|]; [|done]. intros [? H]. split; [done|]. by apply lookup_app_l_Some.
Qed.

Lemma kw_step_inv w vs v :
  kw_inv w vs -> Z.of_nat (length vs) < 2 ^ 32 -> kw_inv (kw_step w v) (vs ++ [v]).
Proof.
  intros [Hnd Hm Ho Hl] Hlen. destruct v as [v|]; cbn [kw_step].
  2: { split; cbn; [done|done| |rewrite length_app; simpl; lia].
       apply Forall2_app; [done|]. by repeat constructor. }
  unfold kw_add. destruct (kw_value_to_ordinal w !! v) as [o|] eqn:E.
  - split; cbn; [done|done| |rewrite length_app; simpl; lia].
    apply Forall2_app; [done|]. constructor; [|constructor]. by apply Hm in E.
  - assert (wrap 32 (Z.of_nat (length (kw_dict w))) = Z.of_nat (length (kw_dict w))) as Hw.
    { apply wrap_id. unfold in_width. lia. }
    rewrite !Hw. split; cbn.
    + apply NoDup_app. split_and!; [done| |repeat constructor; apply not_elem_of_nil].
      intros x Hx ->%list_elem_of_singleton. apply list_elem_of_lookup in Hx as [i Hi].
      assert (kw_value_to_ordinal w !! v = Some (Z.of_nat i)); [|congruence].
      apply Hm. rewrite Nat2Z.id. split; [lia|done].
    + intros v' o. destruct (decide (v = v')) as [->|Hne].
      * rewrite lookup_insert_eq. split.
        -- intros [= <-]. split; [lia|]. rewrite Nat2Z.id. by rewrite list_lookup_middle.
        -- intros [Ho0 Hl']. apply lookup_app_Some in Hl' as [Hl'|[Hge Hl']].
           ++ assert (kw_value_to_ordinal w !! v' = Some o); [by apply Hm|congruence].
           ++ apply list_lookup_singleton_Some in Hl' as [Hz _]. f_equal. lia.
      * rewrite lookup_insert_ne, Hm by done. split.
        -- intros [??]. split; [done|]. by apply lookup_app_l_Some.
        -- intros [Ho0 [Hl'|[Hge Hl']]%lookup_app_Some]; [done|].
           apply list_lookup_singleton_Some in Hl' as [_ ?]. done.
    + apply Forall2_app.
      * eapply Forall2_impl; [exact Ho|]. intros. by apply encodes_app.
      * constructor; [|constructor]. split; [lia|]. rewrite Nat2Z.id.
        by rewrite list_lookup_middle.
    + rewrite !length_app. simpl. lia.
Qed.

Lemma keyword_column_inv vs :
  Z.of_nat (length vs) <= 2 ^ 32 -> kw_inv (foldl kw_step kw_new vs) vs.
Proof.
  induction vs as [|v vs IH] using rev_ind; intros Hl.
  { split; cbn; [constructor| |constructor|lia]. intros v o. rewrite lookup_empty.
    split; [done|]. by intros [_ ?]. }
  rewrite length_app in Hl. simpl in Hl. rewrite foldl_snoc.
  apply kw_step_inv; [apply IH|]; lia.
Qed.

Lemma numeric_column_spec vs :
  numeric_column vs = {| nc_values := default f_zero <$> vs;
                         nc_present := (fun v => bool_decide (is_Some v)) <$> vs |}.
Proof.
  unfold numeric_column, nw_build. induction vs as [|v vs IH] using rev_ind; [done|].
  rewrite foldl_snoc, !fmap_app. injection IH as IH1 IH2.
  destruct v as [v|]; cbn; rewrite IH1, IH2; done.
Qed.

(** ** Filters *)
Section FilterSpecs.
Context `{RLL : RoaringLaws}.

Lemma collect_docs_spec {A} (P : A -> bool) (l : list A) x :
  Z.of_nat (length l) <= 2 ^ 32 ->
  rb_contains (collect_docs P l) x = true <->
    exists a, 0 <= x /\ l !! Z.to_nat x = Some a /\ P a = true.
Proof.
  unfold collect_docs, enumerate. induction l as [|a l IH] using rev_ind; intros Hl.
  { cbn. rewrite rb_contains_new. naive_solver. }
  rewrite length_app in Hl. simpl in Hl.
  rewrite imap_app, foldl_app. cbn [imap foldl fst snd compose].
  rewrite Nat.add_0_r. rewrite wrap_id by (unfold in_width; lia).
  assert ((exists a', 0 <= x /\ (l ++ [a]) !! Z.to_nat x = Some a' /\ P a' = true) <->
    (exists a', 0 <= x /\ l !! Z.to_nat x = Some a' /\ P a' = true) \/
    (x = Z.of_nat (length l) /\ P a = true)) as ->.
  { split.
    - intros (a' & Hx & [Hl'|[Hge Hl']]%lookup_app_Some & HP); [left; eauto|].
      apply list_lookup_singleton_Some in Hl' as [Hz ->]. right. split; [lia|done].
    - intros [(a' & Hx & Hl' & HP)|[-> HP]].
      + exists a'. split_and!; [done|by apply lookup_app_l_Some|done].
      + exists a. rewrite Nat2Z.id, list_lookup_middle by done. split_and!; [lia|done|done]. }
  rewrite <- IH by lia. destruct (P a) eqn:E.
  - rewrite rb_contains_insert, orb_true_iff, Z.eqb_eq. naive_solver.
  - naive_solver.
Qed.

Lemma position_Some dict v i :
  NoDup dict -> position dict v = Some i <-> dict !! i = Some v.
Proof.
  intros Hnd. unfold position. rewrite fmap_Some. split.
  - intros ([j w] & [Hj [-> _]]%list_find_Some & ->). done.
  - intros Hi. destruct (list_find (fun w => w = v) dict) as [[j w]|] eqn:E.
    + exists (j, w). split; [done|]. apply list_find_Some in E as (Hj & -> & _).
      eapply NoDup_lookup; done.
    + apply list_find_None in E. apply list_elem_of_lookup_2 in Hi.
      by destruct (proj1 (Forall_forall _ _) E v Hi).
Qed.

(** The ordinals that match a value are those of its documents. *)
Lemma ordinal_matches w vs x v t :
  kw_inv w vs -> Z.of_nat (length vs) < 2 ^ 32 -> position (kw_dict w) v = Some t ->
  (exists a, 0 <= x /\ kw_ordinals w !! Z.to_nat x = Some a /\ a = wrap 32 (Z.of_nat t)) <->
  0 <= x /\ vs !! Z.to_nat x = Some (Some v).
Proof.
  intros [Hnd Hm Ho Hl] Hlen Ht. apply position_Some in Ht; [|done].
  pose proof (lookup_lt_Some _ _ _ Ht) as Hlt.
  rewrite wrap_id by (unfold in_width; lia). split.
  - intros (a & Hx & Ha & ->). split; [done|].
    pose proof (Forall2_lookup_l _ _ _ _ _ Ho Ha) as ([v'|] & Hv & He).
    + destruct He as [_ He]. rewrite Nat2Z.id in He. congruence.
    + cbn in He. unfold u32_max in He. lia.
  - intros [Hx Hv]. pose proof (Forall2_lookup_r _ _ _ _ _ Ho Hv) as (a & Ha & He & Hd).
    exists a. split_and!; [done|done|].
    assert (Z.to_nat a = t) as <- by (eapply NoDup_lookup; done). lia.
Qed.

Lemma no_ordinal w vs x v :
  kw_inv w vs -> position (kw_dict w) v = None -> vs !! x <> Some (Some v).
Proof.
  intros [Hnd Hm Ho Hl] Hp Hv.
  pose proof (Forall2_lookup_r _ _ _ _ _ Ho Hv) as (a & Ha & He & Hd).
  apply position_Some in Hd; [congruence|done].
Qed.

Lemma kw_ordinals_length w vs : kw_inv w vs -> length (kw_ordinals w) = length vs.
Proof. intros [_ _ Ho _]. by eapply Forall2_length. Qed.

Lemma filter_eq_spec cs field vs v x :
  keyword_columns cs !! field = Some (keyword_column vs) -> Z.of_nat (length vs) < 2 ^ 32 ->
  rb_contains (cs_filter_eq cs field v) x = true <->
    0 <= x /\ vs !! Z.to_nat x = Some (Some v).
Proof.
  intros Hf Hl. unfold cs_filter_eq. rewrite Hf.
  pose proof (keyword_column_inv vs ltac:(lia)) as Hi. unfold keyword_column.
  cbn [kw_build kc_dict kc_ordinals]. set (w := foldl kw_step kw_new vs) in *.
  destruct (position (kw_dict w) v) as [t|] eqn:E.
  - rewrite collect_docs_spec by (rewrite (kw_ordinals_length _ _ Hi); lia).
    rewrite <- (ordinal_matches _ _ _ _ _ Hi Hl E).
    split; intros (a & ? & ? & H); exists a; split_and!; try done; by apply Z.eqb_eq.
  - rewrite rb_contains_new. split; [done|]. intros [_ H].
    by destruct (no_ordinal _ _ _ _ Hi E H).
Qed.

Lemma filter_in_spec cs field vs values x :
  keyword_columns cs !! field = Some (keyword_column vs) -> Z.of_nat (length vs) < 2 ^ 32 ->
  rb_contains (cs_filter_in cs field values) x = true <->
    exists v, v ∈ values /\ 0 <= x /\ vs !! Z.to_nat x = Some (Some v).
Proof.
  intros Hf Hl. unfold cs_filter_in. rewrite Hf.
  pose proof (keyword_column_inv vs ltac:(lia)) as Hi. unfold keyword_column.
  cbn [kw_build kc_dict kc_ordinals]. set (w := foldl kw_step kw_new vs) in *.
  rewrite collect_docs_spec by (rewrite (kw_ordinals_length _ _ Hi); lia).
  split.
  - intros (a & Hx & Ha & Hin%bool_decide_eq_true).
    apply list_elem_of_omap in Hin as (v & Hv & (t & Ht & ->)%fmap_Some).
    exists v. split; [done|]. rewrite <- (ordinal_matches _ _ _ _ _ Hi Hl Ht). eauto.
  - intros (v & Hv & H). destruct (position (kw_dict w) v) as [t|] eqn:E.
    + rewrite <- (ordinal_matches _ _ _ _ _ Hi Hl E) in H. destruct H as (a & Hx & Ha & ->).
      eexists. split_and!; [done|done|]. apply bool_decide_eq_true, list_elem_of_omap.
      exists v. by rewrite E.
    + destruct H as [_ H]. by destruct (no_ordinal _ _ _ _ Hi E H).
Qed.

Lemma filter_range_spec cs field vs gte lte x :
  numeric_columns cs !! field = Some (numeric_column vs) -> Z.of_nat (length vs) < 2 ^ 32 ->
  rb_contains (cs_filter_range cs field gte lte) x = true <->
    exists v, 0 <= x /\ vs !! Z.to_nat x = Some (Some v) /\
      (forall m, gte = Some m -> f_ge v m = true) /\ (forall m, lte = Some m -> f_le v m = true).
Proof.
  intros Hf Hl. unfold cs_filter_range. rewrite Hf, numeric_column_spec. cbn [nc_values nc_present].
  rewrite collect_docs_spec by (rewrite length_zip_with, !length_fmap; lia).
  split.
  - intros ([v p] & Hx & Hz & Hp).
    apply lookup_zip_Some in Hz as [Hv Hpr]. cbn in Hv, Hpr.
    apply list_lookup_fmap_Some in Hv as (o & -> & Ho).
    apply list_lookup_fmap_Some in Hpr as (o' & -> & Ho'). simplify_eq.
    destruct o as [v|]; [|done]. exists v. cbn in Hp.
    destruct gte, lte; cbn in Hp; zbool; naive_solver.
  - intros (v & Hx & Hv & Hg & Hle). exists (v, true). split_and!; [done| |].
    + apply lookup_zip_Some. rewrite !list_lookup_fmap, Hv. done.
    + cbn. destruct gte as [g|], lte as [l|]; rewrite ?(Hg g), ?(Hle l); done.
Qed.
End FilterSpecs.

(** on columns built by the writers, the equality filter returns exactly
    the documents holding the value, the IN filter those holding one of the
    values, and the range filter those present with [gte <= v <= lte]. *)
Theorem column_filters_correct `{RLL : RoaringLaws} (cs : ColumnStore) (field : string)
    (vs : list (option string)) (nfield : string) (ns : list (option f64)) (x : Z) :
  keyword_columns cs !! field = Some (keyword_column vs) -> Z.of_nat (length vs) < 2 ^ 32 ->
  numeric_columns cs !! nfield = Some (numeric_column ns) -> Z.of_nat (length ns) < 2 ^ 32 ->
  (forall v, rb_contains (cs_filter_eq cs field v) x = true <->
     0 <= x /\ vs !! Z.to_nat x = Some (Some v)) /\
  (forall values, rb_contains (cs_filter_in cs field values) x = true <->
     exists v, v ∈ values /\ 0 <= x /\ vs !! Z.to_nat x = Some (Some v)) /\
  (forall gte lte, rb_contains (cs_filter_range cs nfield gte lte) x = true <->
     exists v, 0 <= x /\ ns !! Z.to_nat x = Some (Some v) /\
       (forall m, gte = Some m -> f_ge v m = true) /\ (forall m, lte = Some m -> f_le v m = true)).
Proof.
  intros Hf Hl Hn Hnl. split_and!; intros.
  - by apply filter_eq_spec.
  - by apply filter_in_spec.
  - by apply filter_range_spec.
Qed.

Definition sample_store : ColumnStore := {|
  keyword_columns :=
    {["brand" := keyword_column [Some "samsung"; None; Some "apple"; Some "samsung"]]};
  numeric_columns := {["price" := numeric_column [Some (f64_of_Z 10); None; Some (f64_of_Z 30)]]};
|}.

Section FiltersWitness.
Import SetRoaring.

Lemma column_filters_correct_witness :
  rb_iter (cs_filter_eq sample_store "brand" "samsung") = [0; 3] /\
  rb_iter (cs_filter_range sample_store "price" (Some (f64_of_Z 20)) None) = [2] /\
  (rb_contains (cs_filter_eq sample_store "brand" "apple") 2 = true <->
    0 <= 2 /\ [Some "samsung"; None; Some "apple"; Some "samsung"] !! 2%nat = Some (Some "apple")).
Proof.
  split; [vm_compute; reflexivity|]. split; [vm_compute; reflexivity|].
  apply (column_filters_correct sample_store "brand"
    [Some "samsung"; None; Some "apple"; Some "samsung"] "price"
    [Some (f64_of_Z 10); None; Some (f64_of_Z 30)] 2); vm_compute; reflexivity.
Defined.

End FiltersWitness.

(** ** Aggregation *)

Definition ord_hits (ordinals docs : list Z) (i : nat) : nat :=
  length (filter (fun d => Z.to_nat <$> ordinals !! Z.to_nat d = Some i) docs).

Lemma count_docs_spec ordinals docs : forall counts,
  Forall (fun c => 0 <= c /\ c + Z.of_nat (length docs) < 2 ^ 64) counts ->
  forall i, foldl (count_doc ordinals) counts docs !! i =
    (fun c => c + Z.of_nat (ord_hits ordinals docs i)) <$> counts !! i.
Proof.
  induction docs as [|d docs IH]; intros counts Hc i.
  { cbn. destruct (counts !! i); [|done]. cbn. f_equal. lia. }
  cbn [foldl length] in *.
  assert (forall i, count_doc ordinals counts d !! i =
    (fun c => c + if bool_decide (Z.to_nat <$> ordinals !! Z.to_nat d = Some i) then 1 else 0)
      <$> counts !! i) as Hstep.
  { intros j. unfold count_doc. destruct (ordinals !! Z.to_nat d) as [o|] eqn:E.
    2: { rewrite bool_decide_false by done. destruct (counts !! j); [|done]. cbn. f_equal. lia. }
    destruct (Z.ltb_spec o (Z.of_nat (length counts))) as [Hlt|Hge].
    - destruct (decide (Z.to_nat o = j)) as [<-|Hne].
      + rewrite list_lookup_alter_eq, bool_decide_true by done.
        destruct (counts !! Z.to_nat o) as [c|] eqn:Ec; [|done]. cbn. f_equal.
        apply wrap_id. pose proof (Forall_lookup_1 _ _ _ _ Hc Ec). cbn in *.
        unfold in_width. lia.
      + rewrite list_lookup_alter_ne, bool_decide_false by (done || cbn; congruence).
        destruct (counts !! j); [|done]. cbn. f_equal. lia.
    - destruct (counts !! j) as [c|] eqn:Ec; [|done]. apply lookup_lt_Some in Ec.
      rewrite bool_decide_false by (cbn; intros [=]; lia). cbn. f_equal. lia. }
  rewrite IH.
  - rewrite Hstep. unfold ord_hits. rewrite filter_cons.
    destruct (counts !! i) as [c|]; [|done]. cbn [fmap option_fmap option_map].
    case_bool_decide; case_decide; try done; cbn [length]; f_equal; lia.
  - apply Forall_lookup. intros j c Hj. rewrite Hstep in Hj.
    apply fmap_Some in Hj as (c0 & Hj & ->). pose proof (Forall_lookup_1 _ _ _ _ Hc Hj).
    cbn in *. case_bool_decide; lia.
Qed.

Lemma omap_enumerate_elem {A B} (f : nat * A -> option B) (l : list A) y :
  y ∈ omap f (enumerate l) <-> exists i x, l !! i = Some x /\ f (i, x) = Some y.
Proof.
  rewrite list_elem_of_omap. unfold enumerate. split.
  - intros ([i x] & Hin & Hf). apply elem_of_lookup_imap in Hin as (j & x' & [= -> ->] & Hj).
    eauto.
  - intros (i & x & Hi & Hf). exists (i, x). split; [|done].
    apply elem_of_lookup_imap. eauto.
Qed.

Section AggregateSpecs.
Context `{RLL : RoaringLaws}.

(** The matching documents that hold [v]. *)
Definition docs_with (vs : list (option string)) (m : RoaringBitmap) (v : string) : list Z :=
  filter (fun d => vs !! Z.to_nat d = Some (Some v)) (rb_iter m).

Lemma ord_hits_docs w vs i v m :
  kw_inv w vs -> Z.of_nat (length vs) < 2 ^ 32 -> kw_dict w !! i = Some v ->
  ord_hits (kw_ordinals w) (rb_iter m) i = length (docs_with vs m v).
Proof.
  intros [Hnd Hm Ho Hl] Hlen Hi. unfold ord_hits, docs_with. f_equal.
  apply list_filter_iff. intros d. pose proof (lookup_lt_Some _ _ _ Hi) as Hlt.
  rewrite fmap_Some. split.
  - intros (o & Hd & ->). pose proof (Forall2_lookup_l _ _ _ _ _ Ho Hd) as ([v'|] & Hv & He).
    + destruct He as [_ He]. congruence.
    + cbn in He. subst o. unfold u32_max in *. lia.
  - intros Hv. pose proof (Forall2_lookup_r _ _ _ _ _ Ho Hv) as (o & Hd & He & Hdv).
    exists o. split; [done|]. by eapply NoDup_lookup.
Qed.

Lemma aggregate_elem cs field vs m v c :
  keyword_columns cs !! field = Some (keyword_column vs) -> Z.of_nat (length vs) < 2 ^ 32 ->
  Z.of_nat (rb_len m) < 2 ^ 64 ->
  (v, c) ∈ cs_aggregate_counts cs field m <->
    c = Z.of_nat (length (docs_with vs m v)) /\ 0 < c.
Proof.
  intros Hf Hl Hm. rewrite rb_len_iter in Hm. unfold cs_aggregate_counts. rewrite Hf.
  pose proof (keyword_column_inv vs ltac:(lia)) as Hi. unfold keyword_column.
  cbn [kw_build kc_dict kc_ordinals]. set (w := foldl kw_step kw_new vs) in *.
  set (counts := foldl _ _ _).
  assert (forall i v, kw_dict w !! i = Some v ->
    counts !! i = Some (Z.of_nat (length (docs_with vs m v)))) as Hc.
  { intros i v' Hv'. unfold counts. rewrite count_docs_spec.
    - rewrite lookup_replicate_2 by by eapply lookup_lt_Some.
      cbn [fmap option_fmap option_map]. by rewrite Z.add_0_l, (ord_hits_docs w vs i v' m).
    - apply Forall_replicate. lia. }
  rewrite omap_enumerate_elem. split.
  - intros (i & v' & Hi' & Hs). cbn in Hs. rewrite (Hc _ _ Hi') in Hs. cbn in Hs.
    destruct (Z.ltb_spec 0 (Z.of_nat (length (docs_with vs m v')))); by simplify_eq.
  - intros [-> Hpos]. destruct (docs_with vs m v) as [|d ds] eqn:E; [done|].
    assert (d ∈ docs_with vs m v) as Hd by (rewrite E; by left).
    apply list_elem_of_filter in Hd as [Hd _].
    pose proof (Forall2_lookup_r _ _ _ _ _ (ki_ordinals _ _ Hi) Hd) as (o & _ & _ & Hdv).
    exists (Z.to_nat o), v. split; [done|]. cbn. rewrite (Hc _ _ Hdv), E. cbn [mbind option_bind].
    by rewrite (proj2 (Z.ltb_lt _ _) Hpos).
Qed.

Lemma omap_fst_sublist {A B} (f : nat * A -> option (A * B)) (l : list (nat * A)) :
  (forall p y, f p = Some y -> y.1 = p.2) -> sublist (omap f l).*1 l.*2.
Proof.
  intros Hf. induction l as [|p l IH]; cbn; [constructor|].
  destruct (f p) as [y|] eqn:E.
  - cbn. rewrite (Hf _ _ E). by constructor.
  - by constructor.
Qed.

Lemma enumerate_snd {A} (l : list A) : (enumerate l).*2 = l.
Proof.
  unfold enumerate. apply list_eq. intros i. rewrite list_lookup_fmap, list_lookup_imap.
  by destruct (l !! i).
Qed.
End AggregateSpecs.

(** the count aggregation of a keyword field lists each value once, a value
    being listed exactly when some matching document holds it, with the number
    of those documents. *)
Theorem aggregate_counts_correct `{RLL : RoaringLaws} (cs : ColumnStore) (field : string)
    (vs : list (option string)) (m : RoaringBitmap) :
  keyword_columns cs !! field = Some (keyword_column vs) -> Z.of_nat (length vs) < 2 ^ 32 ->
  Z.of_nat (rb_len m) < 2 ^ 64 ->
  NoDup (cs_aggregate_counts cs field m).*1 /\
  forall v c, (v, c) ∈ cs_aggregate_counts cs field m <->
    c = Z.of_nat (length (docs_with vs m v)) /\ 0 < c.
Proof.
  intros Hf Hl Hm. split; [|intros; by apply aggregate_elem].
  unfold cs_aggregate_counts. rewrite Hf.
  eapply sublist_NoDup; [|apply (omap_fst_sublist _ (enumerate _))].
  - rewrite enumerate_snd. apply (ki_nodup _ _ (keyword_column_inv vs ltac:(lia))).
  - intros [i v] y Hy. cbn in Hy. apply bind_Some in Hy as (c & _ & Hy). by case_match; simplify_eq.
Qed.

Section AggregateWitness.
Import SetRoaring.

Lemma aggregate_counts_correct_witness :
  cs_aggregate_counts sample_store "brand" (rb_from [0; 1; 2; 3]) = [("samsung", 2); ("apple", 1)] /\
  NoDup (cs_aggregate_counts sample_store "brand" (rb_from [0; 1; 2; 3])).*1.
Proof.
  split; [vm_compute; reflexivity|].
  apply (aggregate_counts_correct sample_store "brand"
    [Some "samsung"; None; Some "apple"; Some "samsung"]); vm_compute; reflexivity.
Defined.
End AggregateWitness.
