(* ===== verification/DocStore.v ===== *)
(** The document store of a segment and its deletion bitmap
    ([crates/index/src/docstore.rs]). *)
From Stdlib Require Import Strings.Byte.
From S2P Require Import Prelude Bytes Order Float Types Disk.

Local Open Scope Z_scope.

(** ** Writer *)
Record DocStoreWriter := mkDocStoreWriter { dw_docs : list Document }.

Definition dw_new : DocStoreWriter := {| dw_docs := [] |}.
Definition dw_add (w : DocStoreWriter) (doc : Document) : DocStoreWriter :=
  {| dw_docs := dw_docs w ++ [doc] |}.
Definition dw_doc_count (w : DocStoreWriter) : nat := length (dw_docs w).

Section DocStore.
Context `{RL : RoaringLib} `{SD : Serde Document}.

Definition write_doc (st : bytes * list Z) (doc : Document) : Result (bytes * list Z) :=
  let '(doc_data, offsets) := st in
  let offsets := offsets ++ [Z.of_nat (length doc_data)] in
  encoded ← serialize doc;
  let doc_data := doc_data ++ u32_le (wrap 32 (Z.of_nat (length encoded))) ++ encoded in
  Ret (doc_data, offsets).

Definition dw_write (w : DocStoreWriter) (dir : path) : IO unit :=
  _ ← create_dir_all dir;
  '(doc_data, offsets) ← lift (try_fold write_doc ([], []) (dw_docs w));
  let file_data :=
    u32_le (wrap 32 (Z.of_nat (length (dw_docs w)))) ++ (offsets ≫= u64_le) ++ doc_data in
  fs_write (join dir "docs.bin") file_data.

(** ** Deletion bitmap *)
Definition load_deletion_bitmap (dir : path) : IO RoaringBitmap :=
  ex ← fs_exists (join dir "deletions.bin");
  if (ex : bool) then
    data ← fs_read (join dir "deletions.bin");
    lift (deserialize data)
  else mret rb_new.

Definition deletion_save (bitmap : RoaringBitmap) (dir : path) : IO unit :=
  data ← lift (serialize bitmap);
  fs_write (join dir "deletions.bin") data.

Definition mark_deleted (dir : path) (local_doc_id : Z) : IO RoaringBitmap :=
  ex ← fs_exists (join dir "deletions.bin");
  bitmap ←
    (if (ex : bool) then
       data ← fs_read (join dir "deletions.bin");
       lift (deserialize data)
     else mret rb_new);
  let bitmap := rb_insert local_doc_id bitmap in
  _ ← deletion_save bitmap dir;
  mret bitmap.

(** ** Reader *)
Record DocStoreReader := mkDocStoreReader {
  dr_data : bytes;
  dr_doc_count : Z;                   (* u32 *)
  dr_offset_table_start : nat;
  dr_data_start : nat;
  dr_deletion_bitmap : RoaringBitmap;
}.

Definition dr_open (dir : path) : IO DocStoreReader :=
  data ← fs_read (join dir "docs.bin");
  cb ← lift (slice data 0 4);
  let doc_count := from_le cb in
  let offset_table_start := 4%nat in
  let data_start := (offset_table_start + Z.to_nat doc_count * 8)%nat in
  deletion_bitmap ← load_deletion_bitmap dir;
  mret {| dr_data := data; dr_doc_count := doc_count;
          dr_offset_table_start := offset_table_start; dr_data_start := data_start;
          dr_deletion_bitmap := deletion_bitmap |}.

Definition dr_get (r : DocStoreReader) (local_doc_id : Z) : Result (option Document) :=
  if (dr_doc_count r <=? local_doc_id) || rb_contains (dr_deletion_bitmap r) local_doc_id
  then Ret None
  else
    let offset_pos := (dr_offset_table_start r + Z.to_nat local_doc_id * 8)%nat in
    ob ← slice (dr_data r) offset_pos (offset_pos + 8);
    let relative_offset := Z.to_nat (from_le ob) in
    let abs_offset := (dr_data_start r + relative_offset)%nat in
    lb ← slice (dr_data r) abs_offset (abs_offset + 4);
    let doc_len := Z.to_nat (from_le lb) in
    doc_data ← slice (dr_data r) (abs_offset + 4) (abs_offset + 4 + doc_len);
    Ret (outcome_ok (deserialize doc_data)).

Definition live_doc_count (r : DocStoreReader) : Z :=
  wrap 32 (dr_doc_count r - wrap 32 (Z.of_nat (rb_len (dr_deletion_bitmap r)))).
Definition is_deleted (r : DocStoreReader) (local_doc_id : Z) : bool :=
  rb_contains (dr_deletion_bitmap r) local_doc_id.
End DocStore.

(** ** Layout of [docs.bin] *)
Section Layout.
Context `{RLL : RoaringLaws} `{SDL : SerdeLaws Document}.

Definition doc_frame (enc : bytes) : bytes := u32_le (wrap 32 (Z.of_nat (length enc))) ++ enc.
Definition doc_frames (encs : list bytes) : bytes := encs ≫= doc_frame.

Fixpoint doc_offsets (off : nat) (encs : list bytes) : list Z :=
  match encs with
  | [] => []
  | e :: encs => Z.of_nat off :: doc_offsets (off + length (doc_frame e)) encs
  end.

Definition doc_file (encs : list bytes) : bytes :=
  u32_le (wrap 32 (Z.of_nat (length encs))) ++ (doc_offsets 0 encs ≫= u64_le) ++ doc_frames encs.

(** [encs] are the encodings of [docs]. *)
Definition encodings (docs : list Document) (encs : list bytes) : Prop :=
  Forall2 (fun doc e => serialize doc = Ret e /\ deserialize e = Ret doc) docs encs.

Lemma encodings_exist docs : exists encs, encodings docs encs.
Proof.
  induction docs as [|doc docs [encs IH]]; [by exists []; constructor|].
  destruct (serde_roundtrip doc) as (e & H1 & H2). exists (e :: encs). by constructor.
Qed.

Lemma write_docs docs encs : encodings docs encs -> forall data offs,
  try_fold write_doc (data, offs) docs =
    Ret (data ++ doc_frames encs, offs ++ doc_offsets (length data) encs).
Proof.
  induction 1 as [|doc e docs encs [Hs _] _ IH]; intros data offs; cbn [try_fold doc_offsets].
  { cbn. by rewrite !app_nil_r. }
  unfold write_doc at 2. cbn beta iota zeta. rewrite Hs. cbn [mbind outcome_bind].
  rewrite IH. fold (doc_frame e). rewrite length_app, <- !app_assoc. done.
Qed.

(** The sizes the file can hold. *)
Definition docs_fit (encs : list bytes) : Prop :=
  in_width 32 (Z.of_nat (length encs)) /\
  Forall (fun e => in_width 32 (Z.of_nat (length e))) encs /\
  in_width 64 (Z.of_nat (length (doc_frames encs))).

#[global] Instance docs_fit_dec encs : Decision (docs_fit encs) | 100.
Proof. unfold docs_fit. apply _. Defined.

Lemma doc_offsets_app e1 e2 : forall off,
  doc_offsets off (e1 ++ e2)
    = doc_offsets off e1 ++ doc_offsets (off + length (doc_frames e1)) e2.
Proof.
  induction e1 as [|e e1 IH]; intros off; cbn [doc_offsets app];
    [by rewrite Nat.add_0_r|].
  change (doc_frames (e :: e1)) with (doc_frame e ++ doc_frames e1).
  by rewrite IH, length_app, Nat.add_assoc.
Qed.

Lemma length_doc_offsets encs : forall off, length (doc_offsets off encs) = length encs.
Proof. induction encs as [|e encs IH]; intros off; [done|]. cbn. by rewrite IH. Qed.

Lemma length_table offs : length (offs ≫= u64_le) = (length offs * 8)%nat.
Proof.
  induction offs as [|o offs IH]; [done|].
  change ((o :: offs) ≫= u64_le) with (u64_le o ++ (offs ≫= u64_le)).
  rewrite length_app, IH. unfold u64_le. rewrite length_to_le. simpl. lia.
Qed.

Definition opened (encs : list bytes) (b : RoaringBitmap) : DocStoreReader :=
  {| dr_data := doc_file encs; dr_doc_count := Z.of_nat (length encs);
     dr_offset_table_start := 4; dr_data_start := 4 + length encs * 8;
     dr_deletion_bitmap := b |}.

(** Where document [i] lies: its offset in the table, its frame behind it. *)
Lemma doc_file_split encs i e :
  encs !! i = Some e -> docs_fit encs ->
  exists o pre1 post1 pre2 post2,
    in_width 64 (Z.of_nat o) /\
    doc_file encs = pre1 ++ u64_le (Z.of_nat o) ++ post1 /\
    length pre1 = (4 + i * 8)%nat /\
    doc_file encs = pre2 ++ u32_le (Z.of_nat (length e)) ++ (e ++ post2) /\
    length pre2 = (4 + length encs * 8 + o)%nat.
Proof.
  intros Hei (Hn & Hl & Ht). pose proof (lookup_lt_Some _ _ _ Hei) as Hlt.
  pose proof (Forall_lookup_1 _ _ _ _ Hl Hei) as Hle. cbn in Hle.
  pose proof (take_drop_middle _ _ _ Hei) as Hsplit.
  set (e1 := take i encs) in *. set (e2 := drop (S i) encs) in *.
  assert (length e1 = i) as Hl1 by (apply length_take_le; lia).
  unfold doc_file. set (n := length encs) in *.
  set (o := (0 + length (doc_frames e1))%nat).
  assert (mbind u64_le (doc_offsets 0 encs) = (doc_offsets 0 e1 ≫= u64_le) ++ u64_le (Z.of_nat o) ++
    (doc_offsets (o + length (doc_frame e)) e2 ≫= u64_le)) as ->.
  { rewrite <- Hsplit at 1. rewrite doc_offsets_app, bind_app. done. }
  assert (doc_frames encs = doc_frames e1 ++ u32_le (Z.of_nat (length e)) ++ (e ++ doc_frames e2))
    as Hfr.
  { rewrite <- Hsplit at 1. unfold doc_frames. rewrite bind_app. f_equal.
    change ((e :: e2) ≫= doc_frame) with (doc_frame e ++ (e2 ≫= doc_frame)).
    unfold doc_frame at 1. by rewrite wrap_id, <- app_assoc by done. }
  set (hd := u32_le (wrap 32 (Z.of_nat n))). set (t1 := doc_offsets 0 e1 ≫= u64_le).
  set (t2 := _ ≫= u64_le).
  assert (length hd = 4%nat) as Hhd by apply length_to_le.
  assert (length t1 = (i * 8)%nat) as Ht1.
  { unfold t1. by rewrite length_table, length_doc_offsets, Hl1. }
  assert (length t2 = ((n - S i) * 8)%nat) as Ht2.
  { unfold t2. rewrite length_table, length_doc_offsets. unfold e2. by rewrite length_drop. }
  assert (length (u64_le (Z.of_nat o)) = 8%nat) as H8 by apply length_to_le.
  exists o, (hd ++ t1), (t2 ++ doc_frames encs),
    (hd ++ t1 ++ u64_le (Z.of_nat o) ++ t2 ++ doc_frames e1), (doc_frames e2).
  split_and!.
  - rewrite Hfr, length_app in Ht. unfold in_width in *. lia.
  - by rewrite <- !app_assoc.
  - rewrite length_app. lia.
  - rewrite Hfr. by rewrite <- !app_assoc.
  - rewrite !length_app, Hhd, Ht1, Ht2, H8. unfold o. lia.
Qed.

Lemma dr_get_opened docs encs b i :
  encodings docs encs -> docs_fit encs -> 0 <= i ->
  dr_get (opened encs b) i =
    Ret (if rb_contains b i then None else docs !! Z.to_nat i).
Proof.
  intros He Hfit Hi. unfold dr_get, opened.
  cbn [dr_doc_count dr_deletion_bitmap dr_data dr_offset_table_start dr_data_start].
  destruct (rb_contains b i); [by rewrite orb_true_r|]. rewrite orb_false_r.
  destruct (Z.leb_spec (Z.of_nat (length encs)) i) as [Hge|Hlt].
  { rewrite lookup_ge_None_2; [done|]. rewrite (Forall2_length _ _ _ He). lia. }
  destruct (lookup_lt_is_Some_2 encs (Z.to_nat i)) as [e Hei]; [lia|].
  destruct (Forall2_lookup_r _ _ _ _ _ He Hei) as (doc & -> & _ & Hde).
  destruct (doc_file_split _ _ _ Hei Hfit) as (o & pre1 & post1 & pre2 & post2 & Ho & H1 & Hl1 & H2 & Hl2).
  destruct Hfit as (_ & Hl & _). pose proof (Forall_lookup_1 _ _ _ _ Hl Hei) as Hle. cbn in Hle.
  assert (length (u64_le (Z.of_nat o)) = 8%nat) as H8 by apply length_to_le.
  assert (length (u32_le (Z.of_nat (length e))) = 4%nat) as H4 by apply length_to_le.
  rewrite H1, slice_app_middle by lia. cbn [mbind outcome_bind].
  rewrite from_u64_le, Nat2Z.id by done.
  rewrite <- H1, H2, slice_app_middle by lia. cbn [mbind outcome_bind].
  rewrite from_u32_le, Nat2Z.id by done. rewrite app_assoc.
  rewrite slice_app_middle by (rewrite length_app; lia). cbn [mbind outcome_bind].
  by rewrite Hde.
Qed.

(** The file [dw_write] produces. *)
Lemma dw_write_spec docs encs dir d :
  encodings docs encs -> dir <> [] ->
  dw_write {| dw_docs := docs |} dir d =
    ({| dk_files := <[join dir "docs.bin" := doc_file encs]> (dk_files d);
        dk_dirs := dk_dirs d ∪ list_to_set (prefixes dir) |}, Ret tt).
Proof.
  intros He Hdir. unfold dw_write. cbn [dw_docs].
  erewrite io_bind_ret by reflexivity.
  erewrite io_bind_ret by (unfold lift; rewrite (write_docs _ _ He); reflexivity).
  cbn beta iota zeta. rewrite (Forall2_length _ _ _ He).
  apply (fs_write_spec dir "docs.bin" (doc_file encs)).
  pose proof (elem_of_prefixes_self dir Hdir). set_solver.
Qed.

Lemma dr_open_spec encs dir d b :
  docs_fit encs -> dk_files d !! join dir "docs.bin" = Some (doc_file encs) ->
  load_deletion_bitmap dir d = (d, Ret b) ->
  dr_open dir d = (d, Ret (opened encs b)).
Proof.
  intros (Hn & _) Hf Hb. unfold dr_open.
  erewrite io_bind_ret by (by apply fs_read_spec).
  assert (slice (E := Error) (doc_file encs) 0 4
    = Ret (u32_le (wrap 32 (Z.of_nat (length encs))))) as Hcount.
  { apply (slice_app_middle []); unfold u32_le; by rewrite ?length_to_le. }
  erewrite io_bind_ret by (unfold lift; rewrite Hcount; reflexivity).
  rewrite wrap_id by done. rewrite from_u32_le by done.
  erewrite io_bind_ret by apply Hb. unfold mret, IO_ret, opened.
  by rewrite Nat2Z.id.
Qed.

(** The bitmap on disk: none, or one that was saved. *)
Definition saved_bitmap (dir : path) (d : Disk) (b : RoaringBitmap) : Prop :=
  exists b', load_deletion_bitmap dir d = (d, Ret b') /\
    forall x, rb_contains b' x = rb_contains b x.

Lemma mark_deleted_spec dir d b i :
  saved_bitmap dir d b -> dir ∈ dk_dirs d ->
  exists bs b',
    mark_deleted dir i d =
      ({| dk_files := <[join dir "deletions.bin" := bs]> (dk_files d); dk_dirs := dk_dirs d |},
       Ret b') /\
    (forall x, rb_contains b' x = (i =? x) || rb_contains b x) /\
    forall d', dk_files d' !! join dir "deletions.bin" = Some bs ->
      saved_bitmap dir d' b'.
Proof.
  intros (b0 & Hload & Hb0) Hdir.
  destruct (rb_roundtrip (rb_insert i b0)) as (bs & b1 & Hs & Hd & Hb1).
  exists bs, (rb_insert i b0). split_and!.
  - unfold mark_deleted, load_deletion_bitmap in *.
    destruct (fs_exists (join dir "deletions.bin") d) as [d1 [ex| |]] eqn:Hex;
      unfold fs_exists in Hex; simplify_eq.
    erewrite io_bind_ret in Hload by reflexivity.
    erewrite io_bind_ret by reflexivity. erewrite io_bind_ret by exact Hload.
    erewrite io_bind_ret.
    2: { unfold deletion_save. erewrite io_bind_ret by (unfold lift; by rewrite Hs).
         by apply fs_write_spec. }
    done.
  - intros x. by rewrite rb_contains_insert, Hb0.
  - intros d' Hf. exists b1. split; [|done]. unfold load_deletion_bitmap, fs_exists.
    erewrite io_bind_ret by reflexivity. rewrite Hf.
    rewrite bool_decide_true by (by eexists).
    erewrite io_bind_ret by (by apply fs_read_spec). unfold lift. by rewrite Hd.
Qed.
End Layout.

(** after [write] and any sequence of [mark_deleted] calls, the reader
    opened on the directory returns document [i] as it was added, or nothing
    when [i] was marked or is out of range; no slice panics. *)
Theorem docstore_roundtrip `{RLL : RoaringLaws} `{SDL : SerdeLaws Document}
    (docs : list Document) (encs : list bytes) (marked : list Z) (dir : path) (d : Disk) (i : Z) :
  encodings docs encs -> docs_fit encs -> dir <> [] ->
  dk_files d !! join dir "deletions.bin" = None -> 0 <= i ->
  exists d' r,
    (_ ← dw_write {| dw_docs := docs |} dir;
     _ ← io_fold (fun (_ : unit) j => _ ← mark_deleted dir j; mret tt) tt marked;
     dr_open dir) d = (d', Ret r) /\
    dr_get r i = Ret (if bool_decide (i ∈ marked) then None else docs !! Z.to_nat i).
Proof.
  intros He Hfit Hdir Hnone Hi.
  assert (forall marked d, dk_files d !! join dir "docs.bin" = Some (doc_file encs) ->
    dir ∈ dk_dirs d -> forall b, saved_bitmap dir d b ->
    exists d' b', io_fold (fun (_ : unit) j => _ ← mark_deleted dir j; mret tt) tt marked d
        = (d', Ret tt) /\ dk_files d' !! join dir "docs.bin" = Some (doc_file encs) /\
      saved_bitmap dir d' b' /\
      forall x, rb_contains b' x = true <-> x ∈ marked \/ rb_contains b x = true) as Hmark.
  { clear d Hnone marked. induction marked as [|j marked IH]; intros d Hf Hin b Hb.
    { exists d, b. split_and!; [done|done|done|]. intros x. rewrite elem_of_nil. naive_solver. }
    destruct (mark_deleted_spec dir d b j Hb Hin) as (bs & b1 & Hm & Hb1 & Hs).
    destruct (IH {| dk_files := <[join dir "deletions.bin" := bs]> (dk_files d);
                    dk_dirs := dk_dirs d |}) with (b := b1) as (d' & b' & Hr & Hf' & Hs' & Hb').
    - cbn. rewrite lookup_insert_ne; [done|]. intros [_ ?]%join_inj. done.
    - done.
    - apply Hs. apply lookup_insert_eq.
    - exists d', b'. split_and!; [|done|done|].
      + cbn [io_fold]. erewrite io_bind_ret; [exact Hr|].
        erewrite io_bind_ret by exact Hm. done.
      + intros x. rewrite Hb', Hb1, orb_true_iff, Z.eqb_eq, elem_of_cons. naive_solver. }
  set (d1 := {| dk_files := <[join dir "docs.bin" := doc_file encs]> (dk_files d);
                dk_dirs := dk_dirs d ∪ list_to_set (prefixes dir) |}).
  destruct (Hmark marked d1) with (b := rb_new) as (d' & b & Hr & Hf & (b' & Hload & Hb') & Hb).
  - apply lookup_insert_eq.
  - pose proof (elem_of_prefixes_self dir Hdir). set_solver.
  - exists rb_new. split; [|done]. unfold load_deletion_bitmap, fs_exists.
    erewrite io_bind_ret by reflexivity. cbn [dk_files d1]. rewrite lookup_insert_ne, Hnone; [done|].
    intros [_ ?]%join_inj. done.
  - eexists d', _. split.
    + erewrite io_bind_ret by (by apply dw_write_spec).
      erewrite io_bind_ret by exact Hr. by apply dr_open_spec.
    + rewrite (dr_get_opened docs) by done. rewrite Hb'. f_equal.
      specialize (Hb i). rewrite rb_contains_new in Hb.
      case_bool_decide; destruct (rb_contains b i); naive_solver.
Qed.

Section Witness.
Import CountableSerde SetRoaring.

Definition sample_doc (id : Z) (title : string) : Document :=
  {| doc_id := id; doc_title := title; doc_description := "d"; doc_price := f64_of_Z 10;
     doc_category := "c"; doc_attributes := ∅ |}.

Lemma docstore_roundtrip_witness :
  let docs := [sample_doc 1 "a"; sample_doc 2 "b"; sample_doc 3 "c"] in
  exists d' r,
    (_ ← dw_write {| dw_docs := docs |} ["seg"];
     _ ← io_fold (fun (_ : unit) j => _ ← mark_deleted ["seg"] j; mret tt) tt [1];
     dr_open ["seg"]) disk_empty = (d', Ret r) /\
    dr_get r 2 = Ret (Some (sample_doc 3 "c")).
Proof.
  intros docs.
  apply (docstore_roundtrip docs ((fun doc => bits_of (encode doc)) <$> docs) [1] ["seg"]
           disk_empty 2).
  - repeat constructor; vm_compute; reflexivity.
  - vm_decide.
  - done.
  - reflexivity.
  - lia.
Defined.
End Witness.
