(* ===== verification/Segment.v ===== *)
(** Segments ([crates/index/src/segment.rs]): the writer that turns a batch of
    documents into the files of a segment, and the reader on top of the
    inverted index, the column store and the document store. *)
From Stdlib Require Import Strings.Byte.
From S2P Require Import Prelude Bytes Order Float FloatRound Types Text Analysis Posting Disk.
From S2P Require Import EditDistance Inverted Column DocStore.

Local Open Scope Z_scope.

Record SegmentMeta := mkSegmentMeta {
  sm_doc_count : Z;                     (* u32 *)
  sm_term_count : nat;
  sm_segment_id : string;
}.

#[global] Instance SegmentMeta_eq_dec : EqDecision SegmentMeta.
Proof. solve_decision. Defined.
#[global] Instance SegmentMeta_countable : Countable SegmentMeta.
Proof.
  refine (inj_countable' (fun m => (sm_doc_count m, sm_term_count m, sm_segment_id m))
            (fun '(d, t, i) => mkSegmentMeta d t i) _). by intros [].
Defined.

(** The libraries a segment is built on, and their laws. *)
Class IndexLibs := {
  il_text :: TextLib;
  il_roaring :: RoaringLib;
  il_fst :: FstLib;
  il_doc :: Serde Document;             (* bincode *)
  il_columns :: Serde ColumnStore;      (* bincode *)
  il_meta :: Serde SegmentMeta;         (* serde_json *)
}.
Class IndexLaws `{IL : IndexLibs} := {
  ill_text :: TextLibLaws;
  ill_roaring :: RoaringLaws;
  ill_fst :: FstLaws;
  ill_doc :: SerdeLaws Document;
  ill_columns :: SerdeLaws ColumnStore;
  ill_meta :: SerdeLaws SegmentMeta;
}.

Module TestLibs.
#[export] Instance libs : IndexLibs := {
  il_text := AsciiText.lib;
  il_roaring := SetRoaring.lib;
  il_fst := ListFst.lib;
  il_doc := CountableSerde.serde Document;
  il_columns := CountableSerde.serde ColumnStore;
  il_meta := CountableSerde.serde SegmentMeta;
}.
#[export] Instance laws : IndexLaws.
Proof.
  split; [apply AsciiText.laws|apply SetRoaring.laws|apply ListFst.laws
         |apply CountableSerde.laws..].
Defined.
End TestLibs.

Section Segment.
Context `{IL : IndexLibs}.

(** ** Writer *)
Record SegmentWriter := mkSegmentWriter { sw_schema : IndexSchema }.

Definition meta_write (m : SegmentMeta) (dir : path) : IO unit :=
  json ← lift (serialize m);
  fs_write (join dir "meta.json") json.
Definition meta_read (dir : path) : IO SegmentMeta :=
  data ← fs_read (join dir "meta.json");
  lift (deserialize data).

(** The [match field.field_type] of the column writers. *)
Definition keyword_writers_new (schema : IndexSchema) : list (string * KeywordColumnWriter) :=
  omap (fun f => if bool_decide (fc_field_type f = FtKeyword) && (fc_filterable f || fc_aggregatable f)
                 then Some (fc_name f, kw_new) else None) (schema_fields schema).
Definition numeric_writers_new (schema : IndexSchema) : list (string * NumericColumnWriter) :=
  omap (fun f => if bool_decide (fc_field_type f = FtNumeric) && fc_filterable f
                 then Some (fc_name f, nw_new) else None) (schema_fields schema).

Definition text_analyzers (schema : IndexSchema) : list (string * Analyzer * f32) :=
  (fun f => (fc_name f, analyzer_build (fc_analyzer f), fc_boost f))
    <$> filter (fun f => is_text_field f = true) (schema_fields schema).

(** The token count of one document, capped at [u16::MAX]. *)
Definition doc_length (analyzers : list (string * Analyzer * f32)) (doc : Document) : Z :=
  let combined :=
    foldr Z.add 0
      ((fun '(field_name, analyzer, _) =>
          match text_of_field field_name doc with
          | Some text => Z.of_nat (length (analyze analyzer text))
          | None => 0
          end) <$> analyzers) in
  Z.min combined u16_max.

Definition average_length (doc_lengths : list Z) : f32 :=
  match doc_lengths with
  | [] => f32_of_Z 1
  | _ =>
      f32_div (f32_of_f64 (foldl (fun s l => f64_add s (f64_of_Z l)) f_zero doc_lengths))
        (f32_of_Z (Z.of_nat (length doc_lengths)))
  end.

Definition keyword_value (field_name : string) (doc : Document) : option string :=
  if bool_decide (field_name = "category") then Some (doc_category doc)
  else match doc_attributes doc !! field_name with
       | Some (VString v) => Some v
       | _ => None
       end.
Definition numeric_value (field_name : string) (doc : Document) : option f64 :=
  if bool_decide (field_name = "price") then Some (doc_price doc)
  else match doc_attributes doc !! field_name with
       | Some (VNumber v) => Some v
       | _ => None
       end.

(** The tokens of one document added to the inverted index. *)
Definition index_text (analyzers : list (string * Analyzer * f32)) (local_id doc_len : Z)
    (doc : Document) (w : InvertedIndexWriter) : InvertedIndexWriter :=
  foldl (fun w '(field_name, analyzer, _) =>
           match text_of_field field_name doc with
           | Some text =>
               foldl (fun w token => add_term w (tok_text token) local_id doc_len) w
                 (analyze analyzer text)
           | None => w
           end) w analyzers.

Record SegmentBuild := mkSegmentBuild {
  sb_inverted : InvertedIndexWriter;
  sb_keywords : list (string * KeywordColumnWriter);
  sb_numerics : list (string * NumericColumnWriter);
  sb_docs : DocStoreWriter;
}.

(** The body of the loop over the documents. *)
Definition index_doc (analyzers : list (string * Analyzer * f32)) (st : SegmentBuild)
    (p : nat * (Document * Z)) : SegmentBuild :=
  let '(local_doc_id, (doc, doc_len)) := p in
  let local_id := wrap 32 (Z.of_nat local_doc_id) in
  {| sb_inverted := index_text analyzers local_id doc_len doc (sb_inverted st);
     sb_keywords :=
       (fun '(name, w) => (name, kw_step w (keyword_value name doc))) <$> sb_keywords st;
     sb_numerics :=
       (fun '(name, w) => (name, nw_step w (numeric_value name doc))) <$> sb_numerics st;
     sb_docs := dw_add (sb_docs st) doc |}.

Definition build_segment (schema : IndexSchema) (docs : list Document) : SegmentBuild :=
  let analyzers := text_analyzers schema in
  foldl (index_doc analyzers)
    {| sb_inverted := iw_new; sb_keywords := keyword_writers_new schema;
       sb_numerics := numeric_writers_new schema; sb_docs := dw_new |}
    (enumerate (zip docs (doc_length analyzers <$> docs))).

Definition build_columns (st : SegmentBuild) : ColumnStore :=
  {| keyword_columns :=
       foldl (fun m '(name, w) => <[name := kw_build w]> m) ∅ (sb_keywords st);
     numeric_columns :=
       foldl (fun m '(name, w) => <[name := nw_build w]> m) ∅ (sb_numerics st) |}.

Definition sw_write (sw : SegmentWriter) (segment_id : string) (docs : list Document)
    (dir : path) : IO unit :=
  _ ← create_dir_all dir;
  let schema := sw_schema sw in
  let doc_lengths := doc_length (text_analyzers schema) <$> docs in
  let avgdl := average_length doc_lengths in
  let st := build_segment schema docs in
  inverted ← iw_write (sb_inverted st) dir avgdl;
  _ ← cs_write (build_columns st) dir;
  _ ← dw_write (sb_docs st) dir;
  meta_write {| sm_doc_count := wrap 32 (Z.of_nat (length docs));
                sm_term_count := iw_term_count inverted;
                sm_segment_id := segment_id |} dir.

(** ** Reader *)
Record SegmentReader := mkSegmentReader {
  sr_dir : path;
  sr_meta : SegmentMeta;
  sr_inverted : InvertedIndexReader;
  sr_columns : ColumnStore;
  sr_docs : DocStoreReader;
}.

Definition sr_open (dir : path) : IO SegmentReader :=
  meta ← meta_read dir;
  inverted ← ir_open dir;
  columns ← cs_read dir;
  docs ← dr_open dir;
  mret {| sr_dir := dir; sr_meta := meta; sr_inverted := inverted; sr_columns := columns;
          sr_docs := docs |}.

Definition deletions (r : SegmentReader) : RoaringBitmap := dr_deletion_bitmap (sr_docs r).

(** [if !deletions.is_empty() { pl.postings.retain(..) }]. *)
Definition retain_live (r : SegmentReader) (pl : PostingList) : PostingList :=
  if negb (rb_is_empty (deletions r))
  then {| postings :=
            filter (fun p => rb_contains (deletions r) (p_doc_id p) = false) (postings pl);
          blocks := blocks pl |}
  else pl.

Definition retain_entries (r : SegmentReader) (l : list (string * PostingList))
  : list (string * PostingList) := (fun kv => (kv.1, retain_live r kv.2)) <$> l.

Definition search_term (r : SegmentReader) (term : string) : Result (option PostingList) :=
  pl ← get_postings (sr_inverted r) term;
  Ret (retain_live r <$> (pl : option PostingList)).

Definition prefix_search_term (r : SegmentReader) (prefix : string)
  : Result (list (string * PostingList)) :=
  l ← prefix_search (sr_inverted r) prefix;
  Ret (retain_entries r l).

Definition fuzzy_search_term (r : SegmentReader) (term : string) (max_distance : nat)
  : Result (list (string * PostingList)) :=
  l ← fuzzy_search (sr_inverted r) term max_distance;
  Ret (filter (fun kv : string * PostingList => pl_is_empty kv.2 = false)
         (retain_entries r l)).

Definition get_doc (r : SegmentReader) (local_doc_id : Z) : Result (option Document) :=
  dr_get (sr_docs r) local_doc_id.

Definition sr_filter_eq (r : SegmentReader) (field value : string) : RoaringBitmap :=
  rb_sub (cs_filter_eq (sr_columns r) field value) (deletions r).
Definition sr_filter_range (r : SegmentReader) (field : string) (gte lte : option f64)
  : RoaringBitmap :=
  rb_sub (cs_filter_range (sr_columns r) field gte lte) (deletions r).
Definition sr_filter_in (r : SegmentReader) (field : string) (values : list string)
  : RoaringBitmap :=
  rb_sub (cs_filter_in (sr_columns r) field values) (deletions r).
Definition sr_aggregate_counts (r : SegmentReader) (field : string) (m : RoaringBitmap)
  : list (string * Z) := cs_aggregate_counts (sr_columns r) field m.

(** [for i in 0..self.meta.doc_count { all.insert(i) }] minus the deletions. *)
Definition all_live_docs (r : SegmentReader) : RoaringBitmap :=
  rb_sub (foldl (fun all i => rb_insert i all) rb_new (ziota (sm_doc_count (sr_meta r))))
    (deletions r).
End Segment.

(** ** What the writer indexes *)
Section Indexing.
Context `{IL : IndexLibs}.

(** The terms of a document, field by field in schema order. *)
Definition doc_terms (analyzers : list (string * Analyzer * f32)) (doc : Document)
  : list string :=
  analyzers ≫= (fun '(field_name, analyzer, _) =>
    match text_of_field field_name doc with
    | Some text => analyze_to_terms analyzer text
    | None => []
    end).

Definition occurrences (term : string) (terms : list string) : nat :=
  length (filter (fun t => t = term) terms).

(** The posting list a segment of [docs] should have for [term]: one posting
    per document containing it, in document order. *)
Definition expected_postings (analyzers : list (string * Analyzer * f32))
    (docs : list Document) (term : string) : list Posting :=
  omap (fun p : nat * Document =>
          let n := occurrences term (doc_terms analyzers p.2) in
          if (n =? 0)%nat then None
          else Some (mkPosting (Z.of_nat p.1) (Z.min 255 (Z.of_nat n))
                               (doc_length analyzers p.2)))
    (enumerate docs).

Definition expected_list (analyzers : list (string * Analyzer * f32))
    (docs : list Document) (term : string) : option PostingList :=
  match expected_postings analyzers docs term with
  | [] => None
  | ps => Some {| postings := ps; blocks := [] |}
  end.

Lemma index_text_terms analyzers id len doc : forall w,
  index_text analyzers id len doc w
    = foldl (fun w t => add_term w t id len) w (doc_terms analyzers doc).
Proof.
  unfold index_text, doc_terms. induction analyzers as [|[[f a] b] ans IH]; intros w; [done|].
  change (((f, a, b) :: ans) ≫= ?g) with (g (f, a, b) ++ (ans ≫= g)).
  cbn [foldl]. rewrite foldl_app, IH. f_equal.
  destruct (text_of_field f doc) as [text|]; [|done].
  unfold analyze_to_terms. generalize (analyze a text). intros l. revert w.
  induction l as [|tok l IHl]; intros w; [done|]. cbn. apply IHl.
Qed.

(** [n] occurrences in one document append one posting. *)
Definition bumped (id len : Z) (n : nat) (pl : option PostingList) : option PostingList :=
  if (n =? 0)%nat then pl
  else Some {| postings := postings (default pl_new pl) ++
                 [mkPosting id (Z.min 255 (Z.of_nat n)) len];
               blocks := blocks (default pl_new pl) |}.

Lemma add_terms_spec id len terms w term :
  (forall t pl p, term_postings w !! t = Some pl -> p ∈ postings pl -> p_doc_id p <> id) ->
  term_postings (foldl (fun w t => add_term w t id len) w terms) !! term =
    bumped id len (occurrences term terms) (term_postings w !! term).
Proof.
  intros Hw. revert term. induction terms as [|t terms IH] using rev_ind; intros term; [done|].
  rewrite foldl_snoc. set (w' := foldl _ _ _) in *. unfold add_term. cbn [term_postings].
  unfold occurrences. rewrite filter_app, length_app.
  destruct (decide (t = term)) as [->|Hne].
  2: { rewrite lookup_insert_ne, IH by done.
       rewrite filter_cons_False by done. cbn. by rewrite Nat.add_0_r. }
  rewrite lookup_insert_eq, IH. rewrite filter_cons_True by done. cbn [filter list_filter length].
  fold (occurrences term terms). set (n := occurrences term terms).
  rewrite Nat.add_1_r. unfold bumped. destruct (Nat.eqb_spec n 0) as [E|E].
  - rewrite E. cbn [Nat.eqb]. f_equal. set (pl := default _ _).
    unfold add_term_list. destruct (last (postings pl)) as [l|] eqn:El; [|done].
    destruct (Z.eqb_spec (p_doc_id l) id) as [Hid|]; [|done]. exfalso.
    apply last_Some_elem_of in El. unfold pl in El.
    destruct (term_postings w !! term) as [pl0|] eqn:Epl; cbn in El.
    + by apply (Hw _ _ _ Epl El).
    + by apply elem_of_nil in El.
  - cbn [Nat.eqb from_option Datatypes.id]. f_equal. unfold add_term_list. cbn [postings blocks].
    rewrite last_snoc. cbn [p_doc_id]. rewrite Z.eqb_refl.
    rewrite length_app. cbn [length]. rewrite Nat.add_sub, take_app_length.
    do 3 f_equal. cbn [p_term_freq p_doc_len]. f_equal. unfold sat_add.
    change (2 ^ 8 - 1) with 255. lia.
Qed.

Lemma enumerate_snoc {A} (l : list A) x : enumerate (l ++ [x]) = enumerate l ++ [(length l, x)].
Proof. unfold enumerate. rewrite imap_app. cbn. by rewrite Nat.add_0_r. Qed.

Lemma zip_fmap_r {A B} (f : A -> B) l : zip l (f <$> l) = (fun x => (x, f x)) <$> l.
Proof. induction l as [|x l IH]; [done|]. cbn. by f_equal. Qed.

Lemma expected_postings_snoc analyzers docs doc term :
  expected_postings analyzers (docs ++ [doc]) term =
    expected_postings analyzers docs term ++
    (let n := occurrences term (doc_terms analyzers doc) in
     if (n =? 0)%nat then []
     else [mkPosting (Z.of_nat (length docs)) (Z.min 255 (Z.of_nat n))
                     (doc_length analyzers doc)]).
Proof.
  unfold expected_postings. rewrite enumerate_snoc, omap_app. f_equal. cbn.
  by destruct (_ =? 0)%nat.
Qed.

Lemma expected_postings_ids analyzers docs term p :
  p ∈ expected_postings analyzers docs term -> 0 <= p_doc_id p < Z.of_nat (length docs).
Proof.
  unfold expected_postings. rewrite omap_enumerate_elem. intros (i & doc & Hi & Hp).
  cbn in Hp. destruct (_ =? 0)%nat; [done|]. simplify_eq. cbn.
  apply lookup_lt_Some in Hi. lia.
Qed.

Lemma expected_list_default analyzers docs term :
  default pl_new (expected_list analyzers docs term)
    = {| postings := expected_postings analyzers docs term; blocks := [] |}.
Proof. unfold expected_list. by destruct (expected_postings _ _ _). Qed.

Lemma build_segment_spec schema docs :
  let an := text_analyzers schema in
  let st := build_segment schema docs in
  Z.of_nat (length docs) <= 2 ^ 32 ->
  (forall term, term_postings (sb_inverted st) !! term = expected_list an docs term) /\
  sb_keywords st =
    (fun nw : string * KeywordColumnWriter =>
       (nw.1, foldl kw_step nw.2 (keyword_value nw.1 <$> docs))) <$> keyword_writers_new schema /\
  sb_numerics st =
    (fun nw : string * NumericColumnWriter =>
       (nw.1, foldl nw_step nw.2 (numeric_value nw.1 <$> docs))) <$> numeric_writers_new schema /\
  dw_docs (sb_docs st) = docs.
Proof.
  intros an. unfold build_segment. fold an. rewrite zip_fmap_r.
  induction docs as [|doc docs IH] using rev_ind; intros Hlen.
  { split_and!; [done| | |done].
    - rewrite <- (list_fmap_id (keyword_writers_new schema)) at 1.
      by apply list_fmap_ext; intros _ [? ?] _.
    - rewrite <- (list_fmap_id (numeric_writers_new schema)) at 1.
      by apply list_fmap_ext; intros _ [? ?] _. }
  rewrite length_app in Hlen. cbn [length] in Hlen. destruct IH as (Hi & Hk & Hn & Hd); [lia|].
  rewrite fmap_app, list_fmap_singleton, enumerate_snoc, foldl_app, length_fmap. cbn [foldl].
  set (st0 := foldl _ _ _) in *. cbn [index_doc sb_inverted sb_keywords sb_numerics sb_docs].
  rewrite wrap_id by (unfold in_width; lia). split_and!.
  - intros term. rewrite index_text_terms, add_terms_spec.
    + rewrite Hi. unfold bumped. rewrite expected_list_default. unfold expected_list at 2.
      rewrite expected_postings_snoc. cbn zeta. cbn [postings blocks].
      destruct (_ =? 0)%nat eqn:E.
      * by rewrite app_nil_r.
      * by destruct (expected_postings an docs term).
    + intros t pl p Ht Hp. rewrite Hi in Ht. unfold expected_list in Ht.
      assert (p ∈ expected_postings an docs t) as Hin%expected_postings_ids; [|lia].
      destruct (expected_postings an docs t); by simplify_eq.
  - rewrite Hk, <- list_fmap_compose. apply list_fmap_ext. intros _ [name w] _. cbn.
    by rewrite fmap_app, foldl_app.
  - rewrite Hn, <- list_fmap_compose. apply list_fmap_ext. intros _ [name w] _. cbn.
    by rewrite fmap_app, foldl_app.
  - cbn. by rewrite Hd.
Qed.
End Indexing.

(** ** A segment on disk *)
Lemma average_length_valid ls : f32_valid (average_length ls).
Proof.
  unfold average_length. destruct ls as [|l ls]; [apply f32_of_Z_valid|].
  apply f32_div_valid; [apply f32_of_f64_valid|apply f32_of_Z_valid].
Qed.

Lemma foldl_insert_lookup {A B} (g : A -> B) (h : string -> B) (l : list (string * A)) :
  forall (m : gmap string B) k,
  (forall n w, (n, w) ∈ l -> g w = h n) ->
  foldl (fun m '(n, w) => <[n := g w]> m) m l !! k =
    if bool_decide (k ∈ l.*1) then Some (h k) else m !! k.
Proof.
  induction l as [|[n w] l IH]; intros m k Hg; cbn [foldl].
  { by rewrite bool_decide_false by apply not_elem_of_nil. }
  rewrite IH by (intros; apply Hg; by right). cbn [fmap list_fmap fst].
  rewrite (Hg n w) by by left.
  destruct (decide (k ∈ l.*1)) as [Hin|Hin].
  { rewrite !bool_decide_true; [done|by right|done]. }
  rewrite (bool_decide_false (k ∈ l.*1)) by done.
  destruct (decide (n = k)) as [->|Hne].
  - rewrite lookup_insert_eq, bool_decide_true; [done|by left].
  - rewrite lookup_insert_ne, bool_decide_false; [done| |done].
    intros [?|?]%elem_of_cons; congruence.
Qed.

Section OnDisk.
Context `{ILL : IndexLaws}.

Definition segment_avgdl (schema : IndexSchema) (docs : list Document) : f32 :=
  average_length (doc_length (text_analyzers schema) <$> docs).
Definition segment_terms (schema : IndexSchema) (docs : list Document)
  : gmap string PostingList := term_postings (sb_inverted (build_segment schema docs)).
Definition segment_columns (schema : IndexSchema) (docs : list Document) : ColumnStore :=
  build_columns (build_segment schema docs).

(** The reader [r] serves the documents [docs], of which [b] are deleted. *)
Record segment_holds (schema : IndexSchema) (r : SegmentReader) (docs : list Document)
    (b : RoaringBitmap) : Prop := {
  sh_small : Z.of_nat (length docs) < 2 ^ 32;
  sh_count : sm_doc_count (sr_meta r) = Z.of_nat (length docs);
  sh_inverted : reader_holds (sr_inverted r)
    (rebuilt (segment_avgdl schema docs) (segment_terms schema docs));
  sh_columns : sr_columns r = segment_columns schema docs;
  sh_docs : exists encs b', encodings docs encs /\ docs_fit encs /\
    sr_docs r = opened encs b' /\ forall x, rb_contains b' x = rb_contains b x;
}.

(** What the files can hold. *)
Definition segment_fits (schema : IndexSchema) (docs : list Document) : Prop :=
  writer_fits (segment_avgdl schema docs) (segment_terms schema docs) /\
  exists encs, encodings docs encs /\ docs_fit encs.

(** The files of a segment of [docs]. *)
Record segment_files (schema : IndexSchema) (id : string) (docs : list Document)
    (dir : path) (d : Disk) : Prop := {
  sf_inverted : exists fb data ri,
    dk_files d !! join dir "inverted.fst" = Some fb /\
    dk_files d !! join dir "inverted.post" = Some data /\
    (forall d, dk_files d !! join dir "inverted.fst" = Some fb ->
       dk_files d !! join dir "inverted.post" = Some data -> ir_open dir d = (d, Ret ri)) /\
    reader_holds ri (rebuilt (segment_avgdl schema docs) (segment_terms schema docs));
  sf_columns : exists bs, dk_files d !! join dir "columns.bin" = Some bs /\
    deserialize bs = Ret (segment_columns schema docs);
  sf_docs : exists encs, encodings docs encs /\ docs_fit encs /\
    dk_files d !! join dir "docs.bin" = Some (doc_file encs);
  sf_meta : exists bs n, dk_files d !! join dir "meta.json" = Some bs /\
    deserialize bs = Ret (mkSegmentMeta (Z.of_nat (length docs)) n id);
}.

(** The directory holds the documents [docs], of which [b] are deleted. *)
Definition segment_on_disk (schema : IndexSchema) (id : string) (docs : list Document)
    (b : RoaringBitmap) (dir : path) (d : Disk) : Prop :=
  segment_files schema id docs dir d /\ saved_bitmap dir d b.

Lemma segment_fits_small schema docs :
  segment_fits schema docs -> Z.of_nat (length docs) < 2 ^ 32.
Proof.
  intros (_ & encs & He & [Hn _]). rewrite (Forall2_length _ _ _ He). apply Hn.
Qed.

Lemma keyword_column_lookup schema docs field :
  Z.of_nat (length docs) <= 2 ^ 32 ->
  keyword_columns (segment_columns schema docs) !! field =
    if bool_decide (field ∈ (keyword_writers_new schema).*1)
    then Some (keyword_column (keyword_value field <$> docs)) else None.
Proof.
  intros Hl. unfold segment_columns, build_columns. cbn [keyword_columns].
  destruct (build_segment_spec schema docs Hl) as (_ & Hk & _). rewrite Hk.
  rewrite (foldl_insert_lookup _ (fun n => keyword_column (keyword_value n <$> docs))).
  - rewrite lookup_empty, <- list_fmap_compose. done.
  - intros n w (nw & [= -> ->] & Hin)%list_elem_of_fmap. unfold keyword_column.
    unfold keyword_writers_new in Hin. apply list_elem_of_omap in Hin as (f & _ & Hf).
    destruct (_ && _); by simplify_eq.
Qed.

Lemma numeric_column_lookup schema docs field :
  Z.of_nat (length docs) <= 2 ^ 32 ->
  numeric_columns (segment_columns schema docs) !! field =
    if bool_decide (field ∈ (numeric_writers_new schema).*1)
    then Some (numeric_column (numeric_value field <$> docs)) else None.
Proof.
  intros Hl. unfold segment_columns, build_columns. cbn [numeric_columns].
  destruct (build_segment_spec schema docs Hl) as (_ & _ & Hk & _). rewrite Hk.
  rewrite (foldl_insert_lookup _ (fun n => numeric_column (numeric_value n <$> docs))).
  - rewrite lookup_empty, <- list_fmap_compose. done.
  - intros n w (nw & [= -> ->] & Hin)%list_elem_of_fmap. unfold numeric_column.
    unfold numeric_writers_new in Hin. apply list_elem_of_omap in Hin as (f & _ & Hf).
    destruct (_ && _); by simplify_eq.
Qed.

(** Opening reads only the files of the directory. *)
Lemma sr_open_reads dir : reads dir (sr_open dir).
Proof.
  unfold sr_open, meta_read, ir_open, cs_read, dr_open, load_deletion_bitmap.
  repeat first [apply reads_bind; [|intros ?] | case_match | solve [eauto with zearch]].
Qed.

Lemma saved_bitmap_frame dir d d' b :
  same_dir dir d d' -> saved_bitmap dir d b -> saved_bitmap dir d' b.
Proof.
  intros Hf (b' & Hb & ?). exists b'. split; [|done].
  eapply reads_frame; [|exact Hf|exact Hb]. unfold load_deletion_bitmap.
  repeat first [apply reads_bind; [|intros ?] | case_match | solve [eauto with zearch]].
Qed.

Lemma segment_files_frame schema id docs dir d d' :
  (forall n, n <> "deletions.bin" -> dk_files d' !! join dir n = dk_files d !! join dir n) ->
  segment_files schema id docs dir d -> segment_files schema id docs dir d'.
Proof.
  intros Hf [H1 H2 H3 H4]. split.
  - by rewrite !Hf.
  - by rewrite !Hf.
  - destruct H3 as (encs & ? & ? & ?). exists encs. by rewrite !Hf.
  - by rewrite !Hf.
Qed.

Lemma segment_on_disk_frame schema id docs b dir d d' :
  same_dir dir d d' ->
  segment_on_disk schema id docs b dir d -> segment_on_disk schema id docs b dir d'.
Proof.
  intros Hf [H1 H2]. split; [|by eapply saved_bitmap_frame].
  eapply segment_files_frame; [|done]. intros n _. apply Hf.
Qed.

Lemma segment_open schema id docs b dir d :
  segment_on_disk schema id docs b dir d ->
  exists r, sr_open dir d = (d, Ret r) /\ sr_dir r = dir /\ sm_segment_id (sr_meta r) = id /\
    segment_holds schema r docs b.
Proof.
  intros [[(fb & data & ri & Hfst & Hpost & Hir & Hri) (cb & Hc & Hcd)
           (encs & He & Hfit & Hd) (mb & n & Hm & Hmd)] (b' & Hload & Hb')].
  eexists. split.
  - unfold sr_open, meta_read, cs_read.
    erewrite io_bind_ret.
    2: { erewrite io_bind_ret by (by apply fs_read_spec). unfold lift. by rewrite Hmd. }
    erewrite io_bind_ret by (by apply Hir).
    erewrite io_bind_ret.
    2: { erewrite io_bind_ret by (by apply fs_read_spec). unfold lift. by rewrite Hcd. }
    erewrite io_bind_ret by (by eapply dr_open_spec). reflexivity.
  - cbn. split_and!; [done|done|]. split; cbn.
    + rewrite (Forall2_length _ _ _ He). apply Hfit.
    + done.
    + done.
    + done.
    + by exists encs, b'.
Qed.

Lemma join_ne dir a b : a <> b -> join dir a <> join dir b.
Proof. intros Hne [_ ?]%join_inj. done. Qed.

(** Writing a segment to a directory without deletions. *)
Lemma sw_write_spec schema id docs dir d :
  segment_fits schema docs -> dir <> [] -> dk_files d !! join dir "deletions.bin" = None ->
  exists d', sw_write {| sw_schema := schema |} id docs dir d = (d', Ret tt) /\
    segment_on_disk schema id docs rb_new dir d' /\
    dk_files d' !! join dir "deletions.bin" = None /\
    dk_dirs d' = dk_dirs d ∪ list_to_set (prefixes dir) /\
    (forall p, parent p <> dir -> dk_files d' !! p = dk_files d !! p).
Proof.
  intros Hfit Hdir Hnone. pose proof (segment_fits_small _ _ Hfit) as Hsmall.
  destruct Hfit as (Hw & encs & He & Hde).
  destruct (build_segment_spec schema docs ltac:(lia)) as (_ & _ & _ & Hdocs).
  set (st := build_segment schema docs) in *.
  destruct (iw_write_open (sb_inverted st) dir (segment_avgdl schema docs)
              (average_length_valid _) Hw Hdir) as (fb & data & ri & Hwr & Hop & Hri).
  destruct (serde_roundtrip (segment_columns schema docs)) as (cb & Hc & Hcd).
  set (meta := mkSegmentMeta (Z.of_nat (length docs)) (iw_term_count (mkInvertedIndexWriter
    ((fun pl => rebuild_blocks pl (segment_avgdl schema docs)) <$> term_postings (sb_inverted st))))
    id).
  destruct (serde_roundtrip meta) as (mb & Hm & Hmd).
  assert (forall D, dir ∈ D ∪ list_to_set (C := gset path) (prefixes dir)) as Hin.
  { intros D. pose proof (elem_of_prefixes_self dir Hdir). set_solver. }
  set (files := <[join dir "meta.json" := mb]> (<[join dir "docs.bin" := doc_file encs]>
    (<[join dir "columns.bin" := cb]> (<[join dir "inverted.post" := data]>
      (<[join dir "inverted.fst" := fb]> (dk_files d)))))).
  set (P := list_to_set (prefixes dir)) in *.
  exists {| dk_files := files; dk_dirs := dk_dirs d ∪ P |}. split_and!.
  - unfold sw_write, create_dir_all. cbn [sw_schema]. fold st P.
    erewrite io_bind_ret by reflexivity. cbn zeta.
    fold (segment_avgdl schema docs).
    erewrite io_bind_ret by apply Hwr. fold P.
    erewrite io_bind_ret.
    2: { unfold cs_write, create_dir_all. erewrite io_bind_ret by reflexivity.
         unfold segment_columns in Hc. fold st in Hc.
         erewrite io_bind_ret by (unfold lift; by rewrite Hc).
         apply fs_write_spec. apply Hin. }
    erewrite io_bind_ret.
    2: { replace (sb_docs st) with {| dw_docs := docs |} by (destruct (sb_docs st); simpl in *; congruence).
         by apply dw_write_spec. }
    unfold meta_write. rewrite wrap_id by (unfold in_width; lia). fold meta.
    erewrite io_bind_ret by (unfold lift; by rewrite Hm).
    rewrite fs_write_spec by apply Hin. cbn [dk_files dk_dirs]. fold files P.
    do 2 f_equal. clear. set_solver.
  - assert (forall n, n ∉ ["meta.json"; "docs.bin"; "columns.bin"; "inverted.post"; "inverted.fst"] ->
      files !! join dir n = dk_files d !! join dir n) as Hother.
    { intros n Hn. unfold files. rewrite !lookup_insert_ne; [done|..]; apply join_ne; set_solver. }
    split.
    + split; cbn [dk_files]; unfold files.
      * exists fb, data, ri. split_and!; [|  |done|done].
        -- rewrite !lookup_insert_ne by by apply join_ne. apply lookup_insert_eq.
        -- rewrite !lookup_insert_ne by by apply join_ne. apply lookup_insert_eq.
      * exists cb. split; [|done]. rewrite !lookup_insert_ne by by apply join_ne.
        apply lookup_insert_eq.
      * exists encs. split_and!; [done|done|].
        rewrite lookup_insert_ne by by apply join_ne. apply lookup_insert_eq.
      * exists mb, (sm_term_count meta). split; [apply lookup_insert_eq|done].
    + exists rb_new. split; [|done]. unfold load_deletion_bitmap, fs_exists.
      erewrite io_bind_ret by reflexivity. cbn [dk_files].
      rewrite Hother, Hnone; [done|set_solver].
  - cbn [dk_files]. unfold files. by rewrite !lookup_insert_ne by by apply join_ne.
  - done.
  - intros p Hp. cbn [dk_files]. unfold files.
    rewrite !lookup_insert_ne; [done|..]; intros <-; apply Hp, parent_join.
Qed.

(** Marking a document of a segment deleted. *)
Lemma segment_mark_deleted schema id docs b dir d i :
  segment_on_disk schema id docs b dir d -> dir ∈ dk_dirs d ->
  exists d' b', mark_deleted dir i d = (d', Ret b') /\
    segment_on_disk schema id docs b' dir d' /\ dk_dirs d' = dk_dirs d /\
    (forall x, rb_contains b' x = (i =? x) || rb_contains b x) /\
    (forall p, p <> join dir "deletions.bin" -> dk_files d' !! p = dk_files d !! p).
Proof.
  intros [Hf Hb] Hdir. destruct (mark_deleted_spec dir d b i Hb Hdir) as (bs & b' & Hm & Hb' & Hs).
  eexists _, b'. split_and!; [exact Hm| |done|done|].
  - split; [|apply Hs; apply lookup_insert_eq].
    eapply segment_files_frame; [|exact Hf]. intros n Hn. cbn.
    by rewrite lookup_insert_ne by by apply join_ne.
  - intros p Hp. cbn. by rewrite lookup_insert_ne.
Qed.
End OnDisk.

(** ** What a reader returns *)
Section Reading.
Context `{ILL : IndexLaws}.
Context (schema : IndexSchema) (r : SegmentReader) (docs : list Document) (b : RoaringBitmap).
Context (Hr : segment_holds schema r docs b).

Abbreviation an := (text_analyzers schema).

Lemma deletions_spec x : rb_contains (deletions r) x = rb_contains b x.
Proof.
  destruct (sh_docs _ _ _ _ Hr) as (encs & b' & _ & _ & Hd & Hb).
  unfold deletions. by rewrite Hd, <- Hb.
Qed.

Lemma get_doc_spec i :
  0 <= i -> get_doc r i = Ret (if rb_contains b i then None else docs !! Z.to_nat i).
Proof.
  intros Hi. destruct (sh_docs _ _ _ _ Hr) as (encs & b' & He & Hfit & Hd & Hb).
  unfold get_doc. rewrite Hd, (dr_get_opened docs) by done. by rewrite Hb.
Qed.

(** The postings of live documents. *)
Definition live_postings (ps : list Posting) : list Posting :=
  filter (fun p => rb_contains b (p_doc_id p) = false) ps.

Lemma retain_live_postings pl :
  postings (retain_live r pl) = live_postings (postings pl).
Proof.
  unfold retain_live, live_postings. destruct (rb_is_empty (deletions r)) eqn:E; cbn.
  - pose proof (proj1 (rb_is_empty_iff _) E) as He.
    symmetry. apply filter_all. intros p _. cbn beta. by rewrite <- deletions_spec.
  - apply list_filter_iff. intros p. by rewrite deletions_spec.
Qed.

Lemma segment_terms_lookup t :
  segment_terms schema docs !! t = expected_list an docs t.
Proof.
  unfold segment_terms.
  apply (build_segment_spec schema docs). pose proof (sh_small _ _ _ _ Hr). lia.
Qed.

Lemma search_term_spec t :
  search_term r t = Ret ((fun pl => retain_live r (rebuild_blocks pl (segment_avgdl schema docs)))
                           <$> expected_list an docs t).
Proof.
  unfold search_term. rewrite (holds_get _ _ _ (sh_inverted _ _ _ _ Hr)).
  cbn [mbind outcome_bind]. rewrite rebuilt_lookup, segment_terms_lookup.
  by destruct (expected_list an docs t).
Qed.

Lemma search_term_postings t :
  exists o, search_term r t = Ret o /\
    match expected_postings an docs t with
    | [] => o = None
    | ps => exists pl, o = Some pl /\ postings pl = live_postings ps
    end.
Proof.
  rewrite search_term_spec. eexists. split; [done|]. unfold expected_list.
  destruct (expected_postings an docs t) as [|p ps]; [done|].
  cbn [fmap option_fmap option_map]. eexists. split; [done|].
  by rewrite retain_live_postings.
Qed.

(** The terms of the dictionary in byte order, with their live postings. *)
Lemma prefix_search_term_spec p :
  prefix_search_term r p =
    Ret (retain_entries r (filter (fun kv => starts_with kv.1 p = true)
           (rebuilt (segment_avgdl schema docs) (segment_terms schema docs)))).
Proof.
  unfold prefix_search_term. by rewrite (holds_prefix _ _ _ (sh_inverted _ _ _ _ Hr)).
Qed.

Lemma all_live_docs_spec x :
  rb_contains (all_live_docs r) x = true <->
    0 <= x < Z.of_nat (length docs) /\ rb_contains b x = false.
Proof.
  unfold all_live_docs. rewrite rb_contains_sub, deletions_spec, andb_true_iff, negb_true_iff.
  rewrite rb_contains_foldl, rb_contains_new, elem_of_ziota, (sh_count _ _ _ _ Hr).
  naive_solver.
Qed.

Lemma all_live_docs_iter :
  rb_iter (all_live_docs r)
    = filter (fun i => rb_contains b i = false) (ziota (Z.of_nat (length docs))).
Proof.
  apply (StronglySorted_unique_strong Z.lt).
  - intros x1 x2 _ _ ? ?. lia.
  - apply rb_iter_sorted.
  - apply StronglySorted_filter, ziota_sorted.
  - apply NoDup_Permutation.
    + apply sorted_lt_NoDup, rb_iter_sorted.
    + apply NoDup_filter, NoDup_ziota.
    + intros x. rewrite rb_elem_of_iter, all_live_docs_spec.
      rewrite list_elem_of_filter, elem_of_ziota. tauto.
Qed.

Lemma sub_deletions_spec c x (P : Prop) :
  (rb_contains c x = true <-> P) ->
  rb_contains (rb_sub c (deletions r)) x = true <-> rb_contains b x = false /\ P.
Proof.
  intros H. rewrite rb_contains_sub, deletions_spec, andb_true_iff, negb_true_iff. tauto.
Qed.

Lemma fmap_doc_lookup {A} (f : Document -> option A) x v :
  0 <= x /\ (f <$> docs) !! Z.to_nat x = Some (Some v) <->
  exists doc, 0 <= x /\ docs !! Z.to_nat x = Some doc /\ f doc = Some v.
Proof.
  rewrite list_lookup_fmap. split.
  - intros [Hx (doc & Hv & Hd)%fmap_Some]. eauto.
  - intros (doc & Hx & -> & Hv). split; [done|]. cbn. by rewrite Hv.
Qed.

Lemma sr_filter_eq_spec field v x :
  field ∈ (keyword_writers_new schema).*1 ->
  rb_contains (sr_filter_eq r field v) x = true <->
    rb_contains b x = false /\
    exists doc, 0 <= x /\ docs !! Z.to_nat x = Some doc /\ keyword_value field doc = Some v.
Proof.
  intros Hf. pose proof (sh_small _ _ _ _ Hr). apply sub_deletions_spec.
  rewrite (sh_columns _ _ _ _ Hr), (filter_eq_spec _ _ (keyword_value field <$> docs)).
  - apply fmap_doc_lookup.
  - rewrite keyword_column_lookup by lia. by rewrite bool_decide_true.
  - rewrite length_fmap. lia.
Qed.

Lemma sr_filter_range_spec field gte lte x :
  field ∈ (numeric_writers_new schema).*1 ->
  rb_contains (sr_filter_range r field gte lte) x = true <->
    rb_contains b x = false /\
    exists doc v, 0 <= x /\ docs !! Z.to_nat x = Some doc /\ numeric_value field doc = Some v /\
      (forall m, gte = Some m -> f_ge v m = true) /\ (forall m, lte = Some m -> f_le v m = true).
Proof.
  intros Hf. pose proof (sh_small _ _ _ _ Hr). apply sub_deletions_spec.
  rewrite (sh_columns _ _ _ _ Hr), (filter_range_spec _ _ (numeric_value field <$> docs)).
  - split.
    + intros (v & Hx & Hl & Hg). destruct (proj1 (fmap_doc_lookup _ x v) (conj Hx Hl)) as (doc & ?).
      naive_solver.
    + intros (doc & v & Hx & Hl & Hv & Hg). exists v.
      destruct (proj2 (fmap_doc_lookup (numeric_value field) x v)) as [? ?]; eauto.
  - rewrite numeric_column_lookup by lia. by rewrite bool_decide_true.
  - rewrite length_fmap. lia.
Qed.
End Reading.

(** The source's way to a reader: write, mark some documents, open. *)
Definition write_mark_open `{IndexLibs} (schema : IndexSchema) (id : string)
    (docs : list Document) (marked : list Z) (dir : path) : IO SegmentReader :=
  _ ← sw_write {| sw_schema := schema |} id docs dir;
  _ ← io_fold (fun (_ : unit) j => _ ← mark_deleted dir j; mret tt) tt marked;
  sr_open dir.

Section Claims.
Context `{ILL : IndexLaws}.

Lemma segment_mark_all schema id docs dir marked : forall b d,
  segment_on_disk schema id docs b dir d -> dir ∈ dk_dirs d ->
  exists d' b', io_fold (fun (_ : unit) j => _ ← mark_deleted dir j; mret tt) tt marked d
      = (d', Ret tt) /\ segment_on_disk schema id docs b' dir d' /\
    forall x, rb_contains b' x = bool_decide (x ∈ marked) || rb_contains b x.
Proof.
  induction marked as [|j marked IH]; intros b d Hs Hdir.
  { exists d, b. split_and!; [done|done|]. intros x.
    by rewrite bool_decide_false by apply not_elem_of_nil. }
  destruct (segment_mark_deleted _ _ _ _ _ _ j Hs Hdir) as (d1 & b1 & Hm & Hs1 & Hd1 & Hb1 & _).
  destruct (IH b1 d1 Hs1) as (d' & b' & Hf & Hs' & Hb'); [by rewrite Hd1|].
  exists d', b'. split_and!; [|done|].
  - cbn [io_fold]. erewrite io_bind_ret; [exact Hf|]. by erewrite io_bind_ret by exact Hm.
  - intros x. rewrite Hb', Hb1. apply eq_true_iff_eq.
    rewrite !orb_true_iff, !bool_decide_eq_true, elem_of_cons, Z.eqb_eq. intuition congruence.
Qed.

Lemma write_mark_open_holds schema id docs marked dir d :
  segment_fits schema docs -> dir <> [] -> dk_files d !! join dir "deletions.bin" = None ->
  exists d' r b, write_mark_open schema id docs marked dir d = (d', Ret r) /\
    segment_holds schema r docs b /\
    forall x, rb_contains b x = bool_decide (x ∈ marked).
Proof.
  intros Hfit Hdir Hnone.
  destruct (sw_write_spec schema id docs dir d Hfit Hdir Hnone) as (d1 & Hw & Hs & _ & Hdirs & _).
  destruct (segment_mark_all _ _ _ _ marked _ _ Hs) as (d2 & b & Hm & Hs2 & Hb).
  { rewrite Hdirs. pose proof (elem_of_prefixes_self dir Hdir). set_solver. }
  destruct (segment_open _ _ _ _ _ _ Hs2) as (r & Ho & _ & _ & Hr).
  exists d2, r, b. split_and!; [|done|].
  - unfold write_mark_open. erewrite io_bind_ret by exact Hw.
    erewrite io_bind_ret by exact Hm. exact Ho.
  - intros x. by rewrite Hb, rb_contains_new, orb_false_r.
Qed.
End Claims.

(** C31: end to end for a segment: after writing documents, marking some deleted
    and opening the directory, a term query returns exactly one posting per
    live document containing the term, in document order, with the term's
    frequency capped at 255 and the document's length (and [None] when no
    document ever contained it), and [get_doc] returns the live documents. *)
Theorem segment_search_correct `{ILL : IndexLaws} (schema : IndexSchema) (id : string)
    (docs : list Document) (marked : list Z) (dir : path) (d : Disk) :
  segment_fits schema docs -> dir <> [] -> dk_files d !! join dir "deletions.bin" = None ->
  exists d' r, write_mark_open schema id docs marked dir d = (d', Ret r) /\
    (forall i, 0 <= i -> get_doc r i =
       Ret (if bool_decide (i ∈ marked) then None else docs !! Z.to_nat i)) /\
    (forall t, exists o, search_term r t = Ret o /\
       match expected_postings (text_analyzers schema) docs t with
       | [] => o = None
       | ps => exists pl, o = Some pl /\
           postings pl = filter (fun p => p_doc_id p ∉ marked) ps
       end).
Proof.
  intros Hfit Hdir Hnone.
  destruct (write_mark_open_holds schema id docs marked dir d Hfit Hdir Hnone)
    as (d' & r & b & Hrun & Hr & Hb).
  exists d', r. split_and!; [done| |].
  - intros i Hi. by rewrite (get_doc_spec schema r docs b), Hb.
  - intros t. destruct (search_term_postings schema r docs b Hr t) as (o & Ho & Hps).
    exists o. split; [done|]. destruct (expected_postings _ _ _); [done|].
    destruct Hps as (pl & -> & Hpl). exists pl. split; [done|]. rewrite Hpl.
    apply list_filter_iff. intros q. rewrite Hb. apply bool_decide_eq_false.
Qed.

(** the filters of a segment return exactly the live documents whose
    attribute matches, and [all_live_docs] the documents not deleted. *)
Theorem segment_filters_correct `{ILL : IndexLaws} (schema : IndexSchema) (id : string)
    (docs : list Document) (marked : list Z) (dir : path) (d : Disk) :
  segment_fits schema docs -> dir <> [] -> dk_files d !! join dir "deletions.bin" = None ->
  exists d' r, write_mark_open schema id docs marked dir d = (d', Ret r) /\
    (forall x, rb_contains (all_live_docs r) x = true <->
       0 <= x < Z.of_nat (length docs) /\ x ∉ marked) /\
    (forall field v x, field ∈ (keyword_writers_new schema).*1 ->
       rb_contains (sr_filter_eq r field v) x = true <->
         x ∉ marked /\ exists doc, 0 <= x /\ docs !! Z.to_nat x = Some doc /\
           keyword_value field doc = Some v) /\
    (forall field gte lte x, field ∈ (numeric_writers_new schema).*1 ->
       rb_contains (sr_filter_range r field gte lte) x = true <->
         x ∉ marked /\ exists doc v, 0 <= x /\ docs !! Z.to_nat x = Some doc /\
           numeric_value field doc = Some v /\
           (forall m, gte = Some m -> f_ge v m = true) /\
           (forall m, lte = Some m -> f_le v m = true)).
Proof.
  intros Hfit Hdir Hnone.
  destruct (write_mark_open_holds schema id docs marked dir d Hfit Hdir Hnone)
    as (d' & r & b & Hrun & Hr & Hb).
  exists d', r. split_and!; [done|..].
  - intros x. by rewrite (all_live_docs_spec schema r docs b Hr), Hb, bool_decide_eq_false.
  - intros field v x Hf. by rewrite (sr_filter_eq_spec schema r docs b Hr), Hb, bool_decide_eq_false.
  - intros field gte lte x Hf.
    by rewrite (sr_filter_range_spec schema r docs b Hr), Hb, bool_decide_eq_false.
Qed.

Section Witness.
Import TestLibs.

Definition sample_docs : list Document :=
  [sample_doc 7 "red shoes shoe"; sample_doc 8 "blue hat"; sample_doc 9 "shoe"].

Lemma sample_fits : segment_fits default_product_schema sample_docs.
Proof.
  split; [vm_decide|]. exists ((fun doc => bits_of (encode doc)) <$> sample_docs).
  split; [|vm_decide]. repeat constructor; vm_compute; reflexivity.
Qed.

Lemma segment_search_correct_witness :
  expected_postings (text_analyzers default_product_schema) sample_docs "shoe" =
    [mkPosting 0 2 4; mkPosting 2 1 2] /\
  exists d' r, write_mark_open default_product_schema "s" sample_docs [2] ["s"] disk_empty
      = (d', Ret r) /\
    exists o, search_term r "shoe" = Ret o /\
      exists pl, o = Some pl /\ postings pl = [mkPosting 0 2 4].
Proof.
  split; [vm_compute; reflexivity|].
  destruct (segment_search_correct default_product_schema "s" sample_docs [2] ["s"] disk_empty)
    as (d' & r & H1 & _ & H2).
  - exact sample_fits.
  - done.
  - reflexivity.
  - exists d', r. split; [exact H1|]. destruct (H2 "shoe") as (o & Ho & Hp).
    exists o. split; [exact Ho|exact Hp].
Defined.

Lemma segment_filters_correct_witness :
  exists d' r, write_mark_open default_product_schema "s" sample_docs [2] ["s"] disk_empty
      = (d', Ret r) /\
    (rb_contains (all_live_docs r) 1 = true <-> 0 <= 1 < 3 /\ 1 ∉ [2]).
Proof.
  destruct (segment_filters_correct default_product_schema "s" sample_docs [2] ["s"] disk_empty)
    as (d' & r & H1 & H2 & _).
  - exact sample_fits.
  - done.
  - reflexivity.
  - exists d', r. split; [exact H1|exact (H2 1)].
Defined.
End Witness.

(** ** Filters of any field *)
Section AnyFilter.
Context `{ILL : IndexLaws}.
Context (schema : IndexSchema) (r : SegmentReader) (docs : list Document) (b : RoaringBitmap).
Context (Hr : segment_holds schema r docs b).

Definition keyword_field (field : string) : Prop := field ∈ (keyword_writers_new schema).*1.
Definition numeric_field (field : string) : Prop := field ∈ (numeric_writers_new schema).*1.

(** A filter value as a condition on a document. *)
Definition doc_passes (doc : Document) (field : string) (f : FilterValue) : Prop :=
  match f with
  | FEquality v => keyword_field field /\ keyword_value field doc = Some v
  | FMultiValue vs => keyword_field field /\ exists v, v ∈ vs /\ keyword_value field doc = Some v
  | FRange gte lte => numeric_field field /\ exists v, numeric_value field doc = Some v /\
      (forall m, gte = Some m -> f_ge v m = true) /\ (forall m, lte = Some m -> f_le v m = true)
  end.

Lemma no_keyword_column field :
  ~ keyword_field field -> keyword_columns (sr_columns r) !! field = None.
Proof.
  intros Hf. pose proof (sh_small _ _ _ _ Hr).
  rewrite (sh_columns _ _ _ _ Hr), keyword_column_lookup by lia. by rewrite bool_decide_false.
Qed.
Lemma no_numeric_column field :
  ~ numeric_field field -> numeric_columns (sr_columns r) !! field = None.
Proof.
  intros Hf. pose proof (sh_small _ _ _ _ Hr).
  rewrite (sh_columns _ _ _ _ Hr), numeric_column_lookup by lia. by rewrite bool_decide_false.
Qed.

Lemma sub_empty x c : rb_contains (rb_sub rb_new c) x = false.
Proof. by rewrite rb_contains_sub, rb_contains_new. Qed.

Lemma any_filter_spec field f x :
  rb_contains (match f with
               | FEquality v => sr_filter_eq r field v
               | FRange gte lte => sr_filter_range r field gte lte
               | FMultiValue vs => sr_filter_in r field vs
               end) x = true <->
    rb_contains b x = false /\
    exists doc, 0 <= x /\ docs !! Z.to_nat x = Some doc /\ doc_passes doc field f.
Proof.
  pose proof (sh_small _ _ _ _ Hr) as Hsmall. destruct f as [v|gte lte|vs]; cbn [doc_passes].
  - destruct (decide (keyword_field field)) as [Hf|Hf].
    + rewrite (sr_filter_eq_spec schema r docs b Hr) by done. naive_solver.
    + unfold sr_filter_eq, cs_filter_eq. rewrite no_keyword_column, sub_empty by done.
      split; [done|]. intros (_ & doc & _ & _ & [? _]). done.
  - destruct (decide (numeric_field field)) as [Hf|Hf].
    + rewrite (sr_filter_range_spec schema r docs b Hr) by done. naive_solver.
    + unfold sr_filter_range, cs_filter_range. rewrite no_numeric_column, sub_empty by done.
      split; [done|]. intros (_ & doc & _ & _ & [? _]). done.
  - destruct (decide (keyword_field field)) as [Hf|Hf].
    + unfold sr_filter_in. rewrite (sub_deletions_spec schema r docs b Hr) by
        (rewrite (sh_columns _ _ _ _ Hr); apply (filter_in_spec _ _ (keyword_value field <$> docs));
         [rewrite keyword_column_lookup by lia; by rewrite bool_decide_true|rewrite length_fmap; lia]).
      setoid_rewrite (fmap_doc_lookup docs (keyword_value field) x). naive_solver.
    + unfold sr_filter_in, cs_filter_in. rewrite no_keyword_column, sub_empty by done.
      split; [done|]. intros (_ & doc & _ & _ & [? _]). done.
Qed.
End AnyFilter.
