(* ===== verification/Scorer.v ===== *)
(** BM25 scoring and the statistics of a segment
    ([crates/query/src/scorer.rs]).  The natural logarithm of the platform is
    an interface. *)
From S2P Require Import Prelude Bytes Order Float FloatRound Types Text Analysis Posting Disk.
From S2P Require Import Inverted Column DocStore Segment.

Local Open Scope Z_scope.

Class MathLib := { f32_ln : f32 -> f32 }.

(** ** Scorer *)
Definition scorer_K1 : f32 := f32_lit 12 10.

Record Bm25Scorer := mkBm25Scorer { bm_k1 : f32; bm_b : f32 }.
Definition Bm25Scorer_default : Bm25Scorer :=
  {| bm_k1 := f32_lit 12 10; bm_b := f32_lit 75 100 |}.

Definition half : f32 := f32_lit 5 10.
Definition one : f32 := f32_of_Z 1.

Definition idf `{MathLib} (total_docs doc_freq : Z) : f32 :=
  let n := f32_of_Z total_docs in
  let df := f32_of_Z doc_freq in
  f_max (f32_ln (f32_add one (f32_div (f32_add (f32_sub n df) half) (f32_add df half)))) f_zero.

Definition term_score (s : Bm25Scorer) (tf dl : Z) (avgdl idf : f32) : f32 :=
  let tf := f32_of_Z tf in
  let dl := f32_of_Z dl in
  let avgdl := f_max avgdl one in
  let num := f32_mul tf (f32_add (bm_k1 s) one) in
  let denom := f32_add tf (f32_mul (bm_k1 s)
    (f32_add (f32_sub one (bm_b s)) (f32_div (f32_mul (bm_b s) dl) avgdl))) in
  f32_div (f32_mul idf num) denom.

(** ** Segment statistics *)
Record SegmentStatistics := mkSegmentStatistics {
  st_total_docs : Z;                    (* u32 *)
  st_field_avg_lengths : gmap string f32;
}.

Section Statistics.
Context `{IL : IndexLibs}.

(** The inner loop over the text fields of one document. *)
Definition add_field_lengths (text_fields : list (string * Analyzer)) (doc : Document)
    (totals : gmap string Z) : gmap string Z :=
  foldl (fun totals '(field_name, analyzer) =>
           match text_of_field field_name doc with
           | Some text =>
               let count := Z.of_nat (length (analyze analyzer text)) in
               <[field_name := wrap 64 (default 0 (totals !! field_name) + count)]> totals
           | None => totals
           end) totals text_fields.

Definition stats_compute (reader : SegmentReader) (schema : IndexSchema)
  : Result SegmentStatistics :=
  let total_docs := sm_doc_count (sr_meta reader) in
  let text_fields :=
    (fun f => (fc_name f, analyzer_build (fc_analyzer f)))
      <$> filter (fun f => is_text_field f = true) (schema_fields schema) in
  field_total_lengths ←
    try_fold (fun totals local_id =>
      doc ← get_doc reader local_id;
      Ret (match doc with
           | None => totals
           | Some doc => add_field_lengths text_fields doc totals
           end)) (∅ : gmap string Z) (ziota total_docs);
  let live := wrap 32 (Z.of_nat (rb_len (all_live_docs reader))) in
  let denom := f32_of_Z (Z.max live 1) in
  Ret {| st_total_docs := live;
         st_field_avg_lengths := (fun v => f32_div (f32_of_Z v) denom) <$> field_total_lengths |}.
End Statistics.

Section StatisticsSpecs.
Context `{ILL : IndexLaws}.

Lemma add_field_lengths_range fields doc totals :
  map_Forall (fun _ v => in_width 64 v) totals ->
  map_Forall (fun _ v => in_width 64 v) (add_field_lengths fields doc totals).
Proof.
  unfold add_field_lengths. revert totals.
  induction fields as [|[f a] fields IH]; intros totals H; [done|]. cbn [foldl].
  destruct (text_of_field f doc); [|by apply IH].
  apply IH, map_Forall_insert_2; [|done]. apply wrap_in_width. lia.
Qed.

(** The statistics of a segment exist (no slice panics) and count its live
    documents. *)
Lemma stats_compute_ret schema r docs b :
  segment_holds schema r docs b ->
  exists st, stats_compute r schema = Ret st /\
    st_total_docs st = Z.of_nat (length (filter (fun i => rb_contains b i = false)
                                           (ziota (Z.of_nat (length docs))))).
Proof.
  intros Hr. unfold stats_compute.
  destruct (try_fold_ret (E := Error) (fun totals local_id =>
    doc ← get_doc r local_id;
    Ret (match (doc : option Document) with
         | None => totals
         | Some doc => add_field_lengths ((fun f => (fc_name f, analyzer_build (fc_analyzer f)))
             <$> filter (fun f => is_text_field f = true) (schema_fields schema)) doc totals
         end)) (fun _ => True) (∅ : gmap string Z) (ziota (sm_doc_count (sr_meta r))))
    as (s & Hs & _).
  { done. }
  { intros s x _ Hx%elem_of_ziota. rewrite (get_doc_spec schema r docs b) by (done || lia).
    eexists. split; [|done]. reflexivity. }
  rewrite Hs. eexists. split; [reflexivity|]. cbn [st_total_docs].
  rewrite rb_len_iter, (all_live_docs_iter schema r docs b Hr). apply wrap_id. pose proof (sh_small _ _ _ _ Hr).
  pose proof (length_filter (fun i => rb_contains b i = false) (ziota (Z.of_nat (length docs)))).
  rewrite length_ziota in *. unfold in_width. lia.
Qed.
End StatisticsSpecs.
