(* ===== verification/Collector.v ===== *)
(** Sorting and pagination of scored documents
    ([crates/query/src/collector.rs]). *)
From S2P Require Import Prelude Order Float Types.

Local Open Scope Z_scope.

Record ScoredDoc := mkScoredDoc {
  sd_segment_ord : nat;
  sd_local_doc_id : Z;                  (* u32 *)
  sd_global_doc_id : Z;                 (* u64 *)
  sd_score : f32;
  sd_sort_value : option f64;
}.

Definition sort_key (d : ScoredDoc) : f64 := default f_neg_infinity (sd_sort_value d).

(** The comparator [collect] sorts with. *)
Definition collector_cmp (sort : option SortSpec) : ScoredDoc -> ScoredDoc -> comparison :=
  match sort with
  | Some spec =>
      match ss_order spec with
      | Asc => fun a b => f_cmp (sort_key a) (sort_key b)
      | Desc => fun a b => f_cmp (sort_key b) (sort_key a)
      end
  | None => fun a b => f_cmp (sd_score b) (sd_score a)
  end.

Definition collect `{UO : UnspecifiedOrder} (docs : list ScoredDoc) (sort : option SortSpec)
    (offset limit : nat) : list ScoredDoc * Z :=
  let total := Z.of_nat (length docs) in
  let docs := sort_unstable_by (collector_cmp sort) docs in
  (take limit (drop offset docs), total).

(** No key the comparator reads is NaN. *)
Definition keys_ok (sort : option SortSpec) (d : ScoredDoc) : Prop :=
  match sort with
  | Some _ => f_nan (sort_key d) = false
  | None => f_nan (sd_score d) = false
  end.

#[global] Instance collector_cmp_preorder sort : CmpPreorder (keys_ok sort) (collector_cmp sort).
Proof.
  destruct sort as [[f []]|]; cbn.
  - exact (cmp_desc_preorder _ _ (cmp_on_preorder sort_key _ f_cmp _)).
  - exact (cmp_on_preorder sort_key _ f_cmp _).
  - exact (cmp_desc_preorder _ _ (cmp_on_preorder sd_score _ f_cmp _)).
Qed.

Lemma collect_page_length `{UnspecifiedOrderLaws} docs sort offset limit :
  length (collect docs sort offset limit).1 = Nat.min limit (length docs - offset).
Proof. unfold collect. cbn. by rewrite length_take, length_drop, length_sort_unstable. Qed.

Lemma collect_page_elem `{UnspecifiedOrderLaws} docs sort offset limit d :
  d ∈ (collect docs sort offset limit).1 -> d ∈ docs.
Proof.
  unfold collect. cbn. intros Hd.
  apply (elem_of_sort_unstable (collector_cmp sort)).
  rewrite <- (take_drop offset), elem_of_app. right.
  rewrite <- (take_drop limit (drop offset _)), elem_of_app. by left.
Qed.

(** the page is the window [offset, offset + limit) of the candidates in
    the requested order (score descending by default), so no document outside
    the page and behind the offset precedes one of the page; the total counts
    every candidate. *)
Theorem collect_correct `{UnspecifiedOrderLaws} (docs : list ScoredDoc)
    (sort : option SortSpec) (offset limit : nat) :
  Forall (keys_ok sort) docs ->
  exists before after,
    docs ≡ₚ before ++ (collect docs sort offset limit).1 ++ after /\
    StronglySorted (cmp_le (collector_cmp sort))
      (before ++ (collect docs sort offset limit).1 ++ after) /\
    length before = Nat.min offset (length docs) /\
    length (collect docs sort offset limit).1 = Nat.min limit (length docs - offset) /\
    (collect docs sort offset limit).2 = Z.of_nat (length docs).
Proof.
  intros Hk. unfold collect. cbn [fst snd].
  set (l := sort_unstable_by (collector_cmp sort) docs).
  assert (l ≡ₚ docs) as Hp by apply sort_unstable_perm.
  exists (take offset l), (drop limit (drop offset l)).
  rewrite !take_drop, length_take, length_take, length_drop, (Permutation_length Hp).
  split_and!.
  - by rewrite Hp.
  - apply (sort_unstable_sorted (keys_ok sort)); [apply _|done].
  - done.
  - done.
  - done.
Qed.

Section Witness.
Import StableOrder.

Definition sample_scored (id : Z) (score : Z) : ScoredDoc :=
  mkScoredDoc 0 id id (f32_of_Z score) None.

Lemma collect_correct_witness :
  let docs := [sample_scored 1 5; sample_scored 2 9; sample_scored 3 7] in
  (collect docs None 1 1).1 = [sample_scored 3 7] /\
  exists before after,
    docs ≡ₚ before ++ (collect docs None 1 1).1 ++ after /\
    StronglySorted (cmp_le (collector_cmp None)) (before ++ (collect docs None 1 1).1 ++ after).
Proof.
  intros docs. split; [vm_compute; reflexivity|].
  destruct (collect_correct docs None 1 1) as (before & after & H1 & H2 & _).
  - repeat constructor.
  - exists before, after. split; [exact H1|exact H2].
Defined.
End Witness.
