(* ===== verification/Understanding.v ===== *)
(** The query understanding pipeline ([crates/query/src/understanding.rs]). *)
From stdpp Require Import pretty.
From S2P Require Import Prelude Bytes Order Float Types Text Analysis.

Inductive BooleanMode := BmAnd | BmOrFallback.

Record ParsedQuery := mkParsedQuery {
  pq_original : string;
  pq_tokens : list string;
  pq_language : Language;
  pq_boolean_mode : BooleanMode;
  pq_transformations : list string;
}.

Definition ParsedQuery_new (raw : string) : ParsedQuery :=
  {| pq_original := raw; pq_tokens := []; pq_language := Spanish; pq_boolean_mode := BmAnd;
     pq_transformations := [] |}.

(** The trait [QueryAnalyzer]. *)
Record QueryAnalyzer := mkQueryAnalyzer { qa_analyze : ParsedQuery -> ParsedQuery }.

(** [format!("{lang:?}")]. *)
Definition language_debug (l : Language) : string :=
  match l with English => "English" | Spanish => "Spanish" | Portuguese => "Portuguese" end.

(** The analyzer of the schema's first indexed text field. *)
Definition primary_analyzer (schema : IndexSchema) : AnalyzerType :=
  match list_find (fun f => is_text_field f = true) (schema_fields schema) with
  | Some (_, f) => fc_analyzer f
  | None => AtKeyword
  end.

Section Pipeline.
Context `{TL : TextLib}.

Definition TokenizerAnalyzer (schema : IndexSchema) : QueryAnalyzer :=
  let analyzer_type := primary_analyzer schema in
  mkQueryAnalyzer (fun query =>
    let tokens := tok_text <$> analyze (analyzer_build analyzer_type) (pq_original query) in
    {| pq_original := pq_original query;
       pq_tokens := tokens;
       pq_language := pq_language query;
       pq_boolean_mode := pq_boolean_mode query;
       pq_transformations := pq_transformations query ++
         [("tokenized → " +:+ pretty (N.of_nat (length tokens)) +:+ " tokens")%string] |}).

Definition LanguageAnalyzer (override_language : option Language) : QueryAnalyzer :=
  mkQueryAnalyzer (fun query =>
    match override_language with
    | Some lang =>
        {| pq_original := pq_original query;
           pq_tokens := pq_tokens query;
           pq_language := lang;
           pq_boolean_mode := pq_boolean_mode query;
           pq_transformations := pq_transformations query ++
             [("language override → " +:+ language_debug lang)%string] |}
    | None => query
    end).

Record QUPipeline := mkQUPipeline { qu_analyzers : list QueryAnalyzer }.

Definition qu_default_for_schema (schema : IndexSchema) : QUPipeline :=
  mkQUPipeline [TokenizerAnalyzer schema; LanguageAnalyzer None].

Definition qu_run (p : QUPipeline) (raw : string) : ParsedQuery :=
  foldl (fun pq a => qa_analyze a pq) (ParsedQuery_new raw) (qu_analyzers p).

(** The tokens the default pipeline hands to the executor. *)
Lemma qu_run_default_tokens schema raw :
  pq_tokens (qu_run (qu_default_for_schema schema) raw)
    = analyze_to_terms (analyzer_build (primary_analyzer schema)) raw.
Proof. done. Qed.
End Pipeline.
