(* ===== verification/Wand.v ===== *)
(** Block-Max WAND ([crates/query/src/wand.rs]): cursors over the posting lists
    of the query tokens, the top-k heap, and the conjunctive retrieval loop. *)
From S2P Require Import Prelude Bytes Order Float FloatRound Types Posting Disk Segment Scorer.

Local Open Scope Z_scope.

(** ** Cursors *)

Record TermCursor := mkTermCursor {
  tc_postings : list Posting;
  tc_blocks : list PostingBlock;
  tc_position : nat;
  tc_idf : f32;
  tc_avgdl : f32;
  tc_scorer : Bm25Scorer;
}.

Definition tc_new (pl : PostingList) (idf avgdl : f32) (scorer : Bm25Scorer) : TermCursor :=
  let pl :=
    if bool_decide (blocks pl = []) && bool_decide (postings pl <> [])
    then rebuild_blocks pl avgdl else pl in
  {| tc_postings := postings pl; tc_blocks := blocks pl; tc_position := 0;
     tc_idf := idf; tc_avgdl := avgdl; tc_scorer := scorer |}.

Definition is_exhausted (c : TermCursor) : bool :=
  (length (tc_postings c) <=? tc_position c)%nat.

(** [None] is the panic of indexing past the end. *)
Definition current_doc_id (c : TermCursor) : option Z :=
  p_doc_id <$> tc_postings c !! tc_position c.

Definition block_upper_bound (title_boost desc_boost : f32) (c : TermCursor) : f32 :=
  let block_idx := (tc_position c / BLOCK_SIZE)%nat in
  let max_impact := default f_zero (max_impact <$> tc_blocks c !! block_idx) in
  f32_mul (f32_mul (f32_lit 15 10) (tc_idf c))
    (f32_add (f32_mul title_boost max_impact) (f32_mul desc_boost (f32_add scorer_K1 one))).

Definition score_current (c : TermCursor) : option f32 :=
  p ← tc_postings c !! tc_position c;
  Some (f32_mul (tc_idf c)
          (term_score (tc_scorer c) (p_term_freq p) (p_doc_len p) (tc_avgdl c) one)).

Definition set_position (c : TermCursor) (n : nat) : TermCursor :=
  {| tc_postings := tc_postings c; tc_blocks := tc_blocks c; tc_position := n;
     tc_idf := tc_idf c; tc_avgdl := tc_avgdl c; tc_scorer := tc_scorer c |}.

Definition advance_to (target : Z) (c : TermCursor) : TermCursor :=
  let slice := drop (tc_position c) (tc_postings c) in
  let jump := partition_point (fun p => p_doc_id p <? target) slice in
  set_position c (tc_position c + jump).

Definition next_block_doc_id (c : TermCursor) : option Z :=
  let next_pos := ((tc_position c / BLOCK_SIZE + 1) * BLOCK_SIZE)%nat in
  p_doc_id <$> tc_postings c !! next_pos.

Definition advance_one (c : TermCursor) : TermCursor := set_position c (S (tc_position c)).

(** ** The heap: [BinaryHeap<Reverse<(u32, u32)>>], a bag whose [peek] and
    [pop] give the least pair *)
Definition pair_cmp (a b : Z * Z) : comparison :=
  then_with (Z.compare a.1 b.1) (Z.compare a.2 b.2).
Definition pair_le (a b : Z * Z) : bool :=
  match pair_cmp a b with Gt => false | _ => true end.

Fixpoint heap_peek (h : list (Z * Z)) : option (Z * Z) :=
  match h with
  | [] => None
  | e :: h =>
      match heap_peek h with
      | Some m => Some (if pair_le e m then e else m)
      | None => Some e
      end
  end.

Fixpoint heap_remove (m : Z * Z) (h : list (Z * Z)) : list (Z * Z) :=
  match h with
  | [] => []
  | e :: h => if bool_decide (e = m) then h else e :: heap_remove m h
  end.

Definition heap_pop (h : list (Z * Z)) : list (Z * Z) :=
  match heap_peek h with Some m => heap_remove m h | None => h end.

Record TopKHeap := mkTopKHeap { tk_k : nat; tk_heap : list (Z * Z) }.

Definition tk_new (k : nat) : TopKHeap := {| tk_k := k; tk_heap := [] |}.

Definition tk_push (h : TopKHeap) (doc_id : Z) (score : f32) : TopKHeap :=
  let heap := (f32_to_bits score, doc_id) :: tk_heap h in
  {| tk_k := tk_k h;
     tk_heap := if (tk_k h <? length heap)%nat then heap_pop heap else heap |}.

Definition tk_threshold (h : TopKHeap) : f32 :=
  if (length (tk_heap h) <? tk_k h)%nat then f_zero
  else match heap_peek (tk_heap h) with
       | Some (bits, _) => f32_from_bits bits
       | None => f_zero
       end.

Definition tk_into_vec `{UnspecifiedOrder} (h : TopKHeap) : list (Z * f32) :=
  let v := (fun e : Z * Z => (e.2, f32_from_bits e.1)) <$> heap_iter (tk_heap h) in
  sort_by (fun a b => f_cmp b.2 a.2) v.

(** ** The retrieval loop *)
Section Loop.
Context (title_boost desc_boost : f32) (score_fn : Z -> Result (option f32)).

(** One iteration ends the loop with the heap, or goes on. *)
Inductive wand_result :=
  | WDone (heap : TopKHeap)
  | WContinue (cursors : list TermCursor) (heap : TopKHeap).

(** Step 1: the pivot, [None] when a cursor is exhausted. *)
Fixpoint find_pivot (pivot : Z) (cursors : list TermCursor) : option Z :=
  match cursors with
  | [] => Some pivot
  | c :: cursors =>
      match current_doc_id c with
      | None => None
      | Some d => find_pivot (Z.max pivot d) cursors
      end
  end.

(** The minimum of the next-block boundaries. *)
Definition min_next_block (cursors : list TermCursor) : option Z :=
  foldr (fun c acc =>
           match next_block_doc_id c, acc with
           | Some d, Some m => Some (Z.min d m)
           | Some d, None => Some d
           | None, _ => acc
           end) None cursors.

Definition total_block_ub (cursors : list TermCursor) : f32 :=
  foldl (fun s c => f32_add s (block_upper_bound title_boost desc_boost c)) f_zero cursors.

(** Step 5: the heap after the candidate was scored. *)
Definition offer (pivot : Z) (threshold : f32) (heap : TopKHeap) (score : option f32)
  : TopKHeap :=
  match score with
  | Some score =>
      if f_gt score threshold || f_eq (tk_threshold heap) f_zero
      then tk_push heap pivot score else heap
  | None => heap
  end.

Definition wand_step (cursors : list TermCursor) (heap : TopKHeap) : Result wand_result :=
  match find_pivot 0 cursors with
  | None => Ret (WDone heap)
  | Some pivot =>
      let cursors := advance_to pivot <$> cursors in
      if existsb is_exhausted cursors then Ret (WDone heap)
      else if negb (forallb (fun c => bool_decide (current_doc_id c = Some pivot)) cursors)
      then Ret (WContinue cursors heap)
      else
        let threshold := tk_threshold heap in
        if f_le (total_block_ub cursors) threshold then
          match min_next_block cursors with
          | Some nd => Ret (WContinue (advance_to nd <$> cursors) heap)
          | None => Ret (WDone heap)
          end
        else
          score ← score_fn pivot;
          let heap := offer pivot threshold heap score in
          let next := wrap 32 (pivot + 1) in
          Ret (WContinue (advance_to next <$> cursors) heap)
  end.

(** [Ret None] when the fuel runs out. *)
Fixpoint wand_loop (fuel : nat) (cursors : list TermCursor) (heap : TopKHeap)
  : Result (option TopKHeap) :=
  match fuel with
  | O => Ret None
  | S fuel =>
      r ← wand_step cursors heap;
      match r with
      | WDone heap => Ret (Some heap)
      | WContinue cursors heap => wand_loop fuel cursors heap
      end
  end.

(** The postings not yet passed: they bound the number of iterations. *)
Definition remaining (cursors : list TermCursor) : nat :=
  foldr (fun c n => (length (tc_postings c) - tc_position c + n)%nat) 0%nat cursors.
End Loop.

(** The function; the fuel suffices ([wand_top_k_ret]). *)
Definition wand_top_k `{UnspecifiedOrder} (cursors : list TermCursor) (k : nat)
    (title_boost desc_boost : f32) (score_fn : Z -> Result (option f32))
  : Result (list (Z * f32)) :=
  if bool_decide (cursors = []) || (k =? 0)%nat then Ret []
  else
    heap ← wand_loop title_boost desc_boost score_fn (S (remaining cursors)) cursors (tk_new k);
    heap ← unwrap heap;
    Ret (tk_into_vec heap).

(** ** Cursors: what is pending *)
Definition ids (c : TermCursor) : list Z := p_doc_id <$> tc_postings c.

(** A merged posting list: strictly increasing ids below [u32::MAX]. *)
Definition cursor_ok (c : TermCursor) : Prop :=
  StronglySorted Z.lt (ids c) /\ Forall (fun d => 0 <= d < u32_max) (ids c).

#[global] Instance cursor_ok_dec c : Decision (cursor_ok c) | 100.
Proof.
  unfold cursor_ok. apply and_dec; [|apply _]. apply StronglySorted_dec. intros x y. apply _.
Defined.

(** Document [d] is at or after the cursor's position. *)
Definition pending (c : TermCursor) (d : Z) : Prop :=
  exists i, (tc_position c <= i)%nat /\ ids c !! i = Some d.

Lemma sorted_lookup_lt (l : list Z) i j x y :
  StronglySorted Z.lt l -> (i < j)%nat -> l !! i = Some x -> l !! j = Some y -> x < y.
Proof.
  intros Hs Hij Hx Hy. apply (StronglySorted_take_drop Z.lt (S i) l x y Hs).
  - apply list_elem_of_lookup. exists i. rewrite lookup_take_lt by lia. done.
  - apply list_elem_of_lookup. exists (j - S i)%nat. rewrite lookup_drop. rewrite <- Hy. f_equal. lia.
Qed.

Lemma sorted_lookup_le (l : list Z) i j x y :
  StronglySorted Z.lt l -> (i <= j)%nat -> l !! i = Some x -> l !! j = Some y -> x <= y.
Proof.
  intros Hs Hij Hx Hy. destruct (decide (i = j)) as [->|]; [simplify_eq; lia|].
  assert (x < y); [|lia]. eapply (sorted_lookup_lt l i j); try done. lia.
Qed.

Lemma advance_set t c : exists n, advance_to t c = set_position c n.
Proof. by eexists. Qed.

Lemma ids_advance t c : ids (advance_to t c) = ids c.
Proof. done. Qed.

Lemma cursor_ok_advance t c : cursor_ok (advance_to t c) <-> cursor_ok c.
Proof. done. Qed.

Lemma advance_pending t c d :
  cursor_ok c -> pending (advance_to t c) d <-> pending c d /\ t <= d.
Proof.
  intros [Hs _]. unfold pending. rewrite ids_advance. unfold advance_to.
  set (slice := drop (tc_position c) (tc_postings c)).
  set (jump := partition_point _ slice). cbn [tc_position set_position].
  assert (forall i e, ids c !! i = Some e -> (tc_position c <= i < tc_position c + jump)%nat -> e < t)
    as Hbefore.
  { intros i e Hi Hr. unfold ids in Hi. apply list_lookup_fmap_Some in Hi as (p & -> & Hp).
    apply Z.ltb_lt. apply (partition_point_before (fun p => p_doc_id p <? t) slice
      (i - tc_position c)); [unfold jump in *; lia|].
    unfold slice. rewrite lookup_drop. rewrite <- Hp. f_equal. lia. }
  assert (forall i e, ids c !! i = Some e -> (tc_position c + jump <= i)%nat -> t <= e) as Hafter.
  { intros i e Hi Hr.
    destruct (ids c !! (tc_position c + jump)%nat) as [e0|] eqn:E.
    - assert (t <= e0); [|pose proof (sorted_lookup_le _ _ _ _ _ Hs Hr E Hi); lia].
      unfold ids in E. apply list_lookup_fmap_Some in E as (p & -> & Hp).
      apply Z.ltb_ge. apply (partition_point_at (fun p => p_doc_id p <? t) slice).
      change (drop (tc_position c) (tc_postings c) !! jump = Some p). by rewrite lookup_drop.
    - apply lookup_ge_None in E. apply lookup_lt_Some in Hi. lia. }
  split.
  - intros (i & Hi & Hd). split; [exists i; split; [lia|done]|by eapply Hafter].
  - intros [(i & Hi & Hd) Ht]. exists i. split; [|done].
    destruct (decide (tc_position c + jump <= i)%nat); [done|].
    assert (d < t) by (eapply Hbefore; [done|lia]). lia.
Qed.

Lemma current_pending c d : current_doc_id c = Some d -> pending c d.
Proof.
  intros H. exists (tc_position c). split; [lia|]. unfold ids. by rewrite list_lookup_fmap.
Qed.

Lemma current_least c d d' :
  cursor_ok c -> current_doc_id c = Some d -> pending c d' -> d <= d'.
Proof.
  intros [Hs _] Hc (i & Hi & Hd'). apply (sorted_lookup_le (ids c) (tc_position c) i); try done.
  unfold ids. by rewrite list_lookup_fmap.
Qed.

Lemma exhausted_pending c d : current_doc_id c = None -> ~ pending c d.
Proof.
  unfold current_doc_id. intros Hc%fmap_None (i & Hi & Hd).
  apply lookup_ge_None in Hc. apply lookup_lt_Some in Hd. unfold ids in Hd.
  rewrite length_fmap in Hd. lia.
Qed.

Lemma is_exhausted_iff c : is_exhausted c = true <-> current_doc_id c = None.
Proof.
  unfold is_exhausted, current_doc_id. rewrite Nat.leb_le, fmap_None. by rewrite lookup_ge_None.
Qed.

(** Advancing past the current document moves the cursor. *)
Lemma advance_moves t c d :
  current_doc_id c = Some d -> d < t ->
  (tc_position c < tc_position (advance_to t c))%nat /\ (tc_position c < length (tc_postings c))%nat.
Proof.
  unfold current_doc_id. intros (p & Hp & ->)%fmap_Some Ht. pose proof (lookup_lt_Some _ _ _ Hp).
  split; [|done]. cbn. destruct (drop (tc_position c) (tc_postings c)) as [|q l] eqn:E.
  - apply (f_equal length) in E. rewrite length_drop in E. simpl in E. lia.
  - assert (q = p) as ->.
    { apply (f_equal (fun l => l !! 0%nat)) in E. rewrite lookup_drop, Nat.add_0_r in E.
      simpl in E. congruence. }
    cbn. destruct (Z.ltb_spec (p_doc_id p) t); lia.
Qed.

Lemma advance_stays t c d : current_doc_id c = Some d -> t <= d -> advance_to t c = c.
Proof.
  unfold current_doc_id. intros (p & Hp & ->)%fmap_Some Ht.
  unfold advance_to. destruct (drop (tc_position c) (tc_postings c)) as [|q l] eqn:E.
  - unfold set_position. cbn. rewrite Nat.add_0_r. by destruct c.
  - assert (q = p) as ->.
    { apply (f_equal (fun l => l !! 0%nat)) in E. rewrite lookup_drop, Nat.add_0_r in E.
      simpl in E. congruence. }
    cbn. destruct (Z.ltb_spec (p_doc_id p) t); [lia|].
    unfold set_position. rewrite Nat.add_0_r. by destruct c.
Qed.

Lemma position_advance t c : (tc_position c <= tc_position (advance_to t c))%nat.
Proof. cbn. lia. Qed.

(** ** Progress *)
Lemma remaining_advance t cs : (remaining (advance_to t <$> cs) <= remaining cs)%nat.
Proof.
  induction cs as [|c cs IH]; [done|]. cbn [fmap list_fmap remaining foldr].
  fold (remaining (advance_to t <$> cs)) (remaining cs).
  pose proof (position_advance t c). cbn [tc_postings advance_to set_position] in *. lia.
Qed.

Lemma remaining_advance_lt t cs c d :
  c ∈ cs -> current_doc_id c = Some d -> d < t ->
  (remaining (advance_to t <$> cs) < remaining cs)%nat.
Proof.
  intros Hc Hd Ht. induction cs as [|c' cs IH]; [by apply elem_of_nil in Hc|].
  cbn [fmap list_fmap remaining foldr]. fold (remaining (advance_to t <$> cs)) (remaining cs).
  pose proof (remaining_advance t cs). pose proof (position_advance t c').
  apply elem_of_cons in Hc as [->|Hc].
  - destruct (advance_moves t c' d Hd Ht). cbn [tc_postings advance_to set_position] in *. lia.
  - specialize (IH Hc). cbn [tc_postings advance_to set_position] in *. lia.
Qed.

Lemma find_pivot_spec cs : forall p0,
  match find_pivot p0 cs with
  | Some p =>
      Forall (fun c => exists d, current_doc_id c = Some d /\ d <= p) cs /\ p0 <= p /\
      (p = p0 \/ exists c, c ∈ cs /\ current_doc_id c = Some p)
  | None => exists c, c ∈ cs /\ current_doc_id c = None
  end.
Proof.
  induction cs as [|c cs IH]; intros p0; cbn [find_pivot].
  { split_and!; [constructor|lia|by left]. }
  destruct (current_doc_id c) as [d|] eqn:E.
  2: { exists c. split; [by left|done]. }
  specialize (IH (Z.max p0 d)). destruct (find_pivot (Z.max p0 d) cs) as [p|].
  - destruct IH as (Hf & Hle & Hp). split_and!.
    + constructor; [exists d; split; [done|lia]|done].
    + lia.
    + destruct Hp as [->|(c' & ? & ?)].
      * destruct (Z.max_spec p0 d) as [[? ->]|[? ->]]; [|by left].
        right. exists c. split; [by left|done].
      * right. exists c'. split; [by right|done].
  - destruct IH as (c' & ? & ?). exists c'. split; [by right|done].
Qed.

Lemma min_next_block_spec cs :
  match min_next_block cs with
  | Some nd => (exists c, c ∈ cs /\ next_block_doc_id c = Some nd) /\
      forall c d, c ∈ cs -> next_block_doc_id c = Some d -> nd <= d
  | None => forall c, c ∈ cs -> next_block_doc_id c = None
  end.
Proof.
  induction cs as [|c cs IH]; cbn [min_next_block foldr].
  { intros c Hc%elem_of_nil. done. }
  fold (min_next_block cs). destruct (next_block_doc_id c) as [d|] eqn:E, (min_next_block cs) as [m|].
  - destruct IH as [(c0 & Hc0 & Hm) Hle]. split.
    + destruct (Z.min_spec d m) as [[? ->]|[? ->]].
      * exists c. split; [by left|done].
      * exists c0. split; [by right|done].
    + intros c' d' [->|Hc']%elem_of_cons Hd'; [simplify_eq; lia|].
      specialize (Hle _ _ Hc' Hd'). lia.
  - split.
    + exists c. split; [by left|done].
    + intros c' d' [->|Hc']%elem_of_cons Hd'; [simplify_eq; lia|]. by rewrite (IH _ Hc') in Hd'.
  - destruct IH as [(c0 & Hc0 & Hm) Hle]. split.
    + exists c0. split; [by right|done].
    + intros c' d' [->|Hc']%elem_of_cons Hd'; [congruence|]. by eapply Hle.
  - intros c' [->|Hc']%elem_of_cons; auto.
Qed.

Lemma next_block_after c d p :
  cursor_ok c -> current_doc_id c = Some p -> next_block_doc_id c = Some d -> p < d.
Proof.
  intros [Hs _] Hp Hd. unfold current_doc_id, next_block_doc_id in *.
  rewrite <- list_lookup_fmap in Hp, Hd.
  refine (sorted_lookup_lt (ids c) _ _ p d Hs _ Hp Hd).
  pose proof (Nat.div_mod (tc_position c) BLOCK_SIZE ltac:(done)).
  pose proof (Nat.mod_upper_bound (tc_position c) BLOCK_SIZE ltac:(done)). lia.
Qed.

(** ** The cases of one iteration *)
Section Steps.
Context (title_boost desc_boost : f32) (score_fn : Z -> Result (option f32)).

Abbreviation ub := (total_block_ub title_boost desc_boost).
Abbreviation step := (wand_step title_boost desc_boost score_fn).
Abbreviation loop := (wand_loop title_boost desc_boost score_fn).

Definition all_pending (cs : list TermCursor) (d : Z) : Prop := Forall (fun c => pending c d) cs.
Definition at_pivot (cs : list TermCursor) (p : Z) : Prop :=
  Forall (fun c => current_doc_id c = Some p) cs.

(** What one iteration does from the cursors [cs] and the heap [h]. *)
Inductive step_view (cs : list TermCursor) (h : TopKHeap) : Result wand_result -> Prop :=
  | view_exhausted :
      (forall d, ~ all_pending cs d) -> step_view cs h (Ret (WDone h))
  | view_retry p :
      (forall d, all_pending cs d -> p <= d) ->
      (remaining (advance_to p <$> cs) < remaining cs)%nat ->
      step_view cs h (Ret (WContinue (advance_to p <$> cs) h))
  | view_skip p nd :
      (forall d, all_pending cs d -> p <= d) -> at_pivot (advance_to p <$> cs) p ->
      f_le (ub (advance_to p <$> cs)) (tk_threshold h) = true -> p < nd ->
      (forall c d, c ∈ advance_to p <$> cs -> next_block_doc_id c = Some d -> nd <= d) ->
      step_view cs h (Ret (WContinue (advance_to nd <$> (advance_to p <$> cs)) h))
  | view_last p :
      (forall d, all_pending cs d -> p <= d) -> at_pivot (advance_to p <$> cs) p ->
      f_le (ub (advance_to p <$> cs)) (tk_threshold h) = true ->
      (forall c, c ∈ advance_to p <$> cs -> next_block_doc_id c = None) ->
      step_view cs h (Ret (WDone h))
  | view_score p :
      (forall d, all_pending cs d -> p <= d) -> at_pivot (advance_to p <$> cs) p ->
      0 <= p < u32_max ->
      step_view cs h
        (score ← score_fn p;
         Ret (WContinue (advance_to (p + 1) <$> (advance_to p <$> cs))
                (offer p (tk_threshold h) h score))).

Lemma forall_fmap_advance t cs :
  Forall cursor_ok cs -> Forall cursor_ok (advance_to t <$> cs).
Proof. intros H. apply Forall_fmap. eapply Forall_impl; [exact H|]. done. Qed.

Lemma all_pending_advance t cs d :
  Forall cursor_ok cs -> (0 < length cs)%nat ->
  all_pending (advance_to t <$> cs) d <-> all_pending cs d /\ t <= d.
Proof.
  intros Hok Hne. unfold all_pending. rewrite Forall_fmap, !Forall_forall. split.
  - intros H. split.
    + intros c Hc. apply (advance_pending t); [by apply (proj1 (Forall_forall _ _) Hok)|by apply H].
    + destruct cs as [|c cs]; [simpl in Hne; lia|].
      apply (advance_pending t c); [by apply Forall_cons in Hok as [? _]|]. apply (H c). by left.
  - intros [H Ht] c Hc. apply advance_pending; [by apply (proj1 (Forall_forall _ _) Hok)|auto].
Qed.

Lemma at_pivot_range cs p :
  Forall cursor_ok cs -> (0 < length cs)%nat -> at_pivot cs p -> 0 <= p < u32_max.
Proof.
  intros Hok Hne Hp. destruct cs as [|c cs]; [simpl in Hne; lia|].
  apply Forall_cons in Hok as [[_ Hr] _]. apply Forall_cons in Hp as [Hp _].
  apply current_pending in Hp as (i & _ & Hi). by eapply Forall_lookup_1 in Hr.
Qed.

Lemma step_view_of cs h :
  Forall cursor_ok cs -> (0 < length cs)%nat -> step_view cs h (step cs h).
Proof.
  intros Hok Hne. unfold wand_step.
  pose proof (find_pivot_spec cs 0) as Hpiv. destruct (find_pivot 0 cs) as [p|].
  2: { destruct Hpiv as (c & Hc & Hx). apply view_exhausted. intros d Hd.
       apply (exhausted_pending c d Hx). by apply (proj1 (Forall_forall _ _) Hd). }
  destruct Hpiv as (Hcur & Hp0 & Hpivot).
  assert (forall d, all_pending cs d -> p <= d) as Hpend.
  { intros d Hd. destruct Hpivot as [->|(c & Hc & Hx)].
    - destruct cs as [|c cs]; [simpl in Hne; lia|]. apply Forall_cons in Hd as [(i & _ & Hi) _].
      apply Forall_cons in Hok as [[_ Hr] _]. eapply Forall_lookup_1 in Hr; [|done]. cbn in Hr. lia.
    - apply (current_least c); [by apply (proj1 (Forall_forall _ _) Hok)|done|].
      by apply (proj1 (Forall_forall _ _) Hd). }
  pose proof (forall_fmap_advance p cs Hok) as Hok1.
  set (cs1 := advance_to p <$> cs) in *.
  destruct (existsb is_exhausted cs1) eqn:Eex.
  { apply existsb_exists in Eex as (c & Hc & Hx). apply view_exhausted. intros d Hd.
    apply is_exhausted_iff in Hx. apply (exhausted_pending c d Hx).
    assert (all_pending cs1 d) as Hd1 by (apply all_pending_advance; auto).
    apply (proj1 (Forall_forall _ _) Hd1). by apply list_elem_of_In. }
  destruct (forallb (fun c => bool_decide (current_doc_id c = Some p)) cs1) eqn:Eall; cbn [negb].
  2: { apply view_retry; [done|]. fold cs1.
       assert (exists c, c ∈ cs /\ current_doc_id (advance_to p c) <> Some p) as (c & Hc & Hne').
       { apply not_true_iff_false in Eall. rewrite forallb_forall in Eall.
         assert (~ Forall (fun c => current_doc_id (advance_to p c) = Some p) cs) as Hn.
         { intros Hf. apply Eall. intros c Hc. apply list_elem_of_In in Hc.
           apply list_elem_of_fmap in Hc as (c0 & -> & Hc0). apply bool_decide_eq_true.
           by apply (proj1 (Forall_forall _ _) Hf). }
         apply not_Forall_Exists in Hn; [|intros ?; apply _].
         apply Exists_exists in Hn as (c & Hc & Hn). by exists c. }
       pose proof (proj1 (Forall_forall _ _) Hcur c Hc) as (d & Hd & Hdp).
       destruct (decide (d = p)) as [->|].
       - exfalso. apply Hne'. by rewrite (advance_stays p c p).
       - apply (remaining_advance_lt p cs c d); [done|done|lia]. }
  assert (at_pivot cs1 p) as Hat.
  { apply Forall_forall. intros c Hc. rewrite forallb_forall in Eall.
    apply (bool_decide_eq_true (current_doc_id c = Some p)), Eall. by apply list_elem_of_In. }
  assert (0 < length cs1)%nat as Hne1 by (unfold cs1; by rewrite length_fmap).
  destruct (f_le (ub cs1) (tk_threshold h)) eqn:Eub.
  - pose proof (min_next_block_spec cs1) as Hmin. destruct (min_next_block cs1) as [nd|].
    + destruct Hmin as [(c & Hc & Hnd) Hmin]. apply view_skip; try done.
      apply (next_block_after c); [|by apply (proj1 (Forall_forall _ _) Hat)|done].
      by apply (proj1 (Forall_forall _ _) Hok1).
    + by apply (view_last _ _ p).
  - pose proof (at_pivot_range cs1 p Hok1 Hne1 Hat) as Hr.
    replace (wrap 32 (p + 1)) with (p + 1).
    + by apply view_score.
    + symmetry. apply wrap_id. unfold in_width, u32_max in *. lia.
Qed.

Lemma at_pivot_moves cs t p :
  (0 < length cs)%nat -> at_pivot cs p -> p < t ->
  (remaining (advance_to t <$> cs) < remaining cs)%nat.
Proof.
  intros Hne Hp Ht. destruct cs as [|c cs]; [simpl in Hne; lia|].
  apply (remaining_advance_lt t (c :: cs) c p); [by left| |done].
  by apply Forall_cons in Hp as [? _].
Qed.

(** Every iteration that continues passes at least one posting. *)
Lemma step_decreases cs h cs' h' :
  Forall cursor_ok cs -> (0 < length cs)%nat -> step cs h = Ret (WContinue cs' h') ->
  (remaining cs' < remaining cs)%nat /\ Forall cursor_ok cs' /\ length cs' = length cs.
Proof.
  intros Hok Hne Hs. pose proof (step_view_of cs h Hok Hne) as Hv.
  pose proof (fun p => remaining_advance p cs) as Hle.
  inversion Hv as [Hx E|p Hp Hr E|p nd Hp Hat Hub Hnd Hmin E|p Hp Hat Hub Hmin E|p Hp Hat Hrg E];
    rewrite <- E in Hs.
  - done.
  - simplify_eq. split_and!; [done|by apply forall_fmap_advance|by rewrite length_fmap].
  - simplify_eq. split_and!; [|by do 2 apply forall_fmap_advance|by rewrite !length_fmap].
    specialize (Hle p). assert (0 < length (advance_to p <$> cs))%nat by by rewrite length_fmap.
    pose proof (at_pivot_moves (advance_to p <$> cs) nd p ltac:(done) Hat Hnd). lia.
  - done.
  - apply bind_ret_inv in Hs as (s & _ & Hs). simplify_eq.
    split_and!; [|by do 2 apply forall_fmap_advance|by rewrite !length_fmap].
    specialize (Hle p). assert (0 < length (advance_to p <$> cs))%nat by by rewrite length_fmap.
    pose proof (at_pivot_moves (advance_to p <$> cs) (p + 1) p ltac:(done) Hat ltac:(lia)). lia.
Qed.

Lemma loop_terminates fuel : forall cs h,
  Forall cursor_ok cs -> (0 < length cs)%nat -> (remaining cs < fuel)%nat ->
  (forall d, 0 <= d -> exists s, score_fn d = Ret s) ->
  exists h', loop fuel cs h = Ret (Some h').
Proof.
  induction fuel as [|fuel IH]; intros cs h Hok Hne Hfuel Hsc; [lia|]. cbn [wand_loop].
  assert (exists r, step cs h = Ret r) as [r Hr].
  { destruct (step_view_of cs h Hok Hne) as [| | | |p ? ? Hp]; try by eexists.
    destruct (Hsc p) as [s ->]; [apply Hp|]. by eexists. }
  rewrite Hr. cbn [mbind outcome_bind]. destruct r as [h'|cs' h']; [by exists h'|].
  destruct (step_decreases cs h cs' h' Hok Hne Hr) as (Hlt & Hok' & Hlen).
  apply IH; [done|lia|lia|done].
Qed.
End Steps.

(** ** The heap *)
Lemma pair_le_fst a b : pair_le a b = true -> a.1 <= b.1.
Proof.
  unfold pair_le, pair_cmp. destruct (Z.compare_spec a.1 b.1); cbn; lia || done.
Qed.

Lemma pair_le_total a b : pair_le a b = false -> b.1 <= a.1.
Proof. unfold pair_le, pair_cmp. destruct (Z.compare_spec a.1 b.1); cbn; lia || done. Qed.

Lemma heap_peek_spec h :
  match heap_peek h with
  | None => h = []
  | Some m => m ∈ h /\ forall e, e ∈ h -> m.1 <= e.1
  end.
Proof.
  induction h as [|e h IH]; [done|]. cbn [heap_peek]. destruct (heap_peek h) as [m|].
  - destruct IH as [Hm Hle]. destruct (pair_le e m) eqn:E.
    + apply pair_le_fst in E. split; [by left|]. intros e' [->|He']%elem_of_cons; [lia|].
      specialize (Hle _ He'). lia.
    + apply pair_le_total in E. split; [by right|]. intros e' [->|He']%elem_of_cons; auto.
  - subst. split; [by left|]. intros e' [->|He'%elem_of_nil]%elem_of_cons; [lia|done].
Qed.

Lemma heap_remove_perm m h : m ∈ h -> h ≡ₚ m :: heap_remove m h.
Proof.
  induction h as [|e h IH]; intros Hm; [by apply elem_of_nil in Hm|]. cbn [heap_remove].
  case_bool_decide as E; [by subst|]. apply elem_of_cons in Hm as [->|Hm]; [done|].
  rewrite (IH Hm) at 1. constructor.
Qed.

(** Popping takes a least entry out. *)
Lemma heap_pop_spec h :
  h <> [] -> exists m, heap_peek h = Some m /\ h ≡ₚ m :: heap_pop h /\
    forall e, e ∈ h -> m.1 <= e.1.
Proof.
  intros Hh. pose proof (heap_peek_spec h) as Hp. unfold heap_pop.
  destruct (heap_peek h) as [m|]; [|done]. destruct Hp as [Hm Hle].
  exists m. split_and!; [done|by apply heap_remove_perm|done].
Qed.

(** ** Positive scores and their bits *)
Definition pos_score (s : f32) : Prop := f32_valid s /\ f_gt s f_zero = true.

#[global] Instance pos_score_dec s : Decision (pos_score s) | 100.
Proof. unfold pos_score, f32_valid. apply _. Defined.

Lemma pos_score_sign s : pos_score s -> f_sign s = Some false.
Proof. intros [_ H]. by destruct s as [[]|[]| |[] m e]. Qed.

Lemma pos_score_nan s : pos_score s -> f_nan s = false.
Proof. intros H. by apply (f_sign_not_nan _ false), pos_score_sign. Qed.

Lemma pos_bits_lt s t :
  pos_score s -> pos_score t -> f_gt s t = true <-> f32_to_bits t < f32_to_bits s.
Proof.
  intros Hs Ht. unfold f_gt. change (SpecFloat.SFltb t s) with (f_lt t s).
  rewrite f_lt_cmp by by apply pos_score_nan.
  rewrite <- f32_bits_cmp by (apply Hs || apply Ht || by apply pos_score_sign).
  apply Z.compare_lt_iff.
Qed.

Lemma pos_bits_le s t :
  pos_score s -> pos_score t -> f_le s t = true <-> f32_to_bits s <= f32_to_bits t.
Proof.
  intros Hs Ht. rewrite f_le_cmp by by apply pos_score_nan.
  rewrite <- f32_bits_cmp by (apply Hs || apply Ht || by apply pos_score_sign).
  apply Z.compare_le_iff.
Qed.

Lemma f_le_nan x y : f_le x y = true -> f_nan x = false /\ f_nan y = false.
Proof. by destruct x as [|[]| |[]], y as [|[]| |[]]. Qed.

Lemma pos_not_le_zero s : pos_score s -> f_le s f_zero = false.
Proof. intros [_ H]. by destruct s as [[]|[]| |[] m e]. Qed.

Lemma pos_not_eq_zero s : pos_score s -> f_eq s f_zero = false.
Proof. intros [_ H]. by destruct s as [[]|[]| |[] m e]. Qed.

(** A candidate before the next block boundary lies in the current block. *)
Lemma same_block c d :
  cursor_ok c -> pending c d -> (forall e, next_block_doc_id c = Some e -> d < e) ->
  exists i, ids c !! i = Some d /\ (i / BLOCK_SIZE = tc_position c / BLOCK_SIZE)%nat.
Proof.
  intros [Hs _] (i & Hi & Hd) Hnext. exists i. split; [done|].
  set (np := ((tc_position c / BLOCK_SIZE + 1) * BLOCK_SIZE)%nat) in *.
  assert (i < np)%nat as Hlt.
  { destruct (decide (i < np)%nat); [done|]. exfalso.
    destruct (lookup_lt_is_Some_2 (ids c) np) as [e He].
    { apply lookup_lt_Some in Hd. lia. }
    assert (d < e) by (apply Hnext; unfold next_block_doc_id; fold np;
      by rewrite <- list_lookup_fmap).
    pose proof (sorted_lookup_le (ids c) np i e d Hs ltac:(lia) He Hd). lia. }
  symmetry. apply (Nat.div_unique i BLOCK_SIZE _ (i - tc_position c / BLOCK_SIZE * BLOCK_SIZE));
    unfold np in *; pose proof (Nat.div_mod (tc_position c) BLOCK_SIZE ltac:(done));
    pose proof (Nat.mod_upper_bound (tc_position c) BLOCK_SIZE ltac:(done)); nia.
Qed.

Lemma ub_same_block title_boost desc_boost cs cs' : forall acc,
  Forall2 (fun c c' => exists n, c' = set_position c n /\
    (n / BLOCK_SIZE = tc_position c / BLOCK_SIZE)%nat) cs cs' ->
  foldl (fun s c => f32_add s (block_upper_bound title_boost desc_boost c)) acc cs' =
  foldl (fun s c => f32_add s (block_upper_bound title_boost desc_boost c)) acc cs.
Proof.
  intros acc H. revert acc. induction H as [|c c' l l' (n & -> & Hn) _ IH]; intros acc; [done|].
  cbn [foldl]. rewrite IH. f_equal. f_equal. unfold block_upper_bound.
  cbn [tc_position set_position tc_blocks tc_idf]. by rewrite Hn.
Qed.

Lemma move_to cs d :
  Forall cursor_ok cs -> all_pending cs d ->
  (forall c e, c ∈ cs -> next_block_doc_id c = Some e -> d < e) ->
  exists cs', Forall2 (fun c c' => exists n, c' = set_position c n /\
      (n / BLOCK_SIZE = tc_position c / BLOCK_SIZE)%nat) cs cs' /\ at_pivot cs' d.
Proof.
  induction cs as [|c cs IH]; intros Hok Hp Hn.
  { exists []. by repeat constructor. }
  apply Forall_cons in Hok as [Hc Hok]. apply Forall_cons in Hp as [Hpc Hp].
  destruct IH as (cs' & H1 & H2); [done|done|intros; eapply Hn; [by right|done]|].
  destruct (same_block c d Hc Hpc) as (i & Hi & Hb); [intros; eapply Hn; [by left|done]|].
  exists (set_position c i :: cs'). split; constructor; [by exists i|done| |done].
  unfold current_doc_id. cbn. by rewrite <- list_lookup_fmap.
Qed.

(** ** Correctness of the retrieval *)
Section Correct.
Context (title_boost desc_boost : f32) (score_fn : Z -> Result (option f32)).
Context (k : nat) (Hk : (0 < k)%nat).
Context (cs0 : list TermCursor) (Hok0 : Forall cursor_ok cs0) (Hne0 : (0 < length cs0)%nat).

(** A candidate: a document of every list that the scorer accepts. *)
Definition candidate (d : Z) (s : f32) : Prop :=
  Forall (fun c => d ∈ ids c) cs0 /\ score_fn d = Ret (Some s).

(** The cursors [cs] are those of [cs0], elsewhere. *)
Definition moved : list TermCursor -> list TermCursor -> Prop :=
  Forall2 (fun c0 c => exists n, c = set_position c0 n).

(** The block bounds at the positions of a candidate dominate its score. *)
Definition bounds_sound : Prop := forall d s cs,
  candidate d s -> moved cs0 cs -> at_pivot cs d ->
  f_le s (total_block_ub title_boost desc_boost cs) = true.

(** Weaker: they are positive there. *)
Definition bounds_positive : Prop := forall d s cs,
  candidate d s -> moved cs0 cs -> at_pivot cs d ->
  f_gt (total_block_ub title_boost desc_boost cs) f_zero = true.

Context (candidate_pos : forall d s, candidate d s -> pos_score s).

(** Document [d] is in the heap, or the heap is full of better ones. *)
Definition handled (h : list (Z * Z)) (d : Z) (s : f32) : Prop :=
  (f32_to_bits s, d) ∈ h \/ (length h = k /\ forall e, e ∈ h -> f32_to_bits s <= e.1).

(** Document [d] is in the heap, or the heap is full. *)
Definition kept_or_full (h : list (Z * Z)) (d : Z) (s : f32) : Prop :=
  (f32_to_bits s, d) ∈ h \/ length h = k.

(** Everything in the heap is a scored candidate that a cursor has passed. *)
Record heap_inv (cs : list TermCursor) (h : list (Z * Z)) : Prop := {
  hi_length : (length h <= k)%nat;
  hi_cand e : e ∈ h -> exists s, candidate e.2 s /\ e.1 = f32_to_bits s;
  hi_passed e : e ∈ h -> ~ all_pending cs e.2;
  hi_nodup : NoDup h.*2;
}.

Lemma candidate_score d s s' : candidate d s -> candidate d s' -> s = s'.
Proof. intros [_ H] [_ H']. congruence. Qed.

(** The threshold: zero, or the score of a least entry of a full heap. *)
Lemma threshold_spec cs h :
  heap_inv cs h ->
  ((length h < k)%nat /\ tk_threshold (mkTopKHeap k h) = f_zero) \/
  (length h = k /\ exists s0, pos_score s0 /\ tk_threshold (mkTopKHeap k h) = s0 /\
     (exists e, e ∈ h /\ e.1 = f32_to_bits s0) /\
     forall e, e ∈ h -> f32_to_bits s0 <= e.1).
Proof.
  intros [Hl Hc _ _]. unfold tk_threshold. cbn [tk_heap tk_k].
  destruct (Nat.ltb_spec (length h) k) as [Hlt|Hge]; [by left|]. right. split; [lia|].
  pose proof (heap_peek_spec h) as Hp. destruct (heap_peek h) as [[b d]|].
  - destruct Hp as [Hm Hle]. destruct (Hc _ Hm) as (s & Hs & Hb). cbn in Hb, Hs. subst b.
    pose proof (candidate_pos _ _ Hs) as Hps.
    exists s. split_and!; [done|apply f32_from_to_bits, Hps|by eexists|done].
  - subst h. simpl in Hge. lia.
Qed.

Lemma heap_inv_weaken cs cs' h :
  (forall d, all_pending cs' d -> all_pending cs d) -> heap_inv cs h -> heap_inv cs' h.
Proof. intros Hp [H1 H2 H3 H4]. split; [done|done| |done]. intros e He Hx. by apply (H3 e He), Hp. Qed.

(** Step 5 keeps the heap's invariant and handles the pivot. *)
Lemma offer_inv cs cs' h p so :
  heap_inv cs h -> all_pending cs p -> score_fn p = Ret so ->
  Forall (fun c => p ∈ ids c) cs0 ->
  (forall d, all_pending cs' d -> all_pending cs d) -> ~ all_pending cs' p ->
  exists h', offer p (tk_threshold (mkTopKHeap k h)) (mkTopKHeap k h) so = mkTopKHeap k h' /\
    heap_inv cs' h' /\
    (forall d s, candidate d s -> handled h d s -> handled h' d s) /\
    (forall s, so = Some s -> handled h' p s) /\ (length h <= length h')%nat.
Proof.
  intros Hi Hp Hsc Hin Hweak Hpassed. pose proof (heap_inv_weaken _ _ _ Hweak Hi) as Hi'.
  destruct so as [s|]; [|by exists h].
  assert (candidate p s) as Hcand by done. pose proof (candidate_pos _ _ Hcand) as Hps.
  assert (p ∉ h.*2) as Hfresh.
  { intros (e & -> & He)%list_elem_of_fmap. by apply (hi_passed _ _ Hi e He). }
  unfold offer, tk_push. cbn [tk_k tk_heap length].
  assert (heap_inv cs' ((f32_to_bits s, p) :: h) \/ (k < S (length h))%nat) as Hpush.
  { destruct (decide (k < S (length h))%nat); [by right|left]. destruct Hi' as [H1 H2 H3 H4].
    split; [simpl; lia| | |by constructor].
    - intros e [->|He]%elem_of_cons; [by exists s|auto].
    - intros e [->|He]%elem_of_cons; auto. }
  destruct (threshold_spec cs h Hi) as [[Hlt ->]|(Hfull & s0 & Hs0 & -> & (e0 & He0 & Hb0) & Hmin)].
  - rewrite orb_true_r. destruct (Nat.ltb_spec k (S (length h))) as [|Hge]; [lia|].
    eexists. split; [done|]. destruct Hpush as [Hpush|]; [|lia]. split_and!; [done| | |simpl; lia].
    + intros d s' _ [Hd|[Hl _]]; [left; by right|lia].
    + intros s' [= <-]. left. by left.
  - rewrite (pos_not_eq_zero s0) by done. rewrite orb_false_r.
    destruct (f_gt s s0) eqn:Egt.
    2: { exists h. split_and!; [done|done|auto| |done]. intros s' [= <-]. right. split; [done|].
         intros e He. specialize (Hmin e He).
         assert (~ f32_to_bits s0 < f32_to_bits s); [|lia].
         rewrite <- pos_bits_lt by done. by rewrite Egt. }
    apply pos_bits_lt in Egt; [|done|done].
    destruct (Nat.ltb_spec k (S (length h))) as [_|]; [|lia].
    destruct (heap_pop_spec ((f32_to_bits s, p) :: h)) as (m & _ & Hperm & Hm); [done|].
    set (h' := heap_pop _) in *. exists h'. split; [done|].
    assert (length h' = k) as Hlen.
    { apply Permutation_length in Hperm. simpl in Hperm. lia. }
    assert (forall e, e ∈ h' -> e = (f32_to_bits s, p) \/ e ∈ h) as Hsub.
    { intros e He. rewrite <- elem_of_cons, Hperm. by right. }
    assert (forall e, e ∈ h' -> m.1 <= e.1) as Hmin'.
    { intros e He. apply Hm. rewrite Hperm. by right. }
    assert (m <> (f32_to_bits s, p)) as Hmne.
    { intros ->. specialize (Hm e0 ltac:(by right)). cbn in Hm. lia. }
    split_and!.
    + destruct Hi' as [H1 H2 H3 H4]. split; [lia| | |].
      * intros e [->|He]%Hsub; [by exists s|auto].
      * intros e [->|He]%Hsub; auto.
      * assert (NoDup (m.2 :: h'.*2)) as Hnd; [|by apply NoDup_cons in Hnd as [_ ?]].
        change (m.2 :: h'.*2) with ((m :: h').*2). rewrite <- Hperm. cbn. by constructor.
    + intros d s' Hd [Hin'|[_ Hall]].
      * assert ((f32_to_bits s', d) ∈ m :: h') as Hmem by (rewrite <- Hperm; by right).
        apply elem_of_cons in Hmem as [<-|Hmem]; [|by left]. right. split; [done|]. apply Hmin'.
      * right. split; [done|]. intros e [->|He]%Hsub; [|by apply Hall].
        specialize (Hall e0 He0). cbn. lia.
    + intros s' [= <-]. assert ((f32_to_bits s, p) ∈ m :: h') as Hmem by (rewrite <- Hperm; by left).
      apply elem_of_cons in Hmem as [?|Hmem]; [congruence|by left].
    + lia.
Qed.

Lemma moved_ok cs : moved cs0 cs -> Forall cursor_ok cs /\ (0 < length cs)%nat.
Proof.
  intros Hm. split; [|by rewrite <- (Forall2_length _ _ _ Hm)].
  clear Hne0 candidate_pos. induction Hm as [|c0 c l0 l [n ->] _ IH]; [constructor|].
  apply Forall_cons in Hok0 as [? ?]. constructor; [done|by apply IH].
Qed.

Lemma moved_fmap_advance t cs : moved cs0 cs -> moved cs0 (advance_to t <$> cs).
Proof.
  intros Hm. apply Forall2_fmap_r. eapply Forall2_impl; [exact Hm|].
  intros c0 c [n ->]. by eexists.
Qed.

Lemma at_pivot_all_pending cs p : at_pivot cs p -> all_pending cs p.
Proof. intros H. eapply Forall_impl; [exact H|]. intros c. apply current_pending. Qed.

Lemma moved_in_ids cs d : moved cs0 cs -> all_pending cs d -> Forall (fun c => d ∈ ids c) cs0.
Proof.
  intros Hm. clear Hok0 Hne0 candidate_pos. induction Hm as [|c0 c l0 l [n ->] _ IH]; intros Hp; [constructor|].
  apply Forall_cons in Hp as [(i & _ & Hi) Hp]. constructor; [|by apply IH].
  by apply list_elem_of_lookup_2 in Hi.
Qed.

(** A document a bound check skips lies in the blocks it looked at. *)
Lemma skipped_at cs d :
  moved cs0 cs -> all_pending cs d ->
  (forall c e, c ∈ cs -> next_block_doc_id c = Some e -> d < e) ->
  exists cs', moved cs0 cs' /\ at_pivot cs' d /\
    total_block_ub title_boost desc_boost cs' = total_block_ub title_boost desc_boost cs.
Proof.
  intros Hm Hp Hn. destruct (moved_ok cs Hm) as [Hok _].
  destruct (move_to cs d Hok Hp Hn) as (cs' & Hmv & Hat). exists cs'. split_and!; [|done|].
  - clear -Hm Hmv. revert cs' Hmv. induction Hm as [|c0 c l0 l [n ->] _ IH]; intros cs' Hmv;
      inversion Hmv as [|? ? ? ? (m & -> & _)]; subst; [constructor|].
    constructor; [by exists m|by apply IH].
  - unfold total_block_ub. by apply ub_same_block.
Qed.

(** The loop, for any reason [bound_ok] that makes a skipped document settled. *)
Section Loop.
Context (bound_ok : Prop) (settled : list (Z * Z) -> Z -> f32 -> Prop).
Context (Hskip : bound_ok -> forall cs h d s cs', heap_inv cs h -> candidate d s ->
  moved cs0 cs' -> at_pivot cs' d ->
  f_le (total_block_ub title_boost desc_boost cs') (tk_threshold (mkTopKHeap k h)) = true ->
  settled h d s).
Context (Hkeep : forall h h' d s, (handled h d s -> handled h' d s) ->
  (length h <= length h' <= k)%nat -> settled h d s -> settled h' d s).
Context (Hnew : forall h d s, handled h d s -> settled h d s).

(** Every candidate is still ahead of all cursors or settled. *)
Definition complete_inv (cs : list TermCursor) (h : list (Z * Z)) : Prop :=
  forall d s, candidate d s -> all_pending cs d \/ settled h d s.

Lemma settled_keeps cs cs' h :
  (forall d s, candidate d s -> all_pending cs d -> all_pending cs' d \/ settled h d s) ->
  complete_inv cs h -> complete_inv cs' h.
Proof. intros Hk' Hc d s Hd. destruct (Hc d s Hd) as [Hp|Hh]; [by apply Hk'|by right]. Qed.

Lemma skipped_settled cs h d s :
  bound_ok -> moved cs0 cs -> heap_inv cs h ->
  f_le (total_block_ub title_boost desc_boost cs) (tk_threshold (mkTopKHeap k h)) = true ->
  candidate d s -> all_pending cs d ->
  (forall c e, c ∈ cs -> next_block_doc_id c = Some e -> d < e) -> settled h d s.
Proof.
  intros Hb Hm Hi Hub Hcand Hp Hn. destruct (skipped_at cs d Hm Hp Hn) as (cs' & Hm' & Hat & E).
  eapply Hskip; [done|done|done|exact Hm'|exact Hat|by rewrite E].
Qed.

Lemma loop_settles fuel : forall cs h h',
  moved cs0 cs -> heap_inv cs h -> (bound_ok -> complete_inv cs h) ->
  wand_loop title_boost desc_boost score_fn fuel cs (mkTopKHeap k h) = Ret (Some h') ->
  exists hh cs', h' = mkTopKHeap k hh /\ heap_inv cs' hh /\
    (bound_ok -> forall d s, candidate d s -> settled hh d s).
Proof.
  induction fuel as [|fuel IH]; intros cs h h' Hm Hi Hc Hl; [done|]. cbn [wand_loop] in Hl.
  destruct (moved_ok cs Hm) as [Hok Hne].
  pose proof (step_view_of title_boost desc_boost score_fn cs (mkTopKHeap k h) Hok Hne) as Hv.
  pose proof (fun p => moved_fmap_advance p cs Hm) as Hmp.
  assert (forall p d, all_pending (advance_to p <$> cs) d <-> all_pending cs d /\ p <= d) as Hadv.
  { intros p d. by apply all_pending_advance. }
  assert (forall p, heap_inv (advance_to p <$> cs) h) as Hip.
  { intros p. eapply heap_inv_weaken; [|exact Hi]. intros d. rewrite Hadv. tauto. }
  inversion Hv as [Hx E|p Hp Hr E|p nd Hp Hat Hub Hnd Hmin E|p Hp Hat Hub Hmin E|p Hp Hat Hrg E];
    rewrite <- E in Hl; cbn [mbind outcome_bind] in Hl.
  - simplify_eq. exists h, cs. split_and!; [done|done|]. intros Hb d s Hd.
    destruct (Hc Hb d s Hd) as [Hpd|]; [by destruct (Hx d)|done].
  - eapply IH; [| | |exact Hl]; [done|done|]. intros Hb. eapply settled_keeps; [|by apply Hc].
    intros d s _ Hd. left. apply Hadv. auto.
  - destruct (moved_ok _ (Hmp p)) as [Hok1 Hne1].
    eapply IH; [| | |exact Hl]; [exact (moved_fmap_advance _ _ (Hmp p))| |].
    + eapply heap_inv_weaken; [|exact (Hip p)]. intros d. rewrite all_pending_advance by done. tauto.
    + intros Hb. eapply settled_keeps; [|by apply Hc]. intros d s Hd Hpd.
      destruct (Z.le_gt_cases nd d) as [Hle|Hgt].
      * left. rewrite all_pending_advance by done. rewrite Hadv. auto.
      * right. apply (skipped_settled (advance_to p <$> cs) h d s Hb (Hmp p) (Hip p) Hub Hd).
        { apply Hadv. auto. }
        intros c e Hce He. specialize (Hmin c e Hce He). lia.
  - simplify_eq. exists h, cs. split_and!; [done|done|]. intros Hb d s Hd.
    destruct (Hc Hb d s Hd) as [Hpd|]; [|done].
    apply (skipped_settled (advance_to p <$> cs) h d s Hb (Hmp p) (Hip p) Hub Hd).
    { apply Hadv. auto. }
    intros c e Hce He. by rewrite (Hmin c Hce) in He.
  - destruct (score_fn p) as [so|e|] eqn:Esc; [|done|done]. cbn [mbind outcome_bind] in Hl.
    destruct (moved_ok _ (Hmp p)) as [Hok1 Hne1].
    pose proof (at_pivot_all_pending _ _ Hat) as Hpp.
    set (cs1 := advance_to p <$> cs) in *.
    assert (forall d, all_pending (advance_to (p + 1) <$> cs1) d <-> all_pending cs1 d /\ p + 1 <= d)
      as Hadv1 by (intros d; by apply all_pending_advance).
    destruct (offer_inv cs1 (advance_to (p + 1) <$> cs1) h p so (Hip p) Hpp Esc
      (moved_in_ids _ _ (Hmp p) Hpp)) as (hh & Eh & Hi' & Hold & Hpiv & Hlen).
    { intros d. rewrite Hadv1. tauto. }
    { rewrite Hadv1. lia. }
    rewrite Eh in Hl. eapply IH; [| | |exact Hl]; [exact (moved_fmap_advance _ _ (Hmp p))|done|].
    intros Hb d s Hd. destruct (Hc Hb d s Hd) as [Hpd|Hh].
    2: { right. eapply Hkeep; [by apply Hold| |exact Hh]. split; [done|apply (hi_length _ _ Hi')]. }
    specialize (Hp d Hpd). destruct (decide (d = p)) as [->|].
    + right. apply Hnew, Hpiv. destruct Hd as [_ Hd]. congruence.
    + left. rewrite Hadv1. split; [apply Hadv; auto|lia].
Qed.
End Loop.

Lemma sound_skip cs h d s cs' :
  bounds_sound -> heap_inv cs h -> candidate d s -> moved cs0 cs' -> at_pivot cs' d ->
  f_le (total_block_ub title_boost desc_boost cs') (tk_threshold (mkTopKHeap k h)) = true ->
  handled h d s.
Proof.
  intros Hb Hi Hcand Hm Hat Hub. pose proof (Hb d s cs' Hcand Hm Hat) as Hs.
  pose proof (candidate_pos _ _ Hcand) as Hps.
  destruct (f_le_nan _ _ Hs) as [Hn1 Hn2]. destruct (f_le_nan _ _ Hub) as [_ Hn3].
  pose proof (f_le_trans _ _ _ Hn1 Hn2 Hn3 Hs Hub) as Hle.
  destruct (threshold_spec cs h Hi) as [[_ Ht]|(Hfull & s0 & Hs0 & Ht & _ & Hmin)];
    rewrite Ht in Hle.
  - by rewrite pos_not_le_zero in Hle.
  - right. split; [done|]. intros e He. specialize (Hmin e He).
    apply pos_bits_le in Hle; [lia|done|done].
Qed.

Lemma positive_skip cs h d s cs' :
  bounds_positive -> heap_inv cs h -> candidate d s -> moved cs0 cs' -> at_pivot cs' d ->
  f_le (total_block_ub title_boost desc_boost cs') (tk_threshold (mkTopKHeap k h)) = true ->
  kept_or_full h d s.
Proof.
  intros Hb Hi Hcand Hm Hat Hub. pose proof (Hb d s cs' Hcand Hm Hat) as Hgt.
  destruct (threshold_spec cs h Hi) as [[_ Ht]|[Hfull _]]; [|by right].
  rewrite Ht in Hub. exfalso. revert Hub Hgt.
  by destruct (total_block_ub _ _ _) as [[]|[]| |[] m e].
Qed.

Lemma handled_kept h d s : handled h d s -> kept_or_full h d s.
Proof. intros [?|[? _]]; [by left|by right]. Qed.

Lemma kept_mono h h' d s :
  (handled h d s -> handled h' d s) -> (length h <= length h' <= k)%nat ->
  kept_or_full h d s -> kept_or_full h' d s.
Proof. intros H Hl [Hin|Hf]; [by apply handled_kept, H; left|right; lia]. Qed.

Lemma loop_correct fuel cs h h' :
  moved cs0 cs -> heap_inv cs h -> (forall d s, candidate d s -> all_pending cs d) ->
  wand_loop title_boost desc_boost score_fn fuel cs (mkTopKHeap k h) = Ret (Some h') ->
  exists hh cs', h' = mkTopKHeap k hh /\ heap_inv cs' hh /\
    (bounds_sound -> forall d s, candidate d s -> handled hh d s) /\
    (bounds_positive -> forall d s, candidate d s -> kept_or_full hh d s).
Proof.
  intros Hm Hi Hp Hl.
  destruct (loop_settles bounds_sound handled (fun Hb cs h d s cs' => sound_skip cs h d s cs' Hb)
    ltac:(auto) ltac:(auto) fuel cs h h' Hm Hi) as (hh & cs' & -> & Hi' & Hs); [|exact Hl|].
  { intros _ d s Hd. left. by eapply Hp. }
  destruct (loop_settles bounds_positive kept_or_full (fun Hb cs h d s cs' => positive_skip cs h d s cs' Hb)
    kept_mono handled_kept fuel cs h (mkTopKHeap k hh) Hm Hi) as (hh2 & _ & [= <-] & _ & Hs2); [|exact Hl|].
  { intros _ d s Hd. left. by eapply Hp. }
  exists hh, cs'. done.
Qed.
End Correct.

(** ** The result *)
Section Result.
Context `{UnspecifiedOrderLaws}.
Context (title_boost desc_boost : f32) (score_fn : Z -> Result (option f32)).
Context (cs : list TermCursor) (Hok : Forall cursor_ok cs).
Context (Hstart : Forall (fun c => tc_position c = 0%nat) cs).

Lemma moved_refl : moved cs cs.
Proof. apply Forall_Forall2_diag, Forall_true. intros c. exists (tc_position c). by destruct c. Qed.

Lemma start_pending d : Forall (fun c => d ∈ ids c) cs -> all_pending cs d.
Proof.
  unfold all_pending. rewrite !Forall_forall. intros Hd c Hc.
  pose proof (Hd c Hc) as [i Hi]%list_elem_of_lookup. exists i. split; [|done].
  rewrite (proj1 (Forall_forall _ _) Hstart c Hc). lia.
Qed.

(** The heap of a finished run, and what [into_vec] makes of it. *)
Lemma run_heap k r :
  (forall d s, candidate score_fn cs d s -> pos_score s) ->
  cs <> [] -> (0 < k)%nat ->
  wand_top_k cs k title_boost desc_boost score_fn = Ret r ->
  exists hh, (length hh <= k)%nat /\ NoDup hh.*2 /\
    (forall e, e ∈ hh -> exists s, candidate score_fn cs e.2 s /\ e.1 = f32_to_bits s) /\
    (bounds_sound title_boost desc_boost score_fn cs -> forall d s,
       candidate score_fn cs d s -> handled k hh d s) /\
    (bounds_positive title_boost desc_boost score_fn cs -> forall d s,
       candidate score_fn cs d s -> kept_or_full k hh d s) /\
    r = sort_by (fun a b => f_cmp b.2 a.2)
          ((fun e : Z * Z => (e.2, f32_from_bits e.1)) <$> heap_iter hh).
Proof.
  intros Hpos Hne Hk Hrun. unfold wand_top_k in Hrun.
  rewrite bool_decide_false in Hrun by done. cbn [orb] in Hrun.
  destruct (Nat.eqb_spec k 0); [lia|].
  apply bind_ret_inv in Hrun as (oh & Hl & Hrun). apply bind_ret_inv in Hrun as (h' & Hu & Hrun).
  apply unwrap_ret_inv in Hu as ->. simplify_eq.
  assert (0 < length cs)%nat as Hlen by (destruct cs; [done|simpl; lia]).
  destruct (loop_correct title_boost desc_boost score_fn k Hk cs Hok Hlen Hpos (S (remaining cs)) cs [] h'
    moved_refl) as (hh & cs' & -> & [H1 H2 H3 H4] & Hc & Hc2); [| |exact Hl|].
  - split; [simpl; lia| | |constructor]; intros e He%elem_of_nil; done.
  - intros d s [Hd _]. by apply start_pending.
  - by exists hh.
Qed.

Abbreviation by_score := (fun a b : Z * f32 => f_cmp b.2 a.2).

Lemma elem_of_result hh d s :
  (forall e, e ∈ hh -> exists s, candidate score_fn cs e.2 s /\ e.1 = f32_to_bits s) ->
  (forall d s, candidate score_fn cs d s -> pos_score s) ->
  (d, s) ∈ sort_by by_score ((fun e : Z * Z => (e.2, f32_from_bits e.1)) <$> heap_iter hh) <->
  (f32_to_bits s, d) ∈ hh /\ candidate score_fn cs d s.
Proof.
  intros Hc Hpos. rewrite elem_of_sort_by, list_elem_of_fmap. setoid_rewrite heap_iter_perm. split.
  - intros ([b d'] & [= -> ->] & He). destruct (Hc _ He) as (s & Hs & Hb). cbn in Hs, Hb. subst b.
    pose proof (Hpos _ _ Hs) as [Hv _]. by rewrite (f32_from_to_bits s) by done.
  - intros [He Hs]. exists (f32_to_bits s, d). split; [|done]. cbn.
    by rewrite f32_from_to_bits by apply (Hpos _ _ Hs).
Qed.
End Result.

(** Conjunctive semantics without any assumption on the scores. *)
Section Candidates.
Context (title_boost desc_boost : f32) (score_fn : Z -> Result (option f32)).
Context (cs0 : list TermCursor) (Hok0 : Forall cursor_ok cs0) (Hne0 : (0 < length cs0)%nat).

Definition accepted (d : Z) : Prop :=
  Forall (fun c => d ∈ ids c) cs0 /\ exists s, score_fn d = Ret (Some s).

Lemma offer_accepted h p t so :
  (forall e, e ∈ tk_heap h -> accepted e.2) -> Forall (fun c => p ∈ ids c) cs0 ->
  score_fn p = Ret so -> forall e, e ∈ tk_heap (offer p t h so) -> accepted e.2.
Proof.
  intros Hh Hp Hs. destruct so as [s|]; [|done]. unfold offer.
  destruct (_ || _); [|done]. unfold tk_push. cbn [tk_heap].
  assert (forall e, e ∈ (f32_to_bits s, p) :: tk_heap h -> accepted e.2) as Hcons.
  { intros e [->|He]%elem_of_cons; [|by apply Hh]. split; [done|by exists s]. }
  destruct (_ <? _)%nat; [|done].
  destruct (heap_pop_spec ((f32_to_bits s, p) :: tk_heap h)) as (m & _ & Hperm & _); [done|].
  intros e He. apply Hcons. rewrite Hperm. by right.
Qed.

Lemma loop_accepted fuel : forall cs h h',
  moved cs0 cs -> (forall e, e ∈ tk_heap h -> accepted e.2) ->
  wand_loop title_boost desc_boost score_fn fuel cs h = Ret (Some h') ->
  forall e, e ∈ tk_heap h' -> accepted e.2.
Proof.
  induction fuel as [|fuel IH]; intros cs h h' Hm Hh Hl; [done|]. cbn [wand_loop] in Hl.
  destruct (moved_ok cs0 Hok0 Hne0 cs Hm) as [Hok Hne].
  pose proof (step_view_of title_boost desc_boost score_fn cs h Hok Hne) as Hv.
  assert (forall p, moved cs0 (advance_to p <$> cs)) as Hmp by (intros p; by eapply moved_fmap_advance).
  inversion Hv as [Hx E|p Hp Hr E|p nd Hp Hat Hub Hnd Hmin E|p Hp Hat Hub Hmin E|p Hp Hat Hrg E];
    rewrite <- E in Hl; cbn [mbind outcome_bind] in Hl.
  - by simplify_eq.
  - by eapply IH; [|exact Hh|exact Hl].
  - eapply IH; [|exact Hh|exact Hl]. by do 2 eapply moved_fmap_advance.
  - by simplify_eq.
  - destruct (score_fn p) as [so|e0|] eqn:Esc; [|done|done]. cbn [mbind outcome_bind] in Hl.
    eapply IH; [| |exact Hl]; [by do 2 eapply moved_fmap_advance|].
    apply offer_accepted; [done| |done].
    eapply moved_in_ids; [exact (Hmp p)|]. eapply at_pivot_all_pending. exact Hat.
Qed.
End Candidates.

Lemma wand_accepted `{UnspecifiedOrderLaws} cs k title_boost desc_boost score_fn r d s :
  Forall cursor_ok cs ->
  wand_top_k cs k title_boost desc_boost score_fn = Ret r -> (d, s) ∈ r ->
  Forall (fun c => d ∈ ids c) cs /\ exists s', score_fn d = Ret (Some s').
Proof.
  intros Hok Hrun Hd. unfold wand_top_k in Hrun.
  destruct (bool_decide (cs = []) || (k =? 0)%nat) eqn:E.
  { injection Hrun as <-. by apply elem_of_nil in Hd. }
  apply orb_false_iff in E as [E _]. apply bool_decide_eq_false in E.
  apply bind_ret_inv in Hrun as (oh & Hl & Hrun). apply bind_ret_inv in Hrun as (h' & Hu & Hrun).
  apply unwrap_ret_inv in Hu as ->. injection Hrun as <-.
  unfold tk_into_vec in Hd. rewrite elem_of_sort_by, list_elem_of_fmap in Hd.
  destruct Hd as (e & [= -> ->] & He). rewrite heap_iter_perm in He.
  apply (loop_accepted title_boost desc_boost score_fn cs Hok) with (5 := He) (4 := Hl).
  - destruct cs; [done|simpl; lia].
  - apply Forall_Forall2_diag, Forall_true. intros c. exists (tc_position c). by destruct c.
  - intros e' He'%elem_of_nil. done.
Qed.

Lemma wand_top_k_ret `{UnspecifiedOrder} (cs : list TermCursor) (k : nat)
    (title_boost desc_boost : f32) (score_fn : Z -> Result (option f32)) :
  Forall cursor_ok cs -> (forall d, 0 <= d -> exists s, score_fn d = Ret s) ->
  exists r, wand_top_k cs k title_boost desc_boost score_fn = Ret r.
Proof.
  intros Hok Hsc. unfold wand_top_k. case_bool_decide as E; [by eexists|]. cbn [orb].
  destruct (k =? 0)%nat; [by eexists|].
  destruct (loop_terminates title_boost desc_boost score_fn (S (remaining cs)) cs (tk_new k) Hok)
    as [h ->]; [destruct cs; [done|simpl; lia]|lia|done|]. by eexists.
Qed.

(** Every result of the retrieval is a distinct document of all the lists
    with the score the scorer gave it, the results come by descending score,
    and there are at most [k]: conjunctive semantics, for any block bounds. *)
Lemma wand_sound `{UnspecifiedOrderLaws} (cs : list TermCursor) (k : nat)
    (title_boost desc_boost : f32) (score_fn : Z -> Result (option f32)) (r : list (Z * f32)) :
  Forall cursor_ok cs -> Forall (fun c => tc_position c = 0%nat) cs ->
  (forall d s, score_fn d = Ret (Some s) -> pos_score s) ->
  wand_top_k cs k title_boost desc_boost score_fn = Ret r ->
  (length r <= k)%nat /\ NoDup r.*1 /\
  (forall d s, (d, s) ∈ r -> Forall (fun c => d ∈ ids c) cs /\ score_fn d = Ret (Some s)) /\
  StronglySorted (fun a b => f_ge a.2 b.2 = true) r.
Proof.
  intros Hok Hst Hpos Hrun.
  assert (forall d s, candidate score_fn cs d s -> pos_score s) as Hcp
    by (intros d0 s0 [_ ?]; by eapply Hpos).
  destruct (decide (cs = [] \/ k = 0%nat)) as [He|He].
  { assert (r = []) as ->.
    { unfold wand_top_k in Hrun. replace (bool_decide (cs = []) || (k =? 0)%nat) with true in Hrun.
      - by injection Hrun.
      - symmetry. rewrite orb_true_iff, bool_decide_eq_true, Nat.eqb_eq. exact He. }
    split_and!; [simpl; lia|constructor| |constructor]. intros d s Hd%elem_of_nil. done. }
  destruct (run_heap title_boost desc_boost score_fn cs Hok Hst k r Hcp)
    as (hh & Hl & Hnd & Hc & _ & _ & Hr); [tauto|lia|done|].
  assert (r ≡ₚ (fun e : Z * Z => (e.2, f32_from_bits e.1)) <$> hh) as Hperm.
  { rewrite Hr, sort_by_perm. by rewrite heap_iter_perm. }
  split_and!.
  - by rewrite Hperm, length_fmap.
  - rewrite Hperm, <- list_fmap_compose. exact Hnd.
  - intros d s Hd. rewrite Hr in Hd. by apply (elem_of_result score_fn cs) in Hd as [_ Hd].
  - assert (Forall (fun a : Z * f32 => f_nan a.2 = false) r) as Hnan.
    { apply Forall_forall. intros [d s] Hd. rewrite Hr in Hd.
      apply (elem_of_result score_fn cs) in Hd as [_ [_ Hs]]; [|done|done].
      by eapply pos_score_nan, Hpos. }
    assert (StronglySorted (cmp_le (fun a b : Z * f32 => f_cmp b.2 a.2)) r) as Hs.
    { assert (CmpPreorder (fun a : Z * f32 => f_nan a.2 = false)
        (fun a b : Z * f32 => f_cmp b.2 a.2)) as Hpre
        by exact (cmp_desc_preorder _ _ (cmp_on_preorder snd (fun x => f_nan x = false) f_cmp _)).
      rewrite Hr in Hnan |- *. rewrite Forall_sort_by in Hnan.
      exact (@sort_by_sorted _ _ _ Hpre _ Hnan). }
    clear -Hs Hnan. induction Hs as [|a l Hs IH Ha]; [constructor|].
    apply Forall_cons in Hnan as [Hna Hnl]. constructor; [by apply IH|].
    apply Forall_forall. intros b Hb. pose proof (proj1 (Forall_forall _ _) Ha b Hb) as Hle.
    unfold f_ge. change (SpecFloat.SFleb b.2 a.2) with (f_le b.2 a.2).
    apply f_le_cmp; [by apply (proj1 (Forall_forall _ _) Hnl)|done|exact Hle].
Qed.

(** Nothing is lost while there is room: when the block bounds are positive where
    a document of all the lists is scored, the document is in the result with its
    score or the result has [k] documents. *)
Lemma wand_recall `{UnspecifiedOrderLaws} cs k title_boost desc_boost score_fn r d s :
  Forall cursor_ok cs -> Forall (fun c => tc_position c = 0%nat) cs -> cs <> [] -> (0 < k)%nat ->
  (forall d s, candidate score_fn cs d s -> pos_score s) ->
  bounds_positive title_boost desc_boost score_fn cs ->
  wand_top_k cs k title_boost desc_boost score_fn = Ret r ->
  Forall (fun c => d ∈ ids c) cs -> score_fn d = Ret (Some s) ->
  (d, s) ∈ r \/ length r = k.
Proof.
  intros Hok Hst Hne Hk Hpos Hb Hrun Hd Hs.
  destruct (run_heap title_boost desc_boost score_fn cs Hok Hst k r Hpos Hne Hk Hrun)
    as (hh & _ & _ & Hc & _ & Hh & Hr).
  destruct (Hh Hb d s (conj Hd Hs)) as [Hin|Hlen].
  - left. rewrite Hr. by apply (elem_of_result score_fn cs).
  - right. by rewrite Hr, length_sort_by, length_fmap, (Permutation_length (heap_iter_perm hh)).
Qed.

(** With block bounds that dominate the scores nothing better is left out. *)
Lemma wand_complete `{UnspecifiedOrderLaws} (cs : list TermCursor) (k : nat)
    (title_boost desc_boost : f32) (score_fn : Z -> Result (option f32)) (r : list (Z * f32))
    (d : Z) (s : f32) :
  Forall cursor_ok cs -> Forall (fun c => tc_position c = 0%nat) cs -> cs <> [] -> (0 < k)%nat ->
  (forall d s, score_fn d = Ret (Some s) -> pos_score s) ->
  bounds_sound title_boost desc_boost score_fn cs ->
  wand_top_k cs k title_boost desc_boost score_fn = Ret r ->
  Forall (fun c => d ∈ ids c) cs -> score_fn d = Ret (Some s) ->
  (d, s) ∈ r \/ (length r = k /\ forall d' s', (d', s') ∈ r -> f_le s s' = true).
Proof.
  intros Hok Hst Hne Hk Hpos Hb Hrun Hd Hs.
  assert (forall d s, candidate score_fn cs d s -> pos_score s) as Hcp
    by (intros d0 s0 [_ ?]; by eapply Hpos).
  destruct (run_heap title_boost desc_boost score_fn cs Hok Hst k r Hcp Hne Hk Hrun)
    as (hh & Hl & Hnd & Hc & Hh & _ & Hr).
  destruct (Hh Hb d s (conj Hd Hs)) as [Hin|[Hlen Hall]].
  - left. rewrite Hr. by apply (elem_of_result score_fn cs).
  - right. split.
    + by rewrite Hr, length_sort_by, length_fmap, (Permutation_length (heap_iter_perm hh)).
    + intros d' s' Hd'. rewrite Hr in Hd'. apply (elem_of_result score_fn cs) in Hd' as [Hin [_ Hs']];
        [|done|done].
      specialize (Hall _ Hin). apply pos_bits_le; by eauto.
Qed.

(** C13: Block-Max WAND on any merged lists, with any block bounds, ends and
    returns at most [k] distinct documents, each one in all the lists and with
    the score the scorer gave it, by descending score.  When the block bounds
    dominate the scores it is exact: a document of all the lists that is not in
    the result leaves a full result of documents scoring at least as much, so
    skipping blocks loses nothing. *)
Theorem wand_exact `{UnspecifiedOrderLaws} (cs : list TermCursor) (k : nat)
    (title_boost desc_boost : f32) (score_fn : Z -> Result (option f32)) :
  Forall cursor_ok cs -> Forall (fun c => tc_position c = 0%nat) cs ->
  (forall d, 0 <= d -> exists s, score_fn d = Ret s) ->
  (forall d s, score_fn d = Ret (Some s) -> pos_score s) ->
  exists r, wand_top_k cs k title_boost desc_boost score_fn = Ret r /\
    (length r <= k)%nat /\ NoDup r.*1 /\
    (forall d s, (d, s) ∈ r -> Forall (fun c => d ∈ ids c) cs /\ score_fn d = Ret (Some s)) /\
    StronglySorted (fun a b => f_ge a.2 b.2 = true) r /\
    (bounds_sound title_boost desc_boost score_fn cs -> cs <> [] ->
     forall d s, Forall (fun c => d ∈ ids c) cs -> score_fn d = Ret (Some s) ->
       (d, s) ∈ r \/ (length r = k /\ forall d' s', (d', s') ∈ r -> f_le s s' = true)).
Proof.
  intros Hok Hst Htot Hpos.
  destruct (wand_top_k_ret cs k title_boost desc_boost score_fn Hok Htot) as [r Hrun].
  destruct (wand_sound cs k title_boost desc_boost score_fn r Hok Hst Hpos Hrun) as (Hl & Hnd & Hin & Hs).
  exists r. split_and!; [done..|]. intros Hb Hne d s. destruct (decide (k = 0%nat)) as [->|Hk].
  - intros _ _. right. destruct r; [|cbn in Hl; lia]. split; [done|]. by intros d' s' ?%elem_of_nil.
  - apply (wand_complete cs k title_boost desc_boost score_fn r d s); [done..|lia|done|done|done].
Qed.

(** A list of three documents scored 2, 1 and 2; the best of them is asked for. *)
Definition sample_cursor : TermCursor :=
  tc_new {| postings := [mkPosting 3 1 8; mkPosting 5 2 8; mkPosting 9 1 8]; blocks := [] |}
    (f32_of_Z 1) (f32_of_Z 8) Bm25Scorer_default.
Definition sample_score (d : Z) : Result (option f32) :=
  Ret (if d =? 5 then Some (f32_of_Z 2) else Some (f32_of_Z 1)).

Section Witness.
Import StableOrder.

Lemma sample_pos d s : sample_score d = Ret (Some s) -> pos_score s.
Proof. unfold sample_score. intros H. destruct (d =? 5); simplify_eq; vm_decide. Qed.

Lemma sample_bounds : bounds_sound one one sample_score [sample_cursor].
Proof.
  intros d s cs [_ Hs] Hm Hat. inversion Hm as [|? c ? l [n ->] Hl]; subst.
  inversion Hl; subst. apply Forall_cons in Hat as [Hat _]. unfold sample_score in Hs.
  destruct n as [|[|[|n]]]; vm_compute in Hat; simplify_eq; vm_compute; reflexivity.
Qed.

Lemma sample_cursor_ok : Forall cursor_ok [sample_cursor].
Proof. constructor; [vm_decide|constructor]. Qed.

Lemma wand_exact_witness :
  exists r, wand_top_k [sample_cursor] 1 one one sample_score = Ret r /\
    ((3, f32_of_Z 1) ∈ r \/
     (length r = 1%nat /\ forall d' s', (d', s') ∈ r -> f_le (f32_of_Z 1) s' = true)).
Proof.
  destruct (wand_exact [sample_cursor] 1 one one sample_score) as (r & Hr & _ & _ & _ & _ & Hb).
  - exact sample_cursor_ok.
  - repeat constructor.
  - intros d _. by eexists.
  - exact sample_pos.
  - exists r. split; [exact Hr|]. apply (Hb sample_bounds); [done| |reflexivity].
    constructor; [vm_decide|constructor].
Defined.
End Witness.
