(* ===== verification/Executor.v ===== *)
(** The query executor over one segment ([crates/query/src/executor.rs]):
    filters, the conjunctive WAND query, the disjunctive fallback, sorting
    values and aggregations. *)
From S2P Require Import Prelude Bytes Order Float FloatRound Types Text Analysis Posting Disk.
From S2P Require Import EditDistance Inverted Column DocStore Segment Scorer Collector.
From S2P Require Import Understanding Wand.

Local Open Scope Z_scope.

Record SegmentSearchResult := mkSegmentSearchResult {
  ssr_scored_docs : list ScoredDoc;
  ssr_total_hits : Z;
  ssr_aggregations : gmap string (list (string * Z));
  ssr_retrieval_mode : RetrievalMode;
}.

Record QueryExecutor := mkQueryExecutor { qe_schema : IndexSchema; qe_scorer : Bm25Scorer }.

Definition qe_new (schema : IndexSchema) : QueryExecutor :=
  {| qe_schema := schema; qe_scorer := Bm25Scorer_default |}.

(** [(offset + limit).max(limit * 10).max(200)] at [usize]. *)
Definition wand_k (request : SearchRequest) : nat :=
  Z.to_nat (Z.max (Z.max (wrap 64 (rq_offset request + rq_limit request))
                         (wrap 64 (rq_limit request * 10))) 200).

(** The boost of the first field of that name. *)
Definition field_boost (schema : IndexSchema) (name : string) (dflt : f32) : f32 :=
  match list_find (fun f => fc_name f = name) (schema_fields schema) with
  | Some (_, f) => fc_boost f
  | None => dflt
  end.

(** [stats.field_avg_lengths.get(name).copied().unwrap_or(dflt)]. *)
Definition avg_length (stats : SegmentStatistics) (name : string) (dflt : f32) : f32 :=
  default dflt (st_field_avg_lengths stats !! name).

Section Executor.
Context `{IL : IndexLibs} `{ML : MathLib} `{UO : UnspecifiedOrder}.
Context (ex : QueryExecutor) (reader : SegmentReader) (stats : SegmentStatistics).
Context (segment_ord : nat) (request : SearchRequest).

Abbreviation schema := (qe_schema ex).

Definition query_analyzer : Analyzer := analyzer_build (primary_analyzer schema).
Definition query_tokens : list string :=
  tok_text <$> analyze query_analyzer (rq_query request).

(** ** Filters and sort values *)
Definition filter_bits (field : string) (f : FilterValue) : RoaringBitmap :=
  match f with
  | FEquality eq => sr_filter_eq reader field eq
  | FRange gte lte => sr_filter_range reader field gte lte
  | FMultiValue vs => sr_filter_in reader field vs
  end.

Definition build_filter_bitmap : option RoaringBitmap :=
  if bool_decide (rq_filters request = ∅) then None
  else Some (foldl (fun combined '(field, f) => rb_and combined (filter_bits field f))
               (all_live_docs reader) (hm_iter (rq_filters request))).

Definition sort_value (local_doc_id : Z) : Result (option f64) :=
  match rq_sort request with
  | None => Ret None
  | Some spec =>
      doc ← get_doc reader local_doc_id;
      Ret (match doc with
           | None => None
           | Some doc =>
               if bool_decide (ss_field spec = "price") then Some (doc_price doc)
               else match doc_attributes doc !! ss_field spec with
                    | Some (VNumber v) => Some v
                    | _ => None
                    end
           end)
  end.

(** ** Posting lists of a query token *)
Definition token_lists (token : string) : Result (list PostingList) :=
  prefix ← prefix_search_term reader token;
  if negb (bool_decide (prefix = [])) then Ret prefix.*2
  else if rq_typo_tolerance request && (4 <? String.length token)%nat then
    let max_dist := if (String.length token <=? 6)%nat then 1%nat else 2%nat in
    l ← fuzzy_search_term reader token max_dist;
    Ret l.*2
  else
    o ← search_term reader token;
    Ret (match o with Some pl => [pl] | None => [] end).

(** [raw_lists.iter().map(|pl| pl.len() as u32).sum()] *)
Definition total_df (lists : list PostingList) : Z :=
  foldr (fun pl n => wrap 32 (wrap 32 (Z.of_nat (pl_len pl)) + n)) 0 lists.

Definition token_cursor (raw_lists : list PostingList) : TermCursor :=
  let avgdl := avg_length stats "title" (f32_of_Z 8) in
  let merged := rebuild_blocks (pl_merge raw_lists) avgdl in
  tc_new merged (idf (st_total_docs stats) (total_df raw_lists)) avgdl (qe_scorer ex).

(** ** Exact scores *)
Definition doc_freq (token : string) : Result Z :=
  o ← search_term reader token;
  Ret (match o with Some pl => wrap 32 (Z.of_nat (pl_len pl)) | None => 1 end).

Definition matches_token (token t : string) : bool := bool_decide (t = token) || starts_with t token.

(** One token's contribution to the score of a field. *)
Definition token_score (fuzzy : bool) (boost : f32) (doc_tokens : list string) (avgdl : f32)
    (total_score : f32) (token : string) : Result f32 :=
  let dl := wrap 32 (Z.of_nat (length doc_tokens)) in
  let tf := wrap 32 (Z.of_nat (length (filter (fun t => matches_token token t = true) doc_tokens))) in
  let add (tf : Z) : Result f32 :=
    df ← doc_freq token;
    let idf := idf (st_total_docs stats) df in
    Ret (f32_add total_score (f32_mul boost (term_score (qe_scorer ex) tf dl avgdl idf))) in
  if tf =? 0 then
    if fuzzy && rq_typo_tolerance request && (3 <=? String.length token)%nat then
      let max_dist := if (String.length token <=? 4)%nat then 1%nat else 2%nat in
      let fuzzy_tf :=
        wrap 32 (Z.of_nat (length (filter (fun t => (edit_distance t token <= max_dist)%nat)
                                     doc_tokens))) in
      if 0 <? fuzzy_tf then add fuzzy_tf else Ret total_score
    else Ret total_score
  else add tf.

Definition field_score (fuzzy : bool) (doc : Document) (total_score : f32) (field : FieldConfig)
  : Result f32 :=
  if negb (is_text_field field) then Ret total_score
  else match text_of_field (fc_name field) doc with
       | None => Ret total_score
       | Some text =>
           let doc_tokens := analyze_to_terms (analyzer_build (fc_analyzer field)) text in
           let avgdl := avg_length stats (fc_name field) (f32_of_Z 1) in
           try_fold (token_score fuzzy (fc_boost field) doc_tokens avgdl) total_score query_tokens
       end.

Definition doc_score (fuzzy : bool) (doc : Document) : Result f32 :=
  try_fold (field_score fuzzy doc) f_zero (schema_fields schema).

(** The document when it is live and passes the filter. *)
Definition candidate_doc (filter : option RoaringBitmap) (local_doc_id : Z)
  : Result (option Document) :=
  match filter with
  | Some f => if rb_contains f local_doc_id then get_doc reader local_doc_id else Ret None
  | None => get_doc reader local_doc_id
  end.

(** Every query token starts one of the first three title tokens. *)
Definition title_match (doc : Document) : bool :=
  let ty := match list_find (fun f => fc_name f = "title") (schema_fields schema) with
            | Some (_, f) => fc_analyzer f
            | None => AtKeyword
            end in
  let first := take 3 (analyze_to_terms (analyzer_build ty) (doc_title doc)) in
  negb (bool_decide (query_tokens = [])) &&
  forallb (fun qt => existsb (fun tt => matches_token qt tt) first) query_tokens.

(** The scoring closures of the two queries. *)
Definition and_score (filter : option RoaringBitmap) (local_doc_id : Z)
  : Result (option f32) :=
  doc ← candidate_doc filter local_doc_id;
  match doc with
  | None => Ret None
  | Some doc =>
      total_score ← doc_score true doc;
      if f_le total_score f_zero then Ret None
      else Ret (Some (if title_match doc then f32_mul total_score (f32_lit 15 10)
                      else total_score))
  end.

Definition or_score (filter : option RoaringBitmap) (local_doc_id : Z)
  : Result (option f32) :=
  doc ← candidate_doc filter local_doc_id;
  match doc with
  | None => Ret None
  | Some doc =>
      total_score ← doc_score false doc;
      Ret (if f_gt total_score f_zero then Some total_score else None)
  end.

(** [filter_map(|(id, score)| { let doc = get_doc(id)?; Some(ScoredDoc ..) })]. *)
Definition scored_doc (p : Z * f32) : Result (option ScoredDoc) :=
  doc ← get_doc reader p.1;
  match doc with
  | None => Ret None
  | Some doc =>
      sv ← sort_value p.1;
      Ret (Some {| sd_segment_ord := segment_ord; sd_local_doc_id := p.1;
                   sd_global_doc_id := doc_id doc; sd_score := p.2; sd_sort_value := sv |})
  end.
Definition scored_docs (l : list (Z * f32)) : Result (list ScoredDoc) :=
  os ← mapM scored_doc l;
  Ret (omap id os).

(** ** The two queries *)

(** The cursors of the query tokens; [None] when a token matches nothing. *)
Fixpoint token_cursors (tokens : list string) : Result (option (list TermCursor)) :=
  match tokens with
  | [] => Ret (Some [])
  | token :: tokens =>
      raw_lists ← token_lists token;
      if bool_decide (raw_lists = []) then Ret None
      else
        rest ← token_cursors tokens;
        Ret ((fun cs => token_cursor raw_lists :: cs) <$> (rest : option (list TermCursor)))
  end.

Definition title_boost : f32 := field_boost schema "title" (f32_of_Z 2).
Definition desc_boost : f32 := field_boost schema "description" (f32_of_Z 1).

Definition score_query_wand (filter : option RoaringBitmap) (token_texts : list string)
  : Result (list ScoredDoc) :=
  if bool_decide (token_texts = []) then Ret []
  else if bool_decide (query_tokens = []) then Ret []
  else
    cursors ← token_cursors query_tokens;
    match cursors with
    | None => Ret []
    | Some cursors =>
        wand_results ← wand_top_k cursors (wand_k request) title_boost desc_boost
                         (and_score filter);
        scored_docs wand_results
    end.

(** The scores one token of the fallback adds. *)
Definition or_token (filter : option RoaringBitmap) (score_map : gmap Z f32) (token : string)
  : Result (gmap Z f32) :=
  raw_lists ← token_lists token;
  if bool_decide (raw_lists = []) then Ret score_map
  else
    token_results ← wand_top_k [token_cursor raw_lists] (wand_k request) title_boost desc_boost
                      (or_score filter);
    Ret (foldl (fun m '(local_doc_id, score) =>
                  <[local_doc_id := f32_add (default f_zero (m !! local_doc_id)) score]> m)
           score_map token_results).

Definition score_query_or_fallback (filter : option RoaringBitmap) (token_texts : list string)
  : Result (list ScoredDoc) :=
  score_map ← try_fold (or_token filter) ∅ token_texts;
  scored_docs (hm_iter score_map).

(** ** [execute] *)
Definition match_all_doc (local_id : Z) : Result ScoredDoc :=
  doc ← get_doc reader local_id;
  sv ← sort_value local_id;
  Ret {| sd_segment_ord := segment_ord; sd_local_doc_id := local_id;
         sd_global_doc_id := match doc with Some d => doc_id d | None => local_id end;
         sd_score := one; sd_sort_value := sv |}.

Definition run_query (filter_bitmap : option RoaringBitmap)
  : Result (list ScoredDoc * RetrievalMode) :=
  if bool_decide (rq_query request = "") then
    let live := all_live_docs reader in
    let matching := match filter_bitmap with Some f => rb_and live f | None => live end in
    docs ← mapM match_all_doc (rb_iter matching);
    Ret (docs, RmAnd)
  else
    let parsed := qu_run (qu_default_for_schema schema) (rq_query request) in
    and_results ← score_query_wand filter_bitmap (pq_tokens parsed);
    if bool_decide (length and_results = 0%nat) && (1 <? length (pq_tokens parsed))%nat then
      or_results ← score_query_or_fallback filter_bitmap (pq_tokens parsed);
      Ret (or_results, RmOrFallback)
    else Ret (and_results, RmAnd).

Definition execute : Result SegmentSearchResult :=
  let filter_bitmap := build_filter_bitmap in
  '(scored, retrieval_mode) ← run_query filter_bitmap;
  let total_hits := Z.of_nat (length scored) in
  let matching_bitmap := rb_from (sd_local_doc_id <$> scored) in
  let aggregations :=
    foldl (fun m field => <[field := sr_aggregate_counts reader field matching_bitmap]> m) ∅
      (rq_aggregations request) in
  Ret {| ssr_scored_docs := scored; ssr_total_hits := total_hits;
         ssr_aggregations := aggregations; ssr_retrieval_mode := retrieval_mode |}.
End Executor.

(** ** Postings a query reads *)
Section ExecutorSpecs.
Context `{ILL : IndexLaws} `{ML : MathLib} `{UOL : UnspecifiedOrderLaws}.
Context (schema : IndexSchema) (r : SegmentReader) (docs : list Document) (b : RoaringBitmap).
Context (Hr : segment_holds schema r docs b).
Context (stats : SegmentStatistics) (segment_ord : nat) (request : SearchRequest).

Abbreviation an := (text_analyzers schema).
Abbreviation ex := (qe_new schema).

Lemma doc_length_range doc : 0 <= doc_length an doc <= u16_max.
Proof.
  unfold doc_length. set (l := _ <$> an).
  assert (0 <= foldr Z.add 0 l); [|unfold u16_max in *; lia].
  assert (Forall (fun x => 0 <= x) l) as Hl.
  { apply Forall_fmap, Forall_true. intros [[f a] bst]. cbn.
    destruct (text_of_field f doc); lia. }
  induction Hl as [|x l' Hx _ IH]; cbn; lia.
Qed.

Lemma expected_posting_spec t p :
  p ∈ expected_postings an docs t ->
  posting_wf p /\ p_doc_id p < u32_max /\
  exists doc, docs !! Z.to_nat (p_doc_id p) = Some doc /\ t ∈ doc_terms an doc.
Proof.
  pose proof (sh_small _ _ _ _ Hr) as Hsmall.
  unfold expected_postings. rewrite omap_enumerate_elem. intros (i & doc & Hi & Hp). cbn in Hp.
  destruct (Nat.eqb_spec (occurrences t (doc_terms an doc)) 0) as [|Hn]; [done|].
  injection Hp as <-. pose proof (lookup_lt_Some _ _ _ Hi) as Hlt.
  pose proof (doc_length_range doc) as Hdl. unfold u16_max in Hdl.
  split_and!.
  - unfold posting_wf, in_width. cbn. lia.
  - cbn. unfold u32_max. lia.
  - exists doc. cbn. rewrite Nat2Z.id. split; [done|]. unfold occurrences in Hn.
    destruct (filter (fun t' => t' = t) (doc_terms an doc)) as [|t' l] eqn:E; [done|].
    assert (t' ∈ filter (fun t' => t' = t) (doc_terms an doc)) as Hin by (rewrite E; by left).
    by apply list_elem_of_filter in Hin as [-> Hin].
Qed.

(** A list the reader returns for the term [t]. *)
Definition term_list (t : string) (pl : PostingList) : Prop :=
  expected_postings an docs t <> [] /\
  postings pl = live_postings b (expected_postings an docs t).

Lemma retained_term_list t pl :
  segment_terms schema docs !! t = Some pl ->
  term_list t (retain_live r (rebuild_blocks pl (segment_avgdl schema docs))).
Proof.
  rewrite (segment_terms_lookup schema r docs b Hr). unfold expected_list, term_list.
  destruct (expected_postings an docs t) as [|p ps] eqn:E; [done|]. intros [= <-].
  split; [done|]. by rewrite (retain_live_postings schema r docs b Hr).
Qed.

Lemma rebuilt_elem t pl :
  (t, pl) ∈ rebuilt (segment_avgdl schema docs) (segment_terms schema docs) <->
  exists pl0, segment_terms schema docs !! t = Some pl0 /\
    pl = rebuild_blocks pl0 (segment_avgdl schema docs).
Proof.
  unfold rebuilt. rewrite list_elem_of_fmap. split.
  - intros ([t' pl0] & [= -> ->] & Hin). apply elem_of_btree_iter in Hin. eauto.
  - intros (pl0 & Ht & ->). exists (t, pl0). split; [done|]. by apply elem_of_btree_iter.
Qed.

(** How a query token selects terms of the dictionary. *)
Definition selects (token t : string) : Prop :=
  starts_with t token = true \/
  (rq_typo_tolerance request = true /\ (4 < String.length token)%nat /\
   (lev (chars token) (chars t) <= (if (String.length token <=? 6)%nat then 1 else 2))%nat).

Lemma retained_entries l :
  (forall t pl, (t, pl) ∈ l ->
     exists pl0, segment_terms schema docs !! t = Some pl0 /\
       pl = rebuild_blocks pl0 (segment_avgdl schema docs)) ->
  forall t pl, (t, pl) ∈ retain_entries r l -> term_list t pl /\ exists pl0, (t, pl0) ∈ l.
Proof.
  intros Hl t pl Hin. apply list_elem_of_fmap in Hin as ([t' pl'] & [= -> ->] & Hin).
  destruct (Hl _ _ Hin) as (pl0 & H0 & ->). split; [by apply retained_term_list|eauto].
Qed.

Lemma starts_with_refl t : starts_with t t = true.
Proof. unfold starts_with. induction t as [|a t IH]; [done|]. cbn. by destruct (Ascii.ascii_dec a a). Qed.

Lemma token_lists_spec token :
  exists lists, token_lists r request token = Ret lists /\
    forall pl, pl ∈ lists -> exists t, term_list t pl /\ selects token t.
Proof.
  unfold token_lists. rewrite (prefix_search_term_spec schema r docs b Hr).
  cbn [mbind outcome_bind]. set (pre := retain_entries r _).
  assert (forall t pl, (t, pl) ∈ pre -> term_list t pl /\ selects token t) as Hpre.
  { intros t pl Hin. apply retained_entries in Hin as [Ht (pl0 & Hin)].
    - split; [done|]. left. by apply list_elem_of_filter in Hin as [? _].
    - intros t' pl' [_ Hin']%list_elem_of_filter. by apply rebuilt_elem. }
  destruct (bool_decide (pre = [])) eqn:E; cbn [negb].
  2: { eexists. split; [done|]. intros pl Hin.
       apply list_elem_of_fmap in Hin as ([t pl'] & -> & Hin). exists t. by apply Hpre. }
  destruct (rq_typo_tolerance request && (4 <? String.length token)%nat) eqn:Ety.
  - apply andb_true_iff in Ety as [Ety Hlen%Nat.ltb_lt].
    unfold fuzzy_search_term. rewrite (holds_fuzzy _ _ _ _ (sh_inverted _ _ _ _ Hr)).
    cbn [mbind outcome_bind]. eexists. split; [done|]. intros pl Hin.
    apply list_elem_of_fmap in Hin as ([t pl'] & -> & Hin).
    apply list_elem_of_filter in Hin as [_ Hin]. exists t.
    destruct (fst_search_levenshtein _ _ _); [|by apply elem_of_nil in Hin].
    apply retained_entries in Hin as [Ht (pl0 & Hin)].
    + split; [done|]. right. apply list_elem_of_filter in Hin as [Hd _]. cbn in Hd. by destruct (_ <=? 6)%nat.
    + intros t' pl'' [_ Hin']%list_elem_of_filter. by apply rebuilt_elem.
  - rewrite (search_term_spec schema r docs b Hr). cbn [mbind outcome_bind]. eexists.
    split; [done|]. intros pl Hin.
    pose proof (segment_terms_lookup schema r docs b Hr token) as Hl.
    destruct (expected_list an docs token) as [pl0|]; [|by apply elem_of_nil in Hin].
    cbn in Hin. apply list_elem_of_singleton in Hin as ->. exists token.
    split; [by apply retained_term_list|]. left. apply starts_with_refl.
Qed.

(** ** Cursors *)

(** The documents a token's cursor runs over: live, with a selected term. *)
Definition token_match (token : string) (d : Z) : Prop :=
  rb_contains b d = false /\ 0 <= d /\
  exists doc t, docs !! Z.to_nat d = Some doc /\ t ∈ doc_terms an doc /\ selects token t.

Lemma ids_token_cursor lists : ids (token_cursor ex stats lists) = p_doc_id <$> postings (pl_merge lists).
Proof. unfold token_cursor, tc_new, ids. by destruct (_ && _). Qed.

Lemma term_list_posting t pl p :
  term_list t pl -> p ∈ postings pl ->
  p ∈ expected_postings an docs t /\ rb_contains b (p_doc_id p) = false.
Proof. intros [_ ->] [? ?]%list_elem_of_filter. done. Qed.

Lemma token_cursor_spec token lists :
  (forall pl, pl ∈ lists -> exists t, term_list t pl /\ selects token t) ->
  cursor_ok (token_cursor ex stats lists) /\
  tc_position (token_cursor ex stats lists) = 0%nat /\
  forall d, d ∈ ids (token_cursor ex stats lists) -> token_match token d.
Proof.
  intros Hl.
  assert (forall p, p ∈ lists ≫= postings -> exists t, p ∈ expected_postings an docs t /\
    rb_contains b (p_doc_id p) = false /\ selects token t) as Hp.
  { intros p (pl & Hp & Hin)%list_elem_of_bind. destruct (Hl pl Hin) as (t & Ht & Hs).
    exists t. destruct (term_list_posting _ _ _ Ht Hp). done. }
  assert (Forall posting_wf (lists ≫= postings)) as Hwf.
  { apply Forall_forall. intros p Hin. destruct (Hp p Hin) as (t & Hin' & _).
    by apply expected_posting_spec in Hin' as [? _]. }
  destruct (pl_merge_spec lists Hwf) as [Hs Hids _ _].
  assert (forall d, d ∈ ids (token_cursor ex stats lists) ->
    exists p, d = p_doc_id p /\ p ∈ lists ≫= postings) as Hd.
  { intros d. rewrite ids_token_cursor, Hids. intros (p & -> & ?)%list_elem_of_fmap. eauto. }
  split_and!.
  - split; [by rewrite ids_token_cursor|]. apply Forall_forall. intros d Hin.
    destruct (Hd d Hin) as (p & -> & Hp'). destruct (Hp p Hp') as (t & Hin' & _).
    apply expected_posting_spec in Hin' as ([[? _] _] & ? & _). done.
  - unfold token_cursor, tc_new. by destruct (_ && _).
  - intros d Hin. destruct (Hd d Hin) as (p & -> & Hp').
    destruct (Hp p Hp') as (t & Hin' & Hlive & Hsel).
    apply expected_posting_spec in Hin' as ([[? _] _] & _ & (doc & Hdoc & Ht)).
    split_and!; [done|done|]. by exists doc, t.
Qed.

Lemma token_cursors_spec tokens :
  exists o, token_cursors ex r stats request tokens = Ret o /\
    forall cs, o = Some cs ->
      Forall2 (fun token c => cursor_ok c /\ tc_position c = 0%nat /\
        forall d, d ∈ ids c -> token_match token d) tokens cs.
Proof.
  induction tokens as [|token tokens (o & Ho & IH)]; cbn [token_cursors].
  { eexists. split; [done|]. intros cs [= <-]. constructor. }
  destruct (token_lists_spec token) as (lists & -> & Hl). cbn [mbind outcome_bind].
  case_bool_decide; [by exists None|]. rewrite Ho. cbn [mbind outcome_bind].
  eexists. split; [done|]. intros cs (cs' & Ho' & ->)%fmap_Some.
  constructor; [by apply token_cursor_spec|by apply IH].
Qed.

(** ** Scores always return *)
Lemma doc_freq_ret token : exists df, doc_freq r token = Ret df.
Proof. unfold doc_freq. rewrite (search_term_spec schema r docs b Hr). by eexists. Qed.

Lemma token_score_ret fuzzy boost dt avgdl s token :
  exists s', token_score ex r stats request fuzzy boost dt avgdl s token = Ret s'.
Proof.
  unfold token_score. destruct (doc_freq_ret token) as [df ->]. cbn [mbind outcome_bind].
  repeat case_match; by eexists.
Qed.

Lemma doc_score_ret fuzzy doc : exists s, doc_score ex r stats request fuzzy doc = Ret s.
Proof.
  unfold doc_score.
  destruct (try_fold_ret (field_score ex r stats request fuzzy doc) (fun _ => True) f_zero
    (schema_fields (qe_schema ex))) as (s & Hs & _); [done| |by exists s].
  intros s field _ _. unfold field_score. destruct (negb _); [by exists s|].
  destruct (text_of_field _ _); [|by exists s].
  apply (try_fold_ret _ (fun _ => True)); [done|]. intros s' x _ _.
  destruct (token_score_ret fuzzy (fc_boost field) (analyze_to_terms
    (analyzer_build (fc_analyzer field)) s0) (avg_length stats (fc_name field) (f32_of_Z 1)) s' x)
    as [s'' ->]. by exists s''.
Qed.
End ExecutorSpecs.

(** ** The executor's results *)
Section ExecutorResults.
Context `{ILL : IndexLaws} `{ML : MathLib} `{UOL : UnspecifiedOrderLaws}.
Context (schema : IndexSchema) (r : SegmentReader) (docs : list Document) (b : RoaringBitmap).
Context (Hr : segment_holds schema r docs b).
Context (stats : SegmentStatistics) (segment_ord : nat) (request : SearchRequest).

Abbreviation ex := (qe_new schema).

(** The live document [doc] at [d] passes every filter of the request. *)
Definition passing (d : Z) (doc : Document) : Prop :=
  rb_contains b d = false /\ 0 <= d /\ docs !! Z.to_nat d = Some doc /\
  forall field f, rq_filters request !! field = Some f -> doc_passes schema doc field f.

Lemma get_doc_some d doc :
  0 <= d -> get_doc r d = Ret (Some doc) <->
  rb_contains b d = false /\ docs !! Z.to_nat d = Some doc.
Proof.
  intros Hd. rewrite (get_doc_spec schema r docs b Hr) by done.
  destruct (rb_contains b d); split.
  - done.
  - by intros [? _].
  - by intros [= ->].
  - by intros [_ ->].
Qed.

Lemma filter_bitmap_spec d :
  0 <= d ->
  (match build_filter_bitmap r request with
   | Some f => rb_contains f d = true
   | None => rb_contains b d = false /\ d < Z.of_nat (length docs)
   end) <-> exists doc, passing d doc.
Proof.
  intros Hd. unfold build_filter_bitmap, passing. case_bool_decide as He.
  { rewrite He. split.
    - intros [Hb Hlt]. destruct (lookup_lt_is_Some_2 docs (Z.to_nat d)) as [doc Hdoc]; [lia|].
      exists doc. split_and!; [done..|]. intros field f. by rewrite lookup_empty.
    - intros (doc & Hb & _ & Hdoc & _). split; [done|]. apply lookup_lt_Some in Hdoc. lia. }
  set (flt := fun p : string * FilterValue => rb_contains (filter_bits r p.1 p.2) d = true).
  assert (forall l acc, rb_contains (foldl (fun combined '(field, f) =>
      rb_and combined (filter_bits r field f)) acc l) d = true <->
    rb_contains acc d = true /\ Forall flt l) as Hfold.
  { induction l as [|[field f] l IH]; intros acc; cbn [foldl].
    - rewrite Forall_nil. tauto.
    - rewrite IH, rb_contains_and, andb_true_iff, Forall_cons. unfold flt at 2. cbn. tauto. }
  rewrite Hfold, (all_live_docs_spec schema r docs b Hr), Forall_forall.
  split.
  - intros [[[_ Hlt] Hb] Hf]. destruct (lookup_lt_is_Some_2 docs (Z.to_nat d)) as [doc Hdoc]; [lia|].
    exists doc. split_and!; [done..|]. intros field f Hff.
    specialize (Hf (field, f) (proj2 (elem_of_hm_iter _ _ _) Hff)). unfold flt, filter_bits in Hf.
    apply (any_filter_spec schema r docs b Hr) in Hf as (_ & doc' & _ & Hdoc' & Hp).
    by simplify_eq.
  - intros (doc & Hb & _ & Hdoc & Hp). pose proof (lookup_lt_Some _ _ _ Hdoc).
    split; [split; [lia|done]|]. intros [field f] Hin%elem_of_hm_iter.
    unfold flt, filter_bits. apply (any_filter_spec schema r docs b Hr). split; [done|].
    exists doc. auto.
Qed.

Lemma candidate_doc_spec d :
  0 <= d -> exists o, candidate_doc r (build_filter_bitmap r request) d = Ret o /\
    forall doc, o = Some doc -> passing d doc.
Proof.
  intros Hd. pose proof (filter_bitmap_spec d Hd) as Hf. unfold candidate_doc.
  destruct (build_filter_bitmap r request) as [f|].
  - destruct (rb_contains f d) eqn:E; [|by exists None].
    rewrite (get_doc_spec schema r docs b Hr) by done. eexists. split; [done|].
    destruct (proj1 Hf eq_refl) as (doc & Hb & Hp). rewrite Hb. intros doc' Hdoc'.
    destruct Hp as (? & Hdoc & ?). simplify_eq. by split_and!.
  - rewrite (get_doc_spec schema r docs b Hr) by done. eexists. split; [done|].
    intros doc Hdoc. destruct (rb_contains b d) eqn:E; [done|].
    destruct (proj1 Hf) as (doc' & Hp).
    { split; [done|]. apply lookup_lt_Some in Hdoc. lia. }
    destruct Hp as (? & ? & ? & ?). simplify_eq. by split_and!.
Qed.

(** A returned document: live, passing the filters, under its own id. *)
Definition hit_ok (sd : ScoredDoc) : Prop :=
  exists doc, passing (sd_local_doc_id sd) doc /\ sd_global_doc_id sd = doc_id doc /\
    sd_segment_ord sd = segment_ord.

Lemma sort_value_ret d : 0 <= d -> exists v, sort_value r request d = Ret v.
Proof.
  intros Hd. unfold sort_value. destruct (rq_sort request); [|by eexists].
  rewrite (get_doc_spec schema r docs b Hr) by done. by eexists.
Qed.

Lemma mapM_ret_all {A B} (f : A -> Result B) (P : A -> B -> Prop) (l : list A) :
  (forall x, x ∈ l -> exists y, f x = Ret y /\ P x y) ->
  exists l', mapM f l = Ret l' /\ Forall2 P l l'.
Proof.
  clear. induction l as [|x l IH]; intros H; [by exists []|].
  destruct (H x) as (y & Hy & HP); [by left|]. destruct IH as (l' & Hl' & HF).
  { intros. apply H. by right. }
  exists (y :: l'). split; [|by constructor]. cbn [mapM]. rewrite Hy. cbn [mbind outcome_bind].
  rewrite Hl'. done.
Qed.

(** Documents of a result list that are live become hits. *)
Lemma scored_docs_spec l (Q : Z -> Prop) :
  (forall d s, (d, s) ∈ l -> (exists doc, passing d doc) /\ Q d) ->
  exists sds, scored_docs r segment_ord request l = Ret sds /\
    forall sd, sd ∈ sds -> hit_ok sd /\ Q (sd_local_doc_id sd).
Proof.
  intros Hl. unfold scored_docs.
  destruct (mapM_ret_all (scored_doc r segment_ord request)
    (fun p o => forall sd, o = Some sd -> hit_ok sd /\ Q (sd_local_doc_id sd)) l) as (os & Hos & HF).
  { intros [d s] Hin. destruct (Hl d s Hin) as [(doc & Hp) HQ]. pose proof Hp as (Hb & Hd & Hdoc & _).
    unfold scored_doc. cbn [fst snd]. rewrite (proj2 (get_doc_some d doc Hd)) by done.
    cbn [mbind outcome_bind]. destruct (sort_value_ret d Hd) as [v ->]. cbn [mbind outcome_bind].
    eexists. split; [done|]. intros sd [= <-]. cbn. split; [|done]. by exists doc. }
  rewrite Hos. cbn [mbind outcome_bind]. eexists. split; [done|].
  intros sd (o & Hin & Ho)%list_elem_of_omap. cbn in Ho. subst o.
  apply list_elem_of_lookup in Hin as [i Hi].
  destruct (Forall2_lookup_r _ _ _ _ _ HF Hi) as (p & _ & Hp). by apply Hp.
Qed.

Lemma wand_score_ret (fuzzy : bool) d :
  0 <= d ->
  exists so, (if fuzzy then and_score ex r stats request else or_score ex r stats request)
      (build_filter_bitmap r request) d = Ret so /\
    (so <> None -> exists doc, passing d doc).
Proof.
  intros Hd. destruct (candidate_doc_spec d Hd) as (o & Ho & Hp).
  destruct fuzzy; unfold and_score, or_score; rewrite Ho; cbn [mbind outcome_bind];
    (destruct o as [doc|]; [|by eexists]).
  - destruct (doc_score_ret schema r docs b Hr stats request true doc) as [s ->].
    cbn [mbind outcome_bind]. destruct (f_le s f_zero); eexists; (split; [done|]); naive_solver.
  - destruct (doc_score_ret schema r docs b Hr stats request false doc) as [s ->].
    cbn [mbind outcome_bind]. eexists. split; [done|]. destruct (f_gt s f_zero); naive_solver.
Qed.

(** A WAND run over the cursors of some tokens. *)
Lemma wand_run (fuzzy : bool) k tb db tokens cs :
  Forall2 (fun token c => cursor_ok c /\ tc_position c = 0%nat /\
    forall d, d ∈ ids c -> token_match schema docs b request token d) tokens cs ->
  exists l, wand_top_k cs k tb db
      ((if fuzzy then and_score ex r stats request else or_score ex r stats request)
         (build_filter_bitmap r request)) = Ret l /\
    forall d s, (d, s) ∈ l -> (exists doc, passing d doc) /\
      Forall (fun token => token_match schema docs b request token d) tokens.
Proof.
  intros Hcs.
  assert (Forall cursor_ok cs) as Hok.
  { apply Forall_forall. intros c Hc. apply list_elem_of_lookup in Hc as [i Hi].
    by destruct (Forall2_lookup_r _ _ _ _ _ Hcs Hi) as (token & _ & ? & _). }
  destruct (wand_top_k_ret cs k tb db _ Hok (fun d Hd =>
    match wand_score_ret fuzzy d Hd with ex_intro _ so (conj H _) => ex_intro _ so H end)) as [l Hl].
  exists l. split; [exact Hl|]. intros d s Hin.
  destruct (wand_accepted _ _ _ _ _ _ _ _ Hok Hl Hin) as [Hids (s' & Hs')].
  assert (Forall (fun token => token_match schema docs b request token d) tokens) as Hall.
  { apply Forall_forall. intros token Ht. apply list_elem_of_lookup in Ht as [i Hi].
    destruct (Forall2_lookup_l _ _ _ _ _ Hcs Hi) as (c & Hc & _ & _ & Hm).
    apply Hm. apply (proj1 (Forall_forall _ _) Hids). by eapply list_elem_of_lookup_2. }
  split; [|done].
  destruct (decide (0 <= d)) as [Hd|Hd].
  - destruct (wand_score_ret fuzzy d Hd) as (so & Hso & Hp). apply Hp. rewrite Hs' in Hso.
    by injection Hso as <-.
  - exfalso. unfold wand_top_k in Hl. destruct cs as [|c cs].
    { injection Hl as <-. by apply elem_of_nil in Hin. }
    apply Forall_cons in Hok as [[_ Hr0] _]. apply Forall_cons in Hids as [Hc _].
    pose proof (proj1 (Forall_forall _ _) Hr0 d Hc). cbn in *. lia.
Qed.

Abbreviation qt := (query_tokens ex request).

Lemma score_query_wand_spec :
  exists sds, score_query_wand ex r stats segment_ord request (build_filter_bitmap r request) qt
      = Ret sds /\
    forall sd, sd ∈ sds -> hit_ok sd /\
      Forall (fun token => token_match schema docs b request token (sd_local_doc_id sd)) qt.
Proof.
  unfold score_query_wand.
  assert (forall P : ScoredDoc -> Prop, exists sds, (Ret [] : Result (list ScoredDoc)) = Ret sds /\
    forall sd, sd ∈ sds -> P sd) as Hnil.
  { intros P. exists []. split; [done|]. intros sd H%elem_of_nil. done. }
  case_bool_decide; [apply Hnil|].
  destruct (token_cursors_spec schema r docs b Hr stats request qt) as (o & Ho & Hcs).
  rewrite Ho. cbn [mbind outcome_bind].
  destruct o as [cs|]; [|apply Hnil].
  destruct (wand_run true (wand_k request) (title_boost ex) (desc_boost ex) qt cs (Hcs cs eq_refl))
    as (l & Hl & Hin).
  rewrite Hl. cbn [mbind outcome_bind].
  exact (scored_docs_spec l
    (fun d => Forall (fun token => token_match schema docs b request token d) qt) Hin).
Qed.

Lemma or_token_spec m token :
  exists m', or_token ex r stats request (build_filter_bitmap r request) m token = Ret m' /\
    forall d s, m' !! d = Some s -> (exists s0, m !! d = Some s0) \/
      ((exists doc, passing d doc) /\ token_match schema docs b request token d).
Proof.
  unfold or_token. destruct (token_lists_spec schema r docs b Hr request token) as (lists & -> & Hl).
  cbn [mbind outcome_bind]. case_bool_decide; [by exists m; eauto|].
  destruct (wand_run false (wand_k request) (title_boost ex) (desc_boost ex) [token]
    [token_cursor ex stats lists]) as (l & Hw & Hin).
  { constructor; [|constructor]. by apply (token_cursor_spec schema r docs b Hr). }
  rewrite Hw. cbn [mbind outcome_bind]. eexists. split; [done|].
  assert (forall d s, (d, s) ∈ l -> (exists doc, passing d doc) /\
    token_match schema docs b request token d) as Hl2.
  { intros d s Hd. destruct (Hin d s Hd) as [? [? _]%Forall_cons]. done. }
  clear Hw Hin. revert m Hl2. induction l as [|[d0 s0] l IH]; intros m Hl2 d s Hm; cbn in Hm; [eauto|].
  destruct (IH _ ltac:(intros; eapply Hl2; by right) d s Hm) as [[s1 Hs1]|]; [|by right].
  destruct (decide (d0 = d)) as [->|]; [right; eapply Hl2; by left|].
  rewrite lookup_insert_ne in Hs1 by done. left. eauto.
Qed.

Lemma score_query_or_spec :
  exists sds, score_query_or_fallback ex r stats segment_ord request
      (build_filter_bitmap r request) qt = Ret sds /\
    forall sd, sd ∈ sds -> hit_ok sd /\
      Exists (fun token => token_match schema docs b request token (sd_local_doc_id sd)) qt.
Proof.
  unfold score_query_or_fallback.
  set (Q := fun d => Exists (fun token => token_match schema docs b request token d) qt).
  destruct (try_fold_ret (or_token ex r stats request (build_filter_bitmap r request))
    (fun m => forall d s, m !! d = Some s -> (exists doc, passing d doc) /\ Q d) ∅ qt) as (m & Hm & HP).
  { intros d s. by rewrite lookup_empty. }
  { intros m token Hm Ht. destruct (or_token_spec m token) as (m' & Hm' & Hd). exists m'.
    split; [done|]. intros d s Hds. destruct (Hd d s Hds) as [[s0 Hs0]|[Hp Htm]]; [by eapply Hm|].
    split; [done|]. apply Exists_exists. by exists token. }
  rewrite Hm. cbn [mbind outcome_bind].
  destruct (scored_docs_spec (hm_iter m) Q) as (sds & Hs & Hq); [|by exists sds].
  intros d s Hin%elem_of_hm_iter. by eapply HP.
Qed.

Lemma query_tokens_parsed :
  pq_tokens (qu_run (qu_default_for_schema (qe_schema ex)) (rq_query request)) = qt.
Proof. done. Qed.

Lemma run_query_spec :
  exists sds mode, run_query ex r stats segment_ord request (build_filter_bitmap r request)
      = Ret (sds, mode) /\
    (forall sd, sd ∈ sds -> hit_ok sd) /\
    (rq_query request = "" -> mode = RmAnd /\
       StronglySorted Z.lt (sd_local_doc_id <$> sds) /\
       (forall d, d ∈ sd_local_doc_id <$> sds <-> 0 <= d /\ exists doc, passing d doc) /\
       Forall (fun sd => sd_score sd = one) sds) /\
    (rq_query request <> "" -> forall sd, sd ∈ sds ->
       match mode with
       | RmAnd => Forall (fun t => token_match schema docs b request t (sd_local_doc_id sd)) qt
       | RmOrFallback => Exists (fun t => token_match schema docs b request t (sd_local_doc_id sd)) qt
       end).
Proof.
  unfold run_query. case_bool_decide as Eq.
  - set (matching := match _ with Some f => _ | None => _ end).
    assert (forall d, rb_contains matching d = true <-> 0 <= d /\ exists doc, passing d doc) as Hm.
    { intros d. pose proof (all_live_docs_spec schema r docs b Hr d) as Hl. unfold matching. split.
      - intros Hc. destruct (decide (0 <= d)) as [Hd|Hd].
        + split; [done|]. apply (filter_bitmap_spec d Hd).
          destruct (build_filter_bitmap r request); [|apply Hl in Hc; split; [tauto|lia]].
          by rewrite rb_contains_and, andb_true_iff in Hc; destruct Hc.
        + exfalso. destruct (build_filter_bitmap r request);
            [rewrite rb_contains_and, andb_true_iff in Hc; destruct Hc as [Hc _]|];
            apply Hl in Hc; lia.
      - intros [Hd Hp]. pose proof (proj2 (filter_bitmap_spec d Hd) Hp) as Hf.
        destruct Hp as (doc & Hb & _ & Hdoc & _). apply lookup_lt_Some in Hdoc.
        destruct (build_filter_bitmap r request).
        + rewrite rb_contains_and, Hf, andb_true_r. apply Hl. split; [lia|done].
        + apply Hl. split; [lia|done]. }
    destruct (mapM_ret_all (match_all_doc r segment_ord request)
      (fun d sd => (hit_ok sd /\ sd_score sd = one) /\ sd_local_doc_id sd = d) (rb_iter matching))
      as (sds & Hs & HF).
    { intros d Hd%rb_elem_of_iter%Hm. destruct Hd as [Hd (doc & Hp)]. pose proof Hp as (Hb & _ & Hdoc & _).
      unfold match_all_doc. rewrite (proj2 (get_doc_some d doc Hd)) by done.
      cbn [mbind outcome_bind]. destruct (sort_value_ret d Hd) as [v ->]. cbn [mbind outcome_bind].
      eexists. split; [done|]. cbn. split; [|done]. split; [|done]. by exists doc. }
    rewrite Hs. cbn [mbind outcome_bind]. eexists sds, RmAnd. split; [done|].
    assert (sd_local_doc_id <$> sds = rb_iter matching) as Hids.
    { clear -HF. induction HF as [|d sd l l' [_ E] _ IH]; [done|]. cbn. by rewrite E, IH. }
    assert (forall sd, sd ∈ sds -> hit_ok sd /\ sd_score sd = one) as Hall.
    { intros sd Hsd. apply list_elem_of_lookup in Hsd as [i Hi].
      by destruct (Forall2_lookup_r _ _ _ _ _ HF Hi) as (d & _ & ? & _). }
    split_and!.
    + intros sd Hsd. by apply Hall.
    + intros _. split_and!; [done|rewrite Hids; apply rb_iter_sorted| |].
      * intros d. by rewrite Hids, rb_elem_of_iter.
      * apply Forall_forall. intros sd Hsd. by apply Hall.
    + done.
  - rewrite query_tokens_parsed. destruct score_query_wand_spec as (sds & -> & Hsds).
    cbn [mbind outcome_bind]. destruct (bool_decide _ && _).
    + destruct score_query_or_spec as (sds' & -> & Hsds'). cbn [mbind outcome_bind].
      exists sds', RmOrFallback. split; [done|]. split_and!.
      * intros sd Hsd. by apply Hsds'.
      * done.
      * intros _ sd Hsd. by apply Hsds'.
    + exists sds, RmAnd. split; [done|]. split_and!.
      * intros sd Hsd. by apply Hsds.
      * done.
      * intros _ sd Hsd. by apply Hsds.
Qed.
End ExecutorResults.


(** the empty query returns exactly the live documents that pass the
    filters, once each and in document order. *)
Theorem executor_match_all `{ILL : IndexLaws} `{ML : MathLib} `{UOL : UnspecifiedOrderLaws}
    (schema : IndexSchema) (r : SegmentReader) (docs : list Document) (b : RoaringBitmap)
    (stats : SegmentStatistics) (segment_ord : nat) (request : SearchRequest) :
  segment_holds schema r docs b -> rq_query request = "" ->
  exists res, execute (qe_new schema) r stats segment_ord request = Ret res /\
    ssr_retrieval_mode res = RmAnd /\
    StronglySorted Z.lt (sd_local_doc_id <$> ssr_scored_docs res) /\
    forall d, d ∈ sd_local_doc_id <$> ssr_scored_docs res <->
      0 <= d /\ exists doc, passing schema docs b request d doc.
Proof.
  intros Hr Hempty. destruct (run_query_spec schema r docs b Hr stats segment_ord request)
    as (sds & mode & Hq & _ & Hall & _). destruct (Hall Hempty) as (-> & Hs & Hd & _).
  unfold execute. rewrite Hq. cbn [mbind outcome_bind]. eexists. by split_and!.
Qed.

Section Witness.
Import TestLibs StableOrder.
#[local] Instance test_math : MathLib := {| f32_ln := fun x => x |}.

Definition sample_request (query : string) : SearchRequest :=
  {| rq_query := query; rq_filters := {["category" := FEquality "c"]}; rq_aggregations := ["category"];
     rq_sort := None; rq_offset := 0; rq_limit := 10; rq_typo_tolerance := true;
     rq_language := None; rq_destination_zone := None; rq_include_docs := false |}.
Definition sample_stats : SegmentStatistics :=
  {| st_total_docs := 2; st_field_avg_lengths := {["title" := f32_of_Z 2]} |}.

(** The whole path on a concrete segment: "shoe" finds documents 0 and 2 of
    [sample_docs]; document 2 is deleted. *)
Example execute_sample :
  (r ← result_of (write_mark_open default_product_schema "s" sample_docs [2] ["s"]) disk_empty;
   res ← execute (qe_new default_product_schema) r sample_stats 0 (sample_request "shoes");
   Ret (sd_local_doc_id <$> ssr_scored_docs res)) = Ret [0].
Proof. vm_compute. reflexivity. Qed.


Lemma executor_match_all_witness :
  exists d r res,
    write_mark_open default_product_schema "s" sample_docs [2] ["s"] disk_empty = (d, Ret r) /\
    execute (qe_new default_product_schema) r sample_stats 0 (sample_request "") = Ret res /\
    ssr_retrieval_mode res = RmAnd.
Proof.
  destruct (write_mark_open_holds default_product_schema "s" sample_docs [2] ["s"] disk_empty
    sample_fits) as (d & r & b & H1 & H2 & _).
  - done.
  - reflexivity.
  - destruct (executor_match_all default_product_schema r sample_docs b sample_stats 0
      (sample_request "") H2 eq_refl) as (res & H3 & H4 & _).
    exists d, r, res. split; [exact H1|]. split; [exact H3|exact H4].
Defined.
End Witness.
