(* ===== verification/Recall.v ===== *)
(** What a text query finds ([crates/query/src/{executor,wand}.rs]): documents
    that contain the words are returned while there is room, and the case where
    the block bounds hide them. *)
From S2P Require Import Prelude Bytes Order Float FloatRound Types Text Analysis Posting Disk.
From S2P Require Import Inverted Column DocStore Segment Scorer Collector Understanding Wand Executor.

Local Open Scope Z_scope.

Section Recall.
Context `{ILL : IndexLaws} `{ML : MathLib} `{UOL : UnspecifiedOrderLaws}.
Context (schema : IndexSchema) (r : SegmentReader) (docs : list Document) (b : RoaringBitmap).
Context (Hr : segment_holds schema r docs b).
Context (stats : SegmentStatistics) (segment_ord : nat) (request : SearchRequest).

Abbreviation an := (text_analyzers schema).
Abbreviation ex := (qe_new schema).
Abbreviation qt := (query_tokens ex request).
Abbreviation score := (and_score ex r stats request (build_filter_bitmap r request)).

(** Some term of the document starts with the token. *)
Definition has_prefix (doc : Document) (token : string) : Prop :=
  exists t, t ∈ doc_terms an doc /\ starts_with t token = true.

Lemma expected_posting_of d doc t :
  0 <= d -> docs !! Z.to_nat d = Some doc -> t ∈ doc_terms an doc ->
  exists p, p ∈ expected_postings an docs t /\ p_doc_id p = d.
Proof.
  intros Hd Hdoc Ht. eexists. split.
  - unfold expected_postings. rewrite omap_enumerate_elem. exists (Z.to_nat d), doc.
    split; [done|]. cbn beta zeta. cbn [fst snd].
    destruct (Nat.eqb_spec (occurrences t (doc_terms an doc)) 0) as [E|_]; [|reflexivity].
    exfalso. unfold occurrences in E. apply length_zero_iff_nil in E.
    assert (t ∈ filter (fun t' => t' = t) (doc_terms an doc)) as Hin by by apply list_elem_of_filter.
    rewrite E in Hin. by apply elem_of_nil in Hin.
  - cbn. lia.
Qed.

Lemma token_lists_complete token d doc :
  rb_contains b d = false -> 0 <= d -> docs !! Z.to_nat d = Some doc -> has_prefix doc token ->
  exists lists, token_lists r request token = Ret lists /\ lists <> [] /\
    d ∈ ids (token_cursor ex stats lists).
Proof.
  intros Hb Hd Hdoc (t & Ht & Hpre).
  destruct (expected_posting_of d doc t Hd Hdoc Ht) as (p & Hp & Hpd).
  set (l := filter (fun kv => starts_with kv.1 token = true)
              (rebuilt (segment_avgdl schema docs) (segment_terms schema docs))).
  set (pl0 := {| postings := expected_postings an docs t; blocks := [] |}).
  assert ((t, rebuild_blocks pl0 (segment_avgdl schema docs)) ∈ l) as Hin.
  { apply list_elem_of_filter. split; [done|]. apply rebuilt_elem. exists pl0. split; [|done].
    rewrite (segment_terms_lookup schema r docs b Hr). unfold expected_list.
    destruct (expected_postings an docs t) eqn:E; [by apply elem_of_nil in Hp|done]. }
  set (pl := retain_live r (rebuild_blocks pl0 (segment_avgdl schema docs))).
  assert (pl ∈ (retain_entries r l).*2) as Hpl.
  { apply list_elem_of_fmap. exists (t, pl). split; [done|]. apply list_elem_of_fmap.
    by exists (t, rebuild_blocks pl0 (segment_avgdl schema docs)). }
  exists (retain_entries r l).*2. split_and!.
  - unfold token_lists. rewrite (prefix_search_term_spec schema r docs b Hr).
    cbn [mbind outcome_bind]. fold l. rewrite bool_decide_false; [done|].
    intros E. rewrite E in Hpl. by apply elem_of_nil in Hpl.
  - intros E. rewrite E in Hpl. by apply elem_of_nil in Hpl.
  - assert (Forall posting_wf ((retain_entries r l).*2 ≫= postings)) as Hwf.
    { apply Forall_forall. intros q (pl' & Hq & Hin')%list_elem_of_bind.
      apply list_elem_of_fmap in Hin' as ([t' pl''] & -> & Hin').
      apply (retained_entries schema r docs b Hr) in Hin' as [Hterm _].
      - destruct (term_list_posting schema docs b _ _ _ Hterm Hq) as [Hq' _].
        by apply (expected_posting_spec schema r docs b Hr) in Hq' as [? _].
      - intros t2 pl2 [_ Hin2]%list_elem_of_filter. by apply rebuilt_elem. }
    rewrite ids_token_cursor, (ms_ids _ _ (pl_merge_spec _ Hwf)).
    apply list_elem_of_fmap. exists p. split; [done|]. apply list_elem_of_bind. exists pl.
    split; [|done]. unfold pl. rewrite (retain_live_postings schema r docs b Hr).
    apply list_elem_of_filter. by rewrite Hpd.
Qed.

Lemma token_cursors_complete tokens d doc :
  rb_contains b d = false -> 0 <= d -> docs !! Z.to_nat d = Some doc ->
  Forall (has_prefix doc) tokens ->
  exists cs, token_cursors ex r stats request tokens = Ret (Some cs) /\
    length cs = length tokens /\ Forall (fun c => d ∈ ids c) cs.
Proof.
  intros Hb Hd Hdoc Hall. induction Hall as [|token tokens Ht _ (cs & Hcs & Hlen & Hin)];
    [by exists []|]. cbn [token_cursors].
  destruct (token_lists_complete token d doc Hb Hd Hdoc Ht) as (lists & -> & Hne & Hc).
  cbn [mbind outcome_bind]. rewrite bool_decide_false by done. rewrite Hcs.
  cbn [mbind outcome_bind fmap option_fmap option_map].
  eexists. split; [done|]. split; [by cbn; f_equal|by constructor].
Qed.

(** Scored documents become hits, one for one. *)
Lemma scored_docs_all l :
  Forall (fun p : Z * f32 => exists doc, passing schema docs b request p.1 doc) l ->
  exists sds, scored_docs r segment_ord request l = Ret sds /\
    Forall2 (fun p sd => sd_local_doc_id sd = p.1 /\ sd_score sd = p.2) l sds.
Proof.
  intros Hl. unfold scored_docs.
  destruct (mapM_ret_all (scored_doc r segment_ord request)
    (fun p o => exists sd, o = Some sd /\ sd_local_doc_id sd = p.1 /\ sd_score sd = p.2) l)
    as (os & Hos & HF).
  { intros [d s] Hin. destruct (proj1 (Forall_forall _ _) Hl _ Hin) as (doc & Hb & Hd & Hdoc & _).
    cbn in Hb, Hd, Hdoc. unfold scored_doc. cbn [fst snd].
    rewrite (proj2 (get_doc_some schema r docs b Hr d doc Hd)) by done. cbn [mbind outcome_bind].
    destruct (sort_value_ret schema r docs b Hr request d Hd) as [v ->]. cbn [mbind outcome_bind].
    eexists. split; [done|]. by eexists. }
  rewrite Hos. cbn [mbind outcome_bind]. eexists. split; [done|]. clear -HF.
  induction HF as [|p o l os (sd & -> & Hsd) _ IH]; [constructor|]. cbn. by constructor.
Qed.

Lemma wand_k_pos : (200 <= wand_k request)%nat.
Proof. unfold wand_k. lia. Qed.

(** The bounds the cursors of the query compute are positive where documents
    are scored. *)
Definition query_bounds_positive : Prop := forall cs,
  token_cursors ex r stats request qt = Ret (Some cs) ->
  bounds_positive (title_boost ex) (desc_boost ex) score cs.

Lemma query_finds d doc s :
  rq_query request <> "" -> qt <> [] -> passing schema docs b request d doc ->
  Forall (has_prefix doc) qt -> score d = Ret (Some s) ->
  (forall d doc s, passing schema docs b request d doc -> score d = Ret (Some s) -> pos_score s) ->
  query_bounds_positive ->
  exists res, execute ex r stats segment_ord request = Ret res /\
    ssr_retrieval_mode res = RmAnd /\
    ((exists sd, sd ∈ ssr_scored_docs res /\ sd_local_doc_id sd = d /\ sd_score sd = s) \/
     length (ssr_scored_docs res) = wand_k request).
Proof.
  intros Hq Hqt Hp Hpre Hs Hpos Hbounds. pose proof Hp as (Hb & Hd & Hdoc & _).
  destruct (token_cursors_complete qt d doc Hb Hd Hdoc Hpre) as (cs & Hcs & Hlen & Hin).
  destruct (token_cursors_spec schema r docs b Hr stats request qt) as (o & Ho & Hok).
  rewrite Hcs in Ho. injection Ho as <-. specialize (Hok cs eq_refl).
  destruct (wand_run schema r docs b Hr stats request true (wand_k request) (title_boost ex)
    (desc_boost ex) qt cs Hok) as (l & Hl & Hpass). cbv beta iota in Hl.
  assert (Forall cursor_ok cs /\ Forall (fun c => tc_position c = 0%nat) cs) as [Hc1 Hc2].
  { clear -Hok. induction Hok as [|? c ? cs (? & ? & _) _ [IH1 IH2]]; split; by constructor. }
  assert (cs <> []) as Hne by (intros ->; by destruct qt).
  pose proof wand_k_pos as Hk.
  assert (forall d s, candidate score cs d s -> pos_score s) as Hcp.
  { intros d' s' [Hids Hs']. destruct cs as [|c cs]; [done|].
    apply Forall_cons in Hids as [Hd' _]. apply Forall_cons in Hc1 as [[_ Hr0] _].
    pose proof (proj1 (Forall_forall _ _) Hr0 d' Hd') as [Hd0 _].
    destruct (wand_score_ret schema r docs b Hr stats request true d' Hd0) as (so & Hso & Hpd).
    rewrite Hs' in Hso. injection Hso as <-. destruct Hpd as [doc' Hpd]; [done|]. by eapply Hpos. }
  pose proof (wand_recall cs (wand_k request) _ _ score l d s Hc1 Hc2 Hne ltac:(lia) Hcp
    (Hbounds cs Hcs) Hl Hin Hs) as Hfound.
  destruct (scored_docs_all l) as (sds & Hsds & HF).
  { apply Forall_forall. intros [d' s'] Hd'. by apply (Hpass d' s' Hd'). }
  assert (score_query_wand ex r stats segment_ord request (build_filter_bitmap r request) qt = Ret sds) as Hw.
  { unfold score_query_wand. rewrite bool_decide_false by done. rewrite Hcs.
    cbn [mbind outcome_bind]. rewrite Hl. exact Hsds. }
  assert ((exists sd, sd ∈ sds /\ sd_local_doc_id sd = d /\ sd_score sd = s) \/
    length sds = wand_k request) as Hres.
  { destruct Hfound as [Hf|Hf].
    - left. apply list_elem_of_lookup in Hf as [i Hi].
      destruct (Forall2_lookup_l _ _ _ _ _ HF Hi) as (sd & Hsd & ? & ?).
      exists sd. split; [by eapply list_elem_of_lookup_2|done].
    - right. by rewrite <- (Forall2_length _ _ _ HF). }
  assert (length sds <> 0%nat) as Hsome.
  { destruct Hres as [(sd & Hsd & _)|]; [|lia]. intros E%length_zero_iff_nil. subst.
    by apply elem_of_nil in Hsd. }
  unfold execute, run_query. rewrite bool_decide_false by done. rewrite query_tokens_parsed, Hw.
  cbn [mbind outcome_bind]. rewrite bool_decide_false by done. cbn [andb mbind outcome_bind].
  eexists. split; [done|]. split; [done|]. exact Hres.
Qed.
End Recall.

(** C14: a text query finds what it should.  When every word of the query starts
    some term of a live document that passes the filters and the document has a
    score, the search answers in AND mode, and the document is among the results
    with its score, unless the results are as many as the query retrieves
    ([wand_k], at least 200).  The scores of passing documents must be positive
    numbers, and the block bounds positive. *)
Theorem executor_finds `{ILL : IndexLaws} `{ML : MathLib} `{UOL : UnspecifiedOrderLaws}
    (schema : IndexSchema) (r : SegmentReader) (docs : list Document) (b : RoaringBitmap)
    (stats : SegmentStatistics) (segment_ord : nat) (request : SearchRequest)
    (d : Z) (doc : Document) (s : f32) :
  segment_holds schema r docs b -> rq_query request <> "" ->
  query_tokens (qe_new schema) request <> [] ->
  passing schema docs b request d doc ->
  Forall (has_prefix schema doc) (query_tokens (qe_new schema) request) ->
  and_score (qe_new schema) r stats request (build_filter_bitmap r request) d = Ret (Some s) ->
  (forall d doc s, passing schema docs b request d doc ->
     and_score (qe_new schema) r stats request (build_filter_bitmap r request) d = Ret (Some s) ->
     pos_score s) ->
  query_bounds_positive schema r stats request ->
  exists res, execute (qe_new schema) r stats segment_ord request = Ret res /\
    ssr_retrieval_mode res = RmAnd /\
    ((exists sd, sd ∈ ssr_scored_docs res /\ sd_local_doc_id sd = d /\ sd_score sd = s) \/
     length (ssr_scored_docs res) = wand_k request).
Proof. intros Hr. by apply (query_finds schema r docs b Hr). Qed.

(** ** A word with many expansions *)
Section Expansions.
Import TestLibs StableOrder.
Context `{ML : MathLib}.
Context (ln_below_one : forall x, f_lt f_zero x = true -> f_lt x one = true ->
  f_lt (f32_ln x) f_zero = true).

(** One document, whose title has two terms that "shoe" starts. *)
Definition two_terms : Document := sample_doc 7 "shoe shoelace".
Definition two_term_stats : SegmentStatistics :=
  {| st_total_docs := 1; st_field_avg_lengths := {["title" := f32_of_Z 2]} |}.
Definition two_term_open := write_mark_open default_product_schema "s" [two_terms] [] ["s"].

Lemma two_terms_fit : segment_fits default_product_schema [two_terms].
Proof.
  split; [vm_decide|]. exists ((fun doc => bits_of (encode doc)) <$> [two_terms]).
  split; [|vm_decide]. repeat constructor; vm_compute; reflexivity.
Qed.

(** Two postings in one document: the inverse frequency is cut off at zero. *)
Lemma idf_1_2 : idf 1 2 = f_zero.
Proof.
  unfold idf. set (x := f32_add one _). assert (f_lt (f32_ln x) f_zero = true) as H.
  { apply ln_below_one; vm_compute; reflexivity. }
  unfold f_max. destruct (f32_ln x) as [[]|[]| |[] m e]; done.
Qed.

Definition shoe : SearchRequest := sample_request "shoe".

(** The lists of the token, and the retrieval with their cursor at idf zero. *)
Lemma shoe_lists r : result_of two_term_open disk_empty = Ret r ->
  exists lists, token_lists r shoe "shoe" = Ret lists /\ bool_decide (lists = []) = false /\
    total_df lists = 2 /\
    forall score_fn, wand_top_k
      [tc_new (rebuild_blocks (pl_merge lists) (f32_of_Z 2)) f_zero (f32_of_Z 2) Bm25Scorer_default]
      200 (title_boost (qe_new default_product_schema)) (desc_boost (qe_new default_product_schema))
      score_fn = Ret [].
Proof.
  intros Hopen.
  assert (exists lists, (r ← result_of two_term_open disk_empty; token_lists r shoe "shoe") = Ret lists /\
    bool_decide (lists = []) = false /\ total_df lists = 2 /\
    forall score_fn, wand_top_k
      [tc_new (rebuild_blocks (pl_merge lists) (f32_of_Z 2)) f_zero (f32_of_Z 2) Bm25Scorer_default]
      200 (title_boost (qe_new default_product_schema)) (desc_boost (qe_new default_product_schema))
      score_fn = Ret []) as H.
  { eexists. split; [vm_compute; reflexivity|]. split; [vm_compute; reflexivity|].
    split; [vm_compute; reflexivity|]. intros score_fn. vm_compute. reflexivity. }
  by rewrite Hopen in H.
Qed.

Lemma shoe_hidden r : result_of two_term_open disk_empty = Ret r ->
  exists res, execute (qe_new default_product_schema) r two_term_stats 0 shoe = Ret res /\
    ssr_scored_docs res = [] /\ ssr_total_hits res = 0.
Proof.
  intros Hopen. destruct (shoe_lists r Hopen) as (lists & Hl & Hne & Hdf & Hrun).
  assert (query_tokens (qe_new default_product_schema) shoe = ["shoe"]) as Hqt by (vm_compute; reflexivity).
  assert (token_cursor (qe_new default_product_schema) two_term_stats lists =
    tc_new (rebuild_blocks (pl_merge lists) (f32_of_Z 2)) f_zero (f32_of_Z 2) Bm25Scorer_default) as Hc.
  { unfold token_cursor. rewrite Hdf. cbn [st_total_docs two_term_stats]. by rewrite idf_1_2. }
  unfold execute, run_query. rewrite bool_decide_false by done.
  rewrite query_tokens_parsed. unfold score_query_wand. rewrite Hqt.
  rewrite bool_decide_false by done. cbn [token_cursors]. rewrite Hl. cbn [mbind outcome_bind].
  rewrite Hne. cbn [mbind outcome_bind fmap option_fmap option_map]. rewrite Hc.
  change (wand_k shoe) with 200%nat. rewrite Hrun. cbn [mbind outcome_bind].
  change (scored_docs r 0 shoe []) with (Ret [] : Result (list ScoredDoc)).
  cbn [mbind outcome_bind length]. rewrite andb_false_r. cbn [mbind outcome_bind].
  eexists. split; [reflexivity|]. split; reflexivity.
Qed.

Lemma two_terms_passing b : (forall x, rb_contains b x = bool_decide (x ∈ [])) ->
  passing default_product_schema [two_terms] b shoe 0 two_terms.
Proof.
  intros Hb. split; [by rewrite Hb|]. split_and!; [done|done|].
  intros field f Hf. cbn [rq_filters shoe sample_request] in Hf.
  apply lookup_singleton_Some in Hf as [<- <-]. split; [unfold keyword_field; vm_decide|reflexivity].
Qed.

End Expansions.

Section Witness.
Import TestLibs StableOrder.

(** Logarithms replaced by a function that is negative below one. *)
#[local] Instance stepped_ln : MathLib :=
  {| f32_ln := fun x => if f_lt x one then f32_of_Z (-1) else x |}.


Definition opened := result_of (write_mark_open default_product_schema "s" sample_docs [2] ["s"]) disk_empty.
Abbreviation product := (qe_new default_product_schema).
Definition shoe_score (r : SegmentReader) : Z -> Result (option f32) :=
  and_score product r sample_stats shoe (build_filter_bitmap r shoe).
Definition shoe_cursors : list TermCursor := Eval vm_compute in
  match (r ← opened; token_cursors product r sample_stats shoe ["shoe"]) with
  | Ret (Some cs) => cs
  | _ => []
  end.

Lemma opened_then {A} (f : SegmentReader -> Result A) r x :
  opened = Ret r -> (r ← opened; f r) = x -> f r = x.
Proof. by intros ->. Qed.

Lemma opened_holds (f : SegmentReader -> bool) r :
  opened = Ret r -> match opened with Ret r => f r | _ => false end = true -> f r = true.
Proof. by intros ->. Qed.

Lemma shoe_bounds r : opened = Ret r -> query_bounds_positive default_product_schema r sample_stats shoe.
Proof.
  intros Ho cs Hcs.
  assert (token_cursors product r sample_stats shoe ["shoe"] = Ret (Some shoe_cursors)) as Hc
    by (apply (opened_then (fun r => token_cursors product r sample_stats shoe ["shoe"]) r);
        [done|vm_compute; reflexivity]).
  replace (query_tokens product shoe) with ["shoe"] in Hcs by (vm_compute; reflexivity).
  rewrite Hc in Hcs. clear Hc. assert (shoe_cursors = cs) as <-.
  { generalize dependent shoe_cursors. by intros ? [= ->]. }
  clear Ho Hcs. intros d s cs [_ _] Hm Hat.
  inversion Hm as [|? c ? l [n ->] Hl]; subst. inversion Hl; subst.
  apply Forall_cons in Hat as [Hat _]. destruct n as [|n]; vm_compute in Hat; simplify_eq.
  vm_compute. reflexivity.
Qed.

Lemma shoe_scores r b d doc s : opened = Ret r ->
  passing default_product_schema sample_docs b shoe d doc -> shoe_score r d = Ret (Some s) -> pos_score s.
Proof.
  intros Ho (_ & Hd & Hdoc & _) Hs.
  assert (forall d, d ∈ [0; 1; 2] -> match shoe_score r d with
    | Ret (Some s) => bool_decide (pos_score s) | _ => true end = true) as Hall.
  { intros d' Hd'. apply (opened_holds (fun r => match shoe_score r d' with
      | Ret (Some s) => bool_decide (pos_score s) | _ => true end) r Ho). clear Ho.
    repeat (apply elem_of_cons in Hd' as [->|Hd']; [vm_compute; reflexivity|]).
    apply elem_of_nil in Hd'. destruct Hd'. }
  assert (d ∈ [0; 1; 2]) as Hin.
  { apply lookup_lt_Some in Hdoc. cbn in Hdoc. rewrite !elem_of_cons. lia. }
  specialize (Hall d Hin). rewrite Hs in Hall. by apply bool_decide_eq_true in Hall.
Qed.

Lemma executor_finds_witness :
  exists r res, opened = Ret r /\
    execute product r sample_stats 0 shoe = Ret res /\ ssr_retrieval_mode res = RmAnd /\
    exists sd, sd ∈ ssr_scored_docs res /\ sd_local_doc_id sd = 0.
Proof.
  destruct (write_mark_open_holds default_product_schema "s" sample_docs [2] ["s"] disk_empty
    sample_fits) as (d & r & b & H1 & H2 & H3); [done|reflexivity|].
  assert (opened = Ret r) as Ho by (unfold opened, result_of; rewrite H1; reflexivity).
  assert (exists s, shoe_score r 0 = Ret (Some s)) as [s Hs].
  { assert (exists s, (r ← opened; shoe_score r 0) = Ret (Some s)) as [s Hs]
      by (eexists; vm_compute; reflexivity).
    exists s. rewrite Ho in Hs. exact Hs. }
  destruct (executor_finds default_product_schema r sample_docs b sample_stats 0 shoe 0
    (sample_doc 7 "red shoes shoe") s) as (res & H4 & H5 & H6).
  - exact H2.
  - discriminate.
  - vm_compute. discriminate.
  - split; [rewrite H3; reflexivity|]. split; [lia|]. split; [reflexivity|].
    intros field f Hf. cbn [rq_filters shoe sample_request] in Hf.
    apply lookup_singleton_Some in Hf as [<- <-].
    split; [unfold keyword_field; vm_decide|reflexivity].
  - replace (query_tokens product shoe) with ["shoe"] by (vm_compute; reflexivity).
    constructor; [|constructor]. exists "shoe". split; vm_decide.
  - exact Hs.
  - intros d' doc' s'. exact (shoe_scores r b d' doc' s' Ho).
  - exact (shoe_bounds r Ho).
  - exists r, res. split; [exact Ho|]. split; [exact H4|]. split; [exact H5|].
    destruct H6 as [(sd & Hsd & Hid & _)|Hlen]; [exists sd; split; [exact Hsd|exact Hid]|].
    exfalso. assert ((r ← opened; res ← execute product r sample_stats 0 shoe;
      Ret (length (ssr_scored_docs res))) = Ret 1%nat) as H7 by (vm_compute; reflexivity).
    rewrite Ho in H7. cbn [mbind outcome_bind] in H7. rewrite H4 in H7.
    cbn [mbind outcome_bind] in H7. rewrite Hlen in H7. discriminate.
Defined.
End Witness.
