(* ===== verification/Multi.v ===== *)
(** Search over the segments of a shard ([crates/query/src/multi.rs]): the
    executor on each segment, one global sort and page, merged aggregations. *)
From S2P Require Import Prelude Bytes Order Float Types Text Analysis Posting Disk Inverted.
From S2P Require Import Column DocStore Segment Scorer Collector Wand Executor.

Local Open Scope Z_scope.

Abbreviation Counts := (gmap string (gmap string Z)).

Section Multi.
Context `{IL : IndexLibs} `{ML : MathLib} `{UO : UnspecifiedOrder}.

Record MultiSegmentSearcher := mkMultiSegmentSearcher { ms_executor : QueryExecutor }.
Definition ms_new (schema : IndexSchema) : MultiSegmentSearcher :=
  {| ms_executor := qe_new schema |}.

(** [for (value, count) in counts { *bucket.entry(value).or_default() += count }]. *)
Definition merge_bucket (bucket : gmap string Z) (counts : list (string * Z)) : gmap string Z :=
  foldl (fun m '(value, count) => <[value := wrap 64 (default 0 (m !! value) + count)]> m)
    bucket counts.
Definition merge_aggs (merged : Counts) (aggregations : list (string * list (string * Z)))
  : Counts :=
  foldl (fun m '(field, counts) => <[field := merge_bucket (default ∅ (m !! field)) counts]> m)
    merged aggregations.

Record MultiState := mkMultiState {
  mst_all_scored : list ScoredDoc;
  mst_total_hits : Z;
  mst_merged_aggs : Counts;
  mst_any_or_fallback : bool;
}.
Definition MultiState_init : MultiState :=
  {| mst_all_scored := []; mst_total_hits := 0; mst_merged_aggs := ∅;
     mst_any_or_fallback := false |}.

(** The body of the loop over the segments. *)
Definition search_segment (ms : MultiSegmentSearcher) (request : SearchRequest) (st : MultiState)
    (seg : nat * (SegmentReader * SegmentStatistics)) : Result MultiState :=
  let '(ord, (reader, stats)) := seg in
  res ← execute (ms_executor ms) reader stats ord request;
  Ret {| mst_all_scored := mst_all_scored st ++ ssr_scored_docs res;
         mst_total_hits := wrap 64 (mst_total_hits st + ssr_total_hits res);
         mst_merged_aggs := merge_aggs (mst_merged_aggs st) (hm_iter (ssr_aggregations res));
         mst_any_or_fallback := mst_any_or_fallback st ||
           bool_decide (ssr_retrieval_mode res = RmOrFallback) |}.

Definition make_hit (segments : list (SegmentReader * SegmentStatistics)) (scored : ScoredDoc)
  : Result (option SearchHit) :=
  match segments !! sd_segment_ord scored with
  | None => Ret None
  | Some (reader, _) =>
      doc ← get_doc reader (sd_local_doc_id scored);
      Ret ((fun doc => {| hit_id := doc_id doc; hit_score := sd_score scored;
                          hit_document := Some doc |}) <$> (doc : option Document))
  end.

(** The buckets of one field, by descending count. *)
Definition make_buckets (counts : gmap string Z) : list AggregationBucket :=
  sort_by (fun a b => Z.compare (ab_count b) (ab_count a))
    ((fun '(value, count) => {| ab_value := value; ab_count := count |}) <$> hm_iter counts).

Definition multi_search (ms : MultiSegmentSearcher)
    (segments : list (SegmentReader * SegmentStatistics)) (request : SearchRequest)
    (elapsed_ms : Z) : Result SearchResponse :=
  st ← try_fold (search_segment ms request) MultiState_init (enumerate segments);
  let '(page, _) := collect (mst_all_scored st) (rq_sort request)
                      (Z.to_nat (rq_offset request)) (Z.to_nat (rq_limit request)) in
  hits ← mapM (make_hit segments) page;
  Ret {| rs_hits := omap id hits;
         rs_total_hits := mst_total_hits st;
         rs_aggregations := make_buckets <$> mst_merged_aggs st;
         rs_reranked := false;
         rs_took_ms := elapsed_ms;
         rs_retrieval_mode := if mst_any_or_fallback st then RmOrFallback else RmAnd;
         rs_cache_hit := false |}.
End Multi.

(** ** Merged counts *)

(** The counts of value [v] in a list of counts, and of field [f] in the
    aggregations of a segment. *)
Definition count_of (v : string) (counts : list (string * Z)) : Z :=
  foldr (fun p n => (if bool_decide (p.1 = v) then p.2 else 0) + n) 0 counts.

Definition merged_count (m : Counts) (f v : string) : Z :=
  default 0 (m !! f ≫= fun c => c !! v).

Lemma merge_bucket_lookup counts : forall bucket v,
  0 <= default 0 (bucket !! v) < 2 ^ 64 ->
  default 0 (merge_bucket bucket counts !! v)
    = wrap 64 (default 0 (bucket !! v) + count_of v counts).
Proof.
  induction counts as [|[value count] counts IH]; intros bucket v Hr; cbn [merge_bucket foldl].
  { cbn [count_of foldr]. rewrite Z.add_0_r. symmetry. by apply wrap_id. }
  fold (merge_bucket (<[value := wrap 64 (default 0 (bucket !! value) + count)]> bucket) counts).
  rewrite IH.
  - cbn [count_of foldr fst snd]. case_bool_decide as E.
    + subst. rewrite lookup_insert_eq. cbn. unfold wrap.
      rewrite Zplus_mod_idemp_l. f_equal. fold (count_of v counts). lia.
    + rewrite lookup_insert_ne by done. done.
  - destruct (decide (value = v)) as [->|].
    + rewrite lookup_insert_eq. cbn. apply wrap_in_width. lia.
    + by rewrite lookup_insert_ne.
Qed.

Lemma merge_aggs_lookup (aggs : list (string * list (string * Z))) : forall m f v,
  NoDup aggs.*1 -> 0 <= merged_count m f v < 2 ^ 64 ->
  merged_count (merge_aggs m aggs) f v =
    wrap 64 (merged_count m f v
      + match (list_to_map aggs : gmap string (list (string * Z))) !! f with
        | Some counts => count_of v counts | None => 0 end).
Proof.
  induction aggs as [|[f0 counts] aggs IH]; intros m f v Hnd Hr; cbn [merge_aggs foldl].
  { cbn [list_to_map foldr fmap list_fmap]. rewrite lookup_empty, Z.add_0_r. symmetry. by apply wrap_id. }
  apply NoDup_cons in Hnd as [Hf0 Hnd]. fold (merge_aggs
    (<[f0 := merge_bucket (default ∅ (m !! f0)) counts]> m) aggs).
  assert (merged_count (<[f0 := merge_bucket (default ∅ (m !! f0)) counts]> m) f v =
    if bool_decide (f0 = f) then wrap 64 (merged_count m f v + count_of v counts)
    else merged_count m f v) as Hstep.
  { unfold merged_count. case_bool_decide as E.
    - subst. rewrite lookup_insert_eq. cbn [mbind option_bind].
      rewrite merge_bucket_lookup; destruct (m !! f) eqn:Em; cbn; try done.
      + unfold merged_count in Hr. by rewrite Em in Hr.
    - by rewrite lookup_insert_ne. }
  rewrite IH; [|done|].
  - rewrite Hstep. cbn [list_to_map foldr uncurry]. case_bool_decide as E.
    + subst. rewrite lookup_insert_eq. rewrite (not_elem_of_list_to_map_1 aggs f) by done.
      rewrite Z.add_0_r. apply wrap_id, wrap_in_width. lia.
    + by rewrite lookup_insert_ne.
  - rewrite Hstep. case_bool_decide; [apply wrap_in_width; lia|done].
Qed.

(** ** Search over several segments *)
Section MultiSpecs.
Context `{ILL : IndexLaws} `{ML : MathLib} `{UOL : UnspecifiedOrderLaws}.
Context (schema : IndexSchema) (request : SearchRequest).

Abbreviation ex := (qe_new schema).

(** The segment [seg] holds the documents [p.1], of which [p.2] are deleted. *)
Definition seg_holds (seg : SegmentReader * SegmentStatistics)
    (p : list Document * RoaringBitmap) : Prop := segment_holds schema seg.1 p.1 p.2.

Definition live_hit (p : list Document * RoaringBitmap) (d : Z) (doc : Document) : Prop :=
  passing schema p.1 p.2 request d doc.

(** The executor's result on segment number [ord]. *)
Definition segment_result (ord : nat) (seg : SegmentReader * SegmentStatistics)
    (res : SegmentSearchResult) : Prop :=
  execute ex seg.1 seg.2 ord request = Ret res.

Definition sum_by {A} (f : A -> Z) (l : list A) : Z := foldr (fun a n => f a + n) 0 l.

Definition seg_count (f v : string) (res : SegmentSearchResult) : Z :=
  match ssr_aggregations res !! f with Some counts => count_of v counts | None => 0 end.

Definition is_fallback (res : SegmentSearchResult) : bool :=
  bool_decide (ssr_retrieval_mode res = RmOrFallback).

(** The loop state after the segments with results [rs]. *)
Definition state_of (rs : list SegmentSearchResult) : MultiState :=
  foldl (fun st res =>
    {| mst_all_scored := mst_all_scored st ++ ssr_scored_docs res;
       mst_total_hits := wrap 64 (mst_total_hits st + ssr_total_hits res);
       mst_merged_aggs := merge_aggs (mst_merged_aggs st) (hm_iter (ssr_aggregations res));
       mst_any_or_fallback := mst_any_or_fallback st || is_fallback res |}) MultiState_init rs.

Lemma sum_by_snoc {A} (f : A -> Z) l a : sum_by f (l ++ [a]) = sum_by f l + f a.
Proof. induction l as [|x l IH]; cbn; [lia|]. fold (sum_by f (l ++ [a])) (sum_by f l). lia. Qed.

Lemma state_of_snoc rs res :
  state_of (rs ++ [res]) =
    {| mst_all_scored := mst_all_scored (state_of rs) ++ ssr_scored_docs res;
       mst_total_hits := wrap 64 (mst_total_hits (state_of rs) + ssr_total_hits res);
       mst_merged_aggs := merge_aggs (mst_merged_aggs (state_of rs)) (hm_iter (ssr_aggregations res));
       mst_any_or_fallback := mst_any_or_fallback (state_of rs) || is_fallback res |}.
Proof. unfold state_of. by rewrite foldl_snoc. Qed.

Lemma state_of_spec rs :
  mst_all_scored (state_of rs) = rs ≫= ssr_scored_docs /\
  mst_total_hits (state_of rs) = wrap 64 (sum_by ssr_total_hits rs) /\
  (forall f v, merged_count (mst_merged_aggs (state_of rs)) f v = wrap 64 (sum_by (seg_count f v) rs)) /\
  mst_any_or_fallback (state_of rs) = existsb is_fallback rs.
Proof.
  induction rs as [|res rs IH] using rev_ind.
  { split_and!; [done|done| |done]. intros f v. unfold merged_count. cbn.
    rewrite lookup_empty. done. }
  destruct IH as (H1 & H2 & H3 & H4). rewrite state_of_snoc. cbn [mst_all_scored mst_total_hits
    mst_merged_aggs mst_any_or_fallback]. rewrite H1, H2, H4. split_and!.
  - rewrite bind_app. cbn. by rewrite app_nil_r.
  - rewrite sum_by_snoc. unfold wrap. by rewrite Zplus_mod_idemp_l.
  - intros f v. rewrite merge_aggs_lookup.
    + rewrite list_to_map_hm_iter, H3, sum_by_snoc. unfold wrap. by rewrite Zplus_mod_idemp_l.
    + apply NoDup_fst_hm_iter.
    + rewrite H3. apply wrap_in_width. lia.
  - rewrite existsb_app. cbn. by rewrite orb_false_r.
Qed.

Lemma search_segments_spec segments contents :
  Forall2 seg_holds segments contents ->
  exists rs,
    length rs = length segments /\
    (forall ord seg res, segments !! ord = Some seg -> rs !! ord = Some res ->
       segment_result ord seg res /\
       forall p, contents !! ord = Some p -> forall sd, sd ∈ ssr_scored_docs res ->
         hit_ok schema p.1 p.2 ord request sd) /\
    try_fold (search_segment (ms_new schema) request) MultiState_init (enumerate segments)
      = Ret (state_of rs).
Proof.
  revert contents. induction segments as [|seg segments IH] using rev_ind; intros contents Hf.
  { exists []. split_and!; [done|done|done]. }
  apply Forall2_app_inv_l in Hf as (c1 & c2 & Hf & Hc2 & ->).
  inversion Hc2 as [|? p ? ? Hseg Hnil]; subst. inversion Hnil; subst.
  destruct (IH _ Hf) as (rs & Hlen & Hres & Hfold).
  destruct (run_query_spec schema seg.1 p.1 p.2 Hseg seg.2 (length segments) request)
    as (sds & mode & Hq & Hok & _).
  assert (exists res, execute ex seg.1 seg.2 (length segments) request = Ret res /\
    forall sd, sd ∈ ssr_scored_docs res -> hit_ok schema p.1 p.2 (length segments) request sd)
    as (res & Hex & Hhits).
  { unfold execute. rewrite Hq. cbn [mbind outcome_bind]. eexists. split; [done|exact Hok]. }
  exists (rs ++ [res]). split_and!.
  - rewrite !length_app, Hlen. done.
  - intros ord seg' res' Hs Hr. apply lookup_app_Some in Hs as [Hs|[Hge Hs]].
    + pose proof (lookup_lt_Some _ _ _ Hs) as Hlt. rewrite lookup_app_l in Hr by lia.
      destruct (Hres _ _ _ Hs Hr) as [? Hh]. split; [done|].
      intros q Hq'. apply Hh. rewrite lookup_app_l in Hq'; [done|].
      by rewrite <- (Forall2_length _ _ _ Hf).
    + apply list_lookup_singleton_Some in Hs as [Ho ->].
      assert (ord = length segments) as -> by lia.
      rewrite lookup_app_r in Hr by lia. rewrite Hlen, Nat.sub_diag in Hr. injection Hr as <-.
      split; [done|]. intros q Hq'. rewrite lookup_app_r in Hq' by by rewrite (Forall2_length _ _ _ Hf).
      rewrite <- (Forall2_length _ _ _ Hf), Nat.sub_diag in Hq'. by injection Hq' as <-.
  - rewrite enumerate_snoc, try_fold_app, Hfold. cbn [mbind outcome_bind try_fold].
    unfold search_segment. destruct seg as [reader stats]. cbn [fst snd] in Hex.
    cbn [ms_executor ms_new]. rewrite Hex. cbn [mbind outcome_bind]. by rewrite state_of_snoc.
Qed.

(** A scored document becomes a hit with its stored document. *)
Lemma make_hit_spec segments contents rs page :
  Forall2 seg_holds segments contents ->
  length rs = length segments ->
  (forall ord seg res, segments !! ord = Some seg -> rs !! ord = Some res ->
     forall p, contents !! ord = Some p -> forall sd, sd ∈ ssr_scored_docs res ->
       hit_ok schema p.1 p.2 ord request sd) ->
  (forall sd, sd ∈ page -> sd ∈ rs ≫= ssr_scored_docs) ->
  exists os, mapM (make_hit segments) page = Ret os /\ length (omap id os) = length page /\
    forall h, h ∈ omap id os -> exists ord p d doc, contents !! ord = Some p /\
      live_hit p d doc /\ hit_id h = doc_id doc /\ hit_document h = Some doc.
Proof.
  intros Hf Hlen Hres Hpage.
  destruct (mapM_ret_all (make_hit segments) (fun sd o => exists h, o = Some h /\
    exists ord p d doc, contents !! ord = Some p /\ live_hit p d doc /\ hit_id h = doc_id doc /\
      hit_document h = Some doc) page) as (os & Hos & HF).
  { intros sd Hsd. apply Hpage, list_elem_of_bind in Hsd as (res & Hsd & Hin).
    apply list_elem_of_lookup in Hin as [ord Hord].
    destruct (lookup_lt_is_Some_2 segments ord) as [seg Hseg].
    { apply lookup_lt_Some in Hord. lia. }
    destruct (Forall2_lookup_l _ _ _ _ _ Hf Hseg) as (p & Hp & Hh).
    destruct (Hres _ _ _ Hseg Hord p Hp sd Hsd) as (doc & Hpass & Hid & Ho).
    unfold make_hit. rewrite Ho, Hseg. destruct seg as [reader stats]. cbn [fst] in Hh.
    pose proof Hpass as (Hb & Hd & Hdoc & _).
    rewrite (proj2 (get_doc_some schema reader p.1 p.2 Hh _ doc Hd)) by done.
    cbn [mbind outcome_bind]. eexists. split; [done|]. eexists. split; [done|].
    exists ord, p, (sd_local_doc_id sd), doc. done. }
  exists os. split; [done|]. clear -HF. induction HF as [|sd o page os (h & -> & Hh) _ [IH1 IH2]].
  { split; [done|]. intros h H%elem_of_nil. done. }
  cbn [omap list_omap id]. split; [cbn; by rewrite IH1|].
  intros h' [->|Hin]%elem_of_cons; [done|by apply IH2].
Qed.
End MultiSpecs.

Lemma multi_search_spec `{ILL : IndexLaws} `{ML : MathLib} `{UOL : UnspecifiedOrderLaws}
    (schema : IndexSchema) (request : SearchRequest)
    (segments : list (SegmentReader * SegmentStatistics))
    (contents : list (list Document * RoaringBitmap)) (elapsed_ms : Z) :
  Forall2 (seg_holds schema) segments contents ->
  exists resp rs,
    multi_search (ms_new schema) segments request elapsed_ms = Ret resp /\
    length rs = length segments /\
    (forall ord seg res, segments !! ord = Some seg -> rs !! ord = Some res ->
       execute (qe_new schema) seg.1 seg.2 ord request = Ret res) /\
    (forall h, h ∈ rs_hits resp -> exists ord p d doc, contents !! ord = Some p /\
       passing schema p.1 p.2 request d doc /\ hit_id h = doc_id doc /\
       hit_document h = Some doc) /\
    length (rs_hits resp) = Nat.min (Z.to_nat (rq_limit request))
      (length (rs ≫= ssr_scored_docs) - Z.to_nat (rq_offset request)) /\
    rs_total_hits resp = wrap 64 (sum_by ssr_total_hits rs) /\
    (forall f bs v c, rs_aggregations resp !! f = Some bs -> mkAggregationBucket v c ∈ bs ->
       c = wrap 64 (sum_by (seg_count f v) rs)) /\
    (forall f bs, rs_aggregations resp !! f = Some bs ->
       StronglySorted (fun a b => ab_count b <= ab_count a) bs) /\
    (rs_retrieval_mode resp = RmOrFallback <->
       exists res, res ∈ rs /\ ssr_retrieval_mode res = RmOrFallback).
Proof.
  intros Hf. destruct (search_segments_spec schema request segments contents Hf)
    as (rs & Hlen & Hres & Hfold).
  destruct (state_of_spec rs) as (H1 & H2 & H3 & H4).
  unfold multi_search. rewrite Hfold. cbn [mbind outcome_bind]. set (st := state_of rs) in *.
  pose proof (collect_page_length (mst_all_scored st) (rq_sort request)
    (Z.to_nat (rq_offset request)) (Z.to_nat (rq_limit request))) as Hpl.
  pose proof (collect_page_elem (mst_all_scored st) (rq_sort request)
    (Z.to_nat (rq_offset request)) (Z.to_nat (rq_limit request))) as Hpe.
  destruct (collect _ _ _ _) as [page total]. cbn [fst] in Hpl, Hpe. rewrite H1 in Hpl, Hpe.
  destruct (make_hit_spec schema request segments contents rs page Hf Hlen) as (os & Hos & Hol & Hoh).
  { intros ord seg res Hs Hr. by apply Hres with (seg := seg). }
  { exact Hpe. }
  rewrite Hos. cbn [mbind outcome_bind]. eexists _, rs. split; [done|].
  cbn [rs_hits rs_total_hits rs_aggregations rs_retrieval_mode]. split_and!.
  - done.
  - intros ord seg res Hs Hr. by apply Hres.
  - exact Hoh.
  - by rewrite Hol, Hpl.
  - done.
  - intros f bs v c Hbs Hin. apply lookup_fmap_Some in Hbs as (counts & <- & Hc).
    unfold make_buckets in Hin. apply elem_of_sort_by, list_elem_of_fmap in Hin as ([v' c'] & [= -> ->] & Hin).
    apply elem_of_hm_iter in Hin. rewrite <- H3. unfold merged_count. rewrite Hc. cbn. by rewrite Hin.
  - intros f bs Hbs. apply lookup_fmap_Some in Hbs as (counts & <- & Hc). unfold make_buckets.
    set (l := _ <$> hm_iter counts).
    assert (CmpPreorder (fun _ => True) (fun a b => Z.compare (ab_count b) (ab_count a))) as Hpre
      by exact (cmp_desc_preorder _ _ (cmp_on_preorder ab_count (fun _ => True) Z.compare _)).
    assert (Forall (fun _ => True) l) as Ht by by apply Forall_true.
    pose proof (@sort_by_sorted _ _ _ Hpre l Ht) as Hs.
    clear -Hs. induction Hs as [|a l' Hs IH Ha]; [constructor|]. constructor; [done|].
    eapply Forall_impl; [exact Ha|]. intros x Hx. by apply Z.compare_le_iff in Hx.
  - rewrite H4. destruct (existsb is_fallback rs) eqn:E.
    + split; [|done]. intros _. apply existsb_exists in E as (res & Hin & Hm).
      exists res. split; [by apply list_elem_of_In|]. by apply bool_decide_eq_true in Hm.
    + split; [done|]. intros (res & Hin & Hm). exfalso. apply not_true_iff_false in E. apply E.
      apply existsb_exists. exists res. split; [by apply list_elem_of_In|].
      by apply bool_decide_eq_true.
Qed.

(** a search over the segments of a shard returns, and its response adds
    the segments up: every hit is a live document of some segment that passes
    the filters, with its stored document and id; the page has
    [min(limit, n - offset)] of the [n] documents found, none lost; the total
    and every aggregation bucket are the sums over the segments; buckets come
    by descending count; the mode is OR fallback when some segment fell back. *)
Theorem multi_search_correct `{ILL : IndexLaws} `{ML : MathLib} `{UOL : UnspecifiedOrderLaws}
    (schema : IndexSchema) (request : SearchRequest)
    (segments : list (SegmentReader * SegmentStatistics))
    (contents : list (list Document * RoaringBitmap)) (elapsed_ms : Z) :
  Forall2 (seg_holds schema) segments contents ->
  exists resp rs,
    multi_search (ms_new schema) segments request elapsed_ms = Ret resp /\
    length rs = length segments /\
    (forall ord seg res, segments !! ord = Some seg -> rs !! ord = Some res ->
       execute (qe_new schema) seg.1 seg.2 ord request = Ret res) /\
    (forall h, h ∈ rs_hits resp -> exists ord p d doc, contents !! ord = Some p /\
       passing schema p.1 p.2 request d doc /\ hit_id h = doc_id doc /\
       hit_document h = Some doc) /\
    length (rs_hits resp) = Nat.min (Z.to_nat (rq_limit request))
      (length (rs ≫= ssr_scored_docs) - Z.to_nat (rq_offset request)) /\
    rs_total_hits resp = wrap 64 (sum_by ssr_total_hits rs) /\
    (forall f bs v c, rs_aggregations resp !! f = Some bs -> mkAggregationBucket v c ∈ bs ->
       c = wrap 64 (sum_by (seg_count f v) rs)) /\
    (forall f bs, rs_aggregations resp !! f = Some bs ->
       StronglySorted (fun a b => ab_count b <= ab_count a) bs) /\
    (rs_retrieval_mode resp = RmOrFallback <->
       exists res, res ∈ rs /\ ssr_retrieval_mode res = RmOrFallback).
Proof. apply multi_search_spec. Qed.

Section Witness.
Import TestLibs StableOrder.
#[local] Instance test_math : MathLib := {| f32_ln := fun x => x |}.

Example multi_search_sample :
  (r ← result_of (write_mark_open default_product_schema "s" sample_docs [] ["s"]) disk_empty;
   resp ← multi_search (ms_new default_product_schema) [(r, sample_stats); (r, sample_stats)]
            (sample_request "shoe") 0;
   Ret (rs_total_hits resp, hit_id <$> rs_hits resp,
        ab_count <$> default [] (rs_aggregations resp !! "category")))
  = Ret (4, [9; 9; 7; 7], [4]).
Proof. vm_compute. reflexivity. Qed.

Lemma multi_search_correct_witness :
  exists d r resp,
    write_mark_open default_product_schema "s" sample_docs [2] ["s"] disk_empty = (d, Ret r) /\
    multi_search (ms_new default_product_schema) [(r, sample_stats); (r, sample_stats)]
      (sample_request "shoe") 0 = Ret resp.
Proof.
  destruct (write_mark_open_holds default_product_schema "s" sample_docs [2] ["s"] disk_empty
    sample_fits) as (d & r & b & H1 & H2 & _).
  - done.
  - reflexivity.
  - destruct (multi_search_correct default_product_schema (sample_request "shoe")
      [(r, sample_stats); (r, sample_stats)] [(sample_docs, b); (sample_docs, b)] 0)
      as (resp & rs & H3 & _).
    + repeat (constructor; [exact H2|]). constructor.
    + exists d, r, resp. split; [exact H1|exact H3].
Defined.
End Witness.
