(* ===== verification/Object.v ===== *)
(** Methods on mutable objects: a computation over the object's own state and
    the disk.  As in the source, the changes made before an error stay made
    ([?] returns early, it does not roll back). *)
From S2P Require Import Prelude Types Disk.

Definition Obj (S A : Type) : Type := S * Disk -> (S * Disk) * Result A.
#[global] Instance Obj_ret S : MRet (Obj S) := fun A a s => (s, Ret a).
#[global] Instance Obj_bind S : MBind (Obj S) := fun A B f m s =>
  match m s with
  | (s, Ret a) => f a s
  | (s, Fail e) => (s, Fail e)
  | (s, Panic) => (s, Panic)
  end.

Section Methods.
Context {S T A : Type}.

(** [&self], [self.field = ..] and a call that only uses the disk. *)
Definition get_self : Obj S S := fun s => (s, Ret s.1).
Definition modify_self (f : S -> S) : Obj S unit := fun s => ((f s.1, s.2), Ret tt).
Definition obj_lift (r : Result A) : Obj S A := fun s => (s, r).
Definition obj_io (m : IO A) : Obj S A := fun s =>
  match m s.2 with (d, r) => ((s.1, d), r) end.
(** A method that only computes. *)
Definition call_self (f : S -> S * A) : Obj S A := fun s =>
  let '(s', a) := f s.1 in ((s', s.2), Ret a).
(** A method of a field. *)
Definition zoom (get : S -> T) (set : T -> S -> S) (m : Obj T A) : Obj S A := fun s =>
  match m (get s.1, s.2) with ((t, d), r) => ((set t s.1, d), r) end.
(** [m?] with the local [guard] dropped when it returns early. *)
Definition with_drop (m : Obj S A) (guard : IO unit) : Obj S A := fun s =>
  match m s with
  | (s, Ret a) => (s, Ret a)
  | ((s, d), r) => ((s, (guard d).1), r)
  end.
(** [let _ = m;] *)
Definition ignore (m : Obj S A) : Obj S unit := fun s =>
  match m s with
  | (s, Panic) => (s, Panic)
  | (s, _) => (s, Ret tt)
  end.
End Methods.

(** [for x in l { f(x)?; }]. *)
Fixpoint obj_for {S A} (f : A -> Obj S unit) (l : list A) : Obj S unit :=
  match l with
  | [] => mret tt
  | x :: l => _ ← f x; obj_for f l
  end.

(** ** Rules *)
Lemma obj_bind_ret {S A B} (m : Obj S A) (f : A -> Obj S B) s s' a :
  m s = (s', Ret a) -> (m ≫= f) s = f a s'.
Proof. unfold mbind, Obj_bind. by intros ->. Qed.

Lemma obj_bind_ret_inv {S A B} (m : Obj S A) (f : A -> Obj S B) s s' b :
  (m ≫= f) s = (s', Ret b) -> exists s1 a, m s = (s1, Ret a) /\ f a s1 = (s', Ret b).
Proof. unfold mbind, Obj_bind. destruct (m s) as [s1 [a|e|]]; naive_solver. Qed.

Lemma obj_io_ret {S A} (m : IO A) (s : S) d d' (a : A) :
  m d = (d', Ret a) -> obj_io m (s, d) = ((s, d'), Ret a).
Proof. unfold obj_io. cbn [fst snd]. by intros ->. Qed.

Lemma zoom_ret {S T A} (get : S -> T) set (m : Obj T A) s d t' d' (a : A) :
  m (get s, d) = ((t', d'), Ret a) -> zoom get set m (s, d) = ((set t' s, d'), Ret a).
Proof. unfold zoom. cbn [fst snd]. by intros ->. Qed.

(** A loop whose body always returns, keeping an invariant indexed by what
    has been consumed. *)
Lemma obj_for_ret {S A} (f : A -> Obj S unit) (P : list A -> S * Disk -> Prop) l : forall done s,
  P done s ->
  (forall done x s, P done s -> x ∈ l -> exists s', f x s = (s', Ret tt) /\ P (done ++ [x]) s') ->
  exists s', obj_for f l s = (s', Ret tt) /\ P (done ++ l) s'.
Proof.
  induction l as [|x l IH]; intros dn s Hs Hf.
  { exists s. by rewrite app_nil_r. }
  destruct (Hf dn x s Hs) as (s1 & Hr & Hs1); [by left|].
  destruct (IH (dn ++ [x]) s1 Hs1) as (s' & Hl & Hs').
  { intros dn' y s2 H2 Hy. apply Hf; [done|by right]. }
  exists s'. rewrite <- app_assoc in Hs'. split; [|done].
  cbn [obj_for]. by erewrite obj_bind_ret by exact Hr.
Qed.
