(* ===== verification/Wal.v ===== *)
(** The write-ahead log ([crates/shard/src/wal.rs]): length-prefixed bincode
    records appended to one file; the reader stops at the first record that is
    torn or does not decode.  The open file handle is the file at [wal_path]
    (append mode writes at its end, reads start at 0). *)
From Stdlib Require Import Strings.Byte.
From S2P Require Import Prelude Bytes Order Float Types Disk Object.

Local Open Scope Z_scope.

Inductive WalEntry :=
  | WalIndex (doc : Document)
  | WalDelete (doc_id : Z).             (* u64 *)

Record WalRecord := mkWalRecord {
  wr_seq : Z;                           (* u64 *)
  wr_entry : WalEntry;
}.

Record WriteAheadLog := mkWal {
  wal_path : path;
  wal_next_seq : Z;                     (* u64 *)
}.

#[global] Instance WalEntry_eq_dec : EqDecision WalEntry.
Proof. solve_decision. Defined.
#[global] Instance WalEntry_countable : Countable WalEntry.
Proof.
  refine (inj_countable' (fun e => match e with WalIndex d => inl d | WalDelete i => inr i end)
            (fun x => match x with inl d => WalIndex d | inr i => WalDelete i end) _). by intros [].
Defined.
#[global] Instance WalRecord_eq_dec : EqDecision WalRecord.
Proof. solve_decision. Defined.
#[global] Instance WalRecord_countable : Countable WalRecord.
Proof.
  refine (inj_countable' (fun r => (wr_seq r, wr_entry r))
            (fun '(s, e) => mkWalRecord s e) _). by intros [].
Defined.

(** [OpenOptions::new().create(true).append(true)], a write to the handle,
    a read of the whole file, and [truncate(true)] of an existing file. *)
Definition fs_open_append (p : path) : IO unit := fun d =>
  if bool_decide (is_Some (dk_files d !! p)) then (d, Ret tt) else fs_write p [] d.
Definition fs_append (p : path) (b : bytes) : IO unit := fun d =>
  ({| dk_files := <[p := default [] (dk_files d !! p) ++ b]> (dk_files d);
      dk_dirs := dk_dirs d |}, Ret tt).
Definition fs_contents (p : path) : IO bytes := fun d => (d, Ret (default [] (dk_files d !! p))).
Definition fs_truncate (p : path) : IO unit := fun d =>
  if bool_decide (is_Some (dk_files d !! p))
  then ({| dk_files := <[p := []]> (dk_files d); dk_dirs := dk_dirs d |}, Ret tt)
  else (d, Fail not_found).

Section Wal.
Context `{SD : Serde WalRecord}.

(** The loop of [read_records] on the rest of the file; one unit of fuel
    per record. *)
Fixpoint read_loop (fuel : nat) (bs : bytes) (records : list WalRecord) : list WalRecord :=
  match fuel with
  | O => records
  | S fuel =>
      if (length bs <? 4)%nat then records
      else
        let len := from_le (take 4 bs) in
        let rest := drop 4 bs in
        if Z.of_nat (length rest) <? len then records
        else
          match deserialize (take (Z.to_nat len) rest) with
          | Ret record => read_loop fuel (drop (Z.to_nat len) rest) (records ++ [record])
          | _ => records
          end
  end.

(** Every record takes at least four bytes. *)
Definition read_bytes (bs : bytes) : list WalRecord := read_loop (S (length bs)) bs [].

Definition read_records : Obj WriteAheadLog (list WalRecord) :=
  w ← get_self;
  bs ← obj_io (fs_contents (wal_path w));
  mret (read_bytes bs).

Definition read_all : Obj WriteAheadLog (list WalEntry) :=
  records ← read_records;
  mret (wr_entry <$> records).

Definition read_since (from_seq : Z) : Obj WriteAheadLog (list WalRecord) :=
  records ← read_records;
  mret (filter (fun r => from_seq <= wr_seq r) records).

Definition set_next_seq (n : Z) (w : WriteAheadLog) : WriteAheadLog :=
  {| wal_path := wal_path w; wal_next_seq := n |}.

Definition wal_open (p : path) : IO WriteAheadLog :=
  _ ← fs_open_append p;
  let w := {| wal_path := p; wal_next_seq := 0 |} in
  bs ← fs_contents p;
  mret (match last (read_bytes bs) with
        | Some r => set_next_seq (wrap 64 (wr_seq r + 1)) w
        | None => w
        end).

(** One iteration of the loop of [append_batch]. *)
Definition append_one (entry : WalEntry) : Obj WriteAheadLog Z :=
  w ← get_self;
  let seq := wal_next_seq w in
  _ ← modify_self (set_next_seq (wrap 64 (seq + 1)));
  encoded ← obj_lift (map_err (fun _ => EWal "serialize")
                        (serialize {| wr_seq := seq; wr_entry := entry |}));
  _ ← obj_io (fs_append (wal_path w) (u32_le (wrap 32 (Z.of_nat (length encoded)))));
  _ ← obj_io (fs_append (wal_path w) encoded);
  mret seq.

Fixpoint append_batch (entries : list WalEntry) : Obj WriteAheadLog (list Z) :=
  match entries with
  | [] => mret []
  | entry :: entries =>
      seq ← append_one entry;
      seqs ← append_batch entries;
      mret (seq :: seqs)
  end.

Definition append (entry : WalEntry) : Obj WriteAheadLog Z :=
  seqs ← append_batch [entry];
  obj_lift (index seqs 0).

Definition truncate : Obj WriteAheadLog unit :=
  w ← get_self;
  _ ← obj_io (fs_truncate (wal_path w));
  obj_io (fs_open_append (wal_path w)).
End Wal.

(** ** The records of a file *)
Section Frames.
Context `{SDL : SerdeLaws WalRecord}.

Definition frame_of (r : WalRecord) : bytes :=
  match serialize r with
  | Ret e => u32_le (wrap 32 (Z.of_nat (length e))) ++ e
  | _ => []
  end.
Definition frames (rs : list WalRecord) : bytes := rs ≫= frame_of.

(** The length prefix is a [u32]. *)
Definition record_fits (r : WalRecord) : Prop :=
  forall e, serialize r = Ret e -> Z.of_nat (length e) < 2 ^ 32.

Lemma frame_of_spec r :
  record_fits r -> exists e, serialize r = Ret e /\ deserialize e = Ret r /\
    frame_of r = u32_le (Z.of_nat (length e)) ++ e /\ in_width 32 (Z.of_nat (length e)).
Proof.
  intros Hf. destruct (serde_roundtrip r) as (e & He & Hd). exists e. specialize (Hf e He).
  split_and!; [done|done| |unfold in_width; lia].
  unfold frame_of. rewrite He, wrap_id; [done|unfold in_width; lia].
Qed.

Lemma length_frame_of r : record_fits r -> (4 <= length (frame_of r))%nat.
Proof.
  intros (e & _ & _ & -> & _)%frame_of_spec. rewrite length_app. unfold u32_le.
  rewrite length_to_le. lia.
Qed.

Lemma read_loop_acc fuel : forall bs acc,
  read_loop fuel bs acc = acc ++ read_loop fuel bs [].
Proof.
  induction fuel as [|fuel IH]; intros bs acc; cbn [read_loop]; [by rewrite app_nil_r|].
  destruct (_ <? 4)%nat; [by rewrite app_nil_r|].
  destruct (_ <? _); [by rewrite app_nil_r|].
  destruct (deserialize _) as [r|?|]; [|by rewrite app_nil_r..].
  rewrite IH, (IH _ ([] ++ [r])). by rewrite <- app_assoc.
Qed.

(** More fuel than bytes changes nothing: the loop ends by itself. *)
Lemma read_loop_fuel f1 : forall f2 bs acc,
  (length bs < f1)%nat -> (length bs < f2)%nat -> read_loop f1 bs acc = read_loop f2 bs acc.
Proof.
  induction f1 as [|f1 IH]; intros [|f2] bs acc H1 H2; try lia. cbn [read_loop].
  destruct (Nat.ltb_spec (length bs) 4); [done|]. destruct (_ <? _); [done|].
  destruct (deserialize _); [|done..].
  apply IH; rewrite !length_drop; lia.
Qed.

Lemma read_loop_frame fuel r tail acc :
  record_fits r -> read_loop (S fuel) (frame_of r ++ tail) acc = read_loop fuel tail (acc ++ [r]).
Proof.
  intros (e & _ & Hd & -> & Hw)%frame_of_spec. cbn [read_loop].
  rewrite <- app_assoc. unfold u32_le.
  assert (length (to_le 4 (Z.of_nat (length e))) = 4%nat) as Hl by apply length_to_le.
  rewrite !length_app, Hl. destruct (Nat.ltb_spec (4 + (length e + length tail)) 4); [lia|].
  rewrite take_app_length' by done. rewrite drop_app_length' by done.
  rewrite from_to_le by exact Hw. rewrite length_app.
  destruct (Z.ltb_spec (Z.of_nat (length e + length tail)) (Z.of_nat (length e))); [lia|].
  rewrite Nat2Z.id, take_app_length, drop_app_length. by rewrite Hd.
Qed.

Lemma read_bytes_frames rs tail :
  Forall record_fits rs -> read_bytes (frames rs ++ tail) = rs ++ read_bytes tail.
Proof.
  unfold read_bytes, frames. induction 1 as [|r rs Hr _ IH]; [done|].
  change ((r :: rs) ≫= frame_of) with (frame_of r ++ (rs ≫= frame_of)). rewrite <- app_assoc.
  rewrite read_loop_frame by done. cbn [app]. rewrite read_loop_acc. cbn [app]. f_equal.
  rewrite <- IH. pose proof (length_frame_of r Hr).
  apply read_loop_fuel; rewrite ?length_app; lia.
Qed.

Lemma read_bytes_frames_all rs : Forall record_fits rs -> read_bytes (frames rs) = rs.
Proof.
  intros H. rewrite <- (app_nil_r (frames rs)), read_bytes_frames by done.
  unfold read_bytes. cbn. by rewrite app_nil_r.
Qed.

Lemma read_bytes_cons r tail :
  record_fits r -> read_bytes (frame_of r ++ tail) = r :: read_bytes tail.
Proof.
  intros Hr. pose proof (read_bytes_frames [r] tail) as H.
  unfold frames in H. cbn in H. rewrite app_nil_r in H. apply H. by repeat constructor.
Qed.

Lemma length_frames_cons r rs :
  length (frames (r :: rs)) = (length (frame_of r) + length (frames rs))%nat.
Proof. apply length_app. Qed.

(** A torn record reads as the end of the log. *)
Lemma read_bytes_torn r n :
  record_fits r -> (n < length (frame_of r))%nat -> read_bytes (take n (frame_of r)) = [].
Proof.
  intros (e & _ & _ & -> & Hw)%frame_of_spec. unfold read_bytes, u32_le.
  assert (length (to_le 4 (Z.of_nat (length e))) = 4%nat) as Hl by apply length_to_le.
  rewrite length_app, Hl. intros Hn. cbn [read_loop].
  destruct (Nat.ltb_spec (length (take n (to_le 4 (Z.of_nat (length e)) ++ e))) 4) as [|H4]; [done|].
  rewrite length_take, length_app, Hl in H4.
  rewrite take_take, Nat.min_l by lia. rewrite !(take_app_length' _ _ 4) by done.
  rewrite from_to_le by exact Hw. rewrite length_drop, length_take, length_app, Hl.
  destruct (Z.ltb_spec (Z.of_nat (n `min` (4 + length e) - 4)) (Z.of_nat (length e))); [done|lia].
Qed.

(** More bytes behind a torn record are taken for its rest. *)
Lemma read_bytes_torn_more r n more :
  record_fits r -> (4 <= n)%nat -> (n + length more < length (frame_of r))%nat ->
  read_bytes (take n (frame_of r) ++ more) = [].
Proof.
  intros (e & _ & _ & -> & Hw)%frame_of_spec Hn. unfold read_bytes, u32_le.
  assert (length (to_le 4 (Z.of_nat (length e))) = 4%nat) as Hl by apply length_to_le.
  rewrite length_app, Hl. intros Hlen. rewrite take_app_ge by lia. rewrite Hl, <- app_assoc.
  cbn [read_loop]. destruct (_ <? 4)%nat; [done|].
  rewrite !(take_app_length' _ _ 4), !(drop_app_length' _ _ 4) by done.
  rewrite from_to_le by exact Hw. rewrite length_app, length_take.
  destruct (Z.ltb_spec (Z.of_nat ((n - 4) `min` length e + length more)) (Z.of_nat (length e)));
    [done|lia].
Qed.

(** A crash keeps a prefix of the bytes; what is read back is the longest
    prefix of records that lies inside it. *)
Lemma read_bytes_take rs n :
  Forall record_fits rs ->
  exists k, (k <= length rs)%nat /\ read_bytes (take n (frames rs)) = take k rs /\
    (length (frames (take k rs)) <= n \/ length (frames rs) <= n)%nat /\
    (k < length rs -> n < length (frames (take (S k) rs)))%nat.
Proof.
  intros H. revert n. induction H as [|r rs Hr Hrs IH]; intros n.
  { exists 0%nat. cbn. rewrite take_nil. split_and!; [lia|done|left; lia|lia]. }
  change (frames (r :: rs)) with (frame_of r ++ frames rs).
  destruct (Nat.lt_ge_cases n (length (frame_of r))) as [Hn|Hn].
  - exists 0%nat. rewrite take_app_le by lia. rewrite read_bytes_torn by done.
    cbn [take]. split_and!; [lia|done|left; cbn; lia|].
    intros _. cbn [take]. rewrite length_frames_cons. lia.
  - destruct (IH (n - length (frame_of r))%nat) as (k & Hk & Hread & Hin & Hout).
    exists (S k). rewrite take_app_ge by lia.
    split_and!.
    + cbn. lia.
    + rewrite read_bytes_cons by done. by rewrite Hread.
    + cbn [take]. rewrite length_app, length_frames_cons. lia.
    + cbn [length take]. intros Hlt. rewrite length_frames_cons. specialize (Hout ltac:(lia)). lia.
Qed.
End Frames.

(** ** The log as an object *)
Section WalSpecs.
Context `{SDL : SerdeLaws WalRecord}.

(** The file of [w] is the log of the records [rs]. *)
Record wal_holds (w : WriteAheadLog) (d : Disk) (rs : list WalRecord) : Prop := {
  wh_file : dk_files d !! wal_path w = Some (frames rs);
  wh_fits : Forall record_fits rs;
}.

(** The records of a batch. *)
Fixpoint numbered (seq : Z) (entries : list WalEntry) : list WalRecord :=
  match entries with
  | [] => []
  | e :: entries => mkWalRecord seq e :: numbered (wrap 64 (seq + 1)) entries
  end.

Lemma numbered_entries seq entries : wr_entry <$> numbered seq entries = entries.
Proof.
  revert seq. induction entries as [|e es IH]; intros seq; [done|].
  cbn [numbered fmap list_fmap]. f_equal. apply IH.
Qed.

Lemma numbered_lookup entries : forall seq i r,
  numbered seq entries !! i = Some r -> in_width 64 seq -> wr_seq r = wrap 64 (seq + Z.of_nat i).
Proof.
  induction entries as [|e es IH]; intros seq i r Hi Hs; [done|].
  destruct i as [|i]; cbn in Hi.
  - injection Hi as <-. cbn [wr_seq]. rewrite Z.add_0_r. symmetry. by apply wrap_id.
  - rewrite (IH _ _ _ Hi) by (apply wrap_in_width; lia).
    unfold wrap. rewrite Zplus_mod_idemp_l. f_equal. lia.
Qed.

(** The batch, appended at number [seq], fits. *)
Definition batch_fits (seq : Z) (entries : list WalEntry) : Prop :=
  Forall record_fits (numbered seq entries).

Definition only_wal (w : WriteAheadLog) (d d' : Disk) : Prop :=
  dk_dirs d' = dk_dirs d /\ forall p, p <> wal_path w -> dk_files d' !! p = dk_files d !! p.

(** The next number after a batch. *)
Definition seq_after (seq : Z) (entries : list WalEntry) : Z :=
  foldl (fun s _ => wrap 64 (s + 1)) seq entries.

Lemma last_numbered entries : forall seq, in_width 64 seq ->
  match last (numbered seq entries) with
  | Some r => wrap 64 (wr_seq r + 1) = seq_after seq entries
  | None => entries = []
  end.
Proof.
  induction entries as [|e es IH]; intros seq Hs; [done|]. cbn [numbered seq_after foldl].
  specialize (IH (wrap 64 (seq + 1)) ltac:(apply wrap_in_width; lia)).
  rewrite last_cons. fold (seq_after (wrap 64 (seq + 1)) es).
  destruct (last (numbered _ es)); [done|]. by subst.
Qed.

Lemma append_one_bytes w d bs entry :
  dk_files d !! wal_path w = Some bs -> record_fits (mkWalRecord (wal_next_seq w) entry) ->
  append_one entry (w, d)
    = ((set_next_seq (wrap 64 (wal_next_seq w + 1)) w,
        {| dk_files := <[wal_path w := bs ++ frame_of (mkWalRecord (wal_next_seq w) entry)]>
                         (dk_files d);
           dk_dirs := dk_dirs d |}), Ret (wal_next_seq w)).
Proof.
  intros Hf He. set (r := mkWalRecord (wal_next_seq w) entry).
  destruct (frame_of_spec r He) as (e & Hser & _ & Hframe & Hw).
  unfold append_one. erewrite obj_bind_ret by reflexivity. cbn zeta. cbn [fst].
  erewrite obj_bind_ret by reflexivity. cbn [fst snd]. fold r. rewrite Hser. cbn [map_err].
  erewrite obj_bind_ret by reflexivity.
  erewrite obj_bind_ret by (apply obj_io_ret; reflexivity).
  erewrite obj_bind_ret by (apply obj_io_ret; reflexivity).
  cbn [dk_files dk_dirs]. unfold mret, Obj_ret. do 3 f_equal.
  rewrite lookup_insert_eq, insert_insert_eq. cbn [default from_option Datatypes.id].
  rewrite Hf, Hframe, wrap_id by exact Hw. cbn [default from_option Datatypes.id].
  by rewrite <- app_assoc.
Qed.

Lemma append_one_spec w d rs entry :
  wal_holds w d rs -> record_fits (mkWalRecord (wal_next_seq w) entry) ->
  exists d', append_one entry (w, d)
      = ((set_next_seq (wrap 64 (wal_next_seq w + 1)) w, d'), Ret (wal_next_seq w)) /\
    wal_holds w d' (rs ++ [mkWalRecord (wal_next_seq w) entry]) /\ only_wal w d d'.
Proof.
  intros [Hf Hr] He. eexists. split_and!; [by apply append_one_bytes| |].
  - split.
    + cbn [dk_files]. rewrite lookup_insert_eq. f_equal. unfold frames.
      rewrite bind_app. cbn. by rewrite app_nil_r.
    + apply Forall_app. split; [done|]. by repeat constructor.
  - split; [done|]. intros p Hp. cbn. by rewrite lookup_insert_ne.
Qed.

Lemma append_batch_spec entries : forall w d rs,
  wal_holds w d rs -> batch_fits (wal_next_seq w) entries ->
  exists d', append_batch entries (w, d)
      = ((set_next_seq (seq_after (wal_next_seq w) entries) w, d'),
         Ret (wr_seq <$> numbered (wal_next_seq w) entries)) /\
    wal_holds w d' (rs ++ numbered (wal_next_seq w) entries) /\ only_wal w d d'.
Proof.
  induction entries as [|e es IH]; intros w d rs Hw Hf.
  { exists d. rewrite app_nil_r. split_and!; [by destruct w|done|by split]. }
  apply Forall_cons in Hf as [He Hes]. cbn [wal_next_seq set_next_seq] in *.
  destruct (append_one_spec w d rs e Hw He) as (d1 & H1 & [Hf1 Hr1] & Hd1 & Ho1).
  destruct (IH (set_next_seq (wrap 64 (wal_next_seq w + 1)) w) d1 _
    (Build_wal_holds (set_next_seq (wrap 64 (wal_next_seq w + 1)) w) _ _ Hf1 Hr1) Hes)
    as (d' & H2 & [Hf2 Hr2] & Hd & Ho).
  exists d'. split_and!.
  - cbn [append_batch]. erewrite obj_bind_ret by exact H1.
    by erewrite obj_bind_ret by exact H2.
  - split; [|by rewrite <- app_assoc in Hr2]. rewrite <- app_assoc in Hf2. exact Hf2.
  - split; [by rewrite Hd|]. intros p Hne. rewrite Ho by exact Hne. by apply Ho1.
Qed.

Lemma read_records_spec w d rs : wal_holds w d rs -> read_records (w, d) = ((w, d), Ret rs).
Proof.
  intros [Hf Hr]. unfold read_records. erewrite obj_bind_ret by reflexivity. cbn [fst].
  erewrite obj_bind_ret by (apply obj_io_ret; reflexivity). rewrite Hf.
  cbn [default from_option Datatypes.id]. by rewrite read_bytes_frames_all.
Qed.

Lemma read_all_spec w d rs :
  wal_holds w d rs -> read_all (w, d) = ((w, d), Ret (wr_entry <$> rs)).
Proof. intros H. unfold read_all. by erewrite obj_bind_ret by by apply read_records_spec. Qed.

(** Opening a log file, whatever its bytes. *)
Definition opened_wal (p : path) (rs : list WalRecord) : WriteAheadLog :=
  mkWal p (match last rs with Some r => wrap 64 (wr_seq r + 1) | None => 0 end).

Lemma wal_open_existing p d bs :
  dk_files d !! p = Some bs -> wal_open p d = (d, Ret (opened_wal p (read_bytes bs))).
Proof.
  intros H. unfold wal_open. erewrite io_bind_ret.
  2: { unfold fs_open_append. rewrite bool_decide_true; [reflexivity|by eexists]. }
  cbn zeta. erewrite io_bind_ret by reflexivity. rewrite H.
  cbn [default from_option Datatypes.id]. unfold opened_wal, set_next_seq. by destruct (last _).
Qed.

Lemma wal_open_fresh dir name d :
  dk_files d !! join dir name = None -> dir ∈ dk_dirs d ->
  exists d', wal_open (join dir name) d = (d', Ret (mkWal (join dir name) 0)) /\
    wal_holds (mkWal (join dir name) 0) d' [] /\ only_wal (mkWal (join dir name) 0) d d'.
Proof.
  intros Hn Hd. eexists. split_and!.
  - unfold wal_open. erewrite io_bind_ret.
    2: { unfold fs_open_append. rewrite Hn, bool_decide_false by by intros [? [=]].
         by apply fs_write_spec. }
    cbn zeta. erewrite io_bind_ret by reflexivity. cbn [dk_files]. rewrite lookup_insert_eq.
    reflexivity.
  - split; [|constructor]. cbn. by rewrite lookup_insert_eq.
  - split; [done|]. intros p Hp. cbn. by rewrite lookup_insert_ne.
Qed.

Lemma truncate_spec w d rs :
  wal_holds w d rs ->
  exists d', truncate (w, d) = ((w, d'), Ret tt) /\ wal_holds w d' [] /\ only_wal w d d'.
Proof.
  intros [Hf Hr]. eexists. split_and!.
  - unfold truncate. erewrite obj_bind_ret by reflexivity. cbn [fst].
    erewrite obj_bind_ret.
    2: { apply obj_io_ret. unfold fs_truncate. rewrite bool_decide_true; [reflexivity|by eexists]. }
    apply obj_io_ret. unfold fs_open_append. cbn [dk_files].
    rewrite lookup_insert_eq, bool_decide_true; [reflexivity|by eexists].
  - split; [|constructor]. cbn. by rewrite lookup_insert_eq.
  - split; [done|]. intros p Hp. cbn. by rewrite lookup_insert_ne.
Qed.
End WalSpecs.

(** The disk after a crash that keeps the first [n] bytes of a file. *)
Definition crash (p : path) (n : nat) (d : Disk) : Disk :=
  {| dk_files := alter (take n) p (dk_files d); dk_dirs := dk_dirs d |}.

(** C28: crash recovery of the log.  A batch appended to a log of [rs] records is
    numbered consecutively; wherever a crash then cuts the file, reopening
    succeeds and reads back exactly the longest prefix of whole records - all
    of them when nothing was cut. *)
Theorem wal_crash_recovery `{SDL : SerdeLaws WalRecord} (w : WriteAheadLog) (d : Disk)
    (rs : list WalRecord) (entries : list WalEntry) :
  wal_holds w d rs -> batch_fits (wal_next_seq w) entries ->
  exists w' d', append_batch entries (w, d)
      = ((w', d'), Ret (wr_seq <$> numbered (wal_next_seq w) entries)) /\
    let all := rs ++ numbered (wal_next_seq w) entries in
    let file := frames all in
    forall n, exists w2 k,
      wal_open (wal_path w) (crash (wal_path w) n d') = (crash (wal_path w) n d', Ret w2) /\
      result_of (fun d => let '((_, d), r) := read_all (w2, d) in (d, r))
        (crash (wal_path w) n d') = Ret (wr_entry <$> take k all) /\
      (k <= length all)%nat /\
      (k < length all -> length (frames (take k all)) <= n < length (frames (take (S k) all)))%nat /\
      (length file <= n -> k = length all)%nat.
Proof.
  intros Hw He. destruct (append_batch_spec entries w d rs Hw He) as (d' & Hr & [Hf Hfit] & _).
  eexists _, d'. split; [exact Hr|]. cbn zeta. set (all := rs ++ _) in *. intros n.
  destruct (read_bytes_take all n Hfit) as (k & Hk & Hread & Hin & Hout).
  assert (dk_files (crash (wal_path w) n d') !! wal_path w = Some (take n (frames all))) as Hc.
  { unfold crash. cbn. rewrite lookup_alter_eq. by rewrite Hf. }
  eexists _, k. split_and!.
  - by apply wal_open_existing.
  - unfold result_of, read_all, read_records, mbind, Obj_bind, get_self, obj_io, fs_contents.
    cbn [fst snd wal_path opened_wal]. rewrite Hc. cbn [default from_option Datatypes.id mret Obj_ret].
    by rewrite Hread.
  - done.
  - intros Hlt. specialize (Hout Hlt). split; [|done]. destruct Hin as [|Hall]; [done|].
    exfalso. enough (length (frames (take (S k) all)) <= length (frames all))%nat by lia.
    rewrite <- (take_drop (S k) all) at 2. unfold frames. rewrite bind_app, length_app. lia.
  - intros Hall. destruct (Nat.lt_ge_cases k (length all)) as [Hlt|]; [|lia]. exfalso.
    specialize (Hout Hlt).
    enough (length (frames (take (S k) all)) <= length (frames all))%nat by lia.
    rewrite <- (take_drop (S k) all) at 2. unfold frames. rewrite bind_app, length_app. lia.
Qed.

(** sequence numbers.  Reopening a log that has records continues the
    numbering where the appends left it; but after [truncate] (every flush)
    the open log keeps counting while a reopened one starts again at 0, so the
    numbers are monotone within a session only. *)
Theorem wal_sequence_numbers `{SDL : SerdeLaws WalRecord} (w : WriteAheadLog) (d : Disk)
    (rs : list WalRecord) (entries : list WalEntry) :
  wal_holds w d rs -> batch_fits (wal_next_seq w) entries -> entries <> [] -> in_width 64 (wal_next_seq w) ->
  exists w1 d1 d2,
    append_batch entries (w, d)
      = ((w1, d1), Ret (wr_seq <$> numbered (wal_next_seq w) entries)) /\
    (forall i r, numbered (wal_next_seq w) entries !! i = Some r ->
       wr_seq r = wrap 64 (wal_next_seq w + Z.of_nat i)) /\
    wal_open (wal_path w) d1 = (d1, Ret w1) /\
    truncate (w1, d1) = ((w1, d2), Ret tt) /\
    wal_open (wal_path w) d2 = (d2, Ret (mkWal (wal_path w) 0)).
Proof.
  intros Hw He Hne Hs. destruct (append_batch_spec entries w d rs Hw He) as (d1 & Hr & Hh & _).
  set (w1 := set_next_seq _ _) in *.
  assert (wal_holds w1 d1 (rs ++ numbered (wal_next_seq w) entries)) as Hh1
    by (destruct Hh; by split).
  destruct (truncate_spec w1 d1 _ Hh1) as (d2 & Ht & [Hf2 _] & _).
  exists w1, d1, d2. split_and!.
  - exact Hr.
  - intros i r Hi. by eapply numbered_lookup.
  - rewrite (wal_open_existing _ _ _ (wh_file _ _ _ Hh)).
    rewrite read_bytes_frames_all by apply Hh. unfold opened_wal, w1, set_next_seq.
    rewrite last_app. pose proof (last_numbered entries (wal_next_seq w) Hs) as Hl.
    destruct (last (numbered _ entries)); [|done]. by rewrite Hl.
  - exact Ht.
  - change (wal_path w) with (wal_path w1). by rewrite (wal_open_existing _ _ _ Hf2).
Qed.

(** a record appended behind a torn record can be lost although [append]
    succeeded: reopening does not cut the torn bytes off, and while the torn
    record's announced length covers the new record, recovery still stops
    there and returns only the records before the crash. *)
Theorem wal_torn_tail_hides_appends `{SDL : SerdeLaws WalRecord} (p : path) (d : Disk)
    (rs : list WalRecord) (torn : WalRecord) (n : nat) (entry : WalEntry) :
  Forall record_fits rs -> record_fits torn ->
  record_fits (mkWalRecord (wal_next_seq (opened_wal p rs)) entry) ->
  dk_files d !! p = Some (frames rs ++ take n (frame_of torn)) -> (4 <= n)%nat ->
  (n + length (frame_of (mkWalRecord (wal_next_seq (opened_wal p rs)) entry))
     < length (frame_of torn))%nat ->
  exists w w' d' seq,
    wal_open p d = (d, Ret w) /\ append_one entry (w, d) = ((w', d'), Ret seq) /\
    (read_all (w', d')).2 = Ret (wr_entry <$> rs).
Proof.
  intros Hrs Ht He Hf Hn Hlen.
  assert (read_bytes (frames rs ++ take n (frame_of torn)) = rs) as Hread.
  { rewrite read_bytes_frames by done. rewrite read_bytes_torn by (done || lia). apply app_nil_r. }
  exists (opened_wal p rs). eexists _, _, _. split_and!.
  - rewrite (wal_open_existing _ _ _ Hf). by rewrite Hread.
  - by apply append_one_bytes.
  - unfold read_all, read_records, mbind, Obj_bind, get_self, obj_io, fs_contents.
    cbn [fst snd wal_path opened_wal set_next_seq dk_files]. rewrite lookup_insert_eq.
    cbn [default from_option Datatypes.id mret Obj_ret snd]. do 2 f_equal.
    rewrite <- app_assoc, read_bytes_frames by done.
    rewrite (read_bytes_torn_more torn n) by (done || lia). apply app_nil_r.
Qed.

Section Witness.
Import CountableSerde.

Definition sample_wal : WriteAheadLog := mkWal ["wal.bin"] 3.
Definition sample_wal_disk : Disk :=
  {| dk_files := {[ ["wal.bin"] := [] ]}; dk_dirs := {[ [] ]} |}.
Definition del (i : Z) : WalEntry := WalDelete i.

Lemma sample_wal_holds : wal_holds sample_wal sample_wal_disk [].
Proof. split; [reflexivity|constructor]. Qed.

(** The three records of a session, and what a crash five bytes short of the
    end leaves. *)
Example wal_sample :
  (let '((w, d), _) := append_batch [del 1; del 2; del 3] (sample_wal, sample_wal_disk) in
   ((read_all (w, d)).2,
    (read_all (w, crash ["wal.bin"] (length (default [] (dk_files d !! ["wal.bin"])) - 5) d)).2))
  = (Ret [del 1; del 2; del 3], Ret [del 1; del 2]).
Proof. vm_compute. reflexivity. Qed.

Ltac solve_fits := intros ? [= <-]; vm_compute; reflexivity.

Lemma sample_batch_fits : batch_fits (wal_next_seq sample_wal) [del 1; del 2; del 3].
Proof. repeat constructor; solve_fits. Qed.

Lemma wal_crash_recovery_witness :
  exists w' d', append_batch [del 1; del 2; del 3] (sample_wal, sample_wal_disk)
      = ((w', d'), Ret [3; 4; 5]) /\
    exists w2 k, wal_open ["wal.bin"] (crash ["wal.bin"] 20 d') = (crash ["wal.bin"] 20 d', Ret w2) /\
      (k <= 3)%nat.
Proof.
  destruct (wal_crash_recovery sample_wal sample_wal_disk [] [del 1; del 2; del 3]
    sample_wal_holds sample_batch_fits) as (w' & d' & H1 & H2).
  exists w', d'. split; [exact H1|]. destruct (H2 20%nat) as (w2 & k & H3 & _ & H4 & _).
  exists w2, k. split; [exact H3|exact H4].
Defined.

Lemma wal_sequence_numbers_witness :
  exists w1 d1 d2, append_batch [del 1; del 2; del 3] (sample_wal, sample_wal_disk)
      = ((w1, d1), Ret [3; 4; 5]) /\
    truncate (w1, d1) = ((w1, d2), Ret tt) /\
    wal_open ["wal.bin"] d2 = (d2, Ret (mkWal ["wal.bin"] 0)).
Proof.
  destruct (wal_sequence_numbers sample_wal sample_wal_disk [] [del 1; del 2; del 3]
    sample_wal_holds sample_batch_fits) as (w1 & d1 & d2 & H1 & _ & _ & H2 & H3).
  - discriminate.
  - vm_decide.
  - exists w1, d1, d2. split; [exact H1|]. split; [exact H2|exact H3].
Defined.

Definition torn_record : WalRecord :=
  mkWalRecord 0 (WalIndex (mkDocument 1 "a long title of a document" "" f_zero "" ∅)).
Definition torn_disk : Disk :=
  {| dk_files := {[ ["wal.bin"] := take 4 (frame_of torn_record) ]}; dk_dirs := {[ [] ]} |}.

Lemma wal_torn_tail_hides_appends_witness :
  exists w w' d' seq,
    wal_open ["wal.bin"] torn_disk = (torn_disk, Ret w) /\
    append_one (del 7) (w, torn_disk) = ((w', d'), Ret seq) /\
    (read_all (w', d')).2 = Ret [].
Proof.
  apply (wal_torn_tail_hides_appends ["wal.bin"] torn_disk [] torn_record 4 (del 7)).
  - constructor.
  - solve_fits.
  - solve_fits.
  - reflexivity.
  - lia.
  - vm_decide.
Defined.
End Witness.
