(* ===== verification/Decimal.v ===== *)
(** Decimal formatting of unsigned integers ([n.to_string()],
    [format!("{:06}")]) and its round trip through [parse::<u64>]. *)
From Stdlib Require Import Strings.Ascii.
From S2P Require Import Prelude Order Text.

Local Open Scope Z_scope.

Definition digit_char (d : Z) : ascii := ascii_of_N (Z.to_N (48 + d)).

(** The digits of [n], put in front of [acc]; one unit of fuel per digit. *)
Fixpoint format_digits (fuel : nat) (n : Z) (acc : string) : string :=
  let acc := String (digit_char (n mod 10)) acc in
  match fuel with
  | O => acc
  | S fuel => if n <? 10 then acc else format_digits fuel (n / 10) acc
  end.

(** A [u64] has at most twenty digits. *)
Definition format_u64 (n : Z) : string := format_digits 19 n "".

(** [format!("{:0width}", n)]. *)
Definition zero_pad (width : nat) (s : string) : string :=
  (String.concat "" (replicate (width - String.length s) "0") +:+ s)%string.

Lemma digit_value_char d : 0 <= d < 10 -> digit_value (digit_char d) = Some d.
Proof.
  intros H. assert (d = 0 \/ d = 1 \/ d = 2 \/ d = 3 \/ d = 4 \/ d = 5 \/ d = 6 \/ d = 7 \/ d = 8
    \/ d = 9) as Hd by lia. repeat destruct Hd as [->|Hd]; try reflexivity. subst. reflexivity.
Qed.

Lemma parse_format_digits max fuel : forall n s,
  0 <= n < 10 ^ (Z.of_nat fuel + 1) -> n <= max ->
  parse_digits max 0 (format_digits fuel n s) = parse_digits max n s.
Proof.
  induction fuel as [|fuel IH]; intros n s Hn Hmax.
  - cbn [format_digits]. change (10 ^ (Z.of_nat 0 + 1)) with 10 in Hn. rewrite Z.mod_small by lia.
    cbn [parse_digits]. rewrite digit_value_char by lia. cbn [mbind option_bind].
    destruct (Z.leb_spec (0 * 10 + n) max); [|lia]. f_equal.
  - cbn [format_digits]. destruct (Z.ltb_spec n 10) as [Hlt|Hge].
    + rewrite Z.mod_small by lia. cbn [parse_digits]. rewrite digit_value_char by lia.
      cbn [mbind option_bind]. destruct (Z.leb_spec (0 * 10 + n) max); [|lia]. f_equal.
    + pose proof (Z.div_mod n 10 ltac:(lia)). pose proof (Z.mod_pos_bound n 10 ltac:(lia)).
      rewrite IH.
      * cbn [parse_digits]. rewrite digit_value_char by lia. cbn [mbind option_bind].
        destruct (Z.leb_spec (n / 10 * 10 + n mod 10) max); [|lia]. f_equal. lia.
      * rewrite Nat2Z.inj_succ in Hn. split; [apply Z.div_pos; lia|].
        apply Z.div_lt_upper_bound; [lia|]. rewrite <- Z.pow_succ_r by lia.
        replace (Z.succ (Z.of_nat fuel + 1)) with (Z.succ (Z.of_nat fuel) + 1) by lia. lia.
      * lia.
Qed.

Lemma parse_digits_format max n :
  0 <= n < 10 ^ 20 -> n <= max -> parse_digits max 0 (format_u64 n) = Some n.
Proof. intros Hn Hm. unfold format_u64. by rewrite (parse_format_digits max 19 n ""). Qed.

Lemma parse_digits_zero max s : 0 <= max ->
  parse_digits max 0 (String "0" s) = parse_digits max 0 s.
Proof.
  intros Hm. cbn [parse_digits]. change (digit_value "0") with (Some 0).
  cbn [mbind option_bind]. destruct (Z.leb_spec (0 * 10 + 0) max); [done|lia].
Qed.

Lemma parse_digits_zeros max k s : 0 <= max ->
  parse_digits max 0 (String.concat "" (replicate k "0") +:+ s)%string = parse_digits max 0 s.
Proof.
  intros Hm. induction k as [|[|k] IH]; [done|by apply parse_digits_zero|].
  exact (eq_trans (parse_digits_zero max _ Hm) IH).
Qed.

Lemma parse_digits_pad max w n :
  0 <= n < 10 ^ 20 -> n <= max -> parse_digits max 0 (zero_pad w (format_u64 n)) = Some n.
Proof.
  intros Hn Hm. unfold zero_pad. rewrite parse_digits_zeros by lia. by apply parse_digits_format.
Qed.

Lemma zero_pad_inj w a b :
  0 <= a < 10 ^ 20 -> 0 <= b < 10 ^ 20 ->
  zero_pad w (format_u64 a) = zero_pad w (format_u64 b) -> a = b.
Proof.
  intros Ha Hb H.
  pose proof (parse_digits_pad (Z.max a b) w a Ha ltac:(lia)) as H1.
  pose proof (parse_digits_pad (Z.max a b) w b Hb ltac:(lia)) as H2. congruence.
Qed.

(** A decimal has no other character than digits. *)
Lemma format_digits_free fuel c : digit_value c = None -> forall n s,
  str_mem c s = false -> str_mem c (format_digits fuel n s) = false.
Proof.
  intros Hc.
  assert (forall n s, str_mem c s = false -> str_mem c (String (digit_char (n mod 10)) s) = false) as Hd.
  { intros n s Hs. cbn [str_mem]. rewrite Hs, bool_decide_false; [done|]. intros E.
    rewrite <- E, digit_value_char in Hc by (apply Z.mod_pos_bound; lia). done. }
  induction fuel as [|fuel IH]; intros n s Hs; cbn [format_digits]; [by apply Hd|].
  destruct (n <? 10); [|apply IH]; by apply Hd.
Qed.
Lemma format_u64_free c n : digit_value c = None -> str_mem c (format_u64 n) = false.
Proof. intros Hc. by apply format_digits_free. Qed.

(** A digit string is read by [parse::<u64>] without its optional sign. *)
Lemma parse_unsigned_digits max s n :
  s <> ""%string -> parse_digits max 0 s = Some n -> parse_unsigned max s = Some n.
Proof.
  destruct s as [|a s]; [done|]. intros _ H. unfold parse_unsigned.
  case_bool_decide as Ha; [|done]. subst. discriminate H.
Qed.

Lemma parse_unsigned_pad max w n :
  0 <= n < 10 ^ 20 -> n <= max -> parse_unsigned max (zero_pad w (format_u64 n)) = Some n.
Proof.
  intros Hn Hm. pose proof (parse_digits_pad max w n Hn Hm) as H.
  apply parse_unsigned_digits; [|done]. intros E. rewrite E in H. injection H as <-.
  revert E. unfold zero_pad. change (format_u64 0) with "0"%string.
  by destruct (String.concat _ _).
Qed.
