(* ===== verification/WriteBuffer.v ===== *)
(** The in-memory write buffer of a shard ([crates/shard/src/write_buffer.rs])
    with the temporary segment it is searched through.  Where the tempfile
    crate puts a directory is a parameter. *)
From Stdlib Require Import Strings.Byte.
From S2P Require Import Prelude Bytes Order Float Types Text Analysis Posting Disk Inverted.
From S2P Require Import Column DocStore Segment Scorer Object.

Local Open Scope Z_scope.

(** [TempDir::new]: a directory of [env::temp_dir()] that did not exist, with a
    ".tmp" name. *)
Class TempDirLib := { temp_root : path; temp_path : Disk -> path }.
Class TempDirLaws `{TD : TempDirLib} : Prop := {
  temp_name d : exists name, temp_path d = join temp_root ((".tmp" +:+ name)%string);
  temp_fresh d p : under (temp_path d) p -> p ∉ dk_dirs d /\ dk_files d !! p = None;
}.

Record WriteBuffer `{IL : IndexLibs} := mkWriteBuffer {
  wb_schema : IndexSchema;
  wb_docs : list Document;
  wb_deleted_ids : gset Z;
  wb_capacity_bytes : Z;                (* usize *)
  wb_current_size_bytes : Z;            (* usize *)
  wb_segment_dir : option path;         (* Option<TempDir> *)
  wb_segment_reader : option SegmentReader;
  wb_segment_stats : option SegmentStatistics;
  wb_dirty : bool;
}.

Section WriteBuffer.
Context `{IL : IndexLibs} `{TD : TempDirLib}.

Definition tempdir_new : IO path := fun d =>
  let t := temp_path d in
  ({| dk_files := dk_files d; dk_dirs := {[t]} ∪ dk_dirs d |}, Ret t).
(** [Drop for TempDir] ignores the error. *)
Definition tempdir_drop (t : path) : IO unit := fun d => ((remove_dir_all t d).1, Ret tt).
Definition tempdir_drop_opt (t : option path) : IO unit :=
  match t with Some t => tempdir_drop t | None => mret tt end.

Definition wb_new (schema : IndexSchema) (capacity_bytes : Z) : WriteBuffer :=
  {| wb_schema := schema; wb_docs := []; wb_deleted_ids := ∅;
     wb_capacity_bytes := capacity_bytes; wb_current_size_bytes := 0;
     wb_segment_dir := None; wb_segment_reader := None; wb_segment_stats := None;
     wb_dirty := false |}.

Definition wb_is_full (b : WriteBuffer) : bool := wb_capacity_bytes b <=? wb_current_size_bytes b.

(** The bytes accounted for a document. *)
Definition doc_size (doc : Document) : Z :=
  Z.of_nat (String.length (doc_title doc) + String.length (doc_description doc)
            + String.length (doc_category doc)) + 64.

Definition wb_add (doc : Document) (b : WriteBuffer) : WriteBuffer * bool :=
  let b :=
    {| wb_schema := wb_schema b; wb_docs := wb_docs b ++ [doc];
       wb_deleted_ids := wb_deleted_ids b; wb_capacity_bytes := wb_capacity_bytes b;
       wb_current_size_bytes := wrap 64 (wb_current_size_bytes b + doc_size doc);
       wb_segment_dir := wb_segment_dir b; wb_segment_reader := wb_segment_reader b;
       wb_segment_stats := wb_segment_stats b; wb_dirty := true |} in
  (b, wb_is_full b).

Definition wb_mark_deleted (doc_id : Z) (b : WriteBuffer) : WriteBuffer :=
  {| wb_schema := wb_schema b; wb_docs := wb_docs b;
     wb_deleted_ids := {[doc_id]} ∪ wb_deleted_ids b; wb_capacity_bytes := wb_capacity_bytes b;
     wb_current_size_bytes := wb_current_size_bytes b;
     wb_segment_dir := wb_segment_dir b; wb_segment_reader := wb_segment_reader b;
     wb_segment_stats := wb_segment_stats b; wb_dirty := true |}.

Definition wb_doc_count (b : WriteBuffer) : nat := length (wb_docs b).
Definition wb_size_bytes (b : WriteBuffer) : Z := wb_current_size_bytes b.
Definition wb_is_empty (b : WriteBuffer) : bool := bool_decide (wb_docs b = []).

(** [all_docs]: the documents not marked deleted. *)
Definition wb_all_docs (b : WriteBuffer) : list Document :=
  filter (fun d => doc_id d ∉ wb_deleted_ids b) (wb_docs b).

(** The three cached fields. *)
Definition set_cache (dir : option path) (reader : option SegmentReader)
    (stats : option SegmentStatistics) (b : WriteBuffer) : WriteBuffer :=
  {| wb_schema := wb_schema b; wb_docs := wb_docs b; wb_deleted_ids := wb_deleted_ids b;
     wb_capacity_bytes := wb_capacity_bytes b; wb_current_size_bytes := wb_current_size_bytes b;
     wb_segment_dir := dir; wb_segment_reader := reader; wb_segment_stats := stats;
     wb_dirty := wb_dirty b |}.
Definition set_dirty (dirty : bool) (b : WriteBuffer) : WriteBuffer :=
  {| wb_schema := wb_schema b; wb_docs := wb_docs b; wb_deleted_ids := wb_deleted_ids b;
     wb_capacity_bytes := wb_capacity_bytes b; wb_current_size_bytes := wb_current_size_bytes b;
     wb_segment_dir := wb_segment_dir b; wb_segment_reader := wb_segment_reader b;
     wb_segment_stats := wb_segment_stats b; wb_dirty := dirty |}.

(** Write the segment of [docs] to [dir], open it, compute its statistics. *)
Definition write_segment (schema : IndexSchema) (id : string) (docs : list Document)
    (dir : path) : IO (SegmentReader * SegmentStatistics) :=
  _ ← sw_write {| sw_schema := schema |} id docs dir;
  reader ← sr_open dir;
  stats ← lift (stats_compute reader schema);
  mret (reader, stats).

Definition rebuild_segment : Obj WriteBuffer unit :=
  b ← get_self;
  _ ← modify_self (set_cache None None None);
  _ ← obj_io (tempdir_drop_opt (wb_segment_dir b));
  temp_dir ← obj_io tempdir_new;
  let seg_path := join temp_dir "buf" in
  let live_docs := wb_all_docs b in
  if bool_decide (live_docs = []) then modify_self (set_cache (Some temp_dir) None None)
  else
    '(reader, stats) ←
      with_drop (obj_io (write_segment (wb_schema b) "buffer" live_docs seg_path))
        (tempdir_drop temp_dir);
    modify_self (set_cache (Some temp_dir) (Some reader) (Some stats)).

Definition reader_and_stats : Obj WriteBuffer (option (SegmentReader * SegmentStatistics)) :=
  b ← get_self;
  if bool_decide (wb_docs b = []) then mret None
  else
    _ ← (if wb_dirty b then
           _ ← rebuild_segment;
           modify_self (set_dirty false)
         else mret tt);
    b ← get_self;
    mret (match wb_segment_reader b, wb_segment_stats b with
          | Some r, Some s => Some (r, s)
          | _, _ => None
          end).

(** [drain]: all documents and deleted ids; the buffer is empty again. *)
Definition drain : Obj WriteBuffer (list Document * gset Z) :=
  b ← get_self;
  _ ← obj_io (tempdir_drop_opt (wb_segment_dir b));
  _ ← modify_self (fun b =>
    {| wb_schema := wb_schema b; wb_docs := []; wb_deleted_ids := ∅;
       wb_capacity_bytes := wb_capacity_bytes b; wb_current_size_bytes := 0;
       wb_segment_dir := None; wb_segment_reader := None; wb_segment_stats := None;
       wb_dirty := false |});
  mret (wb_docs b, wb_deleted_ids b).
End WriteBuffer.

(** ** Paths below a directory *)
Lemma under_join t p n : under t (join p n) <-> t = join p n \/ under t p.
Proof.
  unfold under, join. destruct (Nat.le_gt_cases (length t) (length p)) as [Hle|Hgt].
  - rewrite take_app_le by done. split; [by right|]. intros [->|]; [|done].
    rewrite length_app in Hle. cbn in Hle. lia.
  - assert (take (length t) p = p) as Hp by (apply firstn_all2; lia). rewrite Hp.
    rewrite (firstn_all2 (p ++ [n])) by (rewrite length_app; cbn; lia). split.
    + intros <-. by left.
    + intros [->|<-]; [done|]. lia.
Qed.

Lemma under_refl t : under t t.
Proof. apply firstn_all. Qed.

(** The name of a temporary directory, and of what is never one. *)
Definition not_temp_name (n : string) : Prop := starts_with n ".tmp" = false.

Section TempNames.
Context `{TD : TempDirLib}.

Definition temp_named (t : path) : Prop :=
  exists name, t = join temp_root ((".tmp" +:+ name)%string).

Lemma temp_named_join t dir n : temp_named t -> not_temp_name n -> t <> join dir n.
Proof.
  intros (name & ->) Hn [_ E]%join_inj. unfold not_temp_name in Hn.
  rewrite <- E, starts_with_app in Hn. done.
Qed.

Lemma not_under_join t p n :
  temp_named t -> not_temp_name n -> ~ under t p -> ~ under t (join p n).
Proof. intros Ht Hn Hp [?|?]%under_join; [by eapply temp_named_join|done]. Qed.

Lemma not_under_root t p n :
  temp_named t -> p <> temp_root -> ~ under t p -> ~ under t (join p n).
Proof. intros (name & ->) Hr Hp [[? _]%join_inj|?]%under_join; [by subst|done]. Qed.
End TempNames.

Section BufferSpecs.
Context `{ILL : IndexLaws} `{TDL : TempDirLaws}.

(** A written segment is on disk, and its reader and statistics hold it. *)
Lemma write_segment_spec schema id docs dir d :
  segment_fits schema docs -> dir <> [] -> dk_files d !! join dir "deletions.bin" = None ->
  exists d' r st, write_segment schema id docs dir d = (d', Ret (r, st)) /\
    segment_holds schema r docs rb_new /\ stats_compute r schema = Ret st /\
    segment_on_disk schema id docs rb_new dir d' /\
    dk_files d' !! join dir "deletions.bin" = None /\
    dk_dirs d' = dk_dirs d ∪ list_to_set (prefixes dir) /\
    (forall p, parent p <> dir -> dk_files d' !! p = dk_files d !! p).
Proof.
  intros Hfit Hdir Hnone.
  destruct (sw_write_spec schema id docs dir d Hfit Hdir Hnone) as (d1 & Hw & Hs & Hn & Hd & Hf).
  destruct (segment_open _ _ _ _ _ _ Hs) as (r & Ho & _ & _ & Hr).
  destruct (stats_compute_ret _ _ _ _ Hr) as (st & Hst & _).
  exists d1, r, st. split_and!; [|done..].
  unfold write_segment. erewrite io_bind_ret by exact Hw. erewrite io_bind_ret by exact Ho.
  by erewrite io_bind_ret by (unfold lift; rewrite Hst; reflexivity).
Qed.

(** Paths in the buffer's temporary directory. *)
Definition in_temp (b : WriteBuffer) (p : path) : Prop :=
  exists t, wb_segment_dir b = Some t /\ under t p.

(** The cached reader serves the live documents. *)
Definition cached (b : WriteBuffer) : Prop :=
  match wb_all_docs b with
  | [] => wb_segment_reader b = None
  | live => exists r st, wb_segment_reader b = Some r /\ wb_segment_stats b = Some st /\
      segment_holds (wb_schema b) r live rb_new /\ stats_compute r (wb_schema b) = Ret st
  end.

Record buffer_ok (b : WriteBuffer) : Prop := {
  bo_cache : wb_dirty b = false -> wb_docs b = [] \/ cached b;
  bo_temp : forall t, wb_segment_dir b = Some t -> temp_named t;
}.

(** What a method of the buffer does to the rest of the disk. *)
Record buffer_frame (b : WriteBuffer) (d : Disk) (b' : WriteBuffer) (d' : Disk) : Prop := {
  bf_dirs : forall p, p ∈ dk_dirs d -> ~ in_temp b p -> p ∈ dk_dirs d' /\ ~ in_temp b' p;
  bf_files : forall p, ~ in_temp b p -> ~ in_temp b' p -> dk_files d' !! p = dk_files d !! p;
}.

Lemma buffer_frame_refl b d b' :
  (forall t, wb_segment_dir b' = Some t -> wb_segment_dir b = Some t) -> buffer_frame b d b' d.
Proof.
  intros H. split; [|done]. intros p Hp Ht. split; [done|].
  intros (t & E & ?). apply Ht. exists t. auto.
Qed.

Lemma tempdir_drop_spec t d :
  exists d', tempdir_drop_opt t d = (d', Ret tt) /\
    (forall p, p ∈ dk_dirs d -> (forall t', t = Some t' -> ~ under t' p) -> p ∈ dk_dirs d') /\
    (forall p, (forall t', t = Some t' -> ~ under t' p) -> dk_files d' !! p = dk_files d !! p).
Proof.
  destruct t as [t|]; cbn [tempdir_drop_opt]; [|by exists d].
  unfold tempdir_drop, remove_dir_all. case_bool_decide; eexists; (split; [reflexivity|]); cbn.
  - split.
    + intros p Hp Ht. apply elem_of_filter. split; [by apply Ht|done].
    + intros p Ht. specialize (Ht t eq_refl). apply option_eq. intros v.
      rewrite map_lookup_filter_Some. cbn. tauto.
  - done.
Qed.

Lemma wb_all_docs_set_cache dir r s b : wb_all_docs (set_cache dir r s b) = wb_all_docs b.
Proof. done. Qed.

(** The cached segment after a rebuild. *)
Lemma rebuild_segment_spec b d :
  (forall t, wb_segment_dir b = Some t -> temp_named t) ->
  (wb_all_docs b <> [] -> segment_fits (wb_schema b) (wb_all_docs b)) ->
  exists t r st d', rebuild_segment (b, d) = ((set_cache (Some t) r st b, d'), Ret tt) /\
    temp_named t /\ cached (set_cache (Some t) r st b) /\
    buffer_frame b d (set_cache (Some t) r st b) d'.
Proof.
  intros Ht Hfit. destruct (tempdir_drop_spec (wb_segment_dir b) d) as (d1 & H1 & Hdirs1 & Hfiles1).
  set (t := temp_path d1). assert (temp_named t) as Hnamed by apply temp_name.
  set (d2 := {| dk_files := dk_files d1; dk_dirs := {[t]} ∪ dk_dirs d1 |}).
  assert (forall r st d', (forall p, p ∈ dk_dirs d1 -> p ∈ dk_dirs d') ->
    (forall p, ~ under t p -> dk_files d' !! p = dk_files d1 !! p) ->
    buffer_frame b d (set_cache (Some t) r st b) d') as Hframe.
  { intros r st d' Hd Hf. assert (forall p, ~ in_temp b p ->
      forall t', wb_segment_dir b = Some t' -> ~ under t' p) as Hin.
    { intros p Hp t' Et Hu. apply Hp. by exists t'. }
    split.
    - intros p Hp Hn. assert (p ∈ dk_dirs d1) as Hp1 by (apply Hdirs1; [done|by apply Hin]).
      split; [by apply Hd|]. intros (t' & [= <-] & Hu). by apply (temp_fresh d1 p Hu).
    - intros p Hn Hn'. rewrite Hf, Hfiles1; [done|by apply Hin|].
      intros Hu. apply Hn'. by exists t. }
  destruct (decide (wb_all_docs b = [])) as [Hnil|Hne].
  - exists t, None, None, d2. split_and!; [|done| |].
    + unfold rebuild_segment. erewrite obj_bind_ret by reflexivity. cbn [fst].
      erewrite obj_bind_ret by reflexivity. erewrite obj_bind_ret by (by apply obj_io_ret).
      erewrite obj_bind_ret by (apply obj_io_ret; reflexivity). cbn zeta.
      rewrite bool_decide_true by done. reflexivity.
    + unfold cached. by rewrite wb_all_docs_set_cache, Hnil.
    + apply Hframe; [set_solver|done].
  - destruct (write_segment_spec (wb_schema b) "buffer" (wb_all_docs b) (join t "buf") d2)
      as (d3 & r & st & Hw & Hr & Hst & _ & _ & Hdirs & Hfiles).
    { by apply Hfit. }
    { unfold join. by destruct t. }
    { cbn. apply (temp_fresh d1). apply under_join. right. apply under_join. right. apply under_refl. }
    exists t, (Some r), (Some st), d3. split_and!; [|done| |].
    + unfold rebuild_segment. erewrite obj_bind_ret by reflexivity. cbn [fst].
      erewrite obj_bind_ret by reflexivity. erewrite obj_bind_ret by (by apply obj_io_ret).
      erewrite obj_bind_ret by (apply obj_io_ret; reflexivity). cbn zeta.
      rewrite bool_decide_false by done.
      rewrite (obj_bind_ret _ _ _ (set_cache None None None b, d3) (r, st)); [reflexivity|].
      unfold with_drop, obj_io. cbn [snd fst]. fold t d2. by rewrite Hw.
    + unfold cached. rewrite wb_all_docs_set_cache. cbn.
      destruct (wb_all_docs b); [done|]. by exists r, st.
    + apply Hframe.
      * intros p Hp. rewrite Hdirs. cbn. set_solver.
      * intros p Hp. rewrite Hfiles; [done|]. intros Hpar. apply Hp.
        destruct (decide (p = [])) as [->|Hpne]; [by destruct t|].
        destruct (exists_last Hpne) as (q & n & ->). fold (join q n) in *.
        rewrite parent_join in Hpar. subst. apply under_join. right. apply under_join. right.
        apply under_refl.
Qed.

(** The reader the buffer is searched through. *)
Definition serves (b : WriteBuffer) (o : option (SegmentReader * SegmentStatistics)) : Prop :=
  match wb_all_docs b with
  | [] => o = None
  | live => exists r st, o = Some (r, st) /\ segment_holds (wb_schema b) r live rb_new /\
      stats_compute r (wb_schema b) = Ret st
  end.

(** [b'] has the same contents as [b]; only the cache changed. *)
Definition same_contents (b b' : WriteBuffer) : Prop :=
  exists dir r st dirty, b' = set_dirty dirty (set_cache dir r st b).

Lemma cached_serves b :
  cached b -> serves b (match wb_segment_reader b, wb_segment_stats b with
                        | Some r, Some s => Some (r, s) | _, _ => None end).
Proof.
  unfold cached, serves. destruct (wb_all_docs b).
  - by intros ->.
  - intros (r & st & -> & -> & ? & ?). eauto.
Qed.

Lemma reader_and_stats_spec b d :
  buffer_ok b -> (wb_all_docs b <> [] -> segment_fits (wb_schema b) (wb_all_docs b)) ->
  exists b' d' o, reader_and_stats (b, d) = ((b', d'), Ret o) /\
    serves b o /\ same_contents b b' /\ buffer_ok b' /\ buffer_frame b d b' d'.
Proof.
  intros [Hc Ht] Hfit. unfold reader_and_stats.
  erewrite obj_bind_ret by reflexivity. cbn [fst].
  assert (same_contents b b) as Hsame.
  { exists (wb_segment_dir b), (wb_segment_reader b), (wb_segment_stats b), (wb_dirty b).
    by destruct b. }
  destruct (decide (wb_docs b = [])) as [Hnil|Hne].
  { rewrite bool_decide_true by done. exists b, d, None. split_and!; [done| |done|by split|].
    - unfold serves, wb_all_docs. by rewrite Hnil.
    - by apply buffer_frame_refl. }
  rewrite bool_decide_false by done. destruct (wb_dirty b) eqn:Hd.
  - destruct (rebuild_segment_spec b d Ht Hfit) as (t & r & st & d' & Hr & Hn & Hca & Hfr).
    set (b' := set_dirty false (set_cache (Some t) r st b)).
    exists b', d'. eexists. split_and!.
    + erewrite obj_bind_ret.
      2: { erewrite obj_bind_ret by exact Hr. reflexivity. }
      erewrite obj_bind_ret by reflexivity. reflexivity.
    + apply (cached_serves (set_cache (Some t) r st b) Hca).
    + by exists (Some t), r, st, false.
    + split; [by right|]. by intros t' [= <-].
    + destruct Hfr as [H1 H2]. by split.
  - exists b, d. eexists. split_and!.
    + erewrite obj_bind_ret by reflexivity. erewrite obj_bind_ret by reflexivity. reflexivity.
    + destruct (Hc eq_refl); [done|]. by apply cached_serves.
    + done.
    + by split; [rewrite Hd|].
    + by apply buffer_frame_refl.
Qed.

Lemma drain_spec b d :
  exists b' d', drain (b, d) = ((b', d'), Ret (wb_docs b, wb_deleted_ids b)) /\
    b' = wb_new (wb_schema b) (wb_capacity_bytes b) /\ buffer_frame b d b' d'.
Proof.
  destruct (tempdir_drop_spec (wb_segment_dir b) d) as (d1 & H1 & Hdirs & Hfiles).
  eexists _, d1. split_and!.
  - unfold drain. erewrite obj_bind_ret by reflexivity. cbn [fst].
    erewrite obj_bind_ret by (by apply obj_io_ret). reflexivity.
  - reflexivity.
  - split.
    + intros p Hp Hn. split; [|by intros (? & [=] & _)]. apply Hdirs; [done|].
      intros t' E Hu. apply Hn. by exists t'.
    + intros p Hn _. apply Hfiles. intros t' E Hu. apply Hn. by exists t'.
Qed.

Lemma buffer_ok_new schema cap : buffer_ok (wb_new schema cap).
Proof. split; [by left|done]. Qed.
Lemma buffer_ok_add doc b : buffer_ok b -> buffer_ok (wb_add doc b).1.
Proof. intros [_ H]. by split. Qed.
Lemma buffer_ok_mark i b : buffer_ok b -> buffer_ok (wb_mark_deleted i b).
Proof. intros [_ H]. by split. Qed.
End BufferSpecs.

(** ** The buffer over its life *)
Section Life.
Context `{ILL : IndexLaws} `{TDL : TempDirLaws}.
Context (schema : IndexSchema) (capacity : Z).

Definition live_of (docs : list Document) (deleted : gset Z) : list Document :=
  filter (fun d => doc_id d ∉ deleted) docs.

(** The states of a buffer since its creation, with the documents added and
    the ids deleted since the last [drain].  Other components may change the
    disk in between. *)
Inductive buffer_reach : list Document -> gset Z -> WriteBuffer -> Disk -> Prop :=
  | br_new d : buffer_reach [] ∅ (wb_new schema capacity) d
  | br_disk docs deleted b d d' :
      buffer_reach docs deleted b d -> buffer_reach docs deleted b d'
  | br_add docs deleted b d doc :
      buffer_reach docs deleted b d ->
      buffer_reach (docs ++ [doc]) deleted (wb_add doc b).1 d
  | br_delete docs deleted b d i :
      buffer_reach docs deleted b d ->
      buffer_reach docs ({[i]} ∪ deleted) (wb_mark_deleted i b) d
  | br_read docs deleted b d b' d' o :
      buffer_reach docs deleted b d ->
      (live_of docs deleted <> [] -> segment_fits schema (live_of docs deleted)) ->
      reader_and_stats (b, d) = ((b', d'), Ret o) ->
      buffer_reach docs deleted b' d'
  | br_drain docs deleted b d b' d' r :
      buffer_reach docs deleted b d ->
      drain (b, d) = ((b', d'), Ret r) ->
      buffer_reach [] ∅ b' d'.

Lemma buffer_reach_inv docs deleted b d :
  buffer_reach docs deleted b d ->
  wb_docs b = docs /\ wb_deleted_ids b = deleted /\ wb_schema b = schema /\ buffer_ok b.
Proof.
  induction 1 as [d|docs del b d d' _ IH|docs del b d doc _ IH|docs del b d i _ IH
                 |docs del b d b' d' o _ IH Hfit Hr|docs del b d b' d' r _ IH Hr].
  - split_and!; [done..|apply buffer_ok_new].
  - done.
  - destruct IH as (<- & <- & <- & Hok). split_and!; [done..|by apply buffer_ok_add].
  - destruct IH as (<- & <- & <- & Hok). split_and!; [done..|by apply buffer_ok_mark].
  - destruct IH as (<- & <- & Hs & Hok).
    destruct (reader_and_stats_spec b d Hok) as (b1 & d1 & o1 & Hr1 & _ & Hsame & Hok1 & _).
    { rewrite Hs. exact Hfit. }
    rewrite Hr in Hr1. simplify_eq. by destruct Hsame as (? & ? & ? & ? & ->).
  - destruct IH as (<- & <- & <- & Hok).
    destruct (drain_spec b d) as (b1 & d1 & Hr1 & -> & _). rewrite Hr in Hr1. simplify_eq.
    split_and!; [done..|apply buffer_ok_new].
Qed.
End Life.

(** the write buffer is searchable at any time.  Whatever was added, deleted,
    searched and drained before, [reader_and_stats] returns a reader of exactly
    the documents added since the last drain whose id was not deleted since
    then - also when it answers from its cache - and nothing when there are
    none.  A document added again after its deletion stays hidden. *)
Theorem write_buffer_serves_live `{ILL : IndexLaws} `{TDL : TempDirLaws}
    (schema : IndexSchema) (capacity : Z) (docs : list Document) (deleted : gset Z)
    (b : WriteBuffer) (d : Disk) :
  buffer_reach schema capacity docs deleted b d ->
  let live := filter (fun doc => doc_id doc ∉ deleted) docs in
  (live <> [] -> segment_fits schema live) ->
  exists b' d' o, reader_and_stats (b, d) = ((b', d'), Ret o) /\
    (live = [] -> o = None) /\
    (live <> [] -> exists r st, o = Some (r, st) /\ segment_holds schema r live rb_new /\
       stats_compute r schema = Ret st).
Proof.
  intros H live Hfit. destruct (buffer_reach_inv _ _ _ _ _ _ H) as (Hd & Hdel & Hs & Hok).
  assert (wb_all_docs b = live) as Hl by (unfold wb_all_docs, live; by rewrite Hd, Hdel).
  destruct (reader_and_stats_spec b d Hok) as (b' & d' & o & Hr & Hserve & _).
  { rewrite Hl, Hs. exact Hfit. }
  exists b', d', o. split; [exact Hr|]. unfold serves in Hserve. rewrite Hl, Hs in Hserve.
  destruct live as [|x live]; [done|]. split; [done|]. intros _. exact Hserve.
Qed.

(** A temporary directory with a name no path uses. *)
Module FreshTemp.
Definition names (d : Disk) : list string :=
  concat (elements (dk_dirs d)) ++ concat (map_to_list (dk_files d)).*1.
Definition temp_suffix (s : string) : string :=
  default ""%string (str_strip_prefix s ".tmp").
Definition fresh_name (d : Disk) : string :=
  fresh (list_to_set (temp_suffix <$> names d) : gset string).

#[export] Instance lib : TempDirLib := {
  temp_root := ["tmp"%string];
  temp_path d := ["tmp"%string; (".tmp" +:+ fresh_name d)%string];
}.

Lemma fresh_name_not_in d : (".tmp" +:+ fresh_name d)%string ∉ names d.
Proof.
  intros Hin. pose proof (is_fresh (list_to_set (temp_suffix <$> names d) : gset string)) as Hf.
  apply Hf. apply elem_of_list_to_set, list_elem_of_fmap. eexists. split; [|exact Hin].
  unfold temp_suffix. by rewrite (proj2 (str_strip_prefix_spec _ ".tmp" (fresh_name d))).
Qed.

#[export] Instance laws : TempDirLaws.
Proof.
  split.
  - intros d. by exists (fresh_name d).
  - intros d p Hu. assert ((".tmp" +:+ fresh_name d)%string ∈ p) as Hin.
    { unfold under in Hu. cbn [temp_path lib length] in Hu.
      rewrite <- (take_drop 2 p), Hu. set_solver. }
    split.
    + intros Hp. apply (fresh_name_not_in d). unfold names. apply elem_of_app. left.
      apply list_elem_of_In, in_concat. exists p. split; apply list_elem_of_In; set_solver.
    + apply eq_None_not_Some. intros [v Hv]. apply (fresh_name_not_in d). unfold names.
      apply elem_of_app. right. apply list_elem_of_In, in_concat. exists p.
      split; apply list_elem_of_In; [|done].
      apply list_elem_of_fmap. exists (p, v). split; [done|]. by apply elem_of_map_to_list.
Qed.
End FreshTemp.

Section Witness.
Import TestLibs FreshTemp.

Definition sample_buffer : WriteBuffer :=
  let b := wb_new default_product_schema 1000 in
  let b := (wb_add (sample_doc 7 "red shoes shoe") b).1 in
  let b := (wb_add (sample_doc 5 "gone") b).1 in
  let b := wb_mark_deleted 5 b in
  let b := (wb_add (sample_doc 8 "blue hat") b).1 in
  (wb_add (sample_doc 9 "shoe") b).1.

Lemma write_buffer_serves_live_witness :
  exists b' d' o, reader_and_stats (sample_buffer, disk_empty) = ((b', d'), Ret o) /\
    exists r st, o = Some (r, st) /\ segment_holds default_product_schema r sample_docs rb_new.
Proof.
  assert (buffer_reach default_product_schema 1000
    [sample_doc 7 "red shoes shoe"; sample_doc 5 "gone"; sample_doc 8 "blue hat"; sample_doc 9 "shoe"]
    ({[5]} ∪ ∅) sample_buffer disk_empty) as Hreach.
  { apply (br_add _ _ [_; _; _]), (br_add _ _ [_; _]), br_delete, (br_add _ _ [_]), (br_add _ _ []),
      br_new. }
  destruct (write_buffer_serves_live default_product_schema 1000 _ _ _ _ Hreach)
    as (b' & d' & o & H1 & _ & H2).
  - intros _. exact sample_fits.
  - exists b', d', o. split; [exact H1|]. destruct H2 as (r & st & H3 & H4 & _); [discriminate|].
    exists r, st. split; [exact H3|exact H4].
Defined.
End Witness.
