(* ===== verification/SegmentList.v ===== *)
(** The on-disk segments of a shard and the map from document ids to segments
    ([crates/shard/src/segment_list.rs]), and the merge policy and merge
    execution over them ([crates/shard/src/merge.rs]). *)
From Stdlib Require Import Strings.Byte.
From S2P Require Import Prelude Bytes Order Float Types Text Decimal Analysis Posting Disk.
From S2P Require Import Inverted Column DocStore Segment Scorer Object WriteBuffer.

Local Open Scope Z_scope.

Record DocLocation := mkDocLocation {
  dl_segment_id : string;
  dl_local_doc_id : Z;                  (* u32 *)
}.

#[global] Instance DocLocation_eq_dec : EqDecision DocLocation.
Proof. solve_decision. Defined.

Section SegmentList.
Context `{IL : IndexLibs}.

Record SegmentEntry := mkSegmentEntry {
  se_segment_id : string;
  se_dir : path;
  se_reader : SegmentReader;
  se_stats : SegmentStatistics;
}.

Record SegmentList := mkSegmentList {
  sl_segments : list SegmentEntry;
  sl_doc_id_map : gmap Z DocLocation;
  sl_data_dir : path;
  sl_next_segment_seq : Z;              (* u64 *)
}.

(** [for local_id in 0..doc_count { if let Some(doc) = get_doc(local_id) ..
    doc_id_map.insert(..) }]. *)
Definition map_doc (seg_id : string) (reader : SegmentReader) (m : gmap Z DocLocation)
    (local_id : Z) : Result (gmap Z DocLocation) :=
  doc ← get_doc reader local_id;
  Ret (match doc with
       | Some doc => <[doc_id doc := mkDocLocation seg_id local_id]> m
       | None => m
       end).
Definition map_docs (seg_id : string) (reader : SegmentReader) (m : gmap Z DocLocation)
  : Result (gmap Z DocLocation) :=
  try_fold (map_doc seg_id reader) m (ziota (sm_doc_count (sr_meta reader))).

(** [match SegmentReader::open(&dir)]. *)
Definition try_open (dir : path) : IO (option SegmentReader) := fun d =>
  match sr_open dir d with
  | (d, Ret r) => (d, Ret (Some r))
  | (d, Fail _) => (d, Ret None)
  | (d, Panic) => (d, Panic)
  end.

(** [max_seq = max_seq.max(seq)] when the name is "seg-" and a number. *)
Definition seq_of (seg_id : string) : option Z :=
  str_strip_prefix seg_id "seg-" ≫= parse_unsigned u64_max.
Definition bump_seq (max_seq : Z) (seg_id : string) : Z :=
  match seq_of seg_id with Some seq => Z.max max_seq seq | None => max_seq end.

Definition ListState : Type := list SegmentEntry * gmap Z DocLocation * Z.

(** One directory of [open]. *)
Definition open_dir (data_dir : path) (schema : IndexSchema) (st : ListState) (seg_id : string)
  : IO ListState :=
  let '(segments, doc_id_map, max_seq) := st in
  let dir := join data_dir seg_id in
  let max_seq := bump_seq max_seq seg_id in
  reader ← try_open dir;
  match reader with
  | Some reader =>
      doc_id_map ← lift (map_docs seg_id reader doc_id_map);
      stats ← lift (stats_compute reader schema);
      mret (segments ++ [mkSegmentEntry seg_id dir reader stats], doc_id_map, max_seq)
  | None => mret (segments, doc_id_map, max_seq)
  end.

Definition segment_dirs (data_dir : path) (d : Disk) : list string :=
  sort_by str_cmp (filter (fun n => starts_with n "seg-" = true) (subdirs data_dir d)).

Definition sl_open (data_dir : path) (schema : IndexSchema) : IO SegmentList :=
  _ ← create_dir_all data_dir;
  dirs ← (fun d => (d, Ret (segment_dirs data_dir d)));
  '(segments, doc_id_map, max_seq) ← io_fold (open_dir data_dir schema) ([], ∅, 0) dirs;
  mret {| sl_segments := segments; sl_doc_id_map := doc_id_map; sl_data_dir := data_dir;
          sl_next_segment_seq := wrap 64 (max_seq + 1) |}.

Definition set_segments (segments : list SegmentEntry) (m : gmap Z DocLocation)
    (sl : SegmentList) : SegmentList :=
  {| sl_segments := segments; sl_doc_id_map := m; sl_data_dir := sl_data_dir sl;
     sl_next_segment_seq := sl_next_segment_seq sl |}.

Definition segment_name (seq : Z) : string := ("seg-" +:+ zero_pad 6 (format_u64 seq))%string.

Definition next_segment_id (sl : SegmentList) : SegmentList * string :=
  ({| sl_segments := sl_segments sl; sl_doc_id_map := sl_doc_id_map sl;
      sl_data_dir := sl_data_dir sl;
      sl_next_segment_seq := wrap 64 (sl_next_segment_seq sl + 1) |},
   segment_name (sl_next_segment_seq sl)).

Definition add_segment (entry : SegmentEntry) : Obj SegmentList unit :=
  sl ← get_self;
  m ← obj_lift (map_docs (se_segment_id entry) (se_reader entry) (sl_doc_id_map sl));
  modify_self (set_segments (sl_segments sl ++ [entry]) m).

Definition replace_segments (old_ids : list string) (new_entry : SegmentEntry)
  : Obj SegmentList unit :=
  sl ← get_self;
  let m := filter (fun kv => dl_segment_id kv.2 ∉ old_ids) (sl_doc_id_map sl) in
  m ← obj_lift (map_docs (se_segment_id new_entry) (se_reader new_entry) m);
  modify_self (set_segments
    (filter (fun s => se_segment_id s ∉ old_ids) (sl_segments sl) ++ [new_entry]) m).

Definition readers (sl : SegmentList) : list (SegmentReader * SegmentStatistics) :=
  (fun e => (se_reader e, se_stats e)) <$> sl_segments sl.

(** [segments.iter().find(|s| s.segment_id == id)]. *)
Definition find_segment (sl : SegmentList) (id : string) : option SegmentEntry :=
  find (fun s => bool_decide (se_segment_id s = id)) (sl_segments sl).

Definition sl_mark_deleted (doc_id : Z) : Obj SegmentList bool :=
  sl ← get_self;
  match sl_doc_id_map sl !! doc_id with
  | None => mret false
  | Some loc =>
      match find_segment sl (dl_segment_id loc) with
      | None => mret false
      | Some entry =>
          _ ← obj_io (mark_deleted (se_dir entry) (dl_local_doc_id loc));
          _ ← modify_self (set_segments (sl_segments sl) (delete doc_id (sl_doc_id_map sl)));
          mret true
      end
  end.

Definition sl_get_doc (sl : SegmentList) (doc_id : Z) : Result (option Document) :=
  match sl_doc_id_map sl !! doc_id with
  | None => Ret None
  | Some loc =>
      match find_segment sl (dl_segment_id loc) with
      | None => Ret None
      | Some entry => get_doc (se_reader entry) (dl_local_doc_id loc)
      end
  end.

Definition segment_count (sl : SegmentList) : nat := length (sl_segments sl).
Definition total_live_docs (sl : SegmentList) : Z :=
  foldr (fun e n => Z.of_nat (rb_len (all_live_docs (se_reader e))) + n) 0 (sl_segments sl).

(** ** Merging ([merge.rs]) *)
Record TieredMergePolicy := mkTieredMergePolicy {
  min_segments_to_merge : nat;
  max_merge_at_once : nat;
}.
Definition TieredMergePolicy_default : TieredMergePolicy :=
  {| min_segments_to_merge := 3; max_merge_at_once := 10 |}.

Definition find_merges (p : TieredMergePolicy) (segments : list SegmentEntry)
  : Result (list (list string)) :=
  if (length segments <? min_segments_to_merge p)%nat then Ret []
  else
    let indexed := imap (fun i e => (i, sm_doc_count (sr_meta (se_reader e)))) segments in
    let indexed := sort_by (cmp_on snd Z.compare) indexed in
    to_merge ← mapM (fun ic : nat * Z => e ← index segments ic.1; Ret (se_segment_id e))
                 (take (max_merge_at_once p) indexed);
    Ret (if (min_segments_to_merge p <=? length to_merge)%nat then [to_merge] else []).

(** The documents of a segment its reader still returns. *)
Definition collect_docs (ids : SegmentReader -> list Z) (docs : list Document)
    (reader : SegmentReader) : Result (list Document) :=
  try_fold (fun docs local_id =>
    doc ← get_doc reader local_id;
    Ret (match doc with Some doc => docs ++ [doc] | None => docs end)) docs (ids reader).

Definition all_ids (reader : SegmentReader) : list Z := ziota (sm_doc_count (sr_meta reader)).

Definition execute_merge (schema : IndexSchema) (sources : list SegmentEntry)
    (new_segment_id : string) (new_dir : path) : IO SegmentEntry :=
  merged_docs ← lift (try_fold (collect_docs all_ids) [] (se_reader <$> sources));
  '(reader, stats) ← write_segment schema new_segment_id merged_docs new_dir;
  mret (mkSegmentEntry new_segment_id new_dir reader stats).
End SegmentList.

(** ** What the segments of a list hold *)

(** A segment: its documents, those its reader knows deleted, and those marked
    on disk. *)
Record Contents `{IL : IndexLibs} := mkContents {
  cn_docs : list Document;
  cn_mem : RoaringBitmap;
  cn_disk : RoaringBitmap;
}.
Arguments mkContents {IL} _ _ _.

Section Docs.
Context `{ILL : IndexLaws}.

Definition doc_at (docs : list Document) (b : RoaringBitmap) (i : Z) : option Document :=
  if rb_contains b i then None else docs !! Z.to_nat i.
(** The documents not deleted, in order. *)
Definition live_docs (docs : list Document) (b : RoaringBitmap) : list Document :=
  omap (doc_at docs b) (ziota (Z.of_nat (length docs))).
Definition live_mem (c : Contents) : list Document := live_docs (cn_docs c) (cn_mem c).
Definition live_disk (c : Contents) : list Document := live_docs (cn_docs c) (cn_disk c).

Lemma elem_of_live_docs docs b doc :
  doc ∈ live_docs docs b <->
    exists i, 0 <= i /\ docs !! Z.to_nat i = Some doc /\ rb_contains b i = false.
Proof.
  unfold live_docs, doc_at. rewrite list_elem_of_omap. split.
  - intros (i & Hi%elem_of_ziota & Hd). destruct (rb_contains b i) eqn:E; [done|].
    exists i. split_and!; [lia|done|done].
  - intros (i & Hi & Hd & Hb). exists i. rewrite elem_of_ziota, Hb. split; [|done].
    apply lookup_lt_Some in Hd. lia.
Qed.

(** Nothing deleted: all documents. *)
Lemma live_docs_all docs b : (forall x, rb_contains b x = false) -> live_docs docs b = docs.
Proof.
  intros Hb. unfold live_docs, ziota. rewrite Nat2Z.id.
  assert (forall l k, (forall i, l !! i = docs !! (k + i)%nat) ->
    omap (doc_at docs b) (Z.of_nat <$> seq k (length l)) = l) as H.
  { induction l as [|x l IH]; intros k Hl; [done|]. cbn [length seq fmap list_fmap].
    pose proof (Hl 0%nat) as H0. rewrite Nat.add_0_r in H0. cbn in H0.
    cbn [omap list_omap]. unfold doc_at at 1. rewrite Hb, Nat2Z.id, <- H0. f_equal.
    apply IH. intros i. specialize (Hl (S i)). rewrite Nat.add_succ_r in Hl. exact Hl. }
  by apply H.
Qed.

Lemma live_docs_submseteq docs b1 b2 :
  (forall x, rb_contains b1 x = true -> rb_contains b2 x = true) ->
  live_docs docs b2 ⊆+ live_docs docs b1.
Proof.
  intros Hb. unfold live_docs. generalize (ziota (Z.of_nat (length docs))). intros l.
  induction l as [|i l IH]; [done|]. cbn [omap list_omap].
  destruct (doc_at docs b2 i) as [x|] eqn:E2.
  - assert (doc_at docs b1 i = Some x) as ->; [|by apply submseteq_skip].
    unfold doc_at in *. destruct (rb_contains b1 i) eqn:E1; [|by destruct (rb_contains b2 i)].
    by rewrite (Hb _ E1) in E2.
  - destruct (doc_at docs b1 i); [by apply submseteq_cons|done].
Qed.

(** Documents collected from a reader, for ids from [0]. *)
Lemma collect_merge_docs_spec schema r docs b ids acc :
  segment_holds schema r docs b -> Forall (fun i => 0 <= i) (ids r) ->
  collect_docs ids acc r = Ret (acc ++ omap (doc_at docs b) (ids r)).
Proof.
  intros Hr. unfold collect_docs. revert acc. induction (ids r) as [|i l IH]; intros acc Hi.
  { by rewrite app_nil_r. }
  apply Forall_cons in Hi as [Hi Hl]. cbn [try_fold omap list_omap].
  rewrite (get_doc_spec schema r docs b Hr) by done. fold (doc_at docs b i).
  cbn [mbind outcome_bind]. rewrite IH by done. destruct (doc_at docs b i); [|done].
  by rewrite <- app_assoc.
Qed.

Lemma omap_filter_doc_at docs b (l : list Z) :
  omap (doc_at docs b) (filter (fun i => rb_contains b i = false) l) = omap (doc_at docs b) l.
Proof.
  induction l as [|i l IH]; [done|]. rewrite filter_cons. cbn [omap list_omap].
  unfold doc_at at 2. destruct (rb_contains b i) eqn:E.
  - by rewrite decide_False.
  - rewrite decide_True by done. cbn [omap list_omap]. unfold doc_at at 1. by rewrite E, IH.
Qed.

Lemma collect_all schema r docs b acc :
  segment_holds schema r docs b -> collect_docs all_ids acc r = Ret (acc ++ live_docs docs b).
Proof.
  intros Hr. rewrite (collect_merge_docs_spec schema r docs b) by (done ||
    (apply Forall_forall; intros i; unfold all_ids; rewrite elem_of_ziota; lia)).
  unfold all_ids, live_docs. by rewrite (sh_count _ _ _ _ Hr).
Qed.

Lemma collect_live schema r docs b acc :
  segment_holds schema r docs b ->
  collect_docs (fun r => rb_iter (all_live_docs r)) acc r = Ret (acc ++ live_docs docs b).
Proof.
  intros Hr. pose proof (all_live_docs_iter schema r docs b Hr) as Hit.
  rewrite (collect_merge_docs_spec schema r docs b); [|done|].
  - unfold live_docs. by rewrite Hit, omap_filter_doc_at.
  - rewrite Hit. apply Forall_forall. intros i [_ Hi%elem_of_ziota]%list_elem_of_filter. lia.
Qed.

(** The location map after registering a segment. *)
Definition register (id : string) (docs : list Document) (b : RoaringBitmap)
    (m : gmap Z DocLocation) (i : Z) : gmap Z DocLocation :=
  match doc_at docs b i with
  | Some doc => <[doc_id doc := mkDocLocation id i]> m
  | None => m
  end.

Lemma map_docs_spec schema id r docs b m :
  segment_holds schema r docs b ->
  map_docs id r m = Ret (foldl (register id docs b) m (ziota (Z.of_nat (length docs)))).
Proof.
  intros Hr. unfold map_docs. rewrite (sh_count _ _ _ _ Hr).
  assert (Forall (fun i => 0 <= i) (ziota (Z.of_nat (length docs)))) as Hi.
  { apply Forall_forall. intros i. rewrite elem_of_ziota. lia. }
  revert m. induction Hi as [|i l Hi _ IH]; intros m; [done|]. cbn [try_fold foldl].
  assert (map_doc id r m i = Ret (register id docs b m i)) as ->; [|apply IH].
  unfold map_doc, register. rewrite (get_doc_spec schema r docs b Hr) by done.
  fold (doc_at docs b i). cbn [mbind outcome_bind]. by destruct (doc_at docs b i).
Qed.

(** Where a location of the map comes from. *)
Lemma register_lookup id docs b (l : list Z) : forall m k loc,
  foldl (register id docs b) m l !! k = Some loc ->
  m !! k = Some loc \/
  (exists i doc, i ∈ l /\ loc = mkDocLocation id i /\ doc_at docs b i = Some doc /\ doc_id doc = k).
Proof.
  induction l as [|i l IH]; intros m k loc; cbn [foldl]; [by left|].
  intros [H|(j & doc & ? & ? & ? & ?)]%IH.
  - unfold register in H. destruct (doc_at docs b i) as [doc|] eqn:E; [|by left].
    apply lookup_insert_Some in H as [[<- <-]|[_ H]]; [|by left].
    right. exists i, doc. split_and!; [by left|done..].
  - right. exists j, doc. split_and!; [by right|done..].
Qed.

Lemma register_is_Some id docs b (l : list Z) : forall m k,
  is_Some (m !! k) \/ (exists i doc, i ∈ l /\ doc_at docs b i = Some doc /\ doc_id doc = k) ->
  is_Some (foldl (register id docs b) m l !! k).
Proof.
  induction l as [|i l IH]; intros m k; cbn [foldl].
  { intros [?|(j & ? & Hj%elem_of_nil & _)]; done. }
  intros [H|(j & doc & [->|Hj]%elem_of_cons & Hd & Hk)]; apply IH.
  - left. unfold register. destruct (doc_at docs b i) as [doc|]; [|done].
    destruct (decide (doc_id doc = k)) as [<-|]; [by rewrite lookup_insert_eq|].
    by rewrite lookup_insert_ne.
  - left. unfold register. by rewrite Hd, <- Hk, lookup_insert_eq.
  - right. eauto.
Qed.
End Docs.

(** ** The invariant of a segment list *)
Section ListInvariant.
Context `{ILL : IndexLaws}.
Context (schema : IndexSchema).

Record entry_ok (sdir : path) (d : Disk) (e : SegmentEntry) (c : Contents) : Prop := {
  eo_holds : segment_holds schema (se_reader e) (cn_docs c) (cn_mem c);
  eo_disk : segment_on_disk schema (se_segment_id e) (cn_docs c) (cn_disk c) (se_dir e) d;
  eo_mem : forall x, rb_contains (cn_mem c) x = true -> rb_contains (cn_disk c) x = true;
  eo_dir : se_dir e = join sdir (se_segment_id e);
  eo_exists : se_dir e ∈ dk_dirs d;
}.

Definition named_below (n : Z) (id : string) : Prop :=
  exists k, id = segment_name k /\ 0 <= k < n.

(** [stale]: directories of replaced segments that are still on disk. *)
Record list_ok (sl : SegmentList) (d : Disk) (cs : list Contents) (stale : list string) : Prop := {
  lo_entries : Forall2 (entry_ok (sl_data_dir sl) d) (sl_segments sl) cs;
  lo_ids : NoDup (se_segment_id <$> sl_segments sl);
  lo_named : Forall (named_below (sl_next_segment_seq sl)) (se_segment_id <$> sl_segments sl);
  lo_next : in_width 64 (sl_next_segment_seq sl);
  lo_data : sl_data_dir sl ∈ dk_dirs d /\ sl_data_dir sl <> [];
  lo_stale : Forall (fun id => named_below (sl_next_segment_seq sl) id /\
                               join (sl_data_dir sl) id ∈ dk_dirs d) stale;
  lo_files : forall name file, starts_with name "seg-" = true ->
    is_Some (dk_files d !! join (join (sl_data_dir sl) name) file) ->
    name ∈ (se_segment_id <$> sl_segments sl) \/ name ∈ stale;
  lo_map : forall id loc, sl_doc_id_map sl !! id = Some loc ->
    exists e c doc, (e, c) ∈ zip (sl_segments sl) cs /\
      se_segment_id e = dl_segment_id loc /\ 0 <= dl_local_doc_id loc /\
      doc_at (cn_docs c) (cn_mem c) (dl_local_doc_id loc) = Some doc /\ doc_id doc = id;
}.

(** What other components leave alone. *)
Record seg_frame (sdir : path) (d d' : Disk) : Prop := {
  sf_files : forall name file, starts_with name "seg-" = true ->
    dk_files d' !! join (join sdir name) file = dk_files d !! join (join sdir name) file;
  sf_dirs : forall name, starts_with name "seg-" = true ->
    join sdir name ∈ dk_dirs d -> join sdir name ∈ dk_dirs d';
  sf_data : sdir ∈ dk_dirs d -> sdir ∈ dk_dirs d';
}.

Lemma segment_name_seg n : starts_with (segment_name n) "seg-" = true.
Proof. apply starts_with_app. Qed.

Lemma named_seg n id : named_below n id -> starts_with id "seg-" = true.
Proof. intros (k & -> & _). apply segment_name_seg. Qed.

Lemma segment_name_inj a b :
  in_width 64 a -> in_width 64 b -> segment_name a = segment_name b -> a = b.
Proof.
  unfold in_width, segment_name. intros Ha Hb H.
  apply (zero_pad_inj 6); [lia|lia|]. by simplify_eq.
Qed.

(** A new name is not used yet. *)
Lemma named_below_fresh n m id : in_width 64 n -> n <= m -> in_width 64 m ->
  named_below n id -> id <> segment_name m.
Proof.
  intros Hn Hnm Hm (k & -> & Hk) E. apply segment_name_inj in E; unfold in_width in *; lia.
Qed.

Lemma named_below_mono n m id : n <= m -> named_below n id -> named_below m id.
Proof. intros Hn (k & -> & Hk). exists k. split; [done|lia]. Qed.

Lemma entry_ok_frame sdir d d' e c :
  seg_frame sdir d d' -> starts_with (se_segment_id e) "seg-" = true ->
  entry_ok sdir d e c -> entry_ok sdir d' e c.
Proof.
  intros [Hf Hd _] Hs [H1 H2 H3 H4 H5]. split; [done| |done|done|].
  - eapply segment_on_disk_frame; [|exact H2]. intros n. rewrite H4. by apply Hf.
  - rewrite H4 in *. by apply Hd.
Qed.

Lemma list_ok_frame sl d d' cs stale :
  seg_frame (sl_data_dir sl) d d' -> list_ok sl d cs stale -> list_ok sl d' cs stale.
Proof.
  intros Hfr [H1 H2 H3 H4 [H5 H5'] H6 H7 H8]. split; [| |done|done| | | |done].
  - apply Forall_fmap in H3. clear -H1 H3 Hfr. induction H1 as [|e c es cs He _ IH]; [constructor|].
    apply Forall_cons in H3 as [Hn H3]. constructor; [|by apply IH].
    eapply entry_ok_frame; [done| |done]. by eapply named_seg.
  - done.
  - split; [by apply (sf_data _ _ _ Hfr)|done].
  - eapply Forall_impl; [exact H6|]. intros id [Hn Hd]. split; [done|].
    apply (sf_dirs _ _ _ Hfr); [by eapply named_seg|done].
  - intros name file Hs Hf. rewrite (sf_files _ _ _ Hfr) in Hf by done. by eapply H7.
Qed.

(** A fresh directory for a new segment. *)
Lemma next_segment_dir sl d cs stale file :
  list_ok sl d cs stale ->
  dk_files d !! join (join (sl_data_dir sl) (segment_name (sl_next_segment_seq sl))) file = None.
Proof.
  intros H. apply eq_None_not_Some. intros Hs.
  apply (lo_files _ _ _ _ H) in Hs as [Hs|Hs]; [| |apply segment_name_seg].
  - pose proof (proj1 (Forall_forall _ _) (lo_named _ _ _ _ H) _ Hs) as Hn.
    apply (named_below_fresh _ _ _ (lo_next _ _ _ _ H) (Z.le_refl _) (lo_next _ _ _ _ H) Hn).
    done.
  - pose proof (proj1 (Forall_forall _ _) (lo_stale _ _ _ _ H) _ Hs) as [Hn _].
    apply (named_below_fresh _ _ _ (lo_next _ _ _ _ H) (Z.le_refl _) (lo_next _ _ _ _ H) Hn).
    done.
Qed.

Definition fresh_contents (docs : list Document) : Contents := mkContents docs rb_new rb_new.

Lemma live_fresh docs : live_mem (fresh_contents docs) = docs.
Proof. apply live_docs_all, rb_contains_new. Qed.

(** Writing the next segment. *)
Lemma new_segment_spec sl d cs stale docs :
  list_ok sl d cs stale -> segment_fits schema docs ->
  let id := segment_name (sl_next_segment_seq sl) in
  let dir := join (sl_data_dir sl) id in
  exists d' r st, write_segment schema id docs dir d = (d', Ret (r, st)) /\
    entry_ok (sl_data_dir sl) d'
      {| se_segment_id := id; se_dir := dir; se_reader := r; se_stats := st |}
      (fresh_contents docs) /\
    (forall p, parent p <> dir -> dk_files d' !! p = dk_files d !! p) /\
    (forall p, p ∈ dk_dirs d -> p ∈ dk_dirs d').
Proof.
  intros Hl Hfit id dir. assert (dir <> []) as Hne by (unfold dir, join; by destruct (sl_data_dir sl)).
  destruct (write_segment_spec schema id docs dir d Hfit Hne) as
    (d' & r & st & Hw & Hr & _ & Hs & _ & Hdirs & Hfiles).
  { by eapply next_segment_dir. }
  exists d', r, st. split_and!; [done| |done|].
  - split; cbn; [done|done|done|done|]. rewrite Hdirs.
    pose proof (elem_of_prefixes_self dir Hne). set_solver.
  - intros p Hp. rewrite Hdirs. set_solver.
Qed.

(** The contents of the segments that stay when [old] is replaced. *)
Definition kept (old : list string) (segments : list SegmentEntry) (cs : list Contents)
  : list Contents := (filter (fun p => se_segment_id p.1 ∉ old) (zip segments cs)).*2.

Lemma kept_zip old (segments : list SegmentEntry) cs :
  length segments = length cs ->
  zip (filter (fun e => se_segment_id e ∉ old) segments) (kept old segments cs)
    = filter (fun p => se_segment_id p.1 ∉ old) (zip segments cs).
Proof.
  unfold kept. revert cs. induction segments as [|e segments IH]; intros [|c cs]; try done.
  intros [= H]. cbn [zip zip_with]. rewrite !filter_cons. cbn [fst].
  case_decide; cbn [fmap list_fmap zip zip_with snd]; [f_equal|]; by apply IH.
Qed.

Lemma kept_Forall2 (P : SegmentEntry -> Contents -> Prop) old segments cs :
  Forall2 P segments cs ->
  Forall2 P (filter (fun e => se_segment_id e ∉ old) segments) (kept old segments cs).
Proof.
  unfold kept. induction 1 as [|e c segments cs He _ IH]; [constructor|].
  cbn [zip zip_with]. rewrite !filter_cons. cbn [fst].
  case_decide; [|done]. cbn [fmap list_fmap snd]. by constructor.
Qed.

Lemma kept_nil segments cs : length segments = length cs -> kept [] segments cs = cs.
Proof.
  intros H. unfold kept. rewrite filter_all; [|intros; apply not_elem_of_nil].
  revert cs H. induction segments as [|e segments IH]; intros [|c cs] [=]; [done|].
  cbn. f_equal. by apply IH.
Qed.

Lemma fmap_filter_ids (old : list string) (segments : list SegmentEntry) :
  se_segment_id <$> filter (fun e => se_segment_id e ∉ old) segments
    = filter (fun id : string => id ∉ old) (se_segment_id <$> segments).
Proof.
  induction segments as [|e segments IH]; [done|]. cbn [fmap list_fmap].
  rewrite !filter_cons. case_decide; [|done]. cbn [fmap list_fmap]. by f_equal.
Qed.

(** *** A new segment in three steps: a name, the files, the list *)

(** [next_segment_id]: the name is taken, nothing else happens. *)
Definition bumped (sl : SegmentList) : SegmentList :=
  {| sl_segments := sl_segments sl; sl_doc_id_map := sl_doc_id_map sl;
     sl_data_dir := sl_data_dir sl; sl_next_segment_seq := sl_next_segment_seq sl + 1 |}.

Lemma bumped_ok sl d cs stale :
  list_ok sl d cs stale -> sl_next_segment_seq sl + 1 < 2 ^ 64 -> list_ok (bumped sl) d cs stale.
Proof.
  intros [H1 H2 H3 H4 H5 H6 H7 H8] Hn.
  split; cbn [bumped sl_segments sl_doc_id_map sl_data_dir sl_next_segment_seq]; try done.
  - eapply Forall_impl; [exact H3|]. intros id. apply named_below_mono. lia.
  - unfold in_width in *. lia.
  - eapply Forall_impl; [exact H6|]. intros id [Hb Hd]. split; [|done].
    eapply named_below_mono; [|exact Hb]. lia.
Qed.

(** Files appear in the directory of a name that no segment has. *)
Lemma written_ok sl d d' cs stale id :
  list_ok sl d cs stale -> named_below (sl_next_segment_seq sl) id ->
  id ∉ (se_segment_id <$> sl_segments sl) ->
  (forall p, parent p <> join (sl_data_dir sl) id -> dk_files d' !! p = dk_files d !! p) ->
  (forall p, p ∈ dk_dirs d -> p ∈ dk_dirs d') -> join (sl_data_dir sl) id ∈ dk_dirs d' ->
  list_ok sl d' cs (stale ++ [id]).
Proof.
  intros [H1 H2 H3 H4 [H5 H5'] H6 H7 H8] Hb Hid Hfiles Hdirs Hdir.
  assert (forall name n, name <> id ->
    dk_files d' !! join (join (sl_data_dir sl) name) n
      = dk_files d !! join (join (sl_data_dir sl) name) n) as Hother.
  { intros name n Hne. apply Hfiles. rewrite parent_join. by intros [_ ?]%join_inj. }
  split; try done.
  - clear -H1 Hid Hother Hdirs.
    induction H1 as [|e0 c es cs [G1 G2 G3 G4 G5] _ IH]; [constructor|].
    cbn [fmap list_fmap] in Hid. apply not_elem_of_cons in Hid as [Hne Hid].
    constructor; [|by apply IH]. split; [done| |done|done|by apply Hdirs].
    eapply segment_on_disk_frame; [|exact G2]. intros n. rewrite G4. apply Hother. congruence.
  - split; [by apply Hdirs|done].
  - apply Forall_app. split; [|by repeat constructor].
    eapply Forall_impl; [exact H6|]. intros x [? ?]. split; [done|by apply Hdirs].
  - intros name file Hs Hf. destruct (decide (name = id)) as [->|Hne].
    { right. apply elem_of_app. right. by apply list_elem_of_singleton. }
    rewrite Hother in Hf by done. destruct (H7 name file Hs Hf); [by left|].
    right. apply elem_of_app. by left.
Qed.

(** The list after a written entry has replaced the segments [old]. *)
Definition registered (sl : SegmentList) (old : list string) (e : SegmentEntry)
    (docs : list Document) : SegmentList :=
  {| sl_segments := filter (fun s => se_segment_id s ∉ old) (sl_segments sl) ++ [e];
     sl_doc_id_map := foldl (register (se_segment_id e) docs rb_new)
       (filter (fun kv => dl_segment_id kv.2 ∉ old) (sl_doc_id_map sl))
       (ziota (Z.of_nat (length docs)));
     sl_data_dir := sl_data_dir sl;
     sl_next_segment_seq := sl_next_segment_seq sl |}.

Lemma registered_ok sl d cs stale docs old e :
  list_ok sl d cs stale -> entry_ok (sl_data_dir sl) d e (fresh_contents docs) ->
  named_below (sl_next_segment_seq sl) (se_segment_id e) ->
  se_segment_id e ∉ (se_segment_id <$> sl_segments sl) ->
  list_ok (registered sl old e docs) d (kept old (sl_segments sl) cs ++ [fresh_contents docs])
    (filter (fun id : string => id <> se_segment_id e) stale
     ++ filter (fun id : string => id ∈ old) (se_segment_id <$> sl_segments sl)).
Proof.
  intros [H1 H2 H3 H4 H5 H6 H7 H8] He Hb Hid.
  assert (length (sl_segments sl) = length cs) as Hlen by by eapply Forall2_length.
  unfold registered. split; cbn [sl_segments sl_doc_id_map sl_data_dir sl_next_segment_seq]; try done.
  - apply Forall2_app; [by apply kept_Forall2|]. constructor; [exact He|constructor].
  - rewrite fmap_app, fmap_filter_ids. apply NoDup_app. split_and!.
    + by apply NoDup_filter.
    + by intros id [_ Hin]%list_elem_of_filter ->%list_elem_of_singleton.
    + apply NoDup_singleton.
  - rewrite fmap_app, fmap_filter_ids. apply Forall_app. split; [|by repeat constructor].
    apply Forall_forall. intros id [_ Hin]%list_elem_of_filter.
    apply (proj1 (Forall_forall _ _) H3 _ Hin).
  - apply Forall_app. split.
    + apply Forall_forall. intros id [_ Hin]%list_elem_of_filter.
      apply (proj1 (Forall_forall _ _) H6 _ Hin).
    + apply Forall_forall. intros id [_ Hin]%list_elem_of_filter.
      split; [apply (proj1 (Forall_forall _ _) H3 _ Hin)|].
      apply list_elem_of_fmap in Hin as (e0 & -> & Hin).
      apply list_elem_of_lookup in Hin as [i Hi].
      destruct (Forall2_lookup_l _ _ _ _ _ H1 Hi) as (c & _ & [_ _ _ G4 G5]). by rewrite <- G4.
  - intros name file Hs Hf. rewrite fmap_app, fmap_filter_ids.
    destruct (decide (name = se_segment_id e)) as [->|Hne].
    { left. apply elem_of_app. right. by apply list_elem_of_singleton. }
    destruct (H7 name file Hs Hf) as [Hin|Hin].
    + destruct (decide (name ∈ old)).
      * right. apply elem_of_app. right. by apply list_elem_of_filter.
      * left. apply elem_of_app. left. by apply list_elem_of_filter.
    + right. apply elem_of_app. left. by apply list_elem_of_filter.
  - intros id loc Hm. rewrite zip_with_app, kept_zip by
      (rewrite ?(Forall2_length _ _ _ (kept_Forall2 _ old _ _ H1)); done).
    apply register_lookup in Hm as [Hm|(i & doc & Hi%elem_of_ziota & -> & Hd & Hdid)].
    + apply map_lookup_filter_Some in Hm as [Hm Hold]. cbn in Hold.
      destruct (H8 id loc Hm) as (e0 & c & doc & Hz & Hseg & Hrest).
      exists e0, c, doc. split; [|done]. apply elem_of_app. left.
      apply list_elem_of_filter. cbn. by rewrite Hseg.
    + exists e, (fresh_contents docs), doc. split_and!; [|done|cbn; lia|done|done].
      apply elem_of_app. right. by left.
Qed.

(** The three steps in a row. *)
Definition installed (sl : SegmentList) (old : list string) (e : SegmentEntry)
    (docs : list Document) : SegmentList := registered (bumped sl) old e docs.

Lemma next_name_unused sl d cs stale :
  list_ok sl d cs stale ->
  segment_name (sl_next_segment_seq sl) ∉ (se_segment_id <$> sl_segments sl) /\
  segment_name (sl_next_segment_seq sl) ∉ stale.
Proof.
  intros Hl. pose proof (lo_next _ _ _ _ Hl) as Hn.
  assert (forall id, named_below (sl_next_segment_seq sl) id ->
    id <> segment_name (sl_next_segment_seq sl)) as Hnew
    by (intros id Hb; by eapply named_below_fresh).
  split; intros Hin.
  - by apply (Hnew _ (proj1 (Forall_forall _ _) (lo_named _ _ _ _ Hl) _ Hin)).
  - by apply (Hnew _ (proj1 (proj1 (Forall_forall _ _) (lo_stale _ _ _ _ Hl) _ Hin))).
Qed.

Lemma installed_ok sl d d' cs stale docs old e :
  list_ok sl d cs stale -> sl_next_segment_seq sl + 1 < 2 ^ 64 ->
  se_segment_id e = segment_name (sl_next_segment_seq sl) ->
  entry_ok (sl_data_dir sl) d' e (fresh_contents docs) ->
  (forall p, parent p <> se_dir e -> dk_files d' !! p = dk_files d !! p) ->
  (forall p, p ∈ dk_dirs d -> p ∈ dk_dirs d') ->
  list_ok (installed sl old e docs) d' (kept old (sl_segments sl) cs ++ [fresh_contents docs])
    (stale ++ filter (fun id : string => id ∈ old) (se_segment_id <$> sl_segments sl)).
Proof.
  intros Hl Hn Hid He Hfiles Hdirs. destruct (next_name_unused _ _ _ _ Hl) as [Hfresh Hstale].
  rewrite <- Hid in Hfresh, Hstale. rewrite (eo_dir _ _ _ _ He) in Hfiles.
  assert (named_below (sl_next_segment_seq (bumped sl)) (se_segment_id e)) as Hb.
  { rewrite Hid. pose proof (lo_next _ _ _ _ Hl) as [Hpos _]. eexists. cbn. split; [done|lia]. }
  pose proof (written_ok _ _ d' _ _ _ (bumped_ok _ _ _ _ Hl Hn) Hb Hfresh Hfiles Hdirs) as Hw.
  pose proof (eo_exists _ _ _ _ He) as Hdir. rewrite (eo_dir _ _ _ _ He) in Hdir.
  specialize (Hw Hdir).
  pose proof (registered_ok _ _ _ _ _ old _ Hw He Hb Hfresh) as Hr. cbn [bumped sl_segments] in Hr.
  rewrite filter_app in Hr. rewrite filter_all in Hr by congruence.
  rewrite filter_none in Hr by (intros x ->%list_elem_of_singleton Hx; by destruct Hx).
  by rewrite app_nil_r in Hr.
Qed.

(** An id the map locates stays located when its segment is replaced by one
    with that segment's live documents; the ids of the new segment are located. *)
Lemma installed_registers sl old e docs doc :
  doc ∈ docs -> is_Some (sl_doc_id_map (installed sl old e docs) !! doc_id doc).
Proof.
  intros Hdoc. apply list_elem_of_lookup in Hdoc as [i Hi]. cbn [installed sl_doc_id_map].
  apply register_is_Some. right. exists (Z.of_nat i), doc. split_and!; [|unfold doc_at|done].
  - apply elem_of_ziota. apply lookup_lt_Some in Hi. lia.
  - by rewrite rb_contains_new, Nat2Z.id.
Qed.

Lemma installed_located sl d cs stale old e docs id :
  list_ok sl d cs stale ->
  (forall e0 c doc, (e0, c) ∈ zip (sl_segments sl) cs -> se_segment_id e0 ∈ old ->
     doc ∈ live_mem c -> doc ∈ docs) ->
  is_Some (sl_doc_id_map sl !! id) -> is_Some (sl_doc_id_map (installed sl old e docs) !! id).
Proof.
  intros Hl Hold [loc Hm]. destruct (decide (dl_segment_id loc ∈ old)) as [Hin|Hout].
  - destruct (lo_map _ _ _ _ Hl id loc Hm) as (e0 & c & doc & Hz & He & Hpos & Hd & <-).
    apply installed_registers, (Hold e0 c doc Hz); [by rewrite He|].
    apply elem_of_live_docs. exists (dl_local_doc_id loc).
    unfold doc_at in Hd. by destruct (rb_contains (cn_mem c) _).
  - cbn [installed sl_doc_id_map]. apply register_is_Some. left. exists loc.
    by apply map_lookup_filter_Some.
Qed.

Lemma next_segment_id_spec sl :
  in_width 64 (sl_next_segment_seq sl) -> sl_next_segment_seq sl + 1 < 2 ^ 64 ->
  next_segment_id sl = (bumped sl, segment_name (sl_next_segment_seq sl)).
Proof.
  intros H1 H2. unfold next_segment_id. rewrite wrap_id; [done|unfold in_width in *; lia].
Qed.

Lemma replace_segments_registers sl d old e docs :
  segment_holds schema (se_reader e) docs rb_new ->
  replace_segments old e (sl, d) = ((registered sl old e docs, d), Ret tt).
Proof.
  intros He. unfold replace_segments. erewrite obj_bind_ret by reflexivity. cbn zeta.
  cbn [fst]. erewrite obj_bind_ret.
  2: { unfold obj_lift. rewrite (map_docs_spec schema _ _ docs rb_new) by done. reflexivity. }
  reflexivity.
Qed.
Lemma replace_segments_spec sl d old e docs :
  segment_holds schema (se_reader e) docs rb_new ->
  replace_segments old e (bumped sl, d) = ((installed sl old e docs, d), Ret tt).
Proof. apply replace_segments_registers. Qed.

Lemma add_segment_registers sl d e docs :
  segment_holds schema (se_reader e) docs rb_new ->
  add_segment e (sl, d) = ((registered sl [] e docs, d), Ret tt).
Proof.
  intros He. unfold add_segment. erewrite obj_bind_ret by reflexivity. cbn [fst].
  erewrite obj_bind_ret.
  2: { unfold obj_lift. rewrite (map_docs_spec schema _ _ docs rb_new) by done. reflexivity. }
  unfold modify_self, set_segments, registered. cbn [fst snd].
  rewrite filter_all by (intros; apply not_elem_of_nil).
  by rewrite map_filter_id by (intros; apply not_elem_of_nil).
Qed.
Lemma add_segment_spec sl d e docs :
  segment_holds schema (se_reader e) docs rb_new ->
  add_segment e (bumped sl, d) = ((installed sl [] e docs, d), Ret tt).
Proof. apply add_segment_registers. Qed.

Lemma not_under_short dir name : ~ under (join dir name) dir.
Proof.
  unfold under, join. rewrite length_app. cbn. intros H. apply (f_equal length) in H.
  rewrite length_take, length_app in H. cbn in H. lia.
Qed.
Lemma not_under_sibling dir a b : a <> b -> ~ under (join dir a) (join dir b).
Proof.
  intros Hne [[_ ?]%join_inj|H]%under_join; [done|]. by apply not_under_short in H.
Qed.

(** Removing the directory of a segment that is no longer in the list. *)
Lemma remove_stale_spec sl d cs stale id :
  list_ok sl d cs stale -> id ∉ (se_segment_id <$> sl_segments sl) ->
  let d' := (remove_dir_all (join (sl_data_dir sl) id) d).1 in
  (remove_dir_all (join (sl_data_dir sl) id) d).2 <> Panic /\
  list_ok sl d' cs (filter (fun n => n <> id) stale) /\
  (forall p, ~ under (join (sl_data_dir sl) id) p ->
     dk_files d' !! p = dk_files d !! p /\ (p ∈ dk_dirs d -> p ∈ dk_dirs d')).
Proof.
  intros [H1 H2 H3 H4 [H5 H5'] H6 H7 H8] Hid d'. set (dir := join (sl_data_dir sl) id) in *.
  unfold remove_dir_all in *. case_bool_decide as Hin; cbn [fst snd] in *.
  2: { split_and!; [done| |done]. rewrite filter_all; [by split|].
       intros n Hn ->. apply Hin. apply (proj1 (Forall_forall _ _) H6 _ Hn). }
  assert (forall p, ~ under dir p -> dk_files d' !! p = dk_files d !! p) as Hf.
  { intros p Hp. unfold d'. cbn. apply option_eq. intros v.
    rewrite map_lookup_filter_Some. cbn. tauto. }
  assert (forall p, ~ under dir p -> p ∈ dk_dirs d -> p ∈ dk_dirs d') as Hd.
  { intros p Hp Hpd. unfold d'. cbn. by apply elem_of_filter. }
  split_and!; [done| |by split; auto].
  assert (forall n, n <> id -> ~ under dir (join (sl_data_dir sl) n)) as Hsib
    by (intros n Hn; apply not_under_sibling; congruence).
  split.
  - clear -H1 Hid Hf Hd Hsib. induction H1 as [|e c es cs [G1 G2 G3 G4 G5] _ IH]; [constructor|].
    cbn [fmap list_fmap] in Hid. apply not_elem_of_cons in Hid as [Hne Hid].
    constructor; [|by apply IH].
    assert (se_segment_id e <> id) as Hne' by congruence.
    split; [done| |done|done|].
    + eapply segment_on_disk_frame; [|exact G2]. intros n. apply Hf. rewrite G4.
      intros [E|?]%under_join; [|by eapply Hsib].
      apply (f_equal length) in E. unfold dir, join in E. rewrite !length_app in E. cbn in E. lia.
    + rewrite G4 in *. apply Hd; [by apply Hsib|done].
  - done.
  - done.
  - done.
  - split; [|done]. apply Hd; [apply not_under_short|done].
  - apply Forall_forall. intros n [Hn Hs]%list_elem_of_filter.
    destruct (proj1 (Forall_forall _ _) H6 _ Hs) as [Hb Hdir]. split; [done|].
    apply Hd; [by apply Hsib|done].
  - intros name file Hs [v Hv]. unfold d' in Hv. cbn in Hv.
    apply map_lookup_filter_Some in Hv as [Hv Hu]. cbn in Hu.
    destruct (H7 name file Hs) as [?|?]; [by eexists|by left|].
    right. apply list_elem_of_filter. split; [|done]. intros ->. apply Hu.
    apply under_join. right. apply under_refl.
  - done.
Qed.

(** *** Deleting and looking up *)
Lemma find_segment_spec sl e :
  NoDup (se_segment_id <$> sl_segments sl) -> e ∈ sl_segments sl ->
  find_segment sl (se_segment_id e) = Some e.
Proof.
  unfold find_segment. induction (sl_segments sl) as [|x l IH]; intros Hnd Hin.
  { by apply elem_of_nil in Hin. }
  cbn [fmap list_fmap] in Hnd. apply NoDup_cons in Hnd as [Hx Hnd]. cbn [find].
  apply elem_of_cons in Hin as [->|Hin].
  - by rewrite bool_decide_true.
  - rewrite bool_decide_false; [by apply IH|]. intros E. apply Hx. rewrite E.
    by apply list_elem_of_fmap_2.
Qed.

(** Where a located document is. *)
Lemma located sl d cs stale id loc :
  list_ok sl d cs stale -> sl_doc_id_map sl !! id = Some loc ->
  exists i e c doc, sl_segments sl !! i = Some e /\ cs !! i = Some c /\
    entry_ok (sl_data_dir sl) d e c /\ find_segment sl (dl_segment_id loc) = Some e /\
    0 <= dl_local_doc_id loc /\
    doc_at (cn_docs c) (cn_mem c) (dl_local_doc_id loc) = Some doc /\ doc_id doc = id.
Proof.
  intros Hl Hm. destruct (lo_map _ _ _ _ Hl id loc Hm) as (e & c & doc & Hz & <- & Hpos & Hd & Hid).
  apply list_elem_of_lookup in Hz as [i Hi]. apply lookup_zip_with_Some in Hi as (? & ? & [= <- <-] & He & Hc).
  exists i, e, c, doc. split_and!; [done|done| | |done|done|done].
  - by eapply Forall2_lookup_lr; [apply Hl| |].
  - apply find_segment_spec; [apply Hl|]. by eapply list_elem_of_lookup_2.
Qed.

Lemma sl_get_doc_spec sl d cs stale id :
  list_ok sl d cs stale ->
  exists o, sl_get_doc sl id = Ret o /\
    match sl_doc_id_map sl !! id with
    | None => o = None
    | Some _ => exists doc c, o = Some doc /\ doc_id doc = id /\ c ∈ cs /\ doc ∈ live_mem c
    end.
Proof.
  intros Hl. unfold sl_get_doc. destruct (sl_doc_id_map sl !! id) as [loc|] eqn:Hm.
  2: { by eexists. }
  destruct (located _ _ _ _ _ _ Hl Hm) as (i & e & c & doc & _ & Hc & He & -> & Hpos & Hd & Hid).
  rewrite (get_doc_spec schema _ _ _ (eo_holds _ _ _ _ He)) by done.
  fold (doc_at (cn_docs c) (cn_mem c) (dl_local_doc_id loc)). rewrite Hd.
  eexists. split; [done|]. exists doc, c. split_and!; [done|done| |].
  - by eapply list_elem_of_lookup_2.
  - unfold doc_at in Hd. apply elem_of_live_docs. exists (dl_local_doc_id loc).
    by destruct (rb_contains (cn_mem c) _).
Qed.

Definition with_disk (c : Contents) (b : RoaringBitmap) : Contents :=
  mkContents (cn_docs c) (cn_mem c) b.

Lemma sl_mark_deleted_spec sl d cs stale id :
  list_ok sl d cs stale ->
  match sl_doc_id_map sl !! id with
  | None => sl_mark_deleted id (sl, d) = ((sl, d), Ret false)
  | Some loc =>
      exists i c doc b' d', cs !! i = Some c /\
        doc_at (cn_docs c) (cn_mem c) (dl_local_doc_id loc) = Some doc /\ doc_id doc = id /\
        0 <= dl_local_doc_id loc /\
        (forall x, rb_contains b' x = (dl_local_doc_id loc =? x) || rb_contains (cn_disk c) x) /\
        sl_mark_deleted id (sl, d)
          = ((set_segments (sl_segments sl) (delete id (sl_doc_id_map sl)) sl, d'), Ret true) /\
        list_ok (set_segments (sl_segments sl) (delete id (sl_doc_id_map sl)) sl) d'
          (<[i := with_disk c b']> cs) stale /\
        dk_dirs d' = dk_dirs d /\
        (forall p, ~ under (sl_data_dir sl) p -> dk_files d' !! p = dk_files d !! p)
  end.
Proof.
  intros Hl. destruct (sl_doc_id_map sl !! id) as [loc|] eqn:Hm.
  2: { unfold sl_mark_deleted. erewrite obj_bind_ret by reflexivity. cbn [fst]. by rewrite Hm. }
  destruct (located _ _ _ _ _ _ Hl Hm) as (i & e & c & doc & Hi & Hc & He & Hfind & Hpos & Hd & Hid).
  destruct (segment_mark_deleted _ _ _ _ _ _ (dl_local_doc_id loc) (eo_disk _ _ _ _ He)
    (eo_exists _ _ _ _ He)) as (d' & b' & Hmark & Hdisk & Hdirs & Hb' & Hfiles).
  exists i, c, doc, b', d'.
  assert (forall p, ~ under (sl_data_dir sl) p -> dk_files d' !! p = dk_files d !! p) as Hout.
  { intros p Hp. apply Hfiles. intros ->. apply Hp. rewrite (eo_dir _ _ _ _ He).
    apply under_join. right. apply under_join. right. apply under_refl. }
  split_and!; [done|done|done|done|done| | |done|done].
  - unfold sl_mark_deleted. erewrite obj_bind_ret by reflexivity. cbn [fst]. rewrite Hm, Hfind.
    erewrite obj_bind_ret by (by apply obj_io_ret). reflexivity.
  - destruct Hl as [H1 H2 H3 H4 [H5 H5'] H6 H7 H8]. unfold set_segments.
    assert (forall name n, name <> se_segment_id e ->
      dk_files d' !! join (join (sl_data_dir sl) name) n
        = dk_files d !! join (join (sl_data_dir sl) name) n) as Hother.
    { intros name n Hne. apply Hfiles. rewrite (eo_dir _ _ _ _ He).
      intros [[_ ?]%join_inj _]%join_inj. done. }
    split; cbn [sl_segments sl_doc_id_map sl_data_dir sl_next_segment_seq].
    + apply Forall2_same_length_lookup_2.
      { rewrite length_insert. by eapply Forall2_length. }
      intros j e' c' He' Hc'. destruct (decide (j = i)) as [->|Hne].
      * rewrite list_lookup_insert_eq in Hc' by by eapply lookup_lt_Some. simplify_eq.
        destruct He as [G1 G2 G3 G4 G5]. split; cbn; [done|done| |done|by rewrite Hdirs].
        intros x Hx. rewrite Hb', (G3 x Hx). apply orb_true_r.
      * rewrite list_lookup_insert_ne in Hc' by done.
        destruct (Forall2_lookup_lr _ _ _ _ _ _ H1 He' Hc') as [G1 G2 G3 G4 G5].
        split; [done| |done|done|by rewrite Hdirs].
        eapply segment_on_disk_frame; [|exact G2]. intros n. rewrite G4. apply Hother.
        intros E. apply Hne. eapply (NoDup_lookup _ _ _ _ H2).
        -- rewrite list_lookup_fmap, He'. done.
        -- rewrite list_lookup_fmap, Hi. cbn. by rewrite E.
    + done.
    + done.
    + done.
    + by rewrite Hdirs.
    + by rewrite Hdirs.
    + intros name file Hs Hf. destruct (decide (name = se_segment_id e)) as [->|Hne].
      * left. apply list_elem_of_fmap_2. by eapply list_elem_of_lookup_2.
      * rewrite Hother in Hf by done. by eapply H7.
    + intros id' loc' Hm'. apply lookup_delete_Some in Hm' as [_ Hm'].
      destruct (H8 id' loc' Hm') as (e1 & c1 & doc1 & Hz & Hrest).
      apply list_elem_of_lookup in Hz as [j Hj].
      apply lookup_zip_with_Some in Hj as (? & ? & [= <- <-] & Hj1 & Hj2).
      destruct (decide (j = i)) as [->|Hne].
      * exists e1, (with_disk c b'), doc1. simplify_eq. split; [|done].
        eapply list_elem_of_lookup_2. apply lookup_zip_with_Some. eexists _, _.
        split_and!; [done|exact Hi|]. by rewrite list_lookup_insert_eq by by eapply lookup_lt_Some.
      * exists e1, c1, doc1. split; [|done].
        eapply list_elem_of_lookup_2. apply lookup_zip_with_Some. eexists _, _.
        split_and!; [done|exact Hj1|]. by rewrite list_lookup_insert_ne.
Qed.
End ListInvariant.

(** ** Opening the list again *)
Section Reopen.
Context `{ILL : IndexLaws}.
Context (schema : IndexSchema).

(** A reopened reader knows the deletions on disk. *)
Definition reopened (c : Contents) : Contents := mkContents (cn_docs c) (cn_disk c) (cn_disk c).

Lemma seq_of_segment_name n : in_width 64 n -> seq_of (segment_name n) = Some n.
Proof.
  intros Hn. unfold seq_of, segment_name.
  rewrite (proj2 (str_strip_prefix_spec _ "seg-" (zero_pad 6 (format_u64 n)))) by done.
  cbn [mbind option_bind]. unfold in_width, u64_max in *. apply parse_unsigned_pad; lia.
Qed.

Lemma elem_of_subdirs dir d n : n ∈ subdirs dir d <-> join dir n ∈ dk_dirs d.
Proof.
  unfold subdirs. rewrite list_elem_of_omap. split.
  - intros (p & Hp%elem_of_elements & Hn). case_bool_decide as Hc; [|done]. destruct Hc as [<- Hne].
    destruct (exists_last Hne) as (q & m & ->). rewrite last_snoc in Hn. simplify_eq.
    fold (join q n) in *. by rewrite parent_join.
  - intros Hp. exists (join dir n). rewrite elem_of_elements. split; [done|].
    rewrite bool_decide_true.
    + unfold join. apply last_snoc.
    + rewrite parent_join. split; [done|]. unfold join. by destruct dir.
Qed.

Lemma NoDup_subdirs dir d : NoDup (subdirs dir d).
Proof.
  unfold subdirs. pose proof (NoDup_elements (dk_dirs d)) as Hnd.
  induction (elements (dk_dirs d)) as [|p l IH]; [constructor|].
  apply NoDup_cons in Hnd as [Hp Hnd]. cbn [omap list_omap].
  case_bool_decide as Hc; [|by apply IH]. destruct Hc as [Hpar Hne].
  destruct (last p) as [n|] eqn:Hl; [|by apply IH]. constructor; [|by apply IH].
  rewrite list_elem_of_omap. intros (q & Hq & Hn). case_bool_decide as Hc; [|done].
  destruct Hc as [Hpar' Hne']. apply Hp.
  assert (forall r, r <> [] -> last r = Some n -> parent r = dir -> r = join dir n) as Huniq.
  { intros r Hr Hlast Hpr. destruct (exists_last Hr) as (s & m & ->). rewrite last_snoc in Hlast.
    fold (join s m) in *. rewrite parent_join in Hpr. by simplify_eq. }
  by rewrite (Huniq p), <- (Huniq q).
Qed.

Context (sdir : path) (d : Disk) (segments : list SegmentEntry) (cs : list Contents).
Context (Hentries : Forall2 (entry_ok schema sdir d) segments cs).
Context (Hids : NoDup (se_segment_id <$> segments)).
Context (Hfiles : forall name file, starts_with name "seg-" = true ->
  is_Some (dk_files d !! join (join sdir name) file) -> name ∈ (se_segment_id <$> segments)).

Abbreviation ids := (se_segment_id <$> segments).

(** One directory: a segment of the list, or an empty one that is skipped. *)
Lemma open_dir_spec segs m mx name :
  starts_with name "seg-" = true ->
  (name ∉ ids /\ open_dir sdir schema (segs, m, mx) name d
      = (d, Ret (segs, m, bump_seq mx name))) \/
  (exists e c r st, (e, c) ∈ zip segments cs /\ se_segment_id e = name /\
     let e' := {| se_segment_id := name; se_dir := join sdir name; se_reader := r; se_stats := st |} in
     entry_ok schema sdir d e' (reopened c) /\
     open_dir sdir schema (segs, m, mx) name d
       = (d, Ret (segs ++ [e'], foldl (register name (cn_docs c) (cn_disk c)) m
                    (ziota (Z.of_nat (length (cn_docs c)))), bump_seq mx name))).
Proof.
  intros Hs. destruct (decide (name ∈ ids)) as [Hin|Hnot].
  - right. apply list_elem_of_fmap in Hin as (e & -> & Hin).
    apply list_elem_of_lookup in Hin as [i Hi].
    destruct (Forall2_lookup_l _ _ _ _ _ Hentries Hi) as (c & Hc & [G1 G2 G3 G4 G5]).
    rewrite G4 in G2, G5.
    destruct (segment_open _ _ _ _ _ _ G2) as (r & Ho & Hdir & Hid & Hr).
    destruct (stats_compute_ret _ _ _ _ Hr) as (st & Hst & _).
    exists e, c, r, st. cbn zeta. split_and!.
    + eapply list_elem_of_lookup_2. apply lookup_zip_with_Some. eauto.
    + done.
    + split; [exact Hr|exact G2|done|done|exact G5].
    + unfold open_dir. erewrite io_bind_ret by (unfold try_open; rewrite Ho; reflexivity).
      cbn beta iota. erewrite io_bind_ret.
      2: { unfold lift. rewrite (map_docs_spec schema _ _ _ _ _ Hr). reflexivity. }
      by erewrite io_bind_ret by (unfold lift; rewrite Hst; reflexivity).
  - left. split; [done|]. unfold open_dir.
    assert (dk_files d !! join (join sdir name) "meta.json" = None) as Hno.
    { apply eq_None_not_Some. intros H. by apply Hnot, (Hfiles _ _ Hs H). }
    erewrite io_bind_ret.
    2: { unfold try_open, sr_open, meta_read, fs_read, mbind, IO_bind. rewrite Hno. reflexivity. }
    done.
Qed.

Lemma bump_seq_ge mx name : mx <= bump_seq mx name.
Proof. unfold bump_seq. destruct (seq_of name); lia. Qed.

(** All directories. *)
Lemma open_dirs_spec dirs : NoDup dirs -> Forall (fun n => starts_with n "seg-" = true) dirs ->
  forall segs m mx, exists segs2 cs2 m',
    io_fold (open_dir sdir schema) (segs, m, mx) dirs d
      = (d, Ret (segs ++ segs2, m', foldl bump_seq mx dirs)) /\
    Forall2 (entry_ok schema sdir d) segs2 cs2 /\
    (se_segment_id <$> segs2) = filter (fun n : string => n ∈ ids) dirs /\
    (forall e2 c2, (e2, c2) ∈ zip segs2 cs2 -> exists e c, (e, c) ∈ zip segments cs /\
       se_segment_id e2 = se_segment_id e /\ c2 = reopened c) /\
    (forall id loc, m' !! id = Some loc -> m !! id = Some loc \/
       exists e c doc, (e, c) ∈ zip segs2 cs2 /\ se_segment_id e = dl_segment_id loc /\
         0 <= dl_local_doc_id loc /\
         doc_at (cn_docs c) (cn_mem c) (dl_local_doc_id loc) = Some doc /\ doc_id doc = id) /\
    (forall id, is_Some (m !! id) \/ (exists c doc, c ∈ cs2 /\ doc ∈ live_mem c /\ doc_id doc = id) ->
       is_Some (m' !! id)).
Proof.
  intros Hnd Hseg. induction Hseg as [|name dirs Hs Hseg IH]; intros segs m mx.
  { exists [], [], m. rewrite app_nil_r. split_and!; [done|constructor|done| | |].
    - intros e2 c2 H%elem_of_nil. done.
    - intros id loc H. by left.
    - intros id [?|(c & doc & H%elem_of_nil & _)]; done. }
  apply NoDup_cons in Hnd as [Hname Hnd]. specialize (IH Hnd). cbn [foldl io_fold].
  destruct (open_dir_spec segs m mx name Hs) as [[Hnot Ho]|(e & c & r & st & Hz & Hid & He & Ho)].
  - destruct (IH segs m (bump_seq mx name)) as (segs2 & cs2 & m' & H1 & H2 & H3 & Hrest).
    exists segs2, cs2, m'. split_and!; [by erewrite io_bind_ret by exact Ho|done| |apply Hrest..].
    by rewrite H3, filter_cons_False.
  - cbn zeta in *. set (e' := {| se_segment_id := name |}) in *.
    destruct (IH (segs ++ [e']) (foldl (register name (cn_docs c) (cn_disk c)) m
      (ziota (Z.of_nat (length (cn_docs c))))) (bump_seq mx name)) as (segs2 & cs2 & m' & H1 & H2 & H3 & H4 & H5 & H6).
    exists (e' :: segs2), (reopened c :: cs2), m'. split_and!.
    + erewrite io_bind_ret by exact Ho. rewrite H1. by rewrite <- app_assoc.
    + by constructor.
    + cbn [fmap list_fmap se_segment_id e']. rewrite H3, filter_cons_True; [done|].
      rewrite <- Hid. apply list_elem_of_fmap_2.
      apply list_elem_of_lookup in Hz as [i Hi]. apply lookup_zip_with_Some in Hi as (? & ? & [= <- <-] & ? & _).
      by eapply list_elem_of_lookup_2.
    + intros e2 c2 Hin. cbn [zip zip_with] in Hin. apply elem_of_cons in Hin as [[= -> ->]|Hin].
      * exists e, c. done.
      * by apply H4.
    + intros id loc Hm. cbn [zip zip_with]. destruct (H5 id loc Hm) as [Hm1|(e1 & c1 & doc & Hz1 & Hr1)].
      * apply register_lookup in Hm1 as [?|(i & doc & Hi%elem_of_ziota & -> & Hd & Hdid)]; [by left|].
        right. exists e', (reopened c), doc. split_and!; [by left|done|cbn; lia|done|done].
      * right. exists e1, c1, doc. split; [by right|done].
    + intros id Hcase. apply H6. destruct Hcase as [Hm|(c1 & doc & [->|Hc]%elem_of_cons & Hd & Hdid)].
      * left. apply register_is_Some. by left.
      * left. apply register_is_Some. right.
        unfold live_mem, live_docs in Hd. apply list_elem_of_omap in Hd as (i & Hi & Hd).
        exists i, doc. done.
      * right. by exists c1, doc.
Qed.
End Reopen.

Section OpenSpec.
Context `{ILL : IndexLaws}.
Context (schema : IndexSchema).

Lemma foldl_bump_seq dirs : forall mx, mx < u64_max ->
  Forall (fun n => forall s, seq_of n = Some s -> s < u64_max) dirs ->
  mx <= foldl bump_seq mx dirs < u64_max /\
  (forall n s, n ∈ dirs -> seq_of n = Some s -> s <= foldl bump_seq mx dirs).
Proof.
  induction dirs as [|n dirs IH]; intros mx Hmx Hs.
  { cbn. split; [lia|]. intros ? ? H%elem_of_nil. done. }
  apply Forall_cons in Hs as [Hn Hs]. cbn [foldl].
  assert (bump_seq mx n < u64_max) as Hb.
  { unfold bump_seq. destruct (seq_of n) as [s|] eqn:E; [|done]. specialize (Hn s eq_refl). lia. }
  destruct (IH (bump_seq mx n) Hb Hs) as [H1 H2]. pose proof (bump_seq_ge mx n). split; [lia|].
  intros n' s [->|Hin]%elem_of_cons Es; [|by eapply H2].
  assert (s <= bump_seq mx n) by (unfold bump_seq; rewrite Es; lia). lia.
Qed.

(** A directory that would use up the sequence numbers. *)
Definition seqs_left (sdir : path) (d : Disk) : Prop :=
  Forall (fun n => forall s, seq_of n = Some s -> s < u64_max) (segment_dirs sdir d).

Lemma zip_ids_perm segments cs segs2 cs2 :
  length segments = length cs -> length segs2 = length cs2 ->
  NoDup (se_segment_id <$> segments) ->
  (se_segment_id <$> segs2) ≡ₚ (se_segment_id <$> segments) ->
  (forall e2 c2, (e2, c2) ∈ zip segs2 cs2 -> exists e c, (e, c) ∈ zip segments cs /\
     se_segment_id e2 = se_segment_id e /\ c2 = reopened c) ->
  cs2 ≡ₚ reopened <$> cs.
Proof.
  intros Hl Hl2 Hnd Hperm Hz.
  assert (zip (se_segment_id <$> segs2) cs2 ≡ₚ zip (se_segment_id <$> segments) (reopened <$> cs)) as Hp.
  { assert (NoDup (zip (se_segment_id <$> segs2) cs2).*1) as Hnd2.
    { rewrite fst_zip by (rewrite length_fmap; lia). by rewrite Hperm. }
    apply NoDup_fmap_1 in Hnd2.
    apply submseteq_length_Permutation.
    - apply NoDup_submseteq; [done|]. intros [id c2] Hin.
      apply list_elem_of_lookup in Hin as [i Hi].
      apply lookup_zip_with_Some in Hi as (? & ? & [= <- <-] & Hi & Hc).
      rewrite list_lookup_fmap in Hi. apply fmap_Some in Hi as (e2 & He2 & ->).
      destruct (Hz e2 c2) as (e & c & Hin & -> & ->).
      { eapply list_elem_of_lookup_2. apply lookup_zip_with_Some. eauto. }
      apply list_elem_of_lookup in Hin as [j Hj].
      apply lookup_zip_with_Some in Hj as (? & ? & [= <- <-] & Hj & Hcj).
      eapply list_elem_of_lookup_2. apply lookup_zip_with_Some. eexists _, _.
      split_and!; [done| |]; rewrite list_lookup_fmap; [by rewrite Hj|by rewrite Hcj].
    - rewrite !length_zip_with, !length_fmap. apply Permutation_length in Hperm.
      rewrite !length_fmap in Hperm. lia. }
  apply (fmap_Permutation snd) in Hp.
  rewrite !snd_zip in Hp by (rewrite !length_fmap; lia). done.
Qed.

Lemma sl_open_spec sl d cs :
  list_ok schema sl d cs [] -> seqs_left (sl_data_dir sl) d ->
  exists d' sl' cs', sl_open (sl_data_dir sl) schema d = (d', Ret sl') /\
    list_ok schema sl' d' cs' [] /\ cs' ≡ₚ reopened <$> cs /\
    sl_data_dir sl' = sl_data_dir sl /\ dk_files d' = dk_files d /\
    (forall p, p ∈ dk_dirs d -> p ∈ dk_dirs d') /\
    (forall c doc, c ∈ cs' -> doc ∈ live_mem c -> is_Some (sl_doc_id_map sl' !! doc_id doc)).
Proof.
  intros Hl Hseq. set (sdir := sl_data_dir sl) in *.
  set (d' := {| dk_files := dk_files d; dk_dirs := dk_dirs d ∪ list_to_set (prefixes sdir) |}).
  set (dirs := segment_dirs sdir d').
  assert (forall n, n ∈ dirs <-> starts_with n "seg-" = true /\ join sdir n ∈ dk_dirs d) as Hdirs.
  { intros n. unfold dirs, segment_dirs. rewrite elem_of_sort_by, list_elem_of_filter, elem_of_subdirs.
    apply and_iff_compat_l. unfold d'. cbn [dk_dirs]. rewrite elem_of_union, elem_of_list_to_set.
    split; [|by left]. intros [?|Hp]; [done|]. exfalso.
    unfold prefixes in Hp. apply list_elem_of_fmap in Hp as (k & Hk & Hin%elem_of_seq).
    apply (f_equal length) in Hk. unfold join in Hk. rewrite length_app, length_take in Hk.
    cbn in Hk. lia. }
  assert (NoDup dirs) as Hnd.
  { unfold dirs, segment_dirs. rewrite sort_by_perm. apply NoDup_filter, NoDup_subdirs. }
  assert (Forall (fun n => starts_with n "seg-" = true) dirs) as Hseg
    by (apply Forall_forall; intros n Hn; by apply Hdirs).
  assert (list_ok schema sl d' cs []) as Hl'.
  { eapply list_ok_frame; [|exact Hl]. split; [done| |]; intros; unfold d'; cbn; set_solver. }
  assert (forall name file, starts_with name "seg-" = true ->
    is_Some (dk_files d' !! join (join sdir name) file) -> name ∈ (se_segment_id <$> sl_segments sl)) as Hfiles.
  { intros name file Hs Hf. destruct (lo_files _ _ _ _ _ Hl' name file Hs Hf) as [?|H%elem_of_nil]; done. }
  destruct (open_dirs_spec schema sdir d' (sl_segments sl) cs (lo_entries _ _ _ _ _ Hl') Hfiles dirs Hnd Hseg [] ∅ 0)
    as (segs2 & cs2 & m' & Hfold & H2 & H3 & H4 & H5 & H6). cbn [app] in Hfold.
  assert ((se_segment_id <$> segs2) ≡ₚ (se_segment_id <$> sl_segments sl)) as Hperm.
  { rewrite H3. apply NoDup_Permutation; [by apply NoDup_filter|apply Hl|]. intros n.
    rewrite list_elem_of_filter. split; [by intros []|]. intros Hin. split; [done|].
    apply Hdirs. split.
    - eapply named_seg. exact (proj1 (Forall_forall _ _) (lo_named _ _ _ _ _ Hl) _ Hin).
    - apply list_elem_of_fmap in Hin as (e & -> & Hin). apply list_elem_of_lookup in Hin as [i Hi].
      destruct (Forall2_lookup_l _ _ _ _ _ (lo_entries _ _ _ _ _ Hl) Hi) as (c & _ & [_ _ _ G4 G5]).
      rewrite G4 in G5. exact G5. }
  assert (Forall (fun n => forall s, seq_of n = Some s -> s < u64_max) dirs) as Hleft.
  { apply Forall_forall. intros n [Hn1 Hn2]%Hdirs. apply (proj1 (Forall_forall _ _) Hseq).
    unfold segment_dirs. by rewrite elem_of_sort_by, list_elem_of_filter, elem_of_subdirs. }
  destruct (foldl_bump_seq dirs 0) as [Hmax Hle]; [unfold u64_max; lia|done|].
  set (mx := foldl bump_seq 0 dirs) in *.
  eexists d', _, cs2. split_and!.
  - unfold sl_open. erewrite io_bind_ret by reflexivity. fold d'.
    erewrite io_bind_ret by reflexivity. fold dirs.
    erewrite io_bind_ret by exact Hfold. reflexivity.
  - unfold u64_max in Hmax.
    split; cbn [sl_segments sl_doc_id_map sl_data_dir sl_next_segment_seq].
    + exact H2.
    + rewrite Hperm. apply Hl.
    + rewrite wrap_id by (unfold in_width; lia). apply Forall_forall. intros n Hn.
      assert (n ∈ dirs) as Hnd' by (rewrite H3 in Hn; by apply list_elem_of_filter in Hn as []).
      rewrite Hperm in Hn.
      destruct (proj1 (Forall_forall _ _) (lo_named _ _ _ _ _ Hl) _ Hn) as (k & -> & Hk).
      exists k. split; [done|]. pose proof (lo_next _ _ _ _ _ Hl). unfold in_width in *.
      specialize (Hle _ k Hnd' (seq_of_segment_name k ltac:(unfold in_width; lia))). lia.
    + apply wrap_in_width. lia.
    + apply Hl'.
    + constructor.
    + intros name file Hs Hf. left. rewrite Hperm. by eapply Hfiles.
    + intros id loc Hm. destruct (H5 id loc Hm) as [Hm'|?]; [|done]. by rewrite lookup_empty in Hm'.
  - eapply zip_ids_perm; [by eapply Forall2_length, Hl|by eapply Forall2_length|apply Hl|done|done].
  - done.
  - done.
  - intros p Hp. unfold d'. cbn. set_solver.
  - intros c doc Hc Hdoc. apply H6. right. by exists c, doc.
Qed.
End OpenSpec.

(** ** Merging: which segments *)
Section Policy.
Context `{IL : IndexLibs}.

Lemma find_merges_spec p (segments : list SegmentEntry) :
  exists gs, find_merges p segments = Ret gs /\
    (gs = [] \/ exists g order, gs = [g] /\
       order ≡ₚ imap (fun i e => (i, sm_doc_count (sr_meta (se_reader e)))) segments /\
       StronglySorted (fun a b : nat * Z => a.2 <= b.2) order /\
       Forall2 (fun ic id => exists e, segments !! ic.1 = Some e /\ se_segment_id e = id)
         (take (max_merge_at_once p) order) g /\
       (min_segments_to_merge p <= length g)%nat) /\
    ((min_segments_to_merge p <= length segments)%nat ->
     (min_segments_to_merge p <= max_merge_at_once p)%nat -> gs <> []).
Proof.
  unfold find_merges. destruct (Nat.ltb_spec (length segments) (min_segments_to_merge p)) as [Hlt|Hge].
  { exists []. split_and!; [done|by left|lia]. }
  set (l := imap _ segments). set (order := sort_by (cmp_on snd Z.compare) l).
  assert (order ≡ₚ l) as Hperm by apply sort_by_perm.
  assert (forall ic, ic ∈ order -> exists e, segments !! ic.1 = Some e) as Hin.
  { intros ic Hic. rewrite Hperm in Hic. unfold l in Hic.
    apply list_elem_of_lookup in Hic as [i Hi]. rewrite list_lookup_imap in Hi.
    apply fmap_Some in Hi as (e & He & ->). by exists e. }
  assert (exists g, Forall2 (fun ic id => exists e, segments !! ic.1 = Some e /\ se_segment_id e = id)
    (take (max_merge_at_once p) order) g) as [g Hg].
  { assert (forall ic, ic ∈ take (max_merge_at_once p) order -> exists e, segments !! ic.1 = Some e) as H
      by (intros ic Hic%elem_of_take; destruct Hic as (? & ? & _); apply Hin; by eapply list_elem_of_lookup_2).
    clear -H. induction (take _ order) as [|ic k IH]; [by exists []|].
    destruct (H ic ltac:(by left)) as [e He]. destruct IH as [g Hg]; [intros; apply H; by right|].
    exists (se_segment_id e :: g). constructor; [by exists e|done]. }
  assert (mapM (fun ic : nat * Z => e ← index segments ic.1; Ret (se_segment_id e))
    (take (max_merge_at_once p) order) = (Ret g : Result (list string))) as ->.
  { apply mapM_ret. eapply Forall2_impl; [exact Hg|]. intros ic id (e & He & <-).
    unfold index. by rewrite He. }
  cbn [mbind outcome_bind]. eexists. split; [done|].
  assert (length g = Nat.min (max_merge_at_once p) (length segments)) as Hlen.
  { rewrite <- (Forall2_length _ _ _ Hg), length_take. f_equal.
    rewrite (Permutation_length Hperm). apply length_imap. }
  destruct (Nat.leb_spec (min_segments_to_merge p) (length g)) as [Hm|Hm].
  - split; [|done]. right. exists g, order. split_and!; [done|done| |done|done].
    assert (CmpPreorder (fun _ : nat * Z => True) (cmp_on snd Z.compare)) as Hpre
      by exact (cmp_on_preorder snd (fun _ => True) Z.compare _).
    assert (Forall (fun _ => True) l) as Ht by by apply Forall_true.
    pose proof (@sort_by_sorted _ _ _ Hpre l Ht) as Hs. fold order in Hs.
    clear -Hs. induction Hs as [|a l' Hs IH Ha]; constructor; [done|].
    eapply Forall_impl; [exact Ha|]. intros x Hx. by apply Z.compare_le_iff in Hx.
  - split; [by left|]. intros H1 H2. lia.
Qed.
End Policy.

(** the merge policy never indexes out of bounds and proposes one group or
    none; a group has at least the minimum number of segments, at most
    [max_merge_at_once], all from the list, and consists of the segments with
    the fewest documents; with enough segments there is a group. *)
Theorem merge_policy_correct `{IL : IndexLibs} (p : TieredMergePolicy) (segments : list SegmentEntry) :
  exists gs, find_merges p segments = Ret gs /\
    (gs = [] \/ exists g order, gs = [g] /\
       order ≡ₚ imap (fun i e => (i, sm_doc_count (sr_meta (se_reader e)))) segments /\
       StronglySorted (fun a b : nat * Z => a.2 <= b.2) order /\
       Forall2 (fun ic id => exists e, segments !! ic.1 = Some e /\ se_segment_id e = id)
         (take (max_merge_at_once p) order) g /\
       (min_segments_to_merge p <= length g <= max_merge_at_once p)%nat) /\
    ((min_segments_to_merge p <= length segments)%nat ->
     (min_segments_to_merge p <= max_merge_at_once p)%nat -> gs <> []).
Proof.
  destruct (find_merges_spec p segments) as (gs & H1 & H2 & H3). exists gs. split_and!; [done| |done].
  destruct H2 as [->|(g & order & -> & H4 & H5 & H6 & H7)]; [by left|]. right.
  exists g, order. split_and!; [done|done|done|done|done|].
  rewrite <- (Forall2_length _ _ _ H6), length_take. lia.
Qed.
