(* ===== verification/Proto.v ===== *)
(** The messages of the shard service (the Rust types prost generates from
    [crates/proto/.../shard.proto]; a [map] field is a [HashMap], a [oneof] an
    [Option] of an enum). *)
From S2P Require Import Prelude Float Types.

Record DocumentProto := mkDocumentProto {
  dp_id : Z;                            (* uint64 *)
  dp_title : string;
  dp_description : string;
  dp_price : f64;
  dp_category : string;
  dp_attributes : gmap string string;
}.

#[global] Instance DocumentProto_eq_dec : EqDecision DocumentProto.
Proof. solve_decision. Defined.

(** ** Search *)
Inductive ProtoFilter :=
  | PfEq (v : string)
  | PfRange (gte lte : option f64)
  | PfMulti (values : list string).
Record ProtoFilterValue := mkProtoFilterValue { pfv_filter : option ProtoFilter }.
Record ProtoSortSpec := mkProtoSortSpec { pss_field : string; pss_order : Z (* i32 *) }.
(** [ProtoSortOrder::Desc as i32], [ProtoSortOrder::Asc as i32]. *)
Definition proto_desc : Z := 0.
Definition proto_asc : Z := 1.

Record ProtoSearchRequest := mkProtoSearchRequest {
  pq_query : string;
  pq_filters : gmap string ProtoFilterValue;
  pq_aggregations : list string;
  pq_sort : option ProtoSortSpec;
  pq_offset : Z;                        (* uint64 *)
  pq_limit : Z;                         (* uint64 *)
  pq_typo_tolerance : bool;
  pq_language : option string;
}.

Record ScoredDocument := mkScoredDocument { psd_doc_id : Z; psd_score : f32 }.
Record ProtoBucket := mkProtoBucket { pb_value : string; pb_count : Z }.
Record ProtoSearchResponse := mkProtoSearchResponse {
  pr_hits : list ScoredDocument;
  pr_total_hits : Z;
  pr_aggregations : gmap string (list ProtoBucket);
  pr_retrieval_mode : string;
}.

(** ** Replication *)
Inductive ReplicateOperation :=
  | OpIndexDoc (doc : DocumentProto)
  | OpDeleteDocId (id : Z)
  | OpFlush (b : bool).
Record ReplicateRequest := mkReplicateRequest {
  rp_operation : option ReplicateOperation;
  rp_wal_seq : Z;                       (* uint64 *)
}.

(** ** Suggest *)
Record SuggestEntry := mkSuggestEntry { sge_term : string; sge_score : f32 }.
Record SuggestRequest := mkSuggestRequest {
  sgr_prefix : string;
  sgr_field : string;
  sgr_limit : Z;                        (* uint32 *)
}.

(** ** Statistics, reindexing *)
Record StatsResponse := mkStatsResponse {
  sr_doc_count : Z;
  sr_segment_count : Z;
  sr_index_size_bytes : Z;
  sr_shard_id : Z;
}.
Record ReindexResponse := mkReindexResponse {
  rir_shard_id : Z;
  rir_docs_reindexed : Z;
  rir_elapsed_ms : Z;
}.
