(* ===== verification/Replication.v ===== *)
(** Conversions between documents and messages, and the replication queues of
    a primary ([crates/shard/src/replication.rs], the conversions of
    [crates/shard/src/grpc_server.rs] and [crates/router/src/client.rs]). *)
From S2P Require Import Prelude Float Types Disk Proto Wal.

Local Open Scope Z_scope.

(** [attributes.into_iter().filter_map(|(k, v)| if let String(s) = v ..)]. *)
Definition string_attribute (v : Value) : option string :=
  match v with VString s => Some s | _ => None end.

Definition doc_to_proto (doc : Document) : DocumentProto := {|
  dp_id := doc_id doc;
  dp_title := doc_title doc;
  dp_description := doc_description doc;
  dp_price := doc_price doc;
  dp_category := doc_category doc;
  dp_attributes := omap string_attribute (doc_attributes doc);
|}.

Definition proto_to_doc (proto : DocumentProto) : Document := {|
  doc_id := dp_id proto;
  doc_title := dp_title proto;
  doc_description := dp_description proto;
  doc_price := dp_price proto;
  doc_category := dp_category proto;
  doc_attributes := VString <$> dp_attributes proto;
|}.

Record ReplicaEntry := mkReplicaEntry { re_seq : Z; re_entry : WalEntry }.

Definition entry_to_operation (entry : WalEntry) : ReplicateOperation :=
  match entry with
  | WalIndex doc => OpIndexDoc (doc_to_proto doc)
  | WalDelete id => OpDeleteDocId id
  end.

Definition entry_to_proto (entry : ReplicaEntry) : ReplicateRequest :=
  {| rp_operation := Some (entry_to_operation (re_entry entry)); rp_wal_seq := re_seq entry |}.

(** ** The manager: one unbounded queue per replica *)
Record ReplicationManager := mkReplicationManager { rm_senders : list (list ReplicaEntry) }.

Definition rm_start (replica_endpoints : list string) : ReplicationManager :=
  {| rm_senders := (fun _ => []) <$> replica_endpoints |}.

Definition rm_enqueue (seq : Z) (entry : WalEntry) (rm : ReplicationManager) : ReplicationManager :=
  if bool_decide (rm_senders rm = []) then rm
  else {| rm_senders := (fun q => q ++ [mkReplicaEntry seq entry]) <$> rm_senders rm |}.

Definition rm_replica_count (rm : ReplicationManager) : nat := length (rm_senders rm).

(** The background task of one replica: whether it holds a connection, the wait
    before the next attempt, the queue, what it sent, whether the senders are
    gone and whether it has exited. *)
Record TaskState := mkTaskState {
  ts_connected : bool;
  ts_backoff_ms : Z;
  ts_queue : list ReplicaEntry;
  ts_sent : list ReplicateRequest;
  ts_closed : bool;
  ts_exited : bool;
}.

(** What happens in a step: the answer of [connect], the answer of [replicate],
    the end of the loop; an entry sent by the primary, the last sender dropped;
    or nothing. *)
Inductive TaskLabel :=
  | Connected | ConnectFailed
  | Delivered | DeliveryFailed | Drained
  | Enqueued (e : ReplicaEntry) | SendersDropped
  | Idle.

(** A failed delivery loses its entry; then, as at the end of a drained queue,
    the task exits when the senders are gone and connects again otherwise. *)
Inductive task_step : TaskLabel -> TaskState -> TaskState -> Prop :=
  | ts_connect_ok b q sent cl :
      task_step Connected (mkTaskState false b q sent cl false) (mkTaskState true 100 q sent cl false)
  | ts_connect_err b q sent cl :
      task_step ConnectFailed (mkTaskState false b q sent cl false)
        (mkTaskState false (Z.min (wrap 64 (b * 2)) 10000) q sent cl false)
  | ts_rpc_ok b e q sent cl :
      task_step Delivered (mkTaskState true b (e :: q) sent cl false)
        (mkTaskState true b q (sent ++ [entry_to_proto e]) cl false)
  | ts_rpc_err b e q sent cl :
      task_step DeliveryFailed (mkTaskState true b (e :: q) sent cl false)
        (mkTaskState false b q sent cl cl)
  | ts_drained b sent :
      task_step Drained (mkTaskState true b [] sent true false) (mkTaskState false b [] sent true true)
  | ts_enqueue c b q e sent ex :
      task_step (Enqueued e) (mkTaskState c b q sent false ex) (mkTaskState c b (q ++ [e]) sent false ex)
  | ts_close c b q sent ex :
      task_step SendersDropped (mkTaskState c b q sent false ex) (mkTaskState c b q sent true ex)
  | ts_idle s : task_step Idle s s.

Definition enqueued_in (l : TaskLabel) : list ReplicaEntry :=
  match l with Enqueued e => [e] | _ => [] end.

Definition task_start : TaskState := mkTaskState false 100 [] [] false false.

(** Runs, with what the primary enqueued. *)
Inductive task_run : list ReplicaEntry -> TaskState -> TaskState -> Prop :=
  | tr_refl s : task_run [] s s
  | tr_step enq label s s1 s2 :
      task_run enq s s1 -> task_step label s1 s2 -> task_run (enq ++ enqueued_in label) s s2.

(** ** What survives the conversions *)

(** The document without the attributes that are not strings. *)
Definition strip_attributes (doc : Document) : Document := {|
  doc_id := doc_id doc; doc_title := doc_title doc; doc_description := doc_description doc;
  doc_price := doc_price doc; doc_category := doc_category doc;
  doc_attributes := filter (fun kv => is_Some (string_attribute kv.2)) (doc_attributes doc);
|}.

Lemma omap_string_attributes (m : gmap string Value) :
  VString <$> omap string_attribute m = filter (fun kv => is_Some (string_attribute kv.2)) m.
Proof.
  apply map_eq. intros k. rewrite lookup_fmap, lookup_omap. apply option_eq. intros v.
  rewrite map_lookup_filter_Some. cbn. destruct (m !! k) as [w|]; cbn; [|naive_solver].
  destruct w; cbn; unfold is_Some; naive_solver.
Qed.

Lemma proto_to_doc_to_proto doc : proto_to_doc (doc_to_proto doc) = strip_attributes doc.
Proof.
  unfold proto_to_doc, doc_to_proto, strip_attributes. cbn. by rewrite omap_string_attributes.
Qed.

(** C40: a document sent to another node (indexing through the router,
    replication, full sync, [get_docs]) arrives with everything but the
    attributes that are not strings: those are dropped, so the conversion is
    lossless exactly for documents with string attributes only; a message
    survives the opposite round trip unchanged. *)
Theorem document_proto_roundtrip (doc : Document) (proto : DocumentProto) :
  doc_to_proto (proto_to_doc proto) = proto /\
  (forall k v, doc_attributes (proto_to_doc (doc_to_proto doc)) !! k = Some v <->
     exists s, v = VString s /\ doc_attributes doc !! k = Some v) /\
  (proto_to_doc (doc_to_proto doc) = doc <->
     forall k v, doc_attributes doc !! k = Some v -> exists s, v = VString s).
Proof.
  rewrite proto_to_doc_to_proto. split_and!.
  - destruct proto. unfold doc_to_proto, proto_to_doc. cbn. f_equal.
    apply map_eq. intros k. rewrite lookup_omap, lookup_fmap. by destruct (_ !! k).
  - intros k v. cbn. rewrite map_lookup_filter_Some. cbn.
    destruct v; cbn; unfold is_Some; naive_solver.
  - unfold strip_attributes. destruct doc as [i t de p c a]. cbn. split.
    + intros [= H] k v Hk. rewrite <- H in Hk. apply map_lookup_filter_Some in Hk as [_ Hs].
      destruct v; cbn in Hs; unfold is_Some in Hs; naive_solver.
    + intros H. f_equal. apply map_filter_id. intros k v Hk. destruct (H k v Hk) as [s ->].
      by eexists.
Qed.

(** ** What reaches a replica *)

(** asynchronous replication preserves order but not completeness: whatever
    connections and RPCs fail, the requests a replica received are those of a
    subsequence of the enqueued entries, in order and without duplicates (a
    failed RPC loses its entry), the others still wait in the queue, and the
    wait between connection attempts stays between 100 ms and 10 s. *)
Theorem replication_order (enq : list ReplicaEntry) (s : TaskState) :
  task_run enq task_start s ->
  (exists handled lost, sublist handled lost /\ enq = lost ++ ts_queue s /\
     ts_sent s = entry_to_proto <$> handled) /\
  100 <= ts_backoff_ms s <= 10000.
Proof.
  remember task_start as s0 eqn:E0.
  induction 1 as [s|enq label s s1 s2 Hrun IH Hstep]; subst.
  { split; [by exists [], []|cbn; lia]. }
  destruct (IH eq_refl) as [(handled & lost & Hsub & -> & Hsent) Hb].
  destruct Hstep as [b q sent cl|b q sent cl|b e q sent cl|b e q sent cl|b sent|c b q e sent ex
    |c b q sent ex|s]; cbn in *; rewrite ?app_nil_r.
  - split; [by exists handled, lost|lia].
  - split; [by exists handled, lost|]. rewrite wrap_id; unfold in_width; lia.
  - split; [|lia]. exists (handled ++ [e]), (lost ++ [e]).
    split_and!; [by apply sublist_app|by rewrite <- app_assoc|].
    by rewrite fmap_app, Hsent.
  - split; [|lia]. exists handled, (lost ++ [e]).
    split_and!; [by apply sublist_inserts_r|by rewrite <- app_assoc|done].
  - split; [|lia]. exists handled, lost. by rewrite app_nil_r.
  - split; [|lia]. exists handled, lost. by rewrite app_assoc.
  - split; [by exists handled, lost|lia].
  - split; [by exists handled, lost|lia].
Qed.

(** ** Delivery *)

(** A step of the task itself. *)
Definition by_task (l : TaskLabel) : Prop :=
  match l with Connected | ConnectFailed | Delivered | DeliveryFailed | Drained => True | _ => False end.

#[global] Instance by_task_dec l : Decision (by_task l).
Proof. destruct l; cbn; apply _. Defined.

Section Delivery.
Context (states : nat -> TaskState) (labels : nat -> TaskLabel).
Context (Hsteps : forall n, task_step (labels n) (states n) (states (S n))).

(** A step of the environment keeps an entry at its place. *)
Lemma environment_keeps n pre e post :
  ~ by_task (labels n) -> ts_queue (states n) = pre ++ e :: post ->
  ts_connected (states (S n)) = ts_connected (states n) /\
  ts_exited (states (S n)) = ts_exited (states n) /\
  exists post', ts_queue (states (S n)) = pre ++ e :: post'.
Proof.
  intros Hl Hq. pose proof (Hsteps n) as Hs. revert Hl Hq.
  destruct Hs; cbn; intros Hl Hq; try done; (split_and!; [done|done|]).
  - exists (post ++ [e0]). by rewrite Hq, <- app_assoc.
  - by exists post.
  - by exists post.
Qed.

(** The steps of the environment before the next step of the task. *)
Lemma next_task_step m pre e gap : forall n post,
  by_task (labels m) -> m = (n + gap)%nat -> ts_queue (states n) = pre ++ e :: post ->
  exists m' post', (n <= m')%nat /\ by_task (labels m') /\
    ts_connected (states m') = ts_connected (states n) /\
    ts_exited (states m') = ts_exited (states n) /\ ts_queue (states m') = pre ++ e :: post'.
Proof.
  induction gap as [|gap IH]; intros n post Ht Hm Hq.
  { exists n, post. rewrite Nat.add_0_r in Hm. subst. done. }
  destruct (decide (by_task (labels n))) as [Hn|Hn]; [by exists n, post|].
  destruct (environment_keeps n pre e post Hn Hq) as (Hc & Hx & post1 & Hq1).
  destruct (IH (S n) post1) as (m' & post' & H1 & H2 & H3 & H4 & H5); [done|lia|done|].
  exists m', post'. split_and!; [lia|done|congruence|congruence|done].
Qed.

(** A step of the task connects, or delivers the first entry. *)
Lemma task_advances n pre e post :
  by_task (labels n) -> labels n <> ConnectFailed -> labels n <> DeliveryFailed ->
  ts_queue (states n) = pre ++ e :: post ->
  (ts_connected (states n) = false /\ ts_connected (states (S n)) = true /\
   ts_exited (states (S n)) = false /\ ts_queue (states (S n)) = pre ++ e :: post) \/
  (ts_connected (states n) = true /\ ts_connected (states (S n)) = true /\
   ts_exited (states (S n)) = false /\
   match pre with
   | [] => entry_to_proto e ∈ ts_sent (states (S n))
   | _ :: pre => ts_queue (states (S n)) = pre ++ e :: post
   end).
Proof.
  intros Hl H1 H2 Hq. pose proof (Hsteps n) as Hs. revert Hl H1 H2 Hq.
  destruct Hs; cbn; intros Hl H1 H2 Hq; try done; [by left| |].
  - right. split_and!; [done..|]. destruct pre as [|x pre]; injection Hq as <- Hq; [|done].
    apply elem_of_app. right. by apply list_elem_of_singleton.
  - by destruct pre.
Qed.
End Delivery.

(** C5: asynchronous replication delivers.  In every infinite run of a
    replica's task in which the task is scheduled when it has something to do
    and, from some moment on, connecting and the replica's RPC succeed: every
    entry that is in the queue after that moment, also one enqueued later and
    also when the primary shuts down meanwhile, is sent after finitely many
    steps. *)
Theorem replication_delivers (states : nat -> TaskState) (labels : nat -> TaskLabel) (up : nat) :
  (forall n, task_step (labels n) (states n) (states (S n))) ->
  (forall n, ts_queue (states n) <> [] -> ts_exited (states n) = false ->
     exists m, (n <= m)%nat /\ by_task (labels m)) ->
  (forall n, (up <= n)%nat -> labels n <> ConnectFailed /\ labels n <> DeliveryFailed) ->
  forall n e, (up <= n)%nat -> ts_exited (states n) = false -> e ∈ ts_queue (states n) ->
    exists m, (n <= m)%nat /\ entry_to_proto e ∈ ts_sent (states m).
Proof.
  intros Hsteps Hfair Hup n e Hn Hex (pre & post & Hq)%list_elem_of_split.
  (* what is left: the entries before it, and connecting *)
  remember (2 * length pre + if ts_connected (states n) then 0 else 1)%nat as k eqn:Hk.
  revert n pre post Hn Hex Hq Hk. induction (lt_wf k) as [k _ IH]. intros n pre post Hn Hex Hq ->.
  destruct (Hfair n) as (m & Hm & Ht); [rewrite Hq; by destruct pre|done|].
  destruct (next_task_step states labels Hsteps m pre e (m - n) n post Ht) as
    (m' & post' & Hm' & Ht' & Hc & Hx & Hq'); [lia|done|].
  destruct (Hup m') as [H1 H2]; [lia|].
  destruct (task_advances states labels Hsteps m' pre e post' Ht' H1 H2 Hq')
    as [(Hc0 & Hc1 & Hx1 & Hq1)|(Hc0 & Hc1 & Hx1 & Hq1)].
  - eapply (IH _ _ (S m')) in Hq1 as (i & Hi & Hsent); [exists i; split; [lia|done]|lia|done|reflexivity].
    Unshelve. rewrite Hc1, <- Hc, Hc0. lia.
  - destruct pre as [|x pre]; [exists (S m'); split; [lia|done]|].
    eapply (IH _ _ (S m')) in Hq1 as (i & Hi & Hsent); [exists i; split; [lia|done]|lia|done|reflexivity].
    Unshelve. rewrite Hc1, <- Hc, Hc0. cbn. lia.
Qed.

Section Witness.
Definition entry_a : ReplicaEntry := mkReplicaEntry 0 (WalDelete 1).
Definition entry_b : ReplicaEntry := mkReplicaEntry 1 (WalDelete 2).

(** Two entries, the first RPC fails: only the second arrives. *)
Lemma replication_order_witness :
  exists s, task_run [entry_a; entry_b] task_start s /\
    ts_sent s = [entry_to_proto entry_b] /\ 100 <= ts_backoff_ms s <= 10000.
Proof.
  assert (task_run [entry_a; entry_b] task_start
    (mkTaskState true 100 [] [entry_to_proto entry_b] false false)) as Hrun.
  { pose proof (tr_refl task_start) as H.
    pose proof (tr_step _ _ _ _ _ H (ts_enqueue false 100 [] entry_a [] false)) as H1.
    pose proof (tr_step _ _ _ _ _ H1 (ts_enqueue false 100 [entry_a] entry_b [] false)) as H2.
    pose proof (tr_step _ _ _ _ _ H2 (ts_connect_ok 100 _ [] false)) as H3.
    pose proof (tr_step _ _ _ _ _ H3 (ts_rpc_err 100 _ _ [] false)) as H4.
    pose proof (tr_step _ _ _ _ _ H4 (ts_connect_ok 100 _ [] false)) as H5.
    exact (tr_step _ _ _ _ _ H5 (ts_rpc_ok 100 _ _ [] false)). }
  eexists. split; [exact Hrun|]. split; [reflexivity|].
  exact (proj2 (replication_order _ _ Hrun)).
Defined.

(** A run: an entry comes in, connecting fails once, then the replica is up. *)
Definition sample_states (n : nat) : TaskState :=
  match n with
  | 0%nat => task_start
  | 1%nat => mkTaskState false 100 [entry_a] [] false false
  | 2%nat => mkTaskState false 200 [entry_a] [] false false
  | 3%nat => mkTaskState true 100 [entry_a] [] false false
  | _ => mkTaskState true 100 [] [entry_to_proto entry_a] false false
  end.
Definition sample_labels (n : nat) : TaskLabel :=
  match n with
  | 0%nat => Enqueued entry_a
  | 1%nat => ConnectFailed
  | 2%nat => Connected
  | 3%nat => Delivered
  | _ => Idle
  end.

Lemma replication_delivers_witness :
  exists m, (2 <= m)%nat /\ entry_to_proto entry_a ∈ ts_sent (sample_states m).
Proof.
  apply (replication_delivers sample_states sample_labels 2).
  - intros [|[|[|[|n]]]].
    + apply (ts_enqueue false 100 [] entry_a [] false).
    + apply (ts_connect_err 100 [entry_a] [] false).
    + apply (ts_connect_ok 200 [entry_a] [] false).
    + apply (ts_rpc_ok 100 entry_a [] [] false).
    + apply (ts_idle (mkTaskState true 100 [] [entry_to_proto entry_a] false false)).
  - intros [|[|[|[|n]]]] Hq _; [by destruct Hq|..]; [| | |by destruct Hq].
    + exists 1%nat. split; [lia|exact I].
    + exists 2%nat. split; [lia|exact I].
    + exists 3%nat. split; [lia|exact I].
  - intros [|[|[|[|n]]]] Hn; [lia|lia|split; discriminate..].
  - lia.
  - reflexivity.
  - apply list_elem_of_here.
Defined.
End Witness.
