(* ===== verification/Shard.v ===== *)
(** The shard engine ([crates/shard/src/shard.rs]): the write-ahead log, the
    write buffer, the segments and the replication queues put together.  Each
    method is one computation over the engine and the disk; the locks of the
    source make its parts atomic, and the methods are modelled as running one
    after the other. *)
From Stdlib Require Import Strings.Byte.
From S2P Require Import Prelude Bytes Order Float Types Config Text Decimal Analysis Posting.
From S2P Require Import Disk Inverted Column DocStore Segment Scorer Collector Understanding.
From S2P Require Import Wand Executor Multi Object Wal WriteBuffer SegmentList Proto.
From S2P Require Import Replication.

Local Open Scope Z_scope.

Record ShardStats := mkShardStats {
  ss_doc_count : Z;                     (* u64 *)
  ss_segment_count : Z;                 (* u32 *)
  ss_buffer_doc_count : nat;
  ss_buffer_size_bytes : Z;
  ss_shard_id : Z;
}.

Record ReindexStats := mkReindexStats {
  rx_shard_id : Z;
  rx_docs_reindexed : Z;
  rx_elapsed_ms : Z;
}.

Section Shard.
Context `{IL : IndexLibs} `{SD : Serde WalRecord} `{TD : TempDirLib} `{ML : MathLib}
  `{UO : UnspecifiedOrder}.

Record ShardEngine := mkShardEngine {
  sh_config : ShardConfig;
  sh_schema : IndexSchema;
  sh_wal : WriteAheadLog;
  sh_write_buffer : WriteBuffer;
  sh_segments : SegmentList;
  sh_searcher : MultiSegmentSearcher;
  sh_merge_policy : TieredMergePolicy;
  sh_replication : option ReplicationManager;
}.

(** The fields the methods change. *)
Definition set_wal (w : WriteAheadLog) (s : ShardEngine) : ShardEngine :=
  {| sh_config := sh_config s; sh_schema := sh_schema s; sh_wal := w;
     sh_write_buffer := sh_write_buffer s; sh_segments := sh_segments s;
     sh_searcher := sh_searcher s; sh_merge_policy := sh_merge_policy s;
     sh_replication := sh_replication s |}.
Definition set_buffer (b : WriteBuffer) (s : ShardEngine) : ShardEngine :=
  {| sh_config := sh_config s; sh_schema := sh_schema s; sh_wal := sh_wal s;
     sh_write_buffer := b; sh_segments := sh_segments s;
     sh_searcher := sh_searcher s; sh_merge_policy := sh_merge_policy s;
     sh_replication := sh_replication s |}.
Definition set_list (l : SegmentList) (s : ShardEngine) : ShardEngine :=
  {| sh_config := sh_config s; sh_schema := sh_schema s; sh_wal := sh_wal s;
     sh_write_buffer := sh_write_buffer s; sh_segments := l;
     sh_searcher := sh_searcher s; sh_merge_policy := sh_merge_policy s;
     sh_replication := sh_replication s |}.
Definition set_replication (r : option ReplicationManager) (s : ShardEngine) : ShardEngine :=
  {| sh_config := sh_config s; sh_schema := sh_schema s; sh_wal := sh_wal s;
     sh_write_buffer := sh_write_buffer s; sh_segments := sh_segments s;
     sh_searcher := sh_searcher s; sh_merge_policy := sh_merge_policy s;
     sh_replication := r |}.

Definition on_wal {A} (m : Obj WriteAheadLog A) : Obj ShardEngine A := zoom sh_wal set_wal m.
Definition on_buffer {A} (m : Obj WriteBuffer A) : Obj ShardEngine A :=
  zoom sh_write_buffer set_buffer m.
Definition on_segments {A} (m : Obj SegmentList A) : Obj ShardEngine A :=
  zoom sh_segments set_list m.

(** [if let Some(ref rm) = self.replication { rm.enqueue(seq, entry) }]. *)
Definition enqueue (seq : Z) (entry : WalEntry) : Obj ShardEngine unit :=
  modify_self (fun s => set_replication (rm_enqueue seq entry <$> sh_replication s) s).

(** [config.data_dir] as one path component. *)
Definition data_path (s : ShardEngine) : path := [sc_data_dir (sh_config s)].
Definition segments_dir (s : ShardEngine) : path := join (data_path s) "segments".

(** [let _ = fs::remove_dir_all(..)] for each id. *)
Definition remove_segment_dirs (ids : list string) : Obj ShardEngine unit :=
  obj_for (fun id =>
    s ← get_self;
    ignore (obj_io (remove_dir_all (join (segments_dir s) id)))) ids.

Definition run_merge (segment_ids : list string) : Obj ShardEngine unit :=
  new_seg_id ← on_segments (call_self next_segment_id);
  s ← get_self;
  let new_dir := join (segments_dir s) new_seg_id in
  let sources := filter (fun e => se_segment_id e ∈ segment_ids) (sl_segments (sh_segments s)) in
  new_entry ← obj_io (execute_merge (sh_schema s) sources new_seg_id new_dir);
  _ ← on_segments (replace_segments segment_ids new_entry);
  remove_segment_dirs segment_ids.

Definition maybe_merge : Obj ShardEngine unit :=
  s ← get_self;
  merge_groups ← obj_lift (find_merges (sh_merge_policy s) (sl_segments (sh_segments s)));
  obj_for run_merge merge_groups.

Definition flush : Obj ShardEngine unit :=
  '(docs, _deleted_ids) ← on_buffer drain;
  if bool_decide (docs = []) then mret tt
  else
    seg_id ← on_segments (call_self next_segment_id);
    s ← get_self;
    let seg_dir := join (segments_dir s) seg_id in
    '(reader, stats) ← obj_io (write_segment (sh_schema s) seg_id docs seg_dir);
    _ ← on_segments (add_segment {| se_segment_id := seg_id; se_dir := seg_dir;
                                    se_reader := reader; se_stats := stats |});
    _ ← on_wal truncate;
    maybe_merge.

Definition shard_index (doc : Document) : Obj ShardEngine unit :=
  let entry := WalIndex doc in
  seq ← on_wal (append entry);
  _ ← enqueue seq entry;
  full ← on_buffer (call_self (wb_add doc));
  if (full : bool) then flush else mret tt.

(** The loop that adds a batch to the buffer: was it full at some point? *)
Fixpoint add_docs (docs : list Document) (needs_flush : bool) : Obj ShardEngine bool :=
  match docs with
  | [] => mret needs_flush
  | doc :: docs =>
      full ← on_buffer (call_self (wb_add doc));
      add_docs docs (if (full : bool) then true else needs_flush)
  end.

Definition index_batch (docs : list Document) : Obj ShardEngine unit :=
  let wal_entries := WalIndex <$> docs in
  seqs ← on_wal (append_batch wal_entries);
  _ ← obj_for (fun es : WalEntry * Z => enqueue es.2 es.1) (zip wal_entries seqs);
  needs_flush ← add_docs docs false;
  if (needs_flush : bool) then flush else mret tt.

Definition shard_delete (doc_id : Z) : Obj ShardEngine unit :=
  let entry := WalDelete doc_id in
  seq ← on_wal (append entry);
  _ ← enqueue seq entry;
  _ ← on_buffer (modify_self (wb_mark_deleted doc_id));
  _ ← on_segments (sl_mark_deleted doc_id);
  mret tt.

Definition shard_search (request : SearchRequest) (elapsed_ms : Z)
  : Obj ShardEngine SearchResponse :=
  s ← get_self;
  let combined := readers (sh_segments s) in
  buf_reader ← on_buffer reader_and_stats;
  let combined := match buf_reader with Some rs => combined ++ [rs] | None => combined end in
  obj_lift (multi_search (sh_searcher s) combined request elapsed_ms).

(** One id of [get_docs]: the segments, else the first buffered document with
    this id. *)
Definition get_one (s : ShardEngine) (result : list Document) (id : Z) : Result (list Document) :=
  doc ← sl_get_doc (sh_segments s) id;
  Ret (match doc with
       | Some doc => result ++ [doc]
       | None =>
           match find (fun d => doc_id d =? id) (wb_docs (sh_write_buffer s)) with
           | Some d => result ++ [d]
           | None => result
           end
       end).
Definition shard_get_docs (s : ShardEngine) (doc_ids : list Z) : Result (list Document) :=
  try_fold (get_one s) [] doc_ids.

Definition shard_stats (s : ShardEngine) : ShardStats := {|
  ss_doc_count := wrap 64 (total_live_docs (sh_segments s)
                           + Z.of_nat (wb_doc_count (sh_write_buffer s)));
  ss_segment_count := wrap 32 (Z.of_nat (segment_count (sh_segments s)));
  ss_buffer_doc_count := wb_doc_count (sh_write_buffer s);
  ss_buffer_size_bytes := wb_size_bytes (sh_write_buffer s);
  ss_shard_id := sc_shard_id (sh_config s);
|}.

Definition live_ids (reader : SegmentReader) : list Z := rb_iter (all_live_docs reader).

Definition reindex_self (elapsed_ms : Z) : Obj ShardEngine ReindexStats :=
  _ ← flush;
  s ← get_self;
  docs ← obj_lift (try_fold (collect_docs live_ids) []
                     (se_reader <$> sl_segments (sh_segments s)));
  let docs_reindexed := Z.of_nat (length docs) in
  if bool_decide (docs = []) then
    mret {| rx_shard_id := sc_shard_id (sh_config s); rx_docs_reindexed := 0;
            rx_elapsed_ms := elapsed_ms |}
  else
    new_seg_id ← on_segments (call_self next_segment_id);
    let new_dir := join (segments_dir s) new_seg_id in
    '(reader, stats) ← obj_io (write_segment (sh_schema s) new_seg_id docs new_dir);
    let new_entry := {| se_segment_id := new_seg_id; se_dir := new_dir;
                        se_reader := reader; se_stats := stats |} in
    s ← get_self;
    let old_ids := se_segment_id <$> sl_segments (sh_segments s) in
    _ ← on_segments (replace_segments old_ids new_entry);
    _ ← remove_segment_dirs old_ids;
    _ ← on_wal truncate;
    mret {| rx_shard_id := sc_shard_id (sh_config s); rx_docs_reindexed := docs_reindexed;
            rx_elapsed_ms := elapsed_ms |}.

Definition apply_replicated (entry : WalEntry) : Obj ShardEngine unit :=
  match entry with
  | WalIndex doc =>
      full ← on_buffer (call_self (wb_add doc));
      if (full : bool) then flush else mret tt
  | WalDelete doc_id =>
      _ ← on_buffer (modify_self (wb_mark_deleted doc_id));
      _ ← on_segments (sl_mark_deleted doc_id);
      mret tt
  end.

Definition get_all_live_docs (s : ShardEngine) : Result (list Document) :=
  docs ← try_fold (collect_docs live_ids) [] (se_reader <$> sl_segments (sh_segments s));
  Ret (docs ++ wb_all_docs (sh_write_buffer s)).

Definition wal_records_since (from_seq : Z) : Obj ShardEngine (list WalRecord) :=
  on_wal (read_since from_seq).

Definition is_replica (s : ShardEngine) : bool := bool_decide (sc_role (sh_config s) = Replica).

(** ** Catch-up and opening *)

(** What the primary answers: an error to the call, or a stream of messages
    that may end in an error. *)
Record PrimaryClient := mkPrimaryClient {
  pc_connect : Result unit;
  pc_catch_up : Z -> Result (list (Result ReplicateRequest));
  pc_full_sync : Result (list (Result DocumentProto));
}.

(** The loop over the catch-up stream, counting the entries applied. *)
Fixpoint apply_stream (stream : list (Result ReplicateRequest)) (wal_count : Z)
  : Obj ShardEngine Z :=
  match stream with
  | [] => mret wal_count
  | req :: stream =>
      req ← obj_lift req;
      match rp_operation req with
      | Some (OpIndexDoc doc) =>
          _ ← apply_replicated (WalIndex (proto_to_doc doc));
          apply_stream stream (wrap 64 (wal_count + 1))
      | Some (OpDeleteDocId id) =>
          _ ← apply_replicated (WalDelete id);
          apply_stream stream (wrap 64 (wal_count + 1))
      | Some (OpFlush _) => _ ← flush; apply_stream stream wal_count
      | None => apply_stream stream wal_count
      end
  end.

Definition apply_sync (stream : list (Result DocumentProto)) : Obj ShardEngine unit :=
  obj_for (fun proto =>
    proto ← obj_lift proto;
    apply_replicated (WalIndex (proto_to_doc proto))) stream.

Definition catch_up_from_primary (client : PrimaryClient) : Obj ShardEngine unit :=
  s ← get_self;
  let from_seq := wal_next_seq (sh_wal s) in
  _ ← obj_lift (pc_connect client);
  stream ← obj_lift (pc_catch_up client from_seq);
  wal_count ← apply_stream stream 0;
  s ← get_self;
  let replica_has_data :=
    existsb (fun e => negb (rb_is_empty (all_live_docs (se_reader e))))
      (sl_segments (sh_segments s)) in
  if (wal_count =? 0) && negb replica_has_data then
    sync_stream ← obj_lift (pc_full_sync client);
    _ ← apply_sync sync_stream;
    flush
  else mret tt.

(** One entry of the log replayed into the buffer and the segments. *)
Definition replay (entry : WalEntry) : Obj (WriteBuffer * SegmentList) unit :=
  match entry with
  | WalIndex doc => modify_self (fun s => ((wb_add doc s.1).1, s.2))
  | WalDelete doc_id =>
      _ ← modify_self (fun s => (wb_mark_deleted doc_id s.1, s.2));
      ignore (zoom snd (fun l s => (s.1, l)) (sl_mark_deleted doc_id))
  end.

Definition shard_replication (config : ShardConfig) : option ReplicationManager :=
  if bool_decide (sc_role config = Primary) && negb (bool_decide (sc_replica_endpoints config = []))
  then Some (rm_start (sc_replica_endpoints config)) else None.

(** The whole log replayed on a fresh buffer. *)
Definition replay_wal (wal : WriteAheadLog) (buffer : WriteBuffer) (segments : SegmentList)
  : IO (WriteBuffer * SegmentList) := fun d =>
  match read_all (wal, d) with
  | ((_, d), Ret entries) =>
      match obj_for replay entries ((buffer, segments), d) with
      | ((bs, d), Ret _) => (d, Ret bs)
      | ((_, d), Fail e) => (d, Fail e)
      | ((_, d), Panic) => (d, Panic)
      end
  | ((_, d), Fail e) => (d, Fail e)
  | ((_, d), Panic) => (d, Panic)
  end.

Definition engine_new (config : ShardConfig) (schema : IndexSchema) (wal : WriteAheadLog)
    (buffer : WriteBuffer) (segments : SegmentList) : ShardEngine := {|
  sh_config := config; sh_schema := schema; sh_wal := wal; sh_write_buffer := buffer;
  sh_segments := segments; sh_searcher := ms_new schema;
  sh_merge_policy := TieredMergePolicy_default;
  sh_replication := shard_replication config |}.

(** A replica with a configured primary catches up; a failure is only logged. *)
Definition catch_up_on_open (connect : string -> PrimaryClient) (engine : ShardEngine)
  : IO ShardEngine := fun d =>
  match sc_role (sh_config engine), sc_primary_endpoint (sh_config engine) with
  | Replica, Some primary =>
      match ignore (catch_up_from_primary (connect primary)) (engine, d) with
      | ((engine, d), Panic) => (d, Panic)
      | ((engine, d), _) => (d, Ret engine)
      end
  | _, _ => (d, Ret engine)
  end.

(** [primary_endpoint] is looked up through [connect]. *)
Definition shard_open (connect : string -> PrimaryClient) (config : ShardConfig)
    (schema : IndexSchema) : IO ShardEngine :=
  let data_dir := [sc_data_dir config] in
  _ ← create_dir_all data_dir;
  wal ← wal_open (join data_dir "wal.bin");
  segments ← sl_open (join data_dir "segments") schema;
  let buffer := wb_new schema (sc_write_buffer_size config) in
  bs ← replay_wal wal buffer segments;
  catch_up_on_open connect (engine_new config schema wal bs.1 bs.2).
End Shard.
