(* ===== verification/ShardSpecs.v ===== *)
(** What the methods of the shard engine of [Shard] do to the documents it
    holds: flushing, merging, reindexing, deleting, searching and reopening. *)
From Stdlib Require Import Strings.Byte.
From S2P Require Import Prelude Bytes Order Float Types Config Text Decimal Analysis Posting.
From S2P Require Import Disk Inverted Column DocStore Segment Scorer Collector Understanding.
From S2P Require Import Wand Executor Multi Object Wal WriteBuffer SegmentList Proto.
From S2P Require Import Replication Shard.

Local Open Scope Z_scope.

(** ** The invariant of the engine *)
Section Invariant.
Context `{ILL : IndexLaws} `{SDL : SerdeLaws WalRecord} `{TDL : TempDirLaws} `{ML : MathLib}
  `{UOL : UnspecifiedOrderLaws}.

(** The engine [s] on disk [d]: the log has the records [recs], the segments
    the contents [cs]. *)
Record shard_ok (s : ShardEngine) (d : Disk) (recs : list WalRecord) (cs : list Contents)
    (stale : list string) : Prop := {
  so_wal : wal_holds (sh_wal s) d recs;
  so_wal_path : wal_path (sh_wal s) = join (data_path s) "wal.bin";
  so_list : list_ok (sh_schema s) (sh_segments s) d cs stale;
  so_dir : sl_data_dir (sh_segments s) = segments_dir s;
  so_buffer : buffer_ok (sh_write_buffer s);
  so_schema : wb_schema (sh_write_buffer s) = sh_schema s;
  so_data : data_path s ∈ dk_dirs d;
  so_temp : ~ in_temp (sh_write_buffer s) (data_path s);
  so_root : ~ under (data_path s) temp_root;
  so_searcher : sh_searcher s = ms_new (sh_schema s);
}.

Definition live_all (cs : list Contents) : list Document := cs ≫= live_mem.

(** Any segment of some of these documents fits the widths of the format. *)
Definition all_fit (schema : IndexSchema) (docs : list Document) : Prop :=
  forall l, l ⊆+ docs -> segment_fits schema l.

Lemma all_fit_perm schema docs docs' : docs ≡ₚ docs' -> all_fit schema docs -> all_fit schema docs'.
Proof. intros Hp H l Hl. apply H. by rewrite Hp. Qed.
Lemma all_fit_sub schema docs docs' : docs' ⊆+ docs -> all_fit schema docs -> all_fit schema docs'.
Proof. intros Hp H l Hl. apply H. by etransitivity. Qed.

Lemma data_path_ne s : segments_dir s <> join (data_path s) "wal.bin".
Proof. by intros [_ ?]%join_inj. Qed.

(** A path inside a segment directory is not the log. *)
Lemma seg_file_ne_wal s name file : join (join (segments_dir s) name) file <> join (data_path s) "wal.bin".
Proof. intros [H _]%join_inj. apply (f_equal length) in H. unfold join in H. by rewrite !length_app in H. Qed.

Lemma in_temp_join b p n : buffer_ok b -> not_temp_name n -> ~ in_temp b p -> ~ in_temp b (join p n).
Proof.
  intros Hb Hn Hp (t & Et & Hu). apply (not_under_join t p n).
  - by apply (bo_temp _ Hb).
  - done.
  - intros H. apply Hp. by exists t.
  - done.
Qed.

Lemma in_temp_root b p n : buffer_ok b -> p <> temp_root -> ~ in_temp b p -> ~ in_temp b (join p n).
Proof.
  intros Hb Hn Hp (t & Et & Hu). apply (not_under_root t p n); [by apply (bo_temp _ Hb)|done| |done].
  intros H. apply Hp. by exists t.
Qed.

Lemma seg_not_temp n : starts_with n "seg-" = true -> not_temp_name n.
Proof. intros (r & ->)%starts_with_iff. reflexivity. Qed.

Lemma seg_dir_ne_root s name : ~ under (data_path s) temp_root -> join (segments_dir s) name <> temp_root.
Proof.
  intros H E. apply H. rewrite <- E. apply under_join. right. apply under_join. right. apply under_refl.
Qed.

Lemma set_list_id s : set_list (sh_segments s) s = s.
Proof. by destruct s. Qed.

(** *** Changing one part *)

(** Neither the log nor the buffer touches the segment directories. *)
Lemma wal_seg_frame s d recs cs stale d' :
  shard_ok s d recs cs stale -> only_wal (sh_wal s) d d' -> seg_frame (segments_dir s) d d'.
Proof.
  intros Hs [Hd Hf]. split.
  - intros name file _. apply Hf. rewrite (so_wal_path _ _ _ _ _ Hs). apply seg_file_ne_wal.
  - by rewrite Hd.
  - by rewrite Hd.
Qed.

Lemma buffer_seg_frame s d recs cs stale b' d' :
  shard_ok s d recs cs stale -> buffer_ok b' -> buffer_frame (sh_write_buffer s) d b' d' ->
  seg_frame (segments_dir s) d d'.
Proof.
  intros [H1 H2 H3 H4 H5 H6 H7 H8 H9 H10] Hb [Hd Hf].
  destruct (Hd _ H7 H8) as [H7' H8']. split.
  - intros name file Hseg%seg_not_temp.
    apply Hf; (apply in_temp_root; [done|by apply seg_dir_ne_root|]); repeat apply in_temp_join; done.
  - intros name Hseg%seg_not_temp Hin. apply Hd; [done|]. by repeat apply in_temp_join.
  - intros Hin. apply Hd; [done|]. by apply in_temp_join.
Qed.

Lemma shard_ok_wal s d recs cs stale w' d' recs' :
  shard_ok s d recs cs stale -> wal_path w' = wal_path (sh_wal s) -> wal_holds w' d' recs' ->
  only_wal (sh_wal s) d d' -> shard_ok (set_wal w' s) d' recs' cs stale.
Proof.
  intros Hs Hp Hw Ho. pose proof (wal_seg_frame _ _ _ _ _ _ Hs Ho) as Hfr.
  destruct Hs as [H1 H2 H3 H4 H5 H6 H7 H8 H9 H10]. destruct Ho as [Hd Hf]. split; try done.
  - by cbn; rewrite Hp.
  - cbn. eapply list_ok_frame; [|exact H3]. by rewrite H4.
  - by rewrite Hd.
Qed.

Lemma shard_ok_buffer s d recs cs stale b' d' :
  shard_ok s d recs cs stale -> buffer_ok b' -> wb_schema b' = sh_schema s ->
  buffer_frame (sh_write_buffer s) d b' d' -> shard_ok (set_buffer b' s) d' recs cs stale.
Proof.
  intros Hok Hb Hs Hbf. pose proof (buffer_seg_frame _ _ _ _ _ _ _ Hok Hb Hbf) as Hfr.
  destruct Hok as [H1 H2 H3 H4 H5 H6 H7 H8 H9 H10]. destruct Hbf as [Hd Hf].
  destruct (Hd _ H7 H8) as [H7' H8'].
  assert (forall n, not_temp_name n -> ~ in_temp (sh_write_buffer s) (join (data_path s) n)) as Hn1
    by (intros; by apply in_temp_join).
  assert (forall n, not_temp_name n -> ~ in_temp b' (join (data_path s) n)) as Hn2
    by (intros; by apply in_temp_join).
  split; try done.
  - destruct H1 as [G1 G2]. split; [|done]. cbn. rewrite Hf; [done| |]; rewrite H2.
    + by apply Hn1. + by apply Hn2.
  - cbn. eapply list_ok_frame; [|exact H3]. by rewrite H4.
Qed.

Lemma shard_ok_list s d recs cs stale l' d' cs' stale' :
  shard_ok s d recs cs stale -> list_ok (sh_schema s) l' d' cs' stale' ->
  sl_data_dir l' = sl_data_dir (sh_segments s) ->
  (forall p, ~ under (segments_dir s) p -> dk_files d' !! p = dk_files d !! p) ->
  data_path s ∈ dk_dirs d' ->
  shard_ok (set_list l' s) d' recs cs' stale'.
Proof.
  intros [H1 H2 H3 H4 H5 H6 H7 H8 H9 H10] Hl Hdir Hf Hd. split; try done.
  - destruct H1 as [G1 G2]. split; [|done]. cbn. rewrite Hf; [done|]. rewrite H2.
    intros [?|Hu]%under_join; [by apply data_path_ne with s|]. by apply not_under_short in Hu.
  - cbn. by rewrite Hdir.
Qed.

Lemma shard_ok_replication s d recs cs stale r :
  shard_ok s d recs cs stale -> shard_ok (set_replication r s) d recs cs stale.
Proof. intros []. by split. Qed.

(** *** A new segment *)
Lemma install_spec s d recs cs stale old docs :
  shard_ok s d recs cs stale -> segment_fits (sh_schema s) docs ->
  sl_next_segment_seq (sh_segments s) + 1 < 2 ^ 64 ->
  let id := segment_name (sl_next_segment_seq (sh_segments s)) in
  let dir := join (segments_dir s) id in
  exists d' r st, write_segment (sh_schema s) id docs dir d = (d', Ret (r, st)) /\
    let e := {| se_segment_id := id; se_dir := dir; se_reader := r; se_stats := st |} in
    segment_holds (sh_schema s) r docs rb_new /\
    shard_ok (set_list (installed (sh_segments s) old e docs) s) d' recs
      (kept old (sl_segments (sh_segments s)) cs ++ [fresh_contents docs])
      (stale ++ filter (fun id : string => id ∈ old) (se_segment_id <$> sl_segments (sh_segments s))).
Proof.
  intros Hs Hfit Hn id dir.
  pose proof (so_list _ _ _ _ _ Hs) as Hl. pose proof (so_dir _ _ _ _ _ Hs) as Hdir.
  destruct (new_segment_spec _ _ _ _ _ docs Hl Hfit) as (d' & r & st & Hw & He & Hf & Hd).
  rewrite Hdir in Hw, He, Hf. fold id dir in Hw, He, Hf.
  exists d', r, st. cbn zeta. split_and!; [done|exact (eo_holds _ _ _ _ _ He)|].
  eapply shard_ok_list; [exact Hs| |done| |by apply Hd, Hs].
  - eapply installed_ok; [exact Hl|done|done| |done|done]. by rewrite Hdir.
  - intros p Hp. apply Hf. intros E. apply Hp. destruct (decide (p = [])) as [->|Hne].
    { unfold dir, join in E. by destruct (segments_dir s). }
    destruct (exists_last Hne) as (q & n & ->). fold (join q n) in *.
    rewrite parent_join in E. subst q. apply under_join. right. apply under_join. right.
    apply under_refl.
Qed.

Lemma bumped_call s d recs cs stale :
  shard_ok s d recs cs stale -> sl_next_segment_seq (sh_segments s) + 1 < 2 ^ 64 ->
  on_segments (call_self next_segment_id) (s, d)
    = ((set_list (bumped (sh_segments s)) s, d),
       Ret (segment_name (sl_next_segment_seq (sh_segments s)))).
Proof.
  intros Hs Hn. apply zoom_ret. unfold call_self. cbn [fst snd].
  rewrite next_segment_id_spec; [done| |done]. apply (so_list _ _ _ _ _ Hs).
Qed.

(** The directories of replaced segments are removed. *)
Lemma remove_segment_dirs_spec ids : forall s d recs cs stale,
  shard_ok s d recs cs stale ->
  Forall (fun id : string => id ∉ (se_segment_id <$> sl_segments (sh_segments s))) ids ->
  exists d', remove_segment_dirs ids (s, d) = ((s, d'), Ret tt) /\
    shard_ok s d' recs cs (filter (fun id : string => id ∉ ids) stale).
Proof.
  induction ids as [|id ids IH]; intros s d recs cs stale Hs Hids.
  { exists d. split; [done|]. rewrite filter_all; [done|]. intros; apply not_elem_of_nil. }
  apply Forall_cons in Hids as [Hid Hids].
  destruct (remove_stale_spec _ _ _ _ _ id (so_list _ _ _ _ _ Hs) Hid) as (Hp & Hl & Hout).
  rewrite (so_dir _ _ _ _ _ Hs) in Hp, Hl, Hout.
  destruct (remove_dir_all (join (segments_dir s) id) d) as [d1 r] eqn:Er. cbn [fst snd] in *.
  assert (shard_ok s d1 recs cs (filter (fun n => n <> id) stale)) as Hs1.
  { replace s with (set_list (sh_segments s) s) by by destruct s.
    eapply shard_ok_list; [exact Hs|exact Hl|done| |].
    - intros p Hpu. apply Hout. intros Hu. apply Hpu. unfold under in *.
      assert (length (segments_dir s) <= length (join (segments_dir s) id))%nat as Hlen
        by (unfold join; rewrite length_app; lia).
      rewrite <- (Nat.min_l _ _ Hlen), <- take_take, Hu. unfold join. apply take_app_length.
    - apply Hout; [|apply Hs]. intros E%(f_equal length).
      unfold segments_dir, join, data_path in E. cbn in E. lia. }
  destruct (IH s d1 recs cs _ Hs1 Hids) as (d' & Hr & Hok). exists d'. split.
  - unfold remove_segment_dirs in *. cbn [obj_for]. erewrite obj_bind_ret.
    2: { erewrite obj_bind_ret by reflexivity. unfold ignore, obj_io. cbn [fst snd]. rewrite Er.
         destruct r; [reflexivity|reflexivity|done]. }
    exact Hr.
  - eapply eq_rect; [exact Hok|]. f_equal. rewrite list_filter_filter.
    apply list_filter_iff. intros n. rewrite not_elem_of_cons. naive_solver.
Qed.

(** The ids the segment map of [l] locates are located in [l']. *)
Definition keeps_located (l l' : SegmentList) : Prop :=
  forall id, is_Some (sl_doc_id_map l !! id) -> is_Some (sl_doc_id_map l' !! id).

(** *** Merging *)
Definition picked (ids : list string) (segments : list SegmentEntry) (cs : list Contents)
  : list Contents := (filter (fun p => se_segment_id p.1 ∈ ids) (zip segments cs)).*2.

Lemma picked_Forall2 (P : SegmentEntry -> Contents -> Prop) ids segments cs :
  Forall2 P segments cs ->
  Forall2 P (filter (fun e => se_segment_id e ∈ ids) segments) (picked ids segments cs).
Proof.
  unfold picked. induction 1 as [|e c segments cs He _ IH]; [constructor|].
  cbn [zip zip_with]. rewrite !filter_cons. cbn [fst].
  case_decide; [|done]. cbn [fmap list_fmap snd]. by constructor.
Qed.

Lemma picked_kept ids segments cs :
  length segments = length cs -> picked ids segments cs ++ kept ids segments cs ≡ₚ cs.
Proof.
  intros H. unfold picked, kept. rewrite <- fmap_app.
  rewrite <- (snd_zip segments cs) at 3 by lia. apply fmap_Permutation.
  generalize (zip segments cs). intros l. induction l as [|x l IH]; [done|].
  rewrite !filter_cons. destruct (decide (se_segment_id x.1 ∈ ids)).
  - rewrite (decide_False (P := _ ∉ _)) by tauto. cbn. by rewrite IH.
  - rewrite (decide_True (P := _ ∉ _)) by done. rewrite <- Permutation_middle. by rewrite IH.
Qed.

Lemma live_all_app a b : live_all (a ++ b) = live_all a ++ live_all b.
Proof. apply bind_app. Qed.

Lemma live_all_fresh docs : live_all [fresh_contents docs] = docs.
Proof. unfold live_all. cbn. by rewrite app_nil_r, live_fresh. Qed.

(** Replacing segments by one with their documents loses nothing. *)
Lemma elem_of_picked_live ids segments cs e c doc :
  (e, c) ∈ zip segments cs -> se_segment_id e ∈ ids -> doc ∈ live_mem c ->
  doc ∈ live_all (picked ids segments cs).
Proof.
  intros Hz He Hdoc. unfold live_all, picked. apply list_elem_of_bind. exists c. split; [done|].
  apply list_elem_of_fmap. exists (e, c). split; [done|]. by apply list_elem_of_filter.
Qed.

Lemma live_merged ids segments cs :
  length segments = length cs ->
  live_all (kept ids segments cs ++ [fresh_contents (live_all (picked ids segments cs))])
    ≡ₚ live_all cs.
Proof.
  intros H. rewrite live_all_app, live_all_fresh, Permutation_app_comm, <- live_all_app.
  unfold live_all. by rewrite picked_kept.
Qed.

Lemma collect_sources schema sdir d (ids : SegmentReader -> list Z) srcs cs acc :
  (forall r docs b acc, segment_holds schema r docs b ->
     collect_docs ids acc r = Ret (acc ++ live_docs docs b)) ->
  Forall2 (entry_ok schema sdir d) srcs cs ->
  try_fold (collect_docs ids) acc (se_reader <$> srcs) = Ret (acc ++ live_all cs).
Proof.
  intros Hids HF. revert acc. induction HF as [|e c srcs cs He _ IH]; intros acc.
  { by rewrite app_nil_r. }
  cbn [fmap list_fmap try_fold]. rewrite (Hids _ _ _ _ (eo_holds _ _ _ _ _ He)).
  cbn [mbind outcome_bind]. rewrite IH. unfold live_all. cbn [mbind list_bind].
  by rewrite <- app_assoc.
Qed.

Lemma all_ids_gone (ids l : list string) : (forall x, x ∈ l -> x ∈ ids) ->
  filter (fun id : string => id ∉ ids) l = [].
Proof. intros H. apply filter_none. intros x Hx Hn. exact (Hn (H x Hx)). Qed.

Lemma new_name_unused s d recs cs stale :
  shard_ok s d recs cs stale ->
  segment_name (sl_next_segment_seq (sh_segments s)) ∉ (se_segment_id <$> sl_segments (sh_segments s)).
Proof. intros Hs. exact (proj1 (next_name_unused _ _ _ _ _ (so_list _ _ _ _ _ Hs))). Qed.

Lemma run_merge_spec s d recs cs g :
  shard_ok s d recs cs [] -> all_fit (sh_schema s) (live_all cs) ->
  Forall (fun id : string => id ∈ (se_segment_id <$> sl_segments (sh_segments s))) g ->
  sl_next_segment_seq (sh_segments s) + 1 < 2 ^ 64 ->
  exists l' d' cs', run_merge g (s, d) = ((set_list l' s, d'), Ret tt) /\
    shard_ok (set_list l' s) d' recs cs' [] /\ live_all cs' ≡ₚ live_all cs /\
    sl_next_segment_seq l' = sl_next_segment_seq (sh_segments s) + 1 /\
    keeps_located (sh_segments s) l'.
Proof.
  intros Hs Hfit Hg Hn. set (segs := sl_segments (sh_segments s)).
  pose proof (lo_entries _ _ _ _ _ (so_list _ _ _ _ _ Hs)) as HF.
  assert (length segs = length cs) as Hlen by by eapply Forall2_length.
  set (merged := live_all (picked g segs cs)).
  assert (merged ⊆+ live_all cs) as Hsub.
  { unfold merged, live_all. rewrite <- (picked_kept g segs cs Hlen) at 2.
    rewrite bind_app. apply submseteq_inserts_r. done. }
  destruct (install_spec s d recs cs [] g merged Hs (Hfit _ Hsub) Hn)
    as (d1 & r & st & Hw & Hr & Hok). cbn zeta in *. cbn [app] in Hok.
  set (e := {| se_segment_id := _ |}) in *.
  set (l1 := installed (sh_segments s) g e merged) in *.
  destruct (remove_segment_dirs_spec g (set_list l1 s) d1 recs _ _ Hok) as (d2 & Hrm & Hok2).
  { apply Forall_forall. intros id Hid. unfold l1, installed, registered, bumped. cbn [sh_segments set_list sl_segments].
    rewrite fmap_app, fmap_filter_ids. intros [[? _]%list_elem_of_filter|Hin]%elem_of_app; [done|].
    apply list_elem_of_singleton in Hin. cbn in Hin. subst id.
    eapply new_name_unused; [exact Hs|]. exact (proj1 (Forall_forall _ _) Hg _ Hid). }
  exists l1, d2. eexists. split_and!.
  - unfold run_merge. erewrite obj_bind_ret by by eapply bumped_call.
    erewrite obj_bind_ret by reflexivity. cbn zeta. cbn [fst snd].
    erewrite obj_bind_ret.
    2: { apply obj_io_ret. unfold execute_merge. cbn [sh_segments set_list sh_schema].
         erewrite io_bind_ret.
         2: { unfold lift. erewrite (collect_sources _ _ _ all_ids); [reflexivity| |].
              - intros. by apply collect_all with (schema := sh_schema s).
              - apply (picked_Forall2 _ g). exact HF. }
         change (_ ++ live_all (picked g segs cs)) with merged.
         rewrite (io_bind_ret _ _ _ d1 (r, st)) by exact Hw. reflexivity. }
    erewrite obj_bind_ret.
    2: { apply zoom_ret. cbn [sh_segments set_list].
         apply (replace_segments_spec (sh_schema s)). exact Hr. }
    exact Hrm.
  - rewrite all_ids_gone in Hok2; [exact Hok2|]. by intros x [? _]%list_elem_of_filter.
  - by apply live_merged.
  - done.
  - intros id. eapply installed_located; [apply (so_list _ _ _ _ _ Hs)|].
    intros e0 c doc Hz Hg0 Hdoc. by eapply elem_of_picked_live.
Qed.

Lemma maybe_merge_spec s d recs cs :
  shard_ok s d recs cs [] -> all_fit (sh_schema s) (live_all cs) ->
  sl_next_segment_seq (sh_segments s) + 1 < 2 ^ 64 ->
  exists l' d' cs', maybe_merge (s, d) = ((set_list l' s, d'), Ret tt) /\
    shard_ok (set_list l' s) d' recs cs' [] /\ live_all cs' ≡ₚ live_all cs /\
    sl_next_segment_seq l' <= sl_next_segment_seq (sh_segments s) + 1 /\
    keeps_located (sh_segments s) l'.
Proof.
  intros Hs Hfit Hn.
  destruct (find_merges_spec (sh_merge_policy s) (sl_segments (sh_segments s)))
    as (gs & Hgs & Hcase & _).
  assert (forall m, maybe_merge (s, d) = m <-> obj_for run_merge gs (s, d) = m) as Hrun.
  { intros m. unfold maybe_merge. erewrite obj_bind_ret by reflexivity. cbn [fst].
    erewrite obj_bind_ret by (unfold obj_lift; rewrite Hgs; reflexivity). done. }
  destruct Hcase as [->|(g & order & -> & _ & _ & HF & _)].
  - exists (sh_segments s), d, cs. replace (set_list (sh_segments s) s) with s by by destruct s.
    split_and!; [by apply Hrun|done|done|lia|by intros id].
  - destruct (run_merge_spec s d recs cs g Hs Hfit) as (l' & d' & cs' & Hr & Hok & Hlive & Hseq & Hloc).
    { apply Forall_forall. intros id Hid. apply list_elem_of_lookup in Hid as [i Hi].
      destruct (Forall2_lookup_r _ _ _ _ _ HF Hi) as (ic & _ & e & He & <-).
      apply list_elem_of_fmap_2. by eapply list_elem_of_lookup_2. }
    { done. }
    exists l', d', cs'. split_and!; [|done|done|lia|done]. apply Hrun. cbn [obj_for].
    by erewrite obj_bind_ret by exact Hr.
Qed.

(** *** Flushing *)
Definition empty_buffer (s : ShardEngine) : WriteBuffer :=
  wb_new (sh_schema s) (wb_capacity_bytes (sh_write_buffer s)).

Lemma drain_call s d recs cs stale :
  shard_ok s d recs cs stale ->
  exists d', on_buffer drain (s, d)
      = ((set_buffer (empty_buffer s) s, d'),
         Ret (wb_docs (sh_write_buffer s), wb_deleted_ids (sh_write_buffer s))) /\
    shard_ok (set_buffer (empty_buffer s) s) d' recs cs stale.
Proof.
  intros Hs. destruct (drain_spec (sh_write_buffer s) d) as (b' & d' & Hr & Hb & Hfr).
  rewrite (so_schema _ _ _ _ _ Hs) in Hb. fold (empty_buffer s) in Hb. subst b'.
  exists d'. split; [by apply zoom_ret|]. eapply shard_ok_buffer; [exact Hs| |done|exact Hfr].
  apply buffer_ok_new.
Qed.

Lemma flush_spec s d recs cs :
  shard_ok s d recs cs [] ->
  all_fit (sh_schema s) (live_all cs ++ wb_docs (sh_write_buffer s)) ->
  sl_next_segment_seq (sh_segments s) + 2 < 2 ^ 64 ->
  exists l' d' cs',
    flush (s, d) = ((set_list l' (set_buffer (empty_buffer s) s), d'), Ret tt) /\
    shard_ok (set_list l' (set_buffer (empty_buffer s) s)) d'
      (match wb_docs (sh_write_buffer s) with [] => recs | _ => [] end) cs' [] /\
    live_all cs' ≡ₚ live_all cs ++ wb_docs (sh_write_buffer s) /\
    sl_next_segment_seq l' <= sl_next_segment_seq (sh_segments s) + 2 /\
    keeps_located (sh_segments s) l' /\
    (forall doc, doc ∈ wb_docs (sh_write_buffer s) -> is_Some (sl_doc_id_map l' !! doc_id doc)).
Proof.
  intros Hs Hfit Hn. destruct (drain_call s d recs cs [] Hs) as (d1 & Hdrain & Hs1).
  set (s1 := set_buffer (empty_buffer s) s) in *. set (docs := wb_docs (sh_write_buffer s)) in *.
  destruct (decide (docs = [])) as [Hnil|Hne].
  { exists (sh_segments s), d1, cs. rewrite Hnil, app_nil_r.
    replace (set_list (sh_segments s) s1) with s1 by by destruct s.
    split_and!; [|done|done|lia|by intros id|by intros ? ?%elem_of_nil]. unfold flush.
    erewrite obj_bind_ret by exact Hdrain. fold docs. cbn beta iota. by rewrite bool_decide_true. }
  destruct (install_spec s1 d1 recs cs [] [] docs Hs1) as (d2 & r & st & Hw & Hr & Hok).
  { apply Hfit. by apply submseteq_inserts_l. }
  { cbn. lia. }
  cbn zeta in *. set (e := {| se_segment_id := _ |}) in *. cbn [app] in Hok.
  rewrite filter_none in Hok by (intros; apply not_elem_of_nil).
  rewrite kept_nil in Hok by by eapply Forall2_length, (so_list _ _ _ _ _ Hs1).
  set (l1 := installed (sh_segments s1) [] e docs) in *. set (s2 := set_list l1 s1) in *.
  destruct (truncate_spec _ _ _ (so_wal _ _ _ _ _ Hok)) as (d3 & Ht & Hwal & Honly).
  assert (shard_ok s2 d3 [] (cs ++ [fresh_contents docs]) []) as Hok3.
  { replace s2 with (set_wal (sh_wal s2) s2) by by destruct s. by eapply shard_ok_wal. }
  destruct (maybe_merge_spec s2 d3 [] (cs ++ [fresh_contents docs]) Hok3)
    as (l' & d' & cs' & Hm & Hok' & Hlive & Hseq & Hloc).
  { eapply all_fit_perm; [|exact Hfit]. by rewrite live_all_app, live_all_fresh. }
  { unfold s2, l1. cbn. lia. }
  exists l', d', cs'. split_and!.
  - unfold flush. erewrite obj_bind_ret by exact Hdrain. fold docs s1. cbn beta iota.
    rewrite bool_decide_false by done.
    erewrite obj_bind_ret by (eapply bumped_call; [exact Hs1|cbn; lia]).
    erewrite obj_bind_ret by reflexivity. cbn zeta. cbn [fst snd].
    rewrite (obj_bind_ret _ _ _ (set_list (bumped (sh_segments s1)) s1, d2) (r, st))
      by (apply obj_io_ret; exact Hw).
    cbn beta iota. erewrite obj_bind_ret.
    2: { apply zoom_ret. cbn [sh_segments set_list]. apply (add_segment_spec (sh_schema s)).
         exact Hr. }
    erewrite obj_bind_ret by (apply zoom_ret; exact Ht). exact Hm.
  - destruct docs; [done|]. exact Hok'.
  - by rewrite Hlive, live_all_app, live_all_fresh.
  - unfold s2, l1 in Hseq. cbn in Hseq. lia.
  - intros id Hid. apply Hloc. eapply (installed_located (sh_schema s)); [apply (so_list _ _ _ _ _ Hs1)| |exact Hid].
    by intros ? ? ? _ ?%elem_of_nil.
  - intros doc Hdoc. by apply Hloc, installed_registers.
Qed.

(** *** Indexing *)

(** All documents the engine stores: those its readers return and the whole
    buffer. *)
Definition stored (s : ShardEngine) (cs : list Contents) : list Document :=
  live_all cs ++ wb_docs (sh_write_buffer s).

Lemma append_call s d recs cs {stale} entry :
  shard_ok s d recs cs stale -> record_fits (mkWalRecord (wal_next_seq (sh_wal s)) entry) ->
  exists d', on_wal (append entry) (s, d)
      = ((set_wal (set_next_seq (seq_after (wal_next_seq (sh_wal s)) [entry]) (sh_wal s)) s, d'),
         Ret (wal_next_seq (sh_wal s))) /\
    shard_ok (set_wal (set_next_seq (seq_after (wal_next_seq (sh_wal s)) [entry]) (sh_wal s)) s) d'
      (recs ++ [mkWalRecord (wal_next_seq (sh_wal s)) entry]) cs stale.
Proof.
  intros Hs Hfit. destruct (append_batch_spec [entry] _ _ _ (so_wal _ _ _ _ _ Hs))
    as (d' & Hr & [Hf Hrf] & Ho); [by repeat constructor|].
  exists d'. split.
  - apply zoom_ret. unfold append. erewrite obj_bind_ret by exact Hr. done.
  - eapply shard_ok_wal; [exact Hs|done|by split|exact Ho].
Qed.

Lemma buffer_frame_add doc b d : buffer_frame b d (wb_add doc b).1 d.
Proof. by apply buffer_frame_refl. Qed.

Lemma shard_ok_add s d recs cs {stale} doc :
  shard_ok s d recs cs stale ->
  shard_ok (set_buffer (wb_add doc (sh_write_buffer s)).1 s) d recs cs stale.
Proof.
  intros Hs. eapply shard_ok_buffer; [exact Hs|apply buffer_ok_add, Hs| |apply buffer_frame_add].
  apply Hs.
Qed.

(** The queues of the replicas after the records were enqueued. *)
Definition enqueued (records : list WalRecord) (rm : ReplicationManager) : ReplicationManager :=
  foldl (fun rm r => rm_enqueue (wr_seq r) (wr_entry r) rm) rm records.

(** What a method that logs [entries] leaves alone, and what it enqueues. *)
Record logs (entries : list WalEntry) (s s' : ShardEngine) : Prop := {
  lg_schema : sh_schema s' = sh_schema s;
  lg_config : sh_config s' = sh_config s;
  lg_wal : sh_wal s' = set_next_seq (seq_after (wal_next_seq (sh_wal s)) entries) (sh_wal s);
  lg_replication :
    sh_replication s' = enqueued (numbered (wal_next_seq (sh_wal s)) entries) <$> sh_replication s;
}.

Lemma logs_nil s l b : logs [] s (set_list l (set_buffer b s)).
Proof. split; [done..| |]; destruct s as [? ? w ? ? ? ? rep]; [by destruct w|by destruct rep]. Qed.

Lemma logs_trans_nil entries s s1 s2 : logs entries s s1 -> logs [] s1 s2 -> logs entries s s2.
Proof.
  intros [E1 E2 E3 E4] [F1 F2 F3 F4]. split; [congruence|congruence| |].
  - rewrite F3, E3. done.
  - rewrite F4, E4. by destruct (sh_replication s).
Qed.

Lemma shard_index_spec s d recs cs doc :
  shard_ok s d recs cs [] ->
  record_fits (mkWalRecord (wal_next_seq (sh_wal s)) (WalIndex doc)) ->
  all_fit (sh_schema s) (stored s cs ++ [doc]) ->
  sl_next_segment_seq (sh_segments s) + 2 < 2 ^ 64 ->
  exists s' d' recs' cs', shard_index doc (s, d) = ((s', d'), Ret tt) /\
    shard_ok s' d' recs' cs' [] /\ logs [WalIndex doc] s s' /\
    stored s' cs' ≡ₚ stored s cs ++ [doc] /\
    (if (wb_add doc (sh_write_buffer s)).2
     then recs' = [] /\ wb_docs (sh_write_buffer s') = [] /\ wb_deleted_ids (sh_write_buffer s') = ∅ /\
       keeps_located (sh_segments s) (sh_segments s') /\
       (forall x, x ∈ wb_docs (sh_write_buffer s) ++ [doc] ->
          is_Some (sl_doc_id_map (sh_segments s') !! doc_id x))
     else recs' = recs ++ [mkWalRecord (wal_next_seq (sh_wal s)) (WalIndex doc)] /\ cs' = cs /\
       wb_docs (sh_write_buffer s') = wb_docs (sh_write_buffer s) ++ [doc] /\
       wb_deleted_ids (sh_write_buffer s') = wb_deleted_ids (sh_write_buffer s) /\
       sh_segments s' = sh_segments s).
Proof.
  intros Hs Hrec Hfit Hn.
  destruct (append_call s d recs cs (WalIndex doc) Hs Hrec) as (d1 & Ha & Hs1).
  set (s1 := set_wal _ s) in *.
  set (s2 := set_replication (rm_enqueue (wal_next_seq (sh_wal s)) (WalIndex doc) <$> sh_replication s1) s1).
  assert (shard_ok s2 d1 (recs ++ [mkWalRecord (wal_next_seq (sh_wal s)) (WalIndex doc)]) cs []) as Hs2
    by by apply shard_ok_replication.
  pose proof (shard_ok_add _ _ _ _ doc Hs2) as Hs3. set (s3 := set_buffer _ s2) in *.
  assert (forall m, (if (wb_add doc (sh_write_buffer s)).2 then flush else mret tt) (s3, d1) = m ->
    shard_index doc (s, d) = m) as Hrun.
  { intros m Hm. unfold shard_index. erewrite obj_bind_ret by exact Ha.
    erewrite obj_bind_ret by reflexivity.
    erewrite obj_bind_ret by (apply zoom_ret; reflexivity). exact Hm. }
  destruct ((wb_add doc (sh_write_buffer s)).2).
  - destruct (flush_spec s3 d1 _ cs Hs3) as (l' & d' & cs' & Hf & Hok & Hlive & _ & Hloc & Hreg).
    { eapply all_fit_perm; [|exact Hfit]. unfold stored. by rewrite <- app_assoc. }
    { exact Hn. }
    assert (wb_docs (sh_write_buffer s3) <> []) as Hne
      by by intros [_ ?]%app_eq_nil.
    destruct (wb_docs (sh_write_buffer s3)) as [|x l] eqn:E; [done|].
    eexists _, d', [], cs'. split_and!; [by apply Hrun| |done|..|done|done|done|exact Hloc|].
    + exact Hok.
    + unfold stored at 1. cbn [sh_write_buffer set_list set_buffer empty_buffer wb_new wb_docs].
      rewrite app_nil_r, Hlive, <- E. unfold stored. by rewrite <- app_assoc.
    + intros y Hy. apply Hreg. by rewrite <- E.
  - exists s3, d1. eexists _, cs. split_and!; [by apply Hrun|exact Hs3|done| |done|done|done|done|done].
    unfold stored. cbn. by rewrite app_assoc.
Qed.

(** *** Deleting *)
Lemma shard_ok_mark s d recs cs {stale} id :
  shard_ok s d recs cs stale ->
  shard_ok (set_buffer (wb_mark_deleted id (sh_write_buffer s)) s) d recs cs stale.
Proof.
  intros Hs. eapply shard_ok_buffer; [exact Hs|apply buffer_ok_mark, Hs| |by apply buffer_frame_refl].
  apply Hs.
Qed.

(** The contents after the location [loc] was marked on disk. *)
Definition marked (id : Z) (cs cs' : list Contents) : Prop :=
  exists i c k doc b', cs !! i = Some c /\ cs' = <[i := with_disk c b']> cs /\
    doc_at (cn_docs c) (cn_mem c) k = Some doc /\ doc_id doc = id /\ 0 <= k /\
    (forall x, rb_contains b' x = (k =? x) || rb_contains (cn_disk c) x).

Lemma marked_live_all id cs cs' : marked id cs cs' -> live_all cs' = live_all cs.
Proof.
  intros (i & c & k & doc & b' & Hc & -> & _). unfold live_all.
  rewrite <- (take_drop_middle cs i c Hc) at 2.
  rewrite insert_take_drop by by eapply lookup_lt_Some. by rewrite !bind_app, !bind_cons.
Qed.

Lemma mark_list_spec s d recs cs {stale} id :
  shard_ok s d recs cs stale ->
  exists l' d' cs' found, on_segments (sl_mark_deleted id) (s, d) = ((set_list l' s, d'), Ret found) /\
    shard_ok (set_list l' s) d' recs cs' stale /\ sl_doc_id_map l' = delete id (sl_doc_id_map (sh_segments s)) /\
    sl_next_segment_seq l' = sl_next_segment_seq (sh_segments s) /\
    (if (found : bool) then is_Some (sl_doc_id_map (sh_segments s) !! id) /\ marked id cs cs'
     else sl_doc_id_map (sh_segments s) !! id = None /\ cs' = cs).
Proof.
  intros Hs. pose proof (sl_mark_deleted_spec _ _ _ _ _ id (so_list _ _ _ _ _ Hs)) as H.
  destruct (sl_doc_id_map (sh_segments s) !! id) as [loc|] eqn:Hm.
  - destruct H as (i & c & doc & b' & d' & Hc & Hd & Hid & Hk & Hb' & Hr & Hok & Hdirs & Hfiles).
    eexists _, d', _, true. split_and!; [by apply zoom_ret| |done|done|by eexists|].
    + eapply shard_ok_list; [exact Hs|exact Hok|done| |].
      * intros p Hp. apply Hfiles. by rewrite (so_dir _ _ _ _ _ Hs).
      * rewrite Hdirs. apply Hs.
    + exists i, c, (dl_local_doc_id loc), doc, b'. done.
  - exists (sh_segments s), d, cs, false. split_and!; [by apply zoom_ret| | |done|done|done].
    + by rewrite set_list_id.
    + by rewrite delete_id.
Qed.

Lemma shard_delete_spec s d recs cs id :
  shard_ok s d recs cs [] ->
  record_fits (mkWalRecord (wal_next_seq (sh_wal s)) (WalDelete id)) ->
  exists s' d' cs', shard_delete id (s, d) = ((s', d'), Ret tt) /\
    shard_ok s' d' (recs ++ [mkWalRecord (wal_next_seq (sh_wal s)) (WalDelete id)]) cs' [] /\
    wb_docs (sh_write_buffer s') = wb_docs (sh_write_buffer s) /\
    wb_deleted_ids (sh_write_buffer s') = {[id]} ∪ wb_deleted_ids (sh_write_buffer s) /\
    sl_doc_id_map (sh_segments s') = delete id (sl_doc_id_map (sh_segments s)) /\
    ((sl_doc_id_map (sh_segments s) !! id = None /\ cs' = cs) \/
     (is_Some (sl_doc_id_map (sh_segments s) !! id) /\ marked id cs cs')) /\
    logs [WalDelete id] s s'.
Proof.
  intros Hs Hrec. destruct (append_call s d recs cs (WalDelete id) Hs Hrec) as (d1 & Ha & Hs1).
  set (s1 := set_wal _ s) in *.
  set (s2 := set_replication (rm_enqueue (wal_next_seq (sh_wal s)) (WalDelete id) <$> sh_replication s1) s1).
  pose proof (shard_ok_mark s2 d1 _ cs id (shard_ok_replication _ _ _ _ _ _ Hs1)) as Hs3.
  set (s3 := set_buffer _ s2) in *.
  destruct (mark_list_spec s3 d1 _ cs id Hs3) as (l' & d' & cs' & found & Hm & Hok & Hmap & _ & Hcase).
  eexists _, d', cs'. split_and!; [|exact Hok|done|done|done| |done].
  - unfold shard_delete. erewrite obj_bind_ret by exact Ha. erewrite obj_bind_ret by reflexivity.
    erewrite obj_bind_ret by (apply zoom_ret; reflexivity).
    erewrite obj_bind_ret by exact Hm. reflexivity.
  - destruct found; naive_solver.
Qed.

(** *** Reading *)
Lemma get_all_live_docs_spec s d recs cs stale :
  shard_ok s d recs cs stale ->
  get_all_live_docs s = Ret (live_all cs ++ wb_all_docs (sh_write_buffer s)).
Proof.
  intros Hs. unfold get_all_live_docs. erewrite (collect_sources _ _ _ live_ids).
  - reflexivity.
  - intros. by apply collect_live with (schema := sh_schema s).
  - apply (so_list _ _ _ _ _ Hs).
Qed.

(** *** Searching *)
Definition searchable (s : ShardEngine) (cs : list Contents) : list Document :=
  live_all cs ++ wb_all_docs (sh_write_buffer s).

(** The contents of the readers a search goes over. *)
Definition search_contents (s : ShardEngine) (cs : list Contents)
  : list (list Document * RoaringBitmap) :=
  ((fun c => (cn_docs c, cn_mem c)) <$> cs) ++
  match wb_all_docs (sh_write_buffer s) with [] => [] | live => [(live, rb_new)] end.

Lemma passing_searchable s cs request p d doc :
  p ∈ search_contents s cs -> passing (sh_schema s) p.1 p.2 request d doc ->
  doc ∈ searchable s cs /\
  forall field f, rq_filters request !! field = Some f -> doc_passes (sh_schema s) doc field f.
Proof.
  intros Hp (Hb & Hd & Hdoc & Hf). split; [|done]. unfold searchable. apply elem_of_app.
  apply elem_of_app in Hp as [Hp|Hp].
  - left. apply list_elem_of_fmap in Hp as (c & -> & Hc). apply list_elem_of_bind.
    exists c. split; [|done]. apply elem_of_live_docs. by exists d.
  - right. destruct (wb_all_docs (sh_write_buffer s)) as [|x l]; [by apply elem_of_nil in Hp|].
    apply list_elem_of_singleton in Hp as ->. by eapply list_elem_of_lookup_2.
Qed.

Lemma readers_hold s d recs cs {stale} :
  shard_ok s d recs cs stale ->
  Forall2 (seg_holds (sh_schema s)) (readers (sh_segments s)) ((fun c => (cn_docs c, cn_mem c)) <$> cs).
Proof.
  intros Hs. pose proof (lo_entries _ _ _ _ _ (so_list _ _ _ _ _ Hs)) as HF. unfold readers. clear Hs.
  induction HF as [|e c es cs' He _ IH]; [constructor|].
  constructor; [exact (eo_holds _ _ _ _ _ He)|exact IH].
Qed.

Lemma shard_search_spec s d recs cs {stale} request elapsed_ms :
  shard_ok s d recs cs stale ->
  (wb_all_docs (sh_write_buffer s) <> [] ->
   segment_fits (sh_schema s) (wb_all_docs (sh_write_buffer s))) ->
  exists b' d' segments resp,
    shard_search request elapsed_ms (s, d) = ((set_buffer b' s, d'), Ret resp) /\
    shard_ok (set_buffer b' s) d' recs cs stale /\ same_contents (sh_write_buffer s) b' /\
    Forall2 (seg_holds (sh_schema s)) segments (search_contents s cs) /\
    multi_search (ms_new (sh_schema s)) segments request elapsed_ms = Ret resp.
Proof.
  intros Hs Hfit. rewrite <- (so_schema _ _ _ _ _ Hs) in Hfit.
  destruct (reader_and_stats_spec (sh_write_buffer s) d (so_buffer _ _ _ _ _ Hs) Hfit)
    as (b' & d' & o & Hr & Hserve & Hsame & Hok & Hfr).
  set (segments := match o with Some rs => readers (sh_segments s) ++ [rs] | None => readers (sh_segments s) end).
  assert (Forall2 (seg_holds (sh_schema s)) segments (search_contents s cs)) as HF.
  { pose proof (readers_hold s d recs cs Hs) as HF. unfold search_contents, segments, serves in *.
    rewrite (so_schema _ _ _ _ _ Hs) in Hserve.
    destruct (wb_all_docs (sh_write_buffer s)) as [|x l].
    - subst o. by rewrite app_nil_r.
    - destruct Hserve as (r & st & -> & Hr1 & _). apply Forall2_app; [done|].
      constructor; [exact Hr1|constructor]. }
  destruct (multi_search_spec (sh_schema s) request segments _ elapsed_ms HF) as (resp & rs & Hm & _).
  exists b', d', segments, resp. split_and!; [|  |done|done|done].
  - unfold shard_search. erewrite obj_bind_ret by reflexivity. cbn zeta. cbn [fst].
    erewrite obj_bind_ret by (by apply zoom_ret).
    rewrite (so_searcher _ _ _ _ _ Hs). fold segments. unfold obj_lift. by rewrite Hm.
  - eapply shard_ok_buffer; [exact Hs|done| |done].
    destruct Hsame as (? & ? & ? & ? & ->). apply Hs.
Qed.

(** *** Reindexing *)
Lemma reindex_spec s d recs cs elapsed_ms :
  shard_ok s d recs cs [] -> all_fit (sh_schema s) (stored s cs) ->
  sl_next_segment_seq (sh_segments s) + 3 < 2 ^ 64 ->
  exists s' d' recs' cs' st, reindex_self elapsed_ms (s, d) = ((s', d'), Ret st) /\
    shard_ok s' d' recs' cs' [] /\ live_all cs' ≡ₚ stored s cs /\
    wb_docs (sh_write_buffer s') = [] /\ rx_docs_reindexed st = Z.of_nat (length (stored s cs)) /\
    (stored s cs <> [] -> length (sl_segments (sh_segments s')) = 1%nat /\ recs' = []) /\
    logs [] s s' /\ (recs' = recs \/ recs' = []) /\
    rx_shard_id st = sc_shard_id (sh_config s) /\ rx_elapsed_ms st = elapsed_ms.
Proof.
  intros Hs Hfit Hn. destruct (flush_spec s d recs cs Hs Hfit) as (l1 & d1 & cs1 & Hf & Hok1 & Hlive & Hseq & _); [lia|].
  set (s1 := set_list l1 (set_buffer (empty_buffer s) s)) in *.
  set (recs1 := match wb_docs (sh_write_buffer s) with [] => recs | _ => [] end) in *.
  assert (live_all cs1 ≡ₚ stored s cs) as Hl1 by done.
  assert (try_fold (collect_docs live_ids) [] (se_reader <$> sl_segments (sh_segments s1))
    = Ret (live_all cs1)) as Hcollect.
  { erewrite (collect_sources _ _ _ live_ids); [reflexivity| |apply (so_list _ _ _ _ _ Hok1)].
    intros. by apply collect_live with (schema := sh_schema s). }
  assert (forall m,
    (if bool_decide (live_all cs1 = []) then
       mret {| rx_shard_id := sc_shard_id (sh_config s1); rx_docs_reindexed := 0; rx_elapsed_ms := elapsed_ms |}
     else
       new_seg_id ← on_segments (call_self next_segment_id);
       let new_dir := join (segments_dir s1) new_seg_id in
       '(reader, stats) ← obj_io (write_segment (sh_schema s1) new_seg_id (live_all cs1) new_dir);
       let new_entry := {| se_segment_id := new_seg_id; se_dir := new_dir;
                           se_reader := reader; se_stats := stats |} in
       s ← get_self;
       let old_ids := se_segment_id <$> sl_segments (sh_segments s) in
       _ ← on_segments (replace_segments old_ids new_entry);
       _ ← remove_segment_dirs old_ids;
       _ ← on_wal truncate;
       mret {| rx_shard_id := sc_shard_id (sh_config s);
               rx_docs_reindexed := Z.of_nat (length (live_all cs1)); rx_elapsed_ms := elapsed_ms |})
      (s1, d1) = m -> reindex_self elapsed_ms (s, d) = m) as Hrun.
  { intros m Hm. unfold reindex_self. erewrite obj_bind_ret by exact Hf.
    erewrite obj_bind_ret by reflexivity. cbn [fst].
    erewrite obj_bind_ret by (unfold obj_lift; rewrite Hcollect; reflexivity). exact Hm. }
  assert (logs [] s s1) as Hlogs by apply logs_nil.
  assert (recs1 = recs \/ recs1 = []) as Hrecs
    by (unfold recs1; destruct (wb_docs (sh_write_buffer s)); [by left|by right]).
  destruct (decide (live_all cs1 = [])) as [Hnil|Hne].
  { exists s1, d1, recs1, cs1. eexists. split_and!.
    - apply Hrun. rewrite bool_decide_true by done. reflexivity.
    - exact Hok1.
    - done.
    - done.
    - rewrite <- (Permutation_length Hl1), Hnil. done.
    - intros Hst. destruct Hst. apply Permutation_nil. by rewrite <- Hl1, Hnil.
    - done. - done. - done. - done. }
  set (old := se_segment_id <$> sl_segments (sh_segments s1)).
  destruct (install_spec s1 d1 recs1 cs1 [] old (live_all cs1) Hok1) as (d2 & r & st & Hw & Hr & Hok2).
  { apply Hfit. by rewrite Hl1. }
  { unfold s1. cbn. lia. }
  cbn zeta in *. set (e := {| se_segment_id := _ |}) in *. cbn [app] in Hok2.
  set (l2 := installed (sh_segments s1) old e (live_all cs1)) in *.
  destruct (remove_segment_dirs_spec old (set_list l2 s1) d2 recs1 _ _ Hok2) as (d3 & Hrm & Hok3).
  { apply Forall_forall. intros id Hid. unfold l2, installed, registered, bumped. cbn [sh_segments set_list sl_segments].
    rewrite fmap_app, fmap_filter_ids. intros [[? _]%list_elem_of_filter|Hin]%elem_of_app; [done|].
    apply list_elem_of_singleton in Hin. cbn in Hin. subst id. eapply new_name_unused; [exact Hok1|exact Hid]. }
  rewrite all_ids_gone in Hok3 by (by intros x [? _]%list_elem_of_filter).
  destruct (truncate_spec _ _ _ (so_wal _ _ _ _ _ Hok3)) as (d4 & Ht & Hwal & Honly).
  assert (kept old (sl_segments (sh_segments s1)) cs1 = []) as Hkept.
  { unfold kept. rewrite filter_none; [done|]. intros [e0 c0] Hin Hno. apply Hno. cbn.
    apply list_elem_of_fmap_2. apply list_elem_of_lookup in Hin as [i Hi].
    apply lookup_zip_with_Some in Hi as (? & ? & [= <- <-] & ? & _). by eapply list_elem_of_lookup_2. }
  rewrite Hkept in Hok3. cbn [app] in Hok3.
  eexists (set_wal (sh_wal s1) (set_list l2 s1)), d4, [], [fresh_contents (live_all cs1)], _.
  split_and!.
  - apply Hrun. rewrite bool_decide_false by done.
    erewrite obj_bind_ret by (eapply bumped_call; [exact Hok1|unfold s1; cbn; lia]). cbn zeta.
    rewrite (obj_bind_ret _ _ _ (set_list (bumped (sh_segments s1)) s1, d2) (r, st))
      by (apply obj_io_ret; exact Hw).
    cbn beta iota. erewrite obj_bind_ret by reflexivity. cbn [fst]. fold e.
    erewrite obj_bind_ret.
    2: { apply zoom_ret. cbn [sh_segments set_list]. apply (replace_segments_spec (sh_schema s)). exact Hr. }
    erewrite obj_bind_ret by exact Hrm.
    erewrite obj_bind_ret by (apply zoom_ret; exact Ht). reflexivity.
  - eapply shard_ok_wal; [exact Hok3|done|exact Hwal|exact Honly].
  - by rewrite live_all_fresh.
  - done.
  - cbn. by rewrite (Permutation_length Hl1).
  - intros _. split; [|done]. unfold l2, installed, registered, bumped. cbn [sh_segments set_wal set_list sl_segments].
    rewrite filter_none; [done|]. intros e0 He0 Hno. apply Hno. by apply list_elem_of_fmap_2.
  - split; [done..| |]; cbn; [by destruct (sh_wal s)|by destruct (sh_replication s)].
  - by right.
  - done.
  - done.
Qed.

(** *** Opening *)
Definition index_docs (entries : list WalEntry) : list Document :=
  omap (fun e => match e with WalIndex doc => Some doc | WalDelete _ => None end) entries.
Definition deleted_of (entries : list WalEntry) : list Z :=
  omap (fun e => match e with WalDelete id => Some id | WalIndex _ => None end) entries.

(** The buffer after replaying [entries]. *)
Fixpoint replayed (b : WriteBuffer) (entries : list WalEntry) : WriteBuffer :=
  match entries with
  | [] => b
  | WalIndex doc :: entries => replayed (wb_add doc b).1 entries
  | WalDelete id :: entries => replayed (wb_mark_deleted id b) entries
  end.

Lemma replayed_spec entries : forall b,
  wb_docs (replayed b entries) = wb_docs b ++ index_docs entries /\
  wb_deleted_ids (replayed b entries) = list_to_set (deleted_of entries) ∪ wb_deleted_ids b /\
  wb_segment_dir (replayed b entries) = wb_segment_dir b /\
  wb_schema (replayed b entries) = wb_schema b /\ (buffer_ok b -> buffer_ok (replayed b entries)).
Proof.
  induction entries as [|[doc|id] entries IH]; intros b; cbn [replayed].
  - rewrite app_nil_r. split_and!; [done| |done|done|done]. cbn. set_solver.
  - destruct (IH (wb_add doc b).1) as (-> & -> & -> & -> & H5). split_and!; [|done|done|done|].
    + cbn. by rewrite <- app_assoc.
    + intros Hb. by apply H5, buffer_ok_add.
  - destruct (IH (wb_mark_deleted id b)) as (-> & -> & -> & -> & H5). split_and!; [done| |done|done|].
    + cbn. set_solver.
    + intros Hb. by apply H5, buffer_ok_mark.
Qed.

Lemma replay_all schema entries : forall b sl d cs,
  list_ok schema sl d cs [] ->
  exists sl' d' cs', obj_for replay entries ((b, sl), d) = (((replayed b entries, sl'), d'), Ret tt) /\
    list_ok schema sl' d' cs' [] /\ sl_data_dir sl' = sl_data_dir sl /\ live_all cs' = live_all cs /\
    dk_dirs d' = dk_dirs d /\
    (forall p, ~ under (sl_data_dir sl) p -> dk_files d' !! p = dk_files d !! p).
Proof.
  induction entries as [|[doc|id] entries IH]; intros b sl d cs Hl.
  { exists sl, d, cs. done. }
  { destruct (IH (wb_add doc b).1 sl d cs Hl) as (sl' & d' & cs' & Hr & Hrest).
    exists sl', d', cs'. split; [|done]. cbn [obj_for]. by erewrite obj_bind_ret by reflexivity. }
  pose proof (sl_mark_deleted_spec _ _ _ _ _ id Hl) as H.
  destruct (sl_doc_id_map sl !! id) as [loc|] eqn:Hm.
  - destruct H as (i & c & doc & b' & d1 & Hc & Hd & Hid & Hk & Hb' & Hr1 & Hok & Hdirs & Hfiles).
    set (sl1 := set_segments _ _ sl) in *.
    destruct (IH (wb_mark_deleted id b) sl1 d1 _ Hok)
      as (sl' & d' & cs' & Hr & Hl' & Hdd & Hlive & Hdirs' & Hfiles').
    exists sl', d', cs'. split_and!; [|done|done| | |].
    + cbn [obj_for]. erewrite obj_bind_ret.
      2: { cbn [replay]. erewrite obj_bind_ret by reflexivity. unfold ignore, zoom. cbn [fst snd].
           rewrite Hr1. reflexivity. }
      exact Hr.
    + rewrite Hlive. apply (marked_live_all id). exists i, c, (dl_local_doc_id loc), doc, b'. done.
    + by rewrite Hdirs'.
    + intros p Hp. rewrite Hfiles' by done. by apply Hfiles.
  - destruct (IH (wb_mark_deleted id b) sl d cs Hl) as (sl' & d' & cs' & Hr & Hrest).
    exists sl', d', cs'. split; [|done]. cbn [obj_for]. erewrite obj_bind_ret.
    2: { cbn [replay]. erewrite obj_bind_ret by reflexivity. unfold ignore, zoom. cbn [fst snd].
         rewrite H. reflexivity. }
    exact Hr.
Qed.

Definition no_catch_up (config : ShardConfig) : Prop :=
  sc_role config = Primary \/ sc_primary_endpoint config = None.

Lemma catch_up_none connect s d :
  no_catch_up (sh_config s) -> catch_up_on_open connect s d = (d, Ret s).
Proof.
  unfold catch_up_on_open. intros [->| ->]; [done|]. by destruct (sc_role _).
Qed.

Lemma shard_open_spec connect s d recs cs :
  shard_ok s d recs cs [] -> seqs_left (segments_dir s) d -> no_catch_up (sh_config s) ->
  exists s' d' cs', shard_open connect (sh_config s) (sh_schema s) d = (d', Ret s') /\
    shard_ok s' d' recs cs' [] /\ sh_config s' = sh_config s /\ sh_schema s' = sh_schema s /\
    live_all cs' ≡ₚ cs ≫= live_disk /\
    wb_docs (sh_write_buffer s') = index_docs (wr_entry <$> recs) /\
    wb_deleted_ids (sh_write_buffer s') = list_to_set (deleted_of (wr_entry <$> recs)).
Proof.
  intros Hs Hseq Hrole. set (data := data_path s).
  set (d1 := {| dk_files := dk_files d; dk_dirs := dk_dirs d ∪ list_to_set (prefixes data) |}).
  destruct (so_wal _ _ _ _ _ Hs) as [Hfile Hfits]. rewrite (so_wal_path _ _ _ _ _ Hs) in Hfile.
  fold data in Hfile.
  assert (list_ok (sh_schema s) (sh_segments s) d1 cs []) as Hl1.
  { eapply list_ok_frame; [|apply Hs]. split; [done| |]; intros; unfold d1; cbn; set_solver. }
  assert (forall n, join (segments_dir s) n ∈ dk_dirs d1 <-> join (segments_dir s) n ∈ dk_dirs d) as Hsame.
  { intros n. unfold d1. cbn [dk_dirs]. rewrite elem_of_union, elem_of_list_to_set.
    split; [|by left]. intros [?|Hp]; [done|]. exfalso.
    apply list_elem_of_fmap in Hp as (k & Hk & _). apply (f_equal length) in Hk.
    rewrite length_take in Hk. unfold segments_dir, join, data_path in Hk. cbn in Hk. lia. }
  rewrite <- (so_dir _ _ _ _ _ Hs) in Hseq, Hsame.
  destruct (sl_open_spec (sh_schema s) (sh_segments s) d1 cs Hl1)
    as (d2 & sl2 & cs2 & Ho & Hl2 & Hcs2 & Hdd & Hf2 & Hd2 & _).
  { unfold seqs_left, segment_dirs in *. apply Forall_forall. intros n Hn.
    apply (proj1 (Forall_forall _ _) Hseq). rewrite elem_of_sort_by, list_elem_of_filter, elem_of_subdirs in *.
    by rewrite <- Hsame. }
  set (b := wb_new (sh_schema s) (sc_write_buffer_size (sh_config s))).
  destruct (replay_all (sh_schema s) (wr_entry <$> recs) b sl2 d2 cs2 Hl2)
    as (sl3 & d3 & cs3 & Hr & Hl3 & Hdd3 & Hlive & Hdirs3 & Hf3).
  set (w := opened_wal (join data "wal.bin") recs).
  assert (wal_holds w d2 recs) as Hw2 by (split; [cbn; by rewrite Hf2|done]).
  destruct (replayed_spec (wr_entry <$> recs) b) as (Hdocs & Hdel & Htemp & Hsch & Hbok).
  exists (engine_new (sh_config s) (sh_schema s) w (replayed b (wr_entry <$> recs)) sl3), d3, cs3.
  split_and!.
  - unfold shard_open. erewrite io_bind_ret by reflexivity. fold d1.
    erewrite io_bind_ret.
    2: { rewrite (wal_open_existing _ d1 (frames recs) Hfile). rewrite read_bytes_frames_all by done. reflexivity. }
    fold w. rewrite (so_dir _ _ _ _ _ Hs) in Ho. erewrite io_bind_ret by exact Ho.
    erewrite io_bind_ret.
    2: { unfold replay_wal. rewrite (read_all_spec _ _ _ Hw2). fold b. rewrite Hr. reflexivity. }
    by apply catch_up_none.
  - assert (sl_data_dir sl3 = segments_dir s) as Hdir
      by by rewrite Hdd3, Hdd, (so_dir _ _ _ _ _ Hs).
    assert (~ under (segments_dir s) (join data "wal.bin")) as Hnu.
    { intros [?|Hu]%under_join; [by apply (data_path_ne s)|]. by apply not_under_short in Hu. }
    split; try done.
    + destruct Hw2 as [G1 G2]. split; [|done]. cbn. rewrite Hf3; [done|].
      by rewrite Hdd, (so_dir _ _ _ _ _ Hs).
    + apply Hbok, buffer_ok_new.
    + cbn. change (data_path _) with data. rewrite Hdirs3. apply Hd2. unfold d1. cbn.
      apply elem_of_union_l, Hs.
    + cbn. intros (t & Et & _). by rewrite Htemp in Et.
    + exact (so_root _ _ _ _ _ Hs).
  - done.
  - done.
  - rewrite Hlive. unfold live_all. rewrite Hcs2. clear. induction cs as [|c cs IH]; [done|].
    cbn [fmap list_fmap]. rewrite !bind_cons. by rewrite IH.
  - exact Hdocs.
  - cbn [engine_new sh_write_buffer]. rewrite Hdel. cbn. set_solver.
Qed.
End Invariant.

(** ** The properties of the engine *)

(** C20: indexing a document always succeeds on a well-formed shard (documents
    within the widths of the formats), keeps everything stored and adds the
    document.  Below the buffer's capacity the record is in the log behind the
    earlier ones; at capacity everything buffered moves to segments, where the
    readers return it, and the log is emptied. *)
Theorem shard_index_correct `{ILL : IndexLaws} `{SDL : SerdeLaws WalRecord} `{TDL : TempDirLaws}
    `{ML : MathLib} `{UOL : UnspecifiedOrderLaws} (s : ShardEngine) (d : Disk)
    (recs : list WalRecord) (cs : list Contents) (doc : Document) :
  shard_ok s d recs cs [] ->
  record_fits (mkWalRecord (wal_next_seq (sh_wal s)) (WalIndex doc)) ->
  all_fit (sh_schema s) (stored s cs ++ [doc]) ->
  sl_next_segment_seq (sh_segments s) + 2 < 2 ^ 64 ->
  exists s' d' recs' cs', shard_index doc (s, d) = ((s', d'), Ret tt) /\
    shard_ok s' d' recs' cs' [] /\ stored s' cs' ≡ₚ stored s cs ++ [doc] /\
    (if (wb_add doc (sh_write_buffer s)).2
     then recs' = [] /\ wb_docs (sh_write_buffer s') = [] /\ doc ∈ live_all cs'
     else recs' = recs ++ [mkWalRecord (wal_next_seq (sh_wal s)) (WalIndex doc)] /\ cs' = cs /\
       wb_docs (sh_write_buffer s') = wb_docs (sh_write_buffer s) ++ [doc]).
Proof.
  intros Hs Hrec Hfit Hn.
  destruct (shard_index_spec s d recs cs doc Hs Hrec Hfit Hn)
    as (s' & d' & recs' & cs' & Hr & Hok & _ & Hst & Hcase).
  exists s', d', recs', cs'. split_and!; [done..|].
  destruct ((wb_add doc (sh_write_buffer s)).2).
  - destruct Hcase as (-> & Hdocs & _). split_and!; [done|done|].
    unfold stored at 1 in Hst. rewrite Hdocs, app_nil_r in Hst. rewrite Hst. set_solver.
  - by destruct Hcase as (-> & -> & Hdocs & _).
Qed.

(** C19: a flush (with the merge it may trigger) succeeds and loses nothing: all
    buffered documents become readable from segments next to all earlier ones,
    the buffer and (if there was anything to flush) the log are empty, replaced
    segment directories are gone.  It also brings back buffered documents whose
    deletion was only recorded in the buffer. *)
Theorem shard_flush_correct `{ILL : IndexLaws} `{SDL : SerdeLaws WalRecord} `{TDL : TempDirLaws}
    `{ML : MathLib} `{UOL : UnspecifiedOrderLaws} (s : ShardEngine) (d : Disk)
    (recs : list WalRecord) (cs : list Contents) :
  shard_ok s d recs cs [] -> all_fit (sh_schema s) (stored s cs) ->
  sl_next_segment_seq (sh_segments s) + 2 < 2 ^ 64 ->
  exists s' d' recs' cs', flush (s, d) = ((s', d'), Ret tt) /\
    shard_ok s' d' recs' cs' [] /\ live_all cs' ≡ₚ stored s cs /\
    wb_docs (sh_write_buffer s') = [] /\ wb_deleted_ids (sh_write_buffer s') = ∅ /\
    (wb_docs (sh_write_buffer s) <> [] -> recs' = []) /\
    (forall doc, doc ∈ wb_docs (sh_write_buffer s) ->
       doc_id doc ∈ wb_deleted_ids (sh_write_buffer s) ->
       doc ∈ searchable s' cs').
Proof.
  intros Hs Hfit Hn. destruct (flush_spec s d recs cs Hs Hfit Hn) as (l' & d' & cs' & Hr & Hok & Hlive & _).
  eexists _, d', _, cs'. split_and!; [exact Hr|exact Hok|exact Hlive|done|done| |].
  - by destruct (wb_docs (sh_write_buffer s)).
  - intros doc Hdoc _. unfold searchable. rewrite Hlive. set_solver.
Qed.

(** C21: deleting succeeds, is logged, and hides the id's buffered documents at
    once and its located segment document on disk; but the open reader of that
    segment still returns the document until the shard is opened again. *)
Theorem shard_delete_correct `{ILL : IndexLaws} `{SDL : SerdeLaws WalRecord} `{TDL : TempDirLaws}
    `{ML : MathLib} `{UOL : UnspecifiedOrderLaws} (s : ShardEngine) (d : Disk)
    (recs : list WalRecord) (cs : list Contents) (id : Z) :
  shard_ok s d recs cs [] -> record_fits (mkWalRecord (wal_next_seq (sh_wal s)) (WalDelete id)) ->
  exists s' d' cs', shard_delete id (s, d) = ((s', d'), Ret tt) /\
    shard_ok s' d' (recs ++ [mkWalRecord (wal_next_seq (sh_wal s)) (WalDelete id)]) cs' [] /\
    (forall doc, doc ∈ wb_all_docs (sh_write_buffer s') <->
       doc ∈ wb_all_docs (sh_write_buffer s) /\ doc_id doc <> id) /\
    live_all cs' = live_all cs /\
    (sl_doc_id_map (sh_segments s) !! id = None -> cs' = cs) /\
    (is_Some (sl_doc_id_map (sh_segments s) !! id) ->
     exists i c k doc b', cs !! i = Some c /\ cs' = <[i := with_disk c b']> cs /\
       doc_id doc = id /\ cn_docs c !! Z.to_nat k = Some doc /\
       doc ∈ searchable s' cs' /\
       (forall x, rb_contains b' x = (k =? x) || rb_contains (cn_disk c) x)).
Proof.
  intros Hs Hrec. destruct (shard_delete_spec s d recs cs id Hs Hrec)
    as (s' & d' & cs' & Hr & Hok & Hdocs & Hdel & Hmap & Hcase & _).
  exists s', d', cs'. split_and!; [done|done| | | |].
  - intros doc. unfold wb_all_docs. rewrite Hdocs, Hdel, !list_elem_of_filter. set_solver.
  - destruct Hcase as [[_ ->]|[_ Hm]]; [done|by eapply marked_live_all].
  - destruct Hcase as [[_ ->]|[[? E] _]]; [done|]. by rewrite E.
  - intros Hsome. destruct Hcase as [[E _]|[_ Hm]]; [rewrite E in Hsome; by destruct Hsome|].
    pose proof (marked_live_all _ _ _ Hm) as Hlive.
    destruct Hm as (i & c & k & doc & b' & Hc & Hcs' & Hd & Hid & Hk & Hb'). exists i, c, k, doc, b'.
    split_and!; [done|done|done| | |done].
    + unfold doc_at in Hd. by destruct (rb_contains (cn_mem c) k).
    + unfold searchable. rewrite Hlive. apply elem_of_app. left. apply list_elem_of_bind.
      exists c. split; [|by eapply list_elem_of_lookup_2]. apply list_elem_of_omap. exists k. split; [|done].
      apply elem_of_ziota. unfold doc_at in Hd. destruct (rb_contains (cn_mem c) k); [done|].
      apply lookup_lt_Some in Hd. lia.
Qed.




Section Witness.
Import TestLibs StableOrder CountableSerde FreshTemp.
#[local] Instance test_math : MathLib := {| f32_ln := fun x => x |}.

(** A shard without segments, two documents in the buffer and in the log. *)
Definition doc_a : Document := sample_doc 7 "red shoes".
Definition doc_b : Document := sample_doc 8 "blue hat".
Definition sample_dir : path := ["./data"].
Definition sample_records : list WalRecord :=
  [mkWalRecord 0 (WalIndex doc_a); mkWalRecord 1 (WalIndex doc_b)].
Definition sample_disk : Disk :=
  {| dk_files := {[ join sample_dir "wal.bin" := frames sample_records ]};
     dk_dirs := {[ sample_dir; join sample_dir "segments" ]} |}.
Definition empty_list : SegmentList :=
  {| sl_segments := []; sl_doc_id_map := ∅; sl_data_dir := join sample_dir "segments";
     sl_next_segment_seq := 1 |}.
Definition sample_shard : ShardEngine :=
  engine_new ShardConfig_default default_product_schema
    {| wal_path := join sample_dir "wal.bin"; wal_next_seq := 2 |}
    (wb_add doc_b (wb_add doc_a (wb_new default_product_schema 1000)).1).1 empty_list.

Lemma sample_shard_ok : shard_ok sample_shard sample_disk sample_records [] [].
Proof.
  split.
  - split; [reflexivity|]. repeat constructor; intros ? [= <-]; vm_compute; reflexivity.
  - reflexivity.
  - split; cbn [sl_segments sl_doc_id_map sl_data_dir sl_next_segment_seq sh_segments sample_shard
                engine_new empty_list].
    + constructor.
    + constructor.
    + constructor.
    + vm_decide.
    + split; [vm_decide|discriminate].
    + constructor.
    + intros name file _ [v Hv]. exfalso. cbn [sample_disk dk_files] in Hv.
      apply lookup_singleton_Some in Hv as [E _]. apply (f_equal length) in E. discriminate E.
    + intros id loc H. by rewrite lookup_empty in H.
  - reflexivity.
  - apply buffer_ok_add, buffer_ok_add, buffer_ok_new.
  - reflexivity.
  - vm_decide.
  - by intros (t & [=] & _).
  - vm_decide.
  - reflexivity.
Qed.

Ltac solve_segment_fits :=
  split; [vm_decide|];
  match goal with |- exists encs, encodings ?docs _ /\ _ =>
    exists ((fun doc => bits_of (encode doc)) <$> docs)
  end; (split; [repeat constructor; vm_compute; reflexivity|vm_decide]).

Lemma submseteq_two {A} (l : list A) a b :
  l ⊆+ [a; b] -> l ∈ [[]; [a]; [b]; [a; b]; [b; a]].
Proof.
  intros H. destruct l as [|x [|y [|z l]]].
  - by left.
  - apply singleton_submseteq_l in H. set_solver.
  - apply submseteq_length_Permutation in H; [|done]. symmetry in H.
    apply Permutation_length_2_inv in H as [H|H]; rewrite H; set_solver.
  - apply submseteq_length in H. cbn in H. lia.
Qed.

Lemma two_fit a b :
  Forall (segment_fits default_product_schema) [[]; [a]; [b]; [a; b]; [b; a]] ->
  all_fit default_product_schema [a; b].
Proof. intros H l Hl%submseteq_two. exact (proj1 (Forall_forall _ _) H l Hl). Qed.

Lemma sample_all_fit : all_fit default_product_schema [doc_a; doc_b].
Proof.
  apply two_fit. do 5 (apply Forall_cons; split; [solve_segment_fits|]). constructor.
Qed.

Lemma shard_flush_correct_witness :
  exists s' d' cs', flush (sample_shard, sample_disk) = ((s', d'), Ret tt) /\
    live_all cs' ≡ₚ [doc_a; doc_b].
Proof.
  destruct (shard_flush_correct sample_shard sample_disk sample_records []) as
    (s' & d' & recs' & cs' & H1 & _ & H2 & _).
  - exact sample_shard_ok.
  - exact sample_all_fit.
  - reflexivity.
  - exists s', d', cs'. split; [exact H1|exact H2].
Defined.

Lemma shard_delete_correct_witness :
  exists s' d' (cs' : list Contents), shard_delete 7 (sample_shard, sample_disk) = ((s', d'), Ret tt) /\
    cs' = [].
Proof.
  destruct (shard_delete_correct sample_shard sample_disk sample_records [] 7) as
    (s' & d' & cs' & H1 & _ & _ & _ & H2 & _).
  - exact sample_shard_ok.
  - intros e [= <-]. vm_compute. reflexivity.
  - exists s', d', cs'. split; [exact H1|]. apply H2. reflexivity.
Defined.



(** The same shard with an empty buffer, to index one document into. *)
Definition small_shard : ShardEngine :=
  set_buffer (wb_add doc_a (wb_new default_product_schema 1000)).1 sample_shard.

Lemma small_shard_ok : shard_ok small_shard sample_disk sample_records [] [].
Proof.
  unfold small_shard. eapply shard_ok_buffer; [exact sample_shard_ok| |reflexivity|].
  - apply buffer_ok_add, buffer_ok_new.
  - apply buffer_frame_refl. discriminate.
Qed.

Lemma shard_index_correct_witness :
  exists s' d' cs', shard_index doc_b (small_shard, sample_disk) = ((s', d'), Ret tt) /\
    stored s' cs' ≡ₚ [doc_a; doc_b].
Proof.
  destruct (shard_index_correct small_shard sample_disk sample_records [] doc_b) as
    (s' & d' & recs' & cs' & H1 & _ & H2 & _).
  - exact small_shard_ok.
  - intros e [= <-]. vm_compute. reflexivity.
  - exact sample_all_fit.
  - reflexivity.
  - exists s', d', cs'. split; [exact H1|exact H2].
Defined.

Definition no_primary (_ : string) : PrimaryClient :=
  {| pc_connect := Fail (EGrpc "unreachable"); pc_catch_up := fun _ => Ret []; pc_full_sync := Ret [] |}.


End Witness.
