(* ===== verification/Async.v ===== *)
(** Asynchronous code over a shared world: a computation threads the state [W]
    of everything it can reach (engines, disks, breakers, peers).  An [await]
    is a bind; futures joined together, and spawned tasks, run in the order
    they were created.  The file also has the text of an error
    ([crates/core/src/error.rs]) and the gRPC [Status]. *)
From S2P Require Import Prelude Types Text Decimal.

Local Open Scope Z_scope.

(** ** Computations *)
Definition Async (E W A : Type) : Type := W -> W * outcome E A.
#[global] Instance Async_ret E W : MRet (Async E W) := fun A a w => (w, Ret a).
#[global] Instance Async_bind E W : MBind (Async E W) := fun A B f m w =>
  match m w with
  | (w, Ret a) => f a w
  | (w, Fail e) => (w, Fail e)
  | (w, Panic) => (w, Panic)
  end.

#[global] Instance Async_fmap E W : FMap (Async E W) := fun A B f m => a ← m; mret (f a).

(** Code that returns [search_core::Result]. *)
Abbreviation Task := (Async Error).

Section Async.
Context {E W A : Type}.

Definition async_lift (r : outcome E A) : Async E W A := fun w => (w, r).
(** Reading the world, and a step that only computes. *)
Definition reads (f : W -> A) : Async E W A := fun w => (w, Ret (f w)).
Definition call (f : W -> W * A) : Async E W A := fun w => let '(w, a) := f w in (w, Ret a).
Definition async_map_err {E'} (f : E -> E') (m : Async E W A) : Async E' W A := fun w =>
  let '(w, r) := m w in (w, map_err f r).
(** The [Result] of [m] as a value ([match m.await { .. }]). *)
Definition attempt {E'} (m : Async E W A) : Async E' W (outcome E A) := fun w =>
  match m w with
  | (w, Panic) => (w, Panic)
  | (w, r) => (w, Ret r)
  end.
End Async.

(** [futures::future::join_all]. *)
Fixpoint join_all {E W A} (l : list (Async E W A)) : Async E W (list A) :=
  match l with
  | [] => mret []
  | m :: l => a ← m; r ← join_all l; mret (a :: r)
  end.

(** What awaiting the handle of a spawned task gives: a panic of the task is a
    [JoinError], which the source maps to [Error::Internal]. *)
Definition join_error : Error := EInternal "task panicked".
Definition spawned {W A} (m : Task W A) : Task W (Result A) := fun w =>
  match m w with
  | (w, Panic) => (w, Ret (Fail join_error))
  | (w, r) => (w, Ret r)
  end.

(** ** A component of the world *)
Record Lens (W T : Type) := mkLens { lget : W -> T; lset : T -> W -> W }.
Arguments mkLens {W T} _ _.
Arguments lget {W T} _ _.
Arguments lset {W T} _ _ _.

(** The component is a place of its own. *)
Class LensLaws {W T} (l : Lens W T) : Prop := {
  lget_lset t w : lget l (lset l t w) = t;
  lset_lget w : lset l (lget l w) w = w;
  lset_lset t t' w : lset l t (lset l t' w) = lset l t w;
}.

(** A method of the component [l] points to. *)
Definition at_ {E W T A} (l : Lens W T) (m : Async E T A) : Async E W A := fun w =>
  let '(t, r) := m (lget l w) in (lset l t w, r).

(** ** Clocks and time-outs *)

(** [now_ms] is the wall clock, [elapsed_ms] what a stopwatch started by the
    running operation reads; [timeout] is [tokio::time::timeout]. *)
Class Runtime (W : Type) := {
  now_ms : W -> Z;
  elapsed_ms : W -> Z;
  timeout : forall {A : Type}, Z -> Task W A -> Task W (option A);
}.

(** A future that times out is dropped wherever it is; one that does not has
    run to its end. *)
Class RuntimeLaws (W : Type) `{RT : Runtime W} : Prop := {
  timeout_cases {A} ms (m : Task W A) w :
    (exists w', timeout ms m w = (w', Ret None)) \/
    timeout ms m w = (m ≫= fun a => mret (Some a)) w;
}.

(** The runtime in which nothing ever times out. *)
Module Patient.
#[export] Instance patient W : Runtime W := {
  now_ms := fun _ => 1;
  elapsed_ms := fun _ => 0;
  timeout := fun A _ m => m ≫= fun a => mret (Some a);
}.
#[export] Instance patient_laws W : RuntimeLaws W (RT := patient W).
Proof. split. intros. by right. Qed.
End Patient.

(** ** Text of an error: [impl Display for Error] *)
Definition error_to_string (e : Error) : string :=
  match e with
  | EIo m => "I/O error: " +:+ m
  | ESerialization m => "Serialization error: " +:+ m
  | EInvalidDocument m => "Invalid document: " +:+ m
  | EInvalidQuery m => "Invalid query: " +:+ m
  | EShard m => "Shard error: " +:+ m
  | EIndex m => "Index error: " +:+ m
  | EWal m => "WAL error: " +:+ m
  | EGrpc m => "gRPC error: " +:+ m
  | ERanker m => "Ranker error: " +:+ m
  | EConfig m => "Configuration error: " +:+ m
  | ENotFound id => "Document not found: " +:+ format_u64 id
  | ETimeout m => "Timeout: " +:+ m
  | EInternal m => "Internal error: " +:+ m
  end%string.

(** ** gRPC status *)
Inductive Code := CInternal | CInvalidArgument | CFailedPrecondition | CUnimplemented | CUnavailable.
Record Status := mkStatus { st_code : Code; st_message : string }.

#[global] Instance Code_eq_dec : EqDecision Code.
Proof. solve_decision. Defined.
#[global] Instance Status_eq_dec : EqDecision Status.
Proof. solve_decision. Defined.

(** [|e| Status::internal(e.to_string())]. *)
Definition internal (e : Error) : Status := mkStatus CInternal (error_to_string e).

(** A remote procedure call. *)
Abbreviation Rpc := (Async Status).

(** ** Rules *)
Lemma async_bind_ret {E W A B} (m : Async E W A) (f : A -> Async E W B) w w' a :
  m w = (w', Ret a) -> (m ≫= f) w = f a w'.
Proof. unfold mbind, Async_bind. by intros ->. Qed.

Lemma async_bind_ret_inv {E W A B} (m : Async E W A) (f : A -> Async E W B) w w' b :
  (m ≫= f) w = (w', Ret b) -> exists w1 a, m w = (w1, Ret a) /\ f a w1 = (w', Ret b).
Proof. unfold mbind, Async_bind. destruct (m w) as [w1 [a|e|]]; naive_solver. Qed.

Lemma attempt_ret {E E' W A} (m : Async E W A) w w' r :
  m w = (w', r) -> r <> Panic -> attempt (E' := E') m w = (w', Ret r).
Proof. unfold attempt. intros -> Hr. by destruct r. Qed.

(** Joined computations that each return, keeping an invariant of the world. *)
Lemma join_all_ret {E W A} (I : W -> Prop) (l : list (Async E W A)) (P : nat -> A -> Prop) :
  (forall i m w, l !! i = Some m -> I w -> exists w' a, m w = (w', Ret a) /\ I w' /\ P i a) ->
  forall w, I w -> exists w' r, join_all l w = (w', Ret r) /\ I w' /\
    length r = length l /\ forall i a, r !! i = Some a -> P i a.
Proof.
  revert P. induction l as [|m l IH]; intros P Hl w Hw.
  { exists w, []. split_and!; [done|done|done|]. intros i a. by rewrite lookup_nil. }
  destruct (Hl 0%nat m w eq_refl Hw) as (w1 & a & Hm & Hw1 & Ha).
  destruct (IH (fun i => P (S i))) with (w := w1) as (w' & r & Hr & Hw' & Hlen & HP); [|done|].
  { intros i m' w2 Hi. by apply (Hl (S i)). }
  exists w', (a :: r). split_and!; [|done|cbn; lia|].
  - cbn [join_all]. erewrite async_bind_ret by exact Hm. by erewrite async_bind_ret by exact Hr.
  - intros [|i] b Hb; [by injection Hb as <-|by apply HP].
Qed.
