(* ===== verification/ShardGrpc.v ===== *)
(** The gRPC service of a shard ([crates/shard/src/grpc_server.rs]): the
    service trait, the conversion of a search request and one handler per
    remote procedure over the shard engine.  The streams of [replicate_catch_up]
    and [full_sync] are the messages the spawned sender puts in the channel. *)
From S2P Require Import Prelude Bytes Order Float Types Config Text Decimal Analysis Posting.
From S2P Require Import Disk Inverted Column DocStore Segment Scorer Collector Wand Executor.
From S2P Require Import Multi Object Wal WriteBuffer SegmentList Proto Replication Shard Async.

Local Open Scope Z_scope.

(** ** The service *)
Record ShardService (W : Type) := mkShardService {
  sv_search : ProtoSearchRequest -> Rpc W ProtoSearchResponse;
  sv_get_docs : list Z -> Rpc W (list DocumentProto);
  sv_index : option DocumentProto -> Rpc W bool;           (* success *)
  sv_bulk_index : list DocumentProto -> Rpc W Z;           (* indexed: uint32 *)
  sv_delete : Z -> Rpc W bool;                             (* success *)
  sv_stats : Rpc W StatsResponse;
  sv_health : Rpc W (bool * string);                       (* healthy, status *)
  sv_flush : Rpc W Z;                                      (* segments_created: uint32 *)
  sv_reindex : Rpc W ReindexResponse;
  sv_replicate : ReplicateRequest -> Rpc W bool;           (* ok *)
  sv_replicate_catch_up : Z -> Rpc W (list ReplicateRequest);
  sv_full_sync : Rpc W (list DocumentProto);
  sv_suggest : SuggestRequest -> Rpc W (list SuggestEntry);
}.
Arguments mkShardService {W}.
Arguments sv_search {W}. Arguments sv_get_docs {W}. Arguments sv_index {W}.
Arguments sv_bulk_index {W}. Arguments sv_delete {W}. Arguments sv_stats {W}.
Arguments sv_health {W}. Arguments sv_flush {W}. Arguments sv_reindex {W}.
Arguments sv_replicate {W}. Arguments sv_replicate_catch_up {W}. Arguments sv_full_sync {W}.
Arguments sv_suggest {W}.

(** ** The search request *)
Definition proto_to_filter (fv : ProtoFilterValue) : option FilterValue :=
  match pfv_filter fv with
  | None => None
  | Some (PfEq v) => Some (FEquality v)
  | Some (PfRange gte lte) => Some (FRange gte lte)
  | Some (PfMulti values) => Some (FMultiValue values)
  end.

(** [offset] and [limit] are cast [as usize], the identity on 64-bit targets. *)
Definition proto_to_search_request (proto : ProtoSearchRequest) : SearchRequest := {|
  rq_query := pq_query proto;
  rq_filters := omap proto_to_filter (pq_filters proto);
  rq_aggregations := pq_aggregations proto;
  rq_sort := (fun s => {| ss_field := pss_field s;
                          ss_order := if pss_order s =? proto_asc then Asc else Desc |})
             <$> pq_sort proto;
  rq_offset := pq_offset proto;
  rq_limit := pq_limit proto;
  rq_typo_tolerance := pq_typo_tolerance proto;
  rq_language := pq_language proto;
  rq_destination_zone := None;
  rq_include_docs := true;
|}.

Definition mode_to_string (mode : RetrievalMode) : string :=
  match mode with RmAnd => "and" | RmOrFallback => "or_fallback" end.

Definition response_to_proto (resp : SearchResponse) : ProtoSearchResponse := {|
  pr_hits := (fun h => {| psd_doc_id := hit_id h; psd_score := hit_score h |}) <$> rs_hits resp;
  pr_total_hits := rs_total_hits resp;
  pr_aggregations :=
    (fun buckets : list AggregationBucket =>
       (fun b => {| pb_value := ab_value b; pb_count := ab_count b |}) <$> buckets)
    <$> rs_aggregations resp;
  pr_retrieval_mode := mode_to_string (rs_retrieval_mode resp);
|}.

(** ** The handlers *)
Section Handlers.
Context `{IL : IndexLibs} `{SD : Serde WalRecord} `{TD : TempDirLib} `{ML : MathLib}
  `{UO : UnspecifiedOrder}.

Abbreviation Engine := (ShardEngine * Disk)%type.

(** An engine method whose error becomes an internal status. *)
Definition engine {A} (m : Obj ShardEngine A) : Rpc Engine A := async_map_err internal m.

Definition grpc_search (elapsed : Z) (request : ProtoSearchRequest)
  : Rpc Engine ProtoSearchResponse :=
  let req := proto_to_search_request request in
  resp ← engine (shard_search req elapsed);
  mret (response_to_proto resp).

Definition grpc_get_docs (doc_ids : list Z) : Rpc Engine (list DocumentProto) :=
  docs ← engine (s ← get_self; obj_lift (shard_get_docs s doc_ids));
  mret (doc_to_proto <$> docs).

Definition grpc_index (document : option DocumentProto) : Rpc Engine bool :=
  proto_doc ← async_lift (ok_or (mkStatus CInvalidArgument "missing document") document);
  let doc := proto_to_doc proto_doc in
  _ ← engine (shard_index doc);
  mret true.

Definition grpc_bulk_index (documents : list DocumentProto) : Rpc Engine Z :=
  let docs := proto_to_doc <$> documents in
  let count := wrap 32 (Z.of_nat (length docs)) in
  _ ← engine (index_batch docs);
  mret count.

Definition grpc_delete (doc_id : Z) : Rpc Engine bool :=
  _ ← engine (shard_delete doc_id);
  mret true.

Definition grpc_stats : Rpc Engine StatsResponse :=
  s ← reads (fun w : Engine => shard_stats w.1);
  mret {| sr_doc_count := ss_doc_count s; sr_segment_count := ss_segment_count s;
          sr_index_size_bytes := 0; sr_shard_id := ss_shard_id s |}.

Definition grpc_health : Rpc Engine (bool * string) := mret (true, "ok").

Definition grpc_flush : Rpc Engine Z :=
  before ← reads (fun w : Engine => ss_segment_count (shard_stats w.1));
  _ ← engine flush;
  after ← reads (fun w : Engine => ss_segment_count (shard_stats w.1));
  mret (sat_sub after before).

Definition grpc_reindex (elapsed : Z) : Rpc Engine ReindexResponse :=
  stats ← engine (reindex_self elapsed);
  mret {| rir_shard_id := rx_shard_id stats; rir_docs_reindexed := rx_docs_reindexed stats;
          rir_elapsed_ms := rx_elapsed_ms stats |}.

Definition grpc_replicate (req : ReplicateRequest) : Rpc Engine bool :=
  replica ← reads (fun w : Engine => is_replica w.1);
  if negb replica then
    async_lift (Fail (mkStatus CFailedPrecondition "replicate called on a primary shard"))
  else
    match rp_operation req with
    | Some (OpIndexDoc doc) =>
        _ ← engine (apply_replicated (WalIndex (proto_to_doc doc))); mret true
    | Some (OpDeleteDocId id) => _ ← engine (apply_replicated (WalDelete id)); mret true
    | Some (OpFlush _) => _ ← engine flush; mret true
    | None => mret true
    end.

Definition grpc_replicate_catch_up (from_seq : Z) : Rpc Engine (list ReplicateRequest) :=
  records ← engine (wal_records_since from_seq);
  mret ((fun record => {| rp_operation := Some (entry_to_operation (wr_entry record));
                          rp_wal_seq := wr_seq record |}) <$> records).

Definition grpc_full_sync : Rpc Engine (list DocumentProto) :=
  docs ← engine (s ← get_self; obj_lift (get_all_live_docs s));
  mret (doc_to_proto <$> docs).

Definition grpc_suggest (_request : SuggestRequest) : Rpc Engine (list SuggestEntry) :=
  async_lift (Fail (mkStatus CUnimplemented "search shard does not implement Suggest")).

(** [ShardGrpcServer::new(shard)] where the world keeps the shard under [l]. *)
Definition ShardGrpcServer {W} `{Runtime W} (l : Lens W Engine) : ShardService W := {|
  sv_search := fun r w => at_ l (grpc_search (elapsed_ms w) r) w;
  sv_get_docs := fun ids => at_ l (grpc_get_docs ids);
  sv_index := fun doc => at_ l (grpc_index doc);
  sv_bulk_index := fun docs => at_ l (grpc_bulk_index docs);
  sv_delete := fun id => at_ l (grpc_delete id);
  sv_stats := at_ l grpc_stats;
  sv_health := at_ l grpc_health;
  sv_flush := at_ l grpc_flush;
  sv_reindex := fun w => at_ l (grpc_reindex (elapsed_ms w)) w;
  sv_replicate := fun r => at_ l (grpc_replicate r);
  sv_replicate_catch_up := fun seq => at_ l (grpc_replicate_catch_up seq);
  sv_full_sync := at_ l grpc_full_sync;
  sv_suggest := fun r => at_ l (grpc_suggest r);
|}.

(** ** Requests that differ only in what a shard does not read *)
Definition with_routing (zone : option string) (docs : bool) (r : SearchRequest)
  : SearchRequest := {|
  rq_query := rq_query r; rq_filters := rq_filters r; rq_aggregations := rq_aggregations r;
  rq_sort := rq_sort r; rq_offset := rq_offset r; rq_limit := rq_limit r;
  rq_typo_tolerance := rq_typo_tolerance r; rq_language := rq_language r;
  rq_destination_zone := zone; rq_include_docs := docs |}.

Lemma shard_search_routing zone docs r elapsed w :
  shard_search (with_routing zone docs r) elapsed w = shard_search r elapsed w.
Proof. reflexivity. Qed.
End Handlers.
