(* ===== verification/Suggest.v ===== *)
(** The suggest shard ([crates/suggest]): the prefix index ([index.rs]), the
    builder that counts terms ([builder.rs]), the engine that snapshots it
    ([engine.rs]) and its gRPC service ([grpc_server.rs]). *)
From S2P Require Import Prelude Bytes Order Float Types Config Text Analysis Posting Disk.
From S2P Require Import Proto Replication Async ShardGrpc.

Local Open Scope Z_scope.

(** ** term.rs, index.rs *)
Record SuggestTerm := mkSuggestTerm { stm_term : string; stm_score : f32 }.

Record SuggestIndex := mkSuggestIndex { si_terms : list (string * f32) }.

Definition SuggestIndex_default : SuggestIndex := {| si_terms := [] |}.

Definition si_new (terms : list (string * f32)) : SuggestIndex :=
  {| si_terms := sort_by (cmp_on fst str_cmp) terms |}.
Definition si_len (i : SuggestIndex) : nat := length (si_terms i).
Definition si_is_empty (i : SuggestIndex) : bool := bool_decide (si_terms i = []).

(** [Iterator::take_while]. *)
Fixpoint take_while {A} (p : A -> bool) (l : list A) : list A :=
  match l with
  | [] => []
  | x :: l => if p x then x :: take_while p l else []
  end.

(** [self.terms\[n\]]; the indices used are in range. *)
Definition term_at (i : SuggestIndex) (n : nat) : string * f32 :=
  default (""%string, f_zero) (si_terms i !! n).

(** The closure [cmp_desc]. *)
Definition score_desc (i : SuggestIndex) : nat -> nat -> comparison :=
  cmp_desc (cmp_on (fun n => (term_at i n).2) f_cmp).

(** The indices of the terms with the prefix. *)
Definition prefix_matches (i : SuggestIndex) (prefix_lower : string) : list nat :=
  let start := partition_point (fun t => str_lt t.1 prefix_lower) (si_terms i) in
  (fun p : nat * (string * f32) => (start + p.1)%nat) <$>
    take_while (fun p => starts_with p.2.1 prefix_lower)
      (imap pair (drop start (si_terms i))).

Definition si_query `{TL : TextLib} `{UO : UnspecifiedOrder} (i : SuggestIndex) (prefix : string)
    (limit : nat) : list SuggestTerm :=
  if bool_decide (prefix = "") || (limit =? 0)%nat then []
  else
    let matches := prefix_matches i (to_lowercase prefix) in
    if bool_decide (matches = []) then []
    else
      let matches :=
        if (limit <? length matches)%nat
        then take limit (select_nth_unstable_by (score_desc i) (limit - 1) matches)
        else matches in
      (fun n => {| stm_term := (term_at i n).1; stm_score := (term_at i n).2 |})
        <$> sort_by (score_desc i) matches.

(** ** builder.rs *)

(** [Vec::dedup]: of consecutive equal elements the first stays. *)
Fixpoint dedup (l : list string) : list string :=
  match l with
  | x :: l' =>
      match l' with
      | y :: _ => if bool_decide (x = y) then dedup l' else x :: dedup l'
      | [] => [x]
      end
  | [] => []
  end.

Definition extract_field (doc : Document) (field : string) : string :=
  if bool_decide (field = "title") then doc_title doc
  else if bool_decide (field = "description") then doc_description doc
  else if bool_decide (field = "category") then doc_category doc
  else
    match doc_attributes doc !! field with
    | Some (VString s) => s
    | Some (VStringArray v) => str_join " " v
    | _ => ""
    end.

(** [l.iter().max()]. *)
Definition max_of (l : list Z) : option Z :=
  match l with [] => None | x :: l => Some (foldl Z.max x l) end.

Section Builder.
Context `{TL : TextLib} `{UO : UnspecifiedOrder}.

Record SuggestIndexBuilder := mkBuilder {
  bd_counts : gmap string Z;          (* u32 *)
  bd_analyzer : Analyzer;
}.

Definition builder_new : SuggestIndexBuilder :=
  {| bd_counts := ∅; bd_analyzer := mkAnalyzer UnicodeTokenizer [LowercaseFilter] |}.

Definition builder_term_count (b : SuggestIndexBuilder) : nat := size (bd_counts b).

(** The terms at least [min_doc_frequency] documents have, the [max_terms]
    most frequent of them when there are more (0: no bound). *)
Definition frequent_terms (b : SuggestIndexBuilder) (min_doc_frequency max_terms : Z)
  : list (string * Z) :=
  let filtered := filter (fun tc => min_doc_frequency <= tc.2) (hm_iter (bd_counts b)) in
  if (0 <? max_terms) && (max_terms <? Z.of_nat (length filtered))
  then take (Z.to_nat max_terms) (sort_by (cmp_desc (cmp_on snd Z.compare)) filtered)
  else filtered.

(** [c as f32 / max_freq]. *)
Definition score_terms (filtered : list (string * Z)) : list (string * f32) :=
  let max_freq := f32_of_Z (Z.max (default 1 (max_of filtered.*2)) 1) in
  (fun tc => (tc.1, f32_div (f32_of_Z tc.2) max_freq)) <$> filtered.

Definition snapshot (b : SuggestIndexBuilder) (min_doc_frequency max_terms : Z) : SuggestIndex :=
  si_new (score_terms (frequent_terms b min_doc_frequency max_terms)).

(** [build] consumes the builder and does the same. *)
Definition builder_build (b : SuggestIndexBuilder) (min_doc_frequency max_terms : Z)
  : SuggestIndex :=
  si_new (score_terms (frequent_terms b min_doc_frequency max_terms)).

(** [*c += 1], or a first insertion. *)
Definition count_term (counts : gmap string Z) (t : string) : gmap string Z :=
  if bool_decide (t = "") then counts
  else match counts !! t with
       | Some c => <[t := wrap 32 (c + 1)]> counts
       | None => <[t := 1]> counts
       end.

Definition add_field (b : SuggestIndexBuilder) (doc : Document) (counts : gmap string Z)
    (field : string) : gmap string Z :=
  let text := extract_field doc field in
  if bool_decide (text = "") then counts
  else
    let terms := dedup (sort_unstable_by str_cmp (analyze_to_terms (bd_analyzer b) text)) in
    foldl count_term counts terms.

Definition add_document (doc : Document) (fields : list string) (b : SuggestIndexBuilder)
  : SuggestIndexBuilder :=
  {| bd_counts := foldl (add_field b doc) (bd_counts b) fields; bd_analyzer := bd_analyzer b |}.

(** ** engine.rs *)
Record SuggestShardEngine := mkSuggestShardEngine {
  sge_config : SuggestShardConfig;
  sge_builder : SuggestIndexBuilder;
  sge_index : SuggestIndex;
}.

Definition sge_new (config : SuggestShardConfig) : SuggestShardEngine :=
  {| sge_config := config; sge_builder := builder_new; sge_index := SuggestIndex_default |}.

Definition set_builder (b : SuggestIndexBuilder) (e : SuggestShardEngine) : SuggestShardEngine :=
  {| sge_config := sge_config e; sge_builder := b; sge_index := sge_index e |}.

Definition sge_index_doc (doc : Document) (e : SuggestShardEngine) : SuggestShardEngine :=
  set_builder (add_document doc (su_fields (sge_config e)) (sge_builder e)) e.

Definition sge_bulk (docs : list Document) (e : SuggestShardEngine) : SuggestShardEngine :=
  set_builder
    (foldl (fun b doc => add_document doc (su_fields (sge_config e)) b) (sge_builder e) docs) e.

Definition sge_flush (e : SuggestShardEngine) : SuggestShardEngine * nat :=
  let new_index := snapshot (sge_builder e) (su_min_doc_frequency (sge_config e))
                     (su_max_terms_per_shard (sge_config e)) in
  ({| sge_config := sge_config e; sge_builder := sge_builder e; sge_index := new_index |},
   si_len new_index).

Definition sge_suggest (e : SuggestShardEngine) (prefix _field : string) (limit : nat)
  : list SuggestTerm := si_query (sge_index e) prefix limit.

Definition sge_term_count (e : SuggestShardEngine) : nat := si_len (sge_index e).
Definition sge_pending_terms (e : SuggestShardEngine) : nat := builder_term_count (sge_builder e).

(** ** grpc_server.rs *)
Definition unimplemented {A} (rpc : string) : Rpc SuggestShardEngine A :=
  async_lift (Fail (mkStatus CUnimplemented ("suggest shard does not implement " +:+ rpc)%string)).

Definition suggest_grpc_suggest (req : SuggestRequest) : Rpc SuggestShardEngine (list SuggestEntry) :=
  e ← reads id;
  mret ((fun t => {| sge_term := stm_term t; sge_score := stm_score t |}) <$>
          sge_suggest e (sgr_prefix req) (sgr_field req) (Z.to_nat (sgr_limit req))).

Definition suggest_grpc_index (document : option DocumentProto) : Rpc SuggestShardEngine bool :=
  proto_doc ← async_lift (ok_or (mkStatus CInvalidArgument "missing document") document);
  _ ← call (fun e => (sge_index_doc (proto_to_doc proto_doc) e, tt));
  mret true.

Definition suggest_grpc_bulk_index (documents : list DocumentProto) : Rpc SuggestShardEngine Z :=
  let docs := proto_to_doc <$> documents in
  let count := wrap 32 (Z.of_nat (length docs)) in
  _ ← call (fun e => (sge_bulk docs e, tt));
  mret count.

Definition suggest_grpc_flush : Rpc SuggestShardEngine Z :=
  _ ← call sge_flush;
  mret 0.

Definition suggest_grpc_stats : Rpc SuggestShardEngine StatsResponse :=
  e ← reads id;
  mret {| sr_doc_count := Z.of_nat (sge_term_count e); sr_segment_count := 0;
          sr_index_size_bytes := 0; sr_shard_id := su_shard_id (sge_config e) |}.

Definition SuggestGrpcServer {W} (l : Lens W SuggestShardEngine) : ShardService W := {|
  sv_search := fun _ => at_ l (unimplemented "Search");
  sv_get_docs := fun _ => at_ l (unimplemented "GetDocs");
  sv_index := fun doc => at_ l (suggest_grpc_index doc);
  sv_bulk_index := fun docs => at_ l (suggest_grpc_bulk_index docs);
  sv_delete := fun _ => at_ l (unimplemented "Delete");
  sv_stats := at_ l suggest_grpc_stats;
  sv_health := at_ l (mret (true, "ok"));
  sv_flush := at_ l suggest_grpc_flush;
  sv_reindex := at_ l (unimplemented "Reindex");
  sv_replicate := fun _ => at_ l (unimplemented "Replicate");
  sv_replicate_catch_up := fun _ => at_ l (unimplemented "ReplicateCatchUp");
  sv_full_sync := at_ l (unimplemented "FullSync");
  sv_suggest := fun r => at_ l (suggest_grpc_suggest r);
|}.
End Builder.

(** ** The prefix range of a sorted list *)

Lemma str_between p r x :
  str_cmp x p <> Lt -> str_cmp x (p +:+ r)%string <> Gt -> starts_with x p = true.
Proof.
  intros H1 H2. apply starts_with_iff. revert x H1 H2.
  induction p as [|a p IH]; intros x H1 H2; [by exists x|].
  destruct x as [|b x]; [done|]. change (String a p +:+ r)%string with (String a (p +:+ r)) in H2.
  cbn [str_cmp] in H1, H2.
  destruct (Z.compare_spec (ascii_Z b) (ascii_Z a)) as [E|E|E]; cbn [then_with] in *; try done.
  apply ascii_Z_inj in E as ->. destruct (IH x H1 H2) as [s ->]. by exists s.
Qed.

Lemma not_before_prefix t p : starts_with t p = true -> str_lt t p = false.
Proof.
  intros [r ->]%starts_with_iff. unfold str_lt. pose proof (str_cmp_prefix p r).
  by destruct (str_cmp _ _).
Qed.

Lemma take_while_range {A} (key : A -> string) p (l : list A) :
  StronglySorted (cmp_le (cmp_on key str_cmp)) l ->
  take_while (fun t => starts_with (key t) p) (drop (partition_point (fun t => str_lt (key t) p) l) l)
    = filter (fun t => starts_with (key t) p = true) l.
Proof.
  induction 1 as [|x l Hs IH Hx]; [done|]. cbn [partition_point].
  destruct (str_lt (key x) p) eqn:Elt.
  { cbn [drop]. rewrite IH, filter_cons_False; [done|].
    intros E. by rewrite (not_before_prefix _ _ E) in Elt. }
  cbn [drop]. clear IH. revert x Hx Elt. induction Hs as [|y l Hs IH Hy]; intros x Hx Elt.
  { cbn [take_while]. rewrite filter_cons. by destruct (starts_with (key x) p); case_decide. }
  cbn [take_while]. apply Forall_cons in Hx as [Hxy Hxl].
  assert (str_cmp (key x) p <> Lt) as Hxp by (unfold str_lt in Elt; by destruct (str_cmp _ _)).
  assert (str_lt (key y) p = false) as Eyp.
  { unfold str_lt. destruct (str_cmp (key y) p) eqn:E; [done| |done]. destruct Hxp.
    pose proof (cmp_trans (P := fun _ => True) (key x) (key y) p I I I Hxy ltac:(by rewrite E)) as Hle.
    destruct (str_cmp (key x) p) eqn:E2; [|done|done]. apply str_cmp_eq in E2.
    unfold cmp_le, cmp_on in Hxy. rewrite E2 in Hxy.
    rewrite (cmp_antisym (P := fun _ => True) (key y) p I I), E in Hxy. done. }
  destruct (starts_with (key x) p) eqn:Esx.
  - rewrite filter_cons_True by done. f_equal. by apply IH.
  - rewrite filter_cons_False by congruence. symmetry. apply filter_none.
    intros t Ht [r E]%starts_with_iff.
    assert (cmp_le (cmp_on key str_cmp) x t) as Hxt.
    { apply elem_of_cons in Ht as [->|Ht]; [done|]. exact (proj1 (Forall_forall _ _) Hxl t Ht). }
    unfold cmp_le, cmp_on in Hxt. rewrite E in Hxt.
    rewrite (str_between p r (key x) Hxp Hxt) in Esx. done.
Qed.

Lemma take_while_prefix {A} (q : A -> bool) l : take_while q l `prefix_of` l.
Proof.
  induction l as [|x l IH]; [done|]. cbn [take_while]. destruct (q x); [by apply prefix_cons|].
  apply prefix_nil.
Qed.

Lemma take_while_imap {A} (q : A -> bool) (l : list A) : forall k,
  take_while (fun p => q p.2) (imap (fun n x => ((k + n)%nat, x)) l)
    = imap (fun n x => ((k + n)%nat, x)) (take_while q l).
Proof.
  induction l as [|x l IH]; intros k; [done|]. cbn [take_while imap snd].
  destruct (q x); [|done]. cbn [imap]. f_equal.
  rewrite (imap_ext _ (fun n x => ((S k + n)%nat, x))) by (intros; unfold compose; f_equal; lia).
  rewrite IH. apply imap_ext. intros. unfold compose. f_equal. lia.
Qed.

Lemma prefix_matches_terms i p :
  StronglySorted (cmp_le (cmp_on fst str_cmp)) (si_terms i) ->
  term_at i <$> prefix_matches i p = filter (fun t => starts_with t.1 p = true) (si_terms i).
Proof.
  intros Hs. rewrite <- (take_while_range fst) by done. unfold prefix_matches.
  set (start := partition_point _ _). rewrite <- list_fmap_compose.
  pose proof (take_while_imap (fun t : string * f32 => starts_with t.1 p) (drop start (si_terms i)) 0) as E.
  cbn [Nat.add] in E. change (imap pair (drop start (si_terms i))) with
    (imap (fun n x => (n, x)) (drop start (si_terms i))).
  rewrite E. apply list_eq. intros n. rewrite list_lookup_fmap, list_lookup_imap.
  destruct (take_while _ _ !! n) as [x|] eqn:En; [|done]. cbn. f_equal.
  unfold compose, term_at. cbn [fst].
  assert (drop start (si_terms i) !! n = Some x) as En'
    by (eapply prefix_lookup_Some; [exact En|apply take_while_prefix]).
  rewrite lookup_drop in En'. by rewrite En'.
Qed.

(** ** The best of a list *)
Lemma top_limit_spec `{UOL : UnspecifiedOrderLaws} {A} (P : A -> Prop) cmp `{!CmpPreorder P cmp}
    (l : list A) n : Forall P l -> (0 < n)%nat ->
  let best := sort_by cmp (if (n <? length l)%nat
                           then take n (select_nth_unstable_by cmp (n - 1) l) else l) in
  exists rest, best ++ rest ≡ₚ l /\ StronglySorted (cmp_le cmp) best /\
    (forall x y, x ∈ best -> y ∈ rest -> cmp_le cmp x y) /\ length best = Nat.min n (length l).
Proof.
  intros HP Hn. cbn zeta. rewrite length_sort_by. destruct (Nat.ltb_spec n (length l)) as [Hlt|Hge].
  - set (sel := select_nth_unstable_by cmp (n - 1) l).
    assert (sel ≡ₚ l) as Hp by apply select_nth_perm.
    exists (drop n sel). split_and!.
    + rewrite (sort_by_perm cmp (take n sel)). by rewrite take_drop.
    + apply (sort_by_sorted _ P). apply Forall_take. by rewrite Hp.
    + intros x y Hx Hy. rewrite elem_of_sort_by in Hx.
      apply (select_nth_split P cmp (n - 1) l); [done|lia|..];
        (replace (S (n - 1)) with n by lia); [exact Hx|exact Hy].
    + rewrite length_take, (Permutation_length Hp). lia.
  - exists []. rewrite app_nil_r. split_and!; [apply sort_by_perm| | |lia].
    + by apply (sort_by_sorted _ P).
    + intros x y _ Hy. by apply elem_of_nil in Hy.
Qed.

Lemma score_desc_preorder i : CmpPreorder (fun n => f_nan (term_at i n).2 = false) (score_desc i).
Proof. exact (cmp_desc_preorder _ _ (cmp_on_preorder (fun n => (term_at i n).2) _ f_cmp _)). Qed.

(** A term and its score. *)
Definition term_pair (t : SuggestTerm) : string * f32 := (stm_term t, stm_score t).

Lemma StronglySorted_fmap_term (R : string * f32 -> string * f32 -> Prop) i (l : list nat) :
  StronglySorted (fun a b => R (term_at i a) (term_at i b)) l ->
  StronglySorted R (term_at i <$> l).
Proof.
  induction 1 as [|x l _ IH Hx]; [constructor|]. rewrite fmap_cons. constructor; [done|].
  by apply Forall_fmap.
Qed.

Definition no_nan (terms : list (string * f32)) : Prop := Forall (fun t => f_nan t.2 = false) terms.

Lemma term_at_no_nan i n : no_nan (si_terms i) -> f_nan (term_at i n).2 = false.
Proof.
  intros H. unfold term_at. destruct (si_terms i !! n) as [x|] eqn:E; [|done]. cbn.
  by apply (Forall_lookup_1 _ _ _ _ H E).
Qed.

(** a prefix query on an index built from [terms] answers with terms that
    start with the lower-cased prefix, with their scores, the best first: at
    most [limit], fewer only when all matches are returned, and no match left
    out scores more than one returned; an empty prefix matches nothing. *)
Theorem suggest_query_correct `{TL : TextLib} `{UOL : UnspecifiedOrderLaws}
    (terms : list (string * f32)) (prefix : string) (limit : nat) :
  no_nan terms ->
  let found := term_pair <$> si_query (si_new terms) prefix limit in
  let matching := filter (fun t => starts_with t.1 (to_lowercase prefix) = true) terms in
  (prefix = ""%string -> found = []) /\
  (prefix <> ""%string -> exists rest, found ++ rest ≡ₚ matching /\
     StronglySorted (fun a b => f_cmp b.2 a.2 <> Gt) found /\
     (forall a b, a ∈ found -> b ∈ rest -> f_cmp b.2 a.2 <> Gt) /\
     length found = Nat.min limit (length matching)).
Proof.
  intros Hnan found matching. subst found. unfold si_query. split.
  { intros ->. by rewrite bool_decide_true. }
  intros Hne. rewrite bool_decide_false by done. cbn [orb].
  set (i := si_new terms). set (p := to_lowercase prefix) in *.
  assert (si_terms i ≡ₚ terms) as Hperm by apply sort_by_perm.
  assert (no_nan (si_terms i)) as Hn by (unfold no_nan; by rewrite Hperm).
  assert (StronglySorted (cmp_le (cmp_on fst str_cmp)) (si_terms i)) as Hs.
  { apply (sort_by_sorted _ (fun a : string * f32 => (fun _ : string => True) a.1)).
    by apply Forall_true. }
  assert (term_at i <$> prefix_matches i p ≡ₚ matching) as Hm.
  { rewrite prefix_matches_terms by done. unfold matching. by rewrite Hperm. }
  destruct (Nat.eqb_spec limit 0) as [->|Hl].
  { exists matching. split_and!; [done|constructor| |done]. intros a b Ha. by apply elem_of_nil in Ha. }
  set (l := prefix_matches i p) in *.
  assert (length matching = length l) as -> by (by rewrite <- Hm, length_fmap).
  case_bool_decide as El.
  { exists []. rewrite <- Hm, El. split_and!; [done|constructor| |cbn; lia].
    intros a b Ha. by apply elem_of_nil in Ha. }
  pose proof (score_desc_preorder i) as Hpre.
  assert (Forall (fun n => f_nan (term_at i n).2 = false) l) as Hl'
    by (apply Forall_forall; intros n _; by apply term_at_no_nan).
  destruct (top_limit_spec _ (score_desc i) l limit Hl' ltac:(lia)) as (rest & H1 & H2 & H3 & H4).
  set (best := sort_by _ _) in *. clearbody best.
  assert (term_pair <$> ((fun n => {| stm_term := (term_at i n).1; stm_score := (term_at i n).2 |}) <$> best)
          = term_at i <$> best) as ->.
  { rewrite <- list_fmap_compose. apply list_fmap_ext. intros _ n _. unfold compose, term_pair. cbn.
    by destruct (term_at i n). }
  exists (term_at i <$> rest). split_and!.
  - rewrite <- fmap_app, H1. exact Hm.
  - by apply StronglySorted_fmap_term.
  - intros a b Ha Hb. apply list_elem_of_fmap in Ha as (x & -> & Hx).
    apply list_elem_of_fmap in Hb as (y & -> & Hy). exact (H3 x y Hx Hy).
  - by rewrite length_fmap.
Qed.

(** ** Counting *)

Lemma elem_of_dedup l x : x ∈ dedup l <-> x ∈ l.
Proof.
  induction l as [|a l IH]; [done|]. cbn [dedup]. destruct l as [|b l]; [done|].
  case_bool_decide as E; rewrite ?elem_of_cons, ?IH; subst; rewrite ?elem_of_cons; tauto.
Qed.

Lemma dedup_NoDup l : StronglySorted (cmp_le str_cmp) l -> NoDup (dedup l).
Proof.
  induction 1 as [|a l Hs IH Ha]; [constructor|]. cbn [dedup].
  destruct l as [|b l]; [apply NoDup_singleton|]. case_bool_decide as E; [done|].
  constructor; [|done]. rewrite elem_of_dedup. intros Hin.
  apply Forall_cons in Ha as [Hab _]. apply elem_of_cons in Hin as [->|Hin]; [done|].
  inversion Hs as [|? ? _ Hb]; subst. pose proof (proj1 (Forall_forall _ _) Hb a Hin) as Hba.
  unfold cmp_le in *. rewrite (cmp_antisym (P := fun _ => True) a b I I) in Hba.
  destruct (str_cmp a b) eqn:Ec; [|done|done]. by apply str_cmp_eq in Ec.
Qed.

Section Counts.
Context `{TL : TextLib} `{UOL : UnspecifiedOrderLaws}.

(** The terms a field of a document has. *)
Definition field_terms (doc : Document) (field : string) : list string :=
  if bool_decide (extract_field doc field = "") then []
  else filter (fun t => t <> ""%string)
         (analyze_to_terms (bd_analyzer builder_new) (extract_field doc field)).

(** In how many of its fields a document has the term, and the documents of a
    list together. *)
Definition fields_with (doc : Document) (fields : list string) (t : string) : nat :=
  length (filter (fun f => t ∈ field_terms doc f) fields).
Definition frequency (docs : list Document) (fields : list string) (t : string) : nat :=
  sum_list_with (fun doc => fields_with doc fields t) docs.

(** The counters hold exactly the frequencies [f]. *)
Definition counts_are (m : gmap string Z) (f : string -> nat) : Prop :=
  forall t, m !! t = if decide (f t = 0%nat) then None else Some (Z.of_nat (f t)).

Definition bump (o : option Z) : Z := match o with Some c => wrap 32 (c + 1) | None => 1 end.

Lemma count_terms_lookup terms t : forall m, NoDup terms ->
  foldl count_term m terms !! t =
    if decide (t ∈ filter (fun t => t <> ""%string) terms) then Some (bump (m !! t)) else m !! t.
Proof.
  induction terms as [|x terms IH]; intros m Hnd; [done|].
  apply NoDup_cons in Hnd as [Hx Hnd]. cbn [foldl]. rewrite (IH _ Hnd), filter_cons.
  assert (count_term m x !! t = if decide (t = x /\ x <> ""%string) then Some (bump (m !! t)) else m !! t)
    as ->.
  { unfold count_term. case_bool_decide as Ex.
    { by rewrite decide_False by tauto. }
    destruct (decide (t = x /\ x <> ""%string)) as [[-> _]|Hne].
    - by destruct (m !! x); rewrite lookup_insert_eq.
    - destruct (m !! x); rewrite lookup_insert_ne by (intros ->; tauto); done. }
  assert (t ∈ filter (fun t => t <> ""%string) terms -> t <> x) as Hin
    by (intros Ht%list_elem_of_filter ->; tauto).
  destruct (decide (x <> ""%string)) as [Hne|He].
  - destruct (decide (t = x)) as [->|Htx].
    + rewrite (decide_True (P := x = x /\ _)) by tauto.
      rewrite (decide_False (P := x ∈ filter _ terms)) by tauto.
      by rewrite decide_True by set_solver.
    + rewrite (decide_False (P := t = x /\ _)) by tauto.
      destruct (decide (t ∈ filter _ terms)); [by rewrite decide_True by set_solver|].
      by rewrite decide_False by set_solver.
  - rewrite (decide_False (P := t = x /\ _)) by tauto. done.
Qed.

(** The terms of one field are counted once. *)
Lemma add_field_spec b doc field m f :
  bd_analyzer b = bd_analyzer builder_new ->
  (forall t, Z.of_nat (f t + if decide (t ∈ field_terms doc field) then 1 else 0) < 2 ^ 32) ->
  counts_are m f ->
  counts_are (add_field b doc m field)
    (fun t => (f t + if decide (t ∈ field_terms doc field) then 1 else 0)%nat).
Proof.
  intros Hb Hf Hm t. specialize (Hf t). revert Hf. unfold add_field, field_terms. rewrite Hb.
  case_bool_decide as Et; intros Hf.
  { rewrite (decide_False (P := t ∈ [])) by (apply not_elem_of_nil). by rewrite Hm, Nat.add_0_r. }
  set (l := analyze_to_terms _ _). rewrite count_terms_lookup.
  - specialize (Hm t). fold l in Hf.
    assert (t ∈ filter (fun t => t <> ""%string) (dedup (sort_unstable_by str_cmp l))
            <-> t ∈ filter (fun t => t <> ""%string) l) as Hiff
      by (by rewrite !list_elem_of_filter, elem_of_dedup, elem_of_sort_unstable).
    destruct (decide (t ∈ filter _ (dedup _))) as [Hin|Hin]; rewrite Hiff in Hin.
    + rewrite (decide_True (P := t ∈ _)) in Hf |- * by done. rewrite Hm.
      destruct (decide (f t = 0)%nat) as [E|E]; destruct (decide (f t + 1 = 0)%nat); try lia; cbn [bump].
      * by rewrite E.
      * rewrite wrap_id by (unfold in_width; lia). f_equal. lia.
    + rewrite (decide_False (P := t ∈ _)) by done. by rewrite Hm, Nat.add_0_r.
  - apply dedup_NoDup. apply (sort_unstable_sorted (fun _ => True)); [apply _|by apply Forall_true].
Qed.

Lemma counts_are_ext m f g : (forall t, f t = g t) -> counts_are m f -> counts_are m g.
Proof. intros E H t. by rewrite <- E. Qed.

Lemma fields_with_cons doc field fields t :
  fields_with doc (field :: fields) t =
    ((if decide (t ∈ field_terms doc field) then 1 else 0) + fields_with doc fields t)%nat.
Proof. unfold fields_with. rewrite filter_cons. by destruct (decide (t ∈ _)). Qed.

Lemma add_document_spec doc fields b : forall m f,
  bd_analyzer b = bd_analyzer builder_new ->
  (forall t, Z.of_nat (f t + fields_with doc fields t) < 2 ^ 32) -> counts_are m f ->
  counts_are (foldl (add_field b doc) m fields) (fun t => (f t + fields_with doc fields t)%nat).
Proof.
  induction fields as [|field fields IH]; intros m f Hb Hf Hm.
  { eapply counts_are_ext; [|exact Hm]. intros t. cbn. lia. }
  cbn [foldl]. eapply counts_are_ext; [|apply (IH _ (fun t => (f t + if decide (t ∈ field_terms doc field) then 1 else 0)%nat))].
  - intros t. cbn beta. rewrite fields_with_cons. lia.
  - done.
  - intros t. specialize (Hf t). rewrite fields_with_cons in Hf. lia.
  - apply add_field_spec; [done| |done]. intros t. specialize (Hf t).
    rewrite fields_with_cons in Hf. lia.
Qed.

Lemma bulk_spec docs fields : forall b f,
  bd_analyzer b = bd_analyzer builder_new ->
  (forall t, Z.of_nat (f t + frequency docs fields t) < 2 ^ 32) -> counts_are (bd_counts b) f ->
  counts_are (bd_counts (foldl (fun b doc => add_document doc fields b) b docs))
    (fun t => (f t + frequency docs fields t)%nat).
Proof.
  induction docs as [|doc docs IH]; intros b f Hb Hf Hm.
  { eapply counts_are_ext; [|exact Hm]. intros t. cbn. lia. }
  unfold frequency in *. cbn [foldl sum_list_with] in *.
  eapply counts_are_ext; [|apply (IH _ (fun t => (f t + fields_with doc fields t)%nat))].
  - intros t. cbn beta. lia.
  - done.
  - intros t. specialize (Hf t). lia.
  - cbn [add_document bd_counts]. apply add_document_spec; [done| |done].
    intros t. specialize (Hf t). lia.
Qed.
Lemma max_of_spec l m : max_of l = Some m -> m ∈ l /\ forall x, x ∈ l -> x <= m.
Proof.
  destruct l as [|x l]; [done|]. intros [= <-]. revert x. induction l as [|y l IH]; intros x; cbn [foldl].
  { split; [by left|]. intros z Hz%list_elem_of_singleton. lia. }
  destruct (IH (Z.max x y)) as [Hin Hmax]. split.
  - apply elem_of_cons in Hin as [E|Hin]; [|by do 2 right]. rewrite E at 1.
    destruct (Z.max_spec x y) as [[_ ->]|[_ ->]]; [right; by left|by left].
  - intros z Hz. assert (z <= Z.max x y \/ z ∈ l) as [Hle|Hl]
      by (apply elem_of_cons in Hz as [->|Hz]; [lia|]; apply elem_of_cons in Hz as [->|Hz]; [lia|by right]).
    + specialize (Hmax (Z.max x y) ltac:(by left)). lia.
    + apply Hmax. by right.
Qed.

Lemma sublist_fst {A B} (l k : list (A * B)) : l `sublist_of` k -> l.*1 `sublist_of` k.*1.
Proof. induction 1; [constructor|by apply sublist_skip|by apply sublist_cons]. Qed.

(** The terms an index of the counters [f] keeps. *)
Lemma frequent_terms_spec b f min_df max_terms :
  counts_are (bd_counts b) f ->
  let l := frequent_terms b min_df max_terms in
  NoDup l.*1 /\
  (forall t c, (t, c) ∈ l -> (0 < f t)%nat /\ c = Z.of_nat (f t) /\ min_df <= c) /\
  (0 < max_terms -> Z.of_nat (length l) <= max_terms) /\
  (forall t, (0 < f t)%nat -> min_df <= Z.of_nat (f t) -> t ∉ l.*1 ->
     0 < max_terms /\ Z.of_nat (length l) = max_terms /\
     forall u c, (u, c) ∈ l -> Z.of_nat (f t) <= c).
Proof.
  intros Hc. unfold frequent_terms. set (all := filter _ (hm_iter (bd_counts b))).
  assert (forall t c, (t, c) ∈ all <-> (0 < f t)%nat /\ c = Z.of_nat (f t) /\ min_df <= c) as Hall.
  { intros t c. unfold all. rewrite list_elem_of_filter, elem_of_hm_iter, Hc. cbn [snd].
    destruct (decide (f t = 0)%nat); split; [naive_solver lia..| |].
    - intros [? [= <-]]. lia.
    - by intros (? & -> & ?). }
  assert (NoDup all.*1) as Hnd.
  { apply (sublist_NoDup _ (hm_iter (bd_counts b)).*1); [apply NoDup_fst_hm_iter|].
    apply sublist_fst, sublist_filter. }
  destruct (0 <? max_terms) eqn:E0, (max_terms <? Z.of_nat (length all)) eqn:E1; cbn [andb]; zbool.
  2-4: split_and!; [done|by intros t c ?%Hall|lia|];
    intros t Ht Hmin Hout; destruct Hout; apply list_elem_of_fmap; exists (t, Z.of_nat (f t));
    split; [done|by apply Hall].
  set (cmp := cmp_desc (cmp_on snd Z.compare)).
  assert (sort_by cmp all ≡ₚ all) as Hp by apply sort_by_perm.
  assert (CmpPreorder (fun _ : string * Z => True) cmp) as Hpre
    by exact (cmp_desc_preorder _ _ (cmp_on_preorder snd (fun _ => True) Z.compare _)).
  pose proof (@sort_by_sorted _ cmp _ Hpre all (Forall_true (fun _ => True) all (fun _ => I))) as Hs.
  assert (length (take (Z.to_nat max_terms) (sort_by cmp all)) = Z.to_nat max_terms) as Hlen
    by (rewrite length_take, length_sort_by; lia).
  split_and!.
  - apply (sublist_NoDup _ (sort_by cmp all).*1); [by rewrite Hp|]. apply sublist_fst, sublist_take.
  - intros t c Htc. apply Hall. rewrite <- Hp. apply elem_of_take in Htc as (i & Hi & _).
    by eapply list_elem_of_lookup_2.
  - lia.
  - intros t Ht Hmin Hout. split_and!; [done|lia|]. intros u c Hu.
    assert ((t, Z.of_nat (f t)) ∈ drop (Z.to_nat max_terms) (sort_by cmp all)) as Hd.
    { assert ((t, Z.of_nat (f t)) ∈ sort_by cmp all) as Hin by (rewrite Hp; by apply Hall).
      rewrite <- (take_drop (Z.to_nat max_terms)) in Hin. apply elem_of_app in Hin as [Hin|Hin]; [|done].
      destruct Hout. apply list_elem_of_fmap. by exists (t, Z.of_nat (f t)). }
    pose proof (StronglySorted_take_drop _ _ _ _ _ Hs Hu Hd) as Hle.
    unfold cmp_le, cmp, cmp_desc, cmp_on in Hle. cbn [snd] in Hle. by apply Z.compare_le_iff in Hle.
Qed.
End Counts.

(** No term is counted more often than there are fields. *)
Lemma frequency_le `{TL : TextLib} docs fields t :
  (frequency docs fields t <= length docs * length fields)%nat.
Proof.
  unfold frequency. induction docs as [|doc docs IH]; [done|]. cbn [sum_list_with length].
  assert (fields_with doc fields t <= length fields)%nat by apply length_filter. lia.
Qed.

(** after documents are indexed and the engine is flushed, the index holds
    terms with their document frequencies: each indexed term reaches the
    minimum frequency and scores its share of the highest indexed frequency,
    there are at most [max_terms] of them when that is set, and a term that
    reaches the minimum is left out only when that bound is met by terms at
    least as frequent; [flush] reports their number. *)
Theorem suggest_flush_correct `{TL : TextLib} `{UOL : UnspecifiedOrderLaws}
    (config : SuggestShardConfig) (docs : list Document) :
  let freq := frequency docs (su_fields config) in
  (forall t, Z.of_nat (freq t) < 2 ^ 32) ->
  let '(engine, n) := sge_flush (sge_bulk docs (sge_new config)) in
  let terms := si_terms (sge_index engine) in
  n = length terms /\ NoDup terms.*1 /\
  (exists top, forall t s, (t, s) ∈ terms ->
     (0 < freq t)%nat /\ su_min_doc_frequency config <= Z.of_nat (freq t) <= top /\
     s = f32_div (f32_of_Z (Z.of_nat (freq t))) (f32_of_Z top) /\
     exists u, u ∈ terms.*1 /\ Z.of_nat (freq u) = top) /\
  (0 < su_max_terms_per_shard config -> Z.of_nat n <= su_max_terms_per_shard config) /\
  (forall t, (0 < freq t)%nat -> su_min_doc_frequency config <= Z.of_nat (freq t) ->
     t ∉ terms.*1 -> 0 < su_max_terms_per_shard config /\
     Z.of_nat n = su_max_terms_per_shard config /\
     forall u, u ∈ terms.*1 -> (freq t <= freq u)%nat).
Proof.
  intros freq Hf. destruct (sge_flush _) as [engine n] eqn:E.
  injection E as <- <-. cbn [sge_index sge_builder sge_config set_builder sge_bulk sge_new].
  set (b := foldl _ _ docs).
  assert (counts_are (bd_counts b) freq) as Hc.
  { apply (bulk_spec docs (su_fields config) builder_new (fun _ => 0%nat)); [done|exact Hf|].
    intros t. cbn. by rewrite lookup_empty. }
  clearbody freq. unfold snapshot. set (l := frequent_terms b _ _).
  destruct (frequent_terms_spec b freq (su_min_doc_frequency config)
    (su_max_terms_per_shard config) Hc) as (Hnd & Hin & Hlen & Hout).
  fold l in Hnd, Hin, Hlen, Hout. clearbody l.
  set (top := Z.max (default 1 (max_of l.*2)) 1).
  assert (si_terms (si_new (score_terms l)) ≡ₚ score_terms l) as Hp by apply sort_by_perm.
  assert ((score_terms l).*1 = l.*1) as H1.
  { unfold score_terms. rewrite <- list_fmap_compose. by apply list_fmap_ext. }
  assert (length (si_terms (si_new (score_terms l))) = length l) as Hn
    by (rewrite (Permutation_length Hp); apply length_fmap).
  unfold si_len. rewrite Hn. split_and!; [done| | |done|].
  - rewrite Hp. by rewrite H1.
  - exists top. intros t s Hts. rewrite Hp in Hts. apply list_elem_of_fmap in Hts as ((t' & c) & [= -> ->] & Htc).
    cbn [fst snd] in *. destruct (Hin t' c Htc) as (Hpos & -> & Hmin).
    assert (exists m, max_of l.*2 = Some m) as [m Hm].
    { destruct l as [|x l']; [by apply elem_of_nil in Htc|]. by eexists. }
    destruct (max_of_spec _ _ Hm) as [Hmin' Hmax].
    apply list_elem_of_fmap in Hmin' as ((u & cu) & -> & Hu). cbn [snd] in *.
    destruct (Hin u cu Hu) as (Hupos & -> & _).
    assert (top = Z.of_nat (freq u)) as Et by (unfold top; rewrite Hm; cbn [default snd]; unfold id; lia).
    assert (Z.of_nat (freq t') <= Z.of_nat (freq u)) as Hle.
    { apply Hmax. apply list_elem_of_fmap. by exists (t', Z.of_nat (freq t')). }
    split_and!; [done|done|lia|done|]. exists u. split; [|done]. rewrite Hp, H1.
    apply list_elem_of_fmap. by exists (u, Z.of_nat (freq u)).
  - intros t Ht Hmin Hnot. rewrite Hp, H1 in Hnot. destruct (Hout t Ht Hmin Hnot) as (Hm & He & Hle).
    split_and!; [done|done|]. intros u Hu. rewrite Hp, H1 in Hu.
    apply list_elem_of_fmap in Hu as ((u' & c) & -> & Hu). cbn [fst].
    destruct (Hin u' c Hu) as (_ & -> & _). specialize (Hle u' _ Hu). lia.
Qed.

Section Witness.
Import AsciiText StableOrder.

Definition sample_terms : list (string * f32) :=
  [("wired", f32_lit 6 10); ("wood", f32_lit 3 10); ("wireless", f32_lit 9 10)].

Lemma suggest_query_correct_witness :
  (stm_term <$> si_query (si_new sample_terms) "Wire" 5) = ["wireless"; "wired"] /\
  exists rest, (term_pair <$> si_query (si_new sample_terms) "Wire" 5) ++ rest ≡ₚ
    filter (fun t => starts_with t.1 "wire" = true) sample_terms.
Proof.
  split; [vm_compute; reflexivity|].
  destruct (suggest_query_correct sample_terms "Wire" 5) as [_ H].
  - repeat constructor.
  - destruct H as (rest & H & _); [discriminate|]. exists rest. exact H.
Defined.

Definition titled (id : Z) (title : string) : Document := mkDocument id title "" f_zero "" ∅.
Definition sample_config : SuggestShardConfig := mkSuggestShardConfig 0 0 1 1 2 ["title"].
Definition sample_titles : list Document :=
  [titled 1 "wireless mouse"; titled 2 "wireless mouse"; titled 3 "red mouse mouse"].

(** At most two terms: the rarest, "red", is left out. *)
Lemma suggest_flush_correct_witness :
  let '(engine, n) := sge_flush (sge_bulk sample_titles (sge_new sample_config)) in
  (si_terms (sge_index engine)).*1 = ["mouse"; "wireless"] /\ n = 2%nat /\
  NoDup (si_terms (sge_index engine)).*1.
Proof.
  pose proof (suggest_flush_correct sample_config sample_titles) as H.
  destruct (sge_flush _) as [engine n] eqn:E. 
  assert (engine = (sge_flush (sge_bulk sample_titles (sge_new sample_config))).1) as He by (by rewrite E).
  assert (n = (sge_flush (sge_bulk sample_titles (sge_new sample_config))).2) as Hn by (by rewrite E).
  split; [rewrite He; vm_compute; reflexivity|]. split; [rewrite Hn; vm_compute; reflexivity|].
  apply H. intros t. pose proof (frequency_le sample_titles (su_fields sample_config) t) as Hle.
  change (frequency sample_titles (su_fields sample_config) t <= 3)%nat in Hle. lia.
Defined.
End Witness.
