(* ===== verification/Ranker.v ===== *)
(** Re-ranking ([crates/ranker]): the ranker trait and its implementations, the
    circuit breaker around a remote ranker, the factory, and the fallback to
    the BM25 order.  A WASM module and the ranker service are outside the
    repository: a guest is what its exports do, a service what it answers. *)
From Stdlib Require Import Strings.Byte.
From S2P Require Import Prelude Bytes Order Float FloatRound Types Config Breaker Disk Replication Async.

Local Open Scope Z_scope.

(** ** lib.rs: the trait *)
Record Ranker (W : Type) := mkRanker {
  rerank : string -> list RankCandidate -> Task W (list RankedResult);
}.
Arguments mkRanker {W} _.
Arguments rerank {W} _ _ _ _.

(** Every candidate with its BM25 score, in order. *)
Definition bm25_results (candidates : list RankCandidate) : list RankedResult :=
  (fun c => {| rr_doc_id := rc_doc_id c; rr_score := rc_bm25_score c |}) <$> candidates.

Definition rerank_with_fallback {W} `{Runtime W} (ranker : Ranker W) (query : string)
    (candidates : list RankCandidate) (timeout_ms : Z) : Task W (list RankedResult * bool) :=
  result ← attempt (timeout timeout_ms (rerank ranker query candidates));
  mret (match result with
        | Ret (Some results) => (results, true)
        | _ => (bm25_results candidates, false)
        end).

(** ** noop.rs *)
Definition NoopRanker {W} : Ranker W :=
  mkRanker (fun _query candidates => mret (bm25_results candidates)).

(** ** grpc.rs: the messages of [ranker.proto] and the client *)
Record ProtoCandidate := mkProtoCandidate {
  pcd_doc_id : Z;
  pcd_bm25_score : f32;
  pcd_title : string;
  pcd_category : string;
  pcd_price : f64;
  pcd_attributes : gmap string string;
}.
Record RerankRequest := mkRerankRequest {
  rrq_query : string;
  rrq_candidates : list ProtoCandidate;
}.

Definition candidate_to_proto (c : RankCandidate) : ProtoCandidate := {|
  pcd_doc_id := rc_doc_id c;
  pcd_bm25_score := rc_bm25_score c;
  pcd_title := rc_title c;
  pcd_category := rc_category c;
  pcd_price := rc_price c;
  pcd_attributes := omap string_attribute (rc_attributes c);
|}.

(** Connecting to an endpoint (a transport error is its text), and what the
    service answers there. *)
Class RankerNet (W : Type) := {
  ranker_connect : string -> Async string W unit;
  ranker_rpc : string -> RerankRequest -> Rpc W (list (Z * f32));
  ranker_status_text : Status -> string;                    (* Status::to_string *)
}.

Definition GrpcRanker {W} `{RankerNet W} (endpoint : string) : Ranker W :=
  mkRanker (fun query candidates =>
    _ ← async_map_err EGrpc (ranker_connect endpoint);
    response ← async_map_err (fun e => EGrpc (ranker_status_text e))
      (ranker_rpc endpoint {| rrq_query := query;
                              rrq_candidates := candidate_to_proto <$> candidates |});
    mret ((fun r : Z * f32 => {| rr_doc_id := r.1; rr_score := r.2 |}) <$> response)).

(** ** wasm.rs *)

(** An instantiated module: its memory and the exports the ranker calls; what
    wasmtime reports (a trap, an access out of bounds, no fuel left) is the
    text of its error. *)
Record WasmInstance := mkWasmInstance {
  wi_state : Type;
  wi_start : wi_state;
  wi_alloc : Z -> wi_state -> outcome string (wi_state * Z);
  wi_write : Z -> bytes -> wi_state -> outcome string wi_state;
  wi_rerank : Z -> Z -> Z -> wi_state -> outcome string (wi_state * Z);
  wi_read : Z -> nat -> wi_state -> outcome string bytes;
}.

(** [as i32]. *)
Definition i32 (z : Z) : Z := (z + 2 ^ 31) `mod` 2 ^ 32 - 2 ^ 31.

(** [.map_err(|e| Error::Internal(e.to_string()))]. *)
Definition wasm {A} : outcome string A -> Result A := map_err EInternal.

(** [chunks(4)], and the score of a chunk ([unwrap_or(\[0; 4\])] on a short one). *)
Fixpoint chunks4 (n : nat) (b : bytes) : list bytes :=
  match n with
  | O => []
  | S n => match b with [] => [] | _ => take 4 b :: chunks4 n (drop 4 b) end
  end.
Definition chunk_score (chunk : bytes) : f32 :=
  if bool_decide (length chunk = 4%nat) then f32_from_le chunk else f_zero.

(** [do_rerank] on an instance; [instance] fails on a missing export or a
    module that does not instantiate.  A negative number of written scores makes the
    allocation of the output buffer panic. *)
Definition do_rerank (instance : outcome string WasmInstance) (candidates : list RankCandidate)
  : Result (list RankedResult) :=
  i ← wasm instance;
  let n := i32 (Z.of_nat (length candidates)) in
  let input_bytes := candidates ≫= (fun c => u32_le (f32_to_bits (rc_bm25_score c))) in
  let input_len := i32 (Z.of_nat (length input_bytes)) in
  '(s, input_ptr) ← wasm (wi_alloc i input_len (wi_start i));
  s ← wasm (wi_write i (wrap 64 input_ptr) input_bytes s);
  let output_len := i32 (n * 4) in
  '(s, output_ptr) ← wasm (wi_alloc i output_len s);
  '(s, written) ← wasm (wi_rerank i input_ptr n output_ptr s);
  let out_len := i32 (written * 4) in
  if out_len <? 0 then Panic
  else
    out_bytes ← wasm (wi_read i (wrap 64 output_ptr) (Z.to_nat out_len) s);
    Ret ((fun p : RankCandidate * bytes =>
            {| rr_doc_id := rc_doc_id p.1; rr_score := chunk_score p.2 |})
         <$> zip candidates (chunks4 (length out_bytes) out_bytes)).

Definition WasmRanker {W} (instantiate : outcome string WasmInstance) : Ranker W :=
  mkRanker (fun _query candidates => async_lift (do_rerank instantiate candidates)).

(** ** breaker.rs *)
Definition BreakerRanker {W} `{Runtime W} (inner : Ranker W) (breaker : Lens W CircuitBreaker)
  : Ranker W :=
  mkRanker (fun query candidates w =>
    if is_open (now_ms w) (lget breaker w) then (w, Fail (EInternal "ranker circuit open"))
    else match rerank inner query candidates w with
         | (w, Ret r) => (lset breaker (record_success (lget breaker w)) w, Ret r)
         | (w, Fail e) => (lset breaker (record_failure (now_ms w) (lget breaker w)) w, Fail e)
         | (w, Panic) => (w, Panic)
         end).

(** ** factory.rs *)

(** [BreakerRanker::new]: the breaker starts closed where the world keeps it. *)
Definition breaker_ranker_new {W} `{Runtime W} (inner : Ranker W) (breaker : Lens W CircuitBreaker)
    (config : CircuitBreakerConfig) : Task W (Ranker W) := fun w =>
  (lset breaker (breaker_new config) w, Ret (BreakerRanker inner breaker)).

(** [RankerFactory::build]; [load_wasm] is [WasmRanker::from_file]. *)
Definition ranker_build {W} `{Runtime W} `{RankerNet W}
    (load_wasm : string -> Result (outcome string WasmInstance)) (breaker : Lens W CircuitBreaker)
    (config : RankerConfig) : Task W (Ranker W) :=
  inner ← async_lift
    match rk_type config with
    | RtNone => Ret NoopRanker
    | RtGrpc =>
        endpoint ← ok_or (EConfig "grpc ranker requires grpc_endpoint to be set")
                     (rk_grpc_endpoint config);
        Ret (GrpcRanker endpoint)
    | RtWasm =>
        path ← ok_or (EConfig "wasm ranker requires wasm_module path to be set")
                 (rk_wasm_module config);
        WasmRanker <$> load_wasm path
    end;
  if cb_enabled (rk_circuit_breaker config) && bool_decide (rk_type config = RtGrpc)
  then breaker_ranker_new inner breaker (rk_circuit_breaker config)
  else mret inner.

(** ** Degrading to the BM25 order *)

Lemma timeout_attempt {W A} `{RuntimeLaws W} ms (m : Task W A) w :
  (forall w, (m w).2 <> Panic) ->
  exists w' r, attempt (E' := Error) (timeout ms m) w = (w', Ret r) /\
    (r = Ret None \/ (m w = (w', Fail (match r with Fail e => e | _ => join_error end)) /\
       exists e, r = Fail e) \/ exists a, r = Ret (Some a) /\ m w = (w', Ret a)).
Proof.
  intros Hm. unfold attempt. destruct (timeout_cases ms m w) as [[w' ->]| ->].
  { exists w', (Ret None). split; [done|by left]. }
  specialize (Hm w). unfold mbind, Async_bind. destruct (m w) as [w' [a|e|]]; cbn in *; [| |done].
  - exists w', (Ret (Some a)). split; [done|]. right. right. by exists a.
  - exists w', (Fail e). split; [done|]. right. left. split; [done|by exists e].
Qed.

(** re-ranking never fails a search and never loses candidates to a failing
    ranker: for a ranker that does not panic the call returns; it reports
    [reranked] only with exactly the ranker's answer, and otherwise gives every
    candidate with its BM25 score in the original order.  An open circuit
    answers with the BM25 order. *)
Theorem ranker_fallback_correct {W} `{RuntimeLaws W} (ranker : Ranker W) (query : string)
    (candidates : list RankCandidate) (ms : Z) (w : W) :
  (forall w, (rerank ranker query candidates w).2 <> Panic) ->
  exists w' rs reranked,
    rerank_with_fallback ranker query candidates ms w = (w', Ret (rs, reranked)) /\
    (reranked = true -> rerank ranker query candidates w = (w', Ret rs)) /\
    (reranked = false -> rs = bm25_results candidates) /\
    (forall inner breaker, ranker = BreakerRanker inner breaker ->
       is_open (now_ms w) (lget breaker w) = true -> reranked = false).
Proof.
  intros Hm. unfold rerank_with_fallback.
  destruct (timeout_attempt ms _ w Hm) as (w' & r & Ha & Hr).
  erewrite async_bind_ret by exact Ha.
  destruct Hr as [->|[[Hm' [e ->]]|(rs & -> & Hm')]].
  - by exists w', (bm25_results candidates), false.
  - by exists w', (bm25_results candidates), false.
  - exists w', rs, true. split_and!; [done|done|done|].
    intros inner breaker -> Ho. cbn in Hm'. by rewrite Ho in Hm'.
Qed.

(** ** The WASM guest *)

(** A guest's answer scores a prefix of the candidates, in order: as many as
    the number it reports; the others are lost. *)
Lemma do_rerank_prefix instance candidates rs :
  do_rerank instance candidates = Ret rs ->
  rr_doc_id <$> rs = take (length rs) (rc_doc_id <$> candidates).
Proof.
  unfold do_rerank. intros Hr.
  repeat (apply bind_ret_inv in Hr as (? & ? & Hr); repeat case_match; try done).
  injection Hr as <-. rewrite length_fmap, <- list_fmap_compose. unfold compose. cbn [rr_doc_id].
  rewrite <- fmap_take. match goal with |- context [chunks4 ?n ?b] => generalize (chunks4 n b) end.
  clear. intros chunks. revert candidates.
  induction chunks as [|c chunks IH]; intros [|x l]; cbn; [done..|]. f_equal. apply IH.
Qed.

Section Witness.
Import Patient.

Definition slow_candidate : RankCandidate := mkRankCandidate 7 (f32_of_Z 3) "" "" f_zero ∅.
Definition broken_ranker : Ranker unit := mkRanker (fun _ _ => async_lift (Fail (EGrpc "down"))).

Lemma ranker_fallback_correct_witness :
  rerank_with_fallback broken_ranker "q" [slow_candidate] 30 tt
    = (tt, Ret ([mkRankedResult 7 (f32_of_Z 3)], false)) /\
  exists w' rs reranked,
    rerank_with_fallback broken_ranker "q" [slow_candidate] 30 tt = (w', Ret (rs, reranked)) /\
    (reranked = false -> rs = bm25_results [slow_candidate]).
Proof.
  split; [reflexivity|].
  destruct (ranker_fallback_correct broken_ranker "q" [slow_candidate] 30 tt)
    as (w' & rs & b & H1 & _ & H2 & _); [intros []; discriminate|].
  exists w', rs, b. split; [exact H1|exact H2].
Defined.
End Witness.
