(* ===== verification/Cache.v ===== *)
(** The query cache of the router ([crates/router/src/cache.rs]): the key made
    of a request and the wrapper around the cache library.  [{:?}] of an [f64]
    and the moka cache are interfaces with their documented laws. *)
From Stdlib Require Import Strings.Ascii Floats.SpecFloat.
From S2P Require Import Prelude Bytes Order Float Types Config Text.

Local Open Scope Z_scope.

(** ** Interfaces *)
Class FloatDebug := { debug_f64 : f64 -> string }.

(** The shortest decimal that reads back as the number: digits, a sign, a
    point, an exponent, [inf] or [NaN]. *)
Class FloatDebugLaws `{FD : FloatDebug} : Prop := {
  debug_f64_inj x y : debug_f64 x = debug_f64 y -> x = y;
  debug_f64_colon x : str_mem ":" (debug_f64 x) = false;
}.

(** ** The key *)
Record QueryCacheKey := mkQueryCacheKey {
  ck_query : string;
  ck_filters : list (string * string);
  ck_aggregations : list string;
  ck_sort : option (string * bool);     (* (field, is_asc) *)
  ck_offset : Z;
  ck_limit : Z;
  ck_typo_tolerance : bool;
  ck_language : option string;
  ck_destination_zone : option string;
}.

#[global] Instance QueryCacheKey_eq_dec : EqDecision QueryCacheKey.
Proof. solve_decision. Defined.

Section Key.
Context `{FD : FloatDebug} `{UO : UnspecifiedOrder}.

Definition debug_opt (o : option f64) : string :=
  match o with None => "None" | Some x => "Some(" +:+ debug_f64 x +:+ ")" end%string.

(** The serialized value of a filter. *)
Definition filter_text (v : FilterValue) : string :=
  match v with
  | FEquality eq => "eq:" +:+ eq
  | FRange gte lte => "range:" +:+ debug_opt gte +:+ ":" +:+ debug_opt lte
  | FMultiValue vals => "in:" +:+ str_join "," (sort_by str_cmp vals)
  end%string.

Definition from_request (req : SearchRequest) : QueryCacheKey := {|
  ck_query := rq_query req;
  ck_filters := sort_by (cmp_on fst str_cmp)
    ((fun kv => (kv.1, filter_text kv.2)) <$> hm_iter (rq_filters req));
  ck_aggregations := rq_aggregations req;
  ck_sort := (fun s => (ss_field s, bool_decide (ss_order s = Asc))) <$> rq_sort req;
  ck_offset := rq_offset req;
  ck_limit := rq_limit req;
  ck_typo_tolerance := rq_typo_tolerance req;
  ck_language := rq_language req;
  ck_destination_zone := rq_destination_zone req;
|}.
End Key.

(** ** The cached value and the cache *)
Record CachedResponse := mkCachedResponse {
  cd_hits : list (Z * f32);
  cd_total_hits : Z;
  cd_aggregations : gmap string (list AggregationBucket);
  cd_reranked : bool;
  cd_retrieval_mode : RetrievalMode;
}.

(** [moka::future::Cache]: what [get] finds may have been evicted or expired. *)
Class MokaLib := {
  moka : Type;
  moka_build : Z -> Z -> moka;                               (* capacity, seconds to live *)
  moka_get : QueryCacheKey -> moka -> moka * option CachedResponse;
  moka_insert : QueryCacheKey -> CachedResponse -> moka -> moka;
  moka_last : moka -> QueryCacheKey -> option CachedResponse;  (* ghost: last inserted *)
}.

Class MokaLaws `{ML : MokaLib} : Prop := {
  moka_build_last cap ttl k : moka_last (moka_build cap ttl) k = None;
  moka_insert_last k v c k' :
    moka_last (moka_insert k v c) k' = if decide (k = k') then Some v else moka_last c k';
  moka_get_last k c k' : moka_last (moka_get k c).1 k' = moka_last c k';
  moka_get_some k c v : (moka_get k c).2 = Some v -> moka_last c k = Some v;
}.

Section QueryCache.
Context `{ML : MokaLib}.

Record QueryCache := mkQueryCache { qc_inner : moka }.

Definition cache_build (config : QueryCacheConfig) : option QueryCache :=
  if negb (qc_enabled config) then None
  else Some {| qc_inner := moka_build (qc_max_entries config) (qc_ttl_seconds config) |}.

Definition cache_get (key : QueryCacheKey) (c : QueryCache) : QueryCache * option CachedResponse :=
  let '(inner, result) := moka_get key (qc_inner c) in ({| qc_inner := inner |}, result).

Definition cache_insert (key : QueryCacheKey) (value : CachedResponse) (c : QueryCache)
  : QueryCache := {| qc_inner := moka_insert key value (qc_inner c) |}.
End QueryCache.

(** A cache that keeps everything. *)
Module KeepAll.
#[export] Instance lib : MokaLib := {
  moka := list (QueryCacheKey * CachedResponse);
  moka_build := fun _ _ => [];
  moka_get := fun k c => (c, snd <$> find (fun p => bool_decide (p.1 = k)) c);
  moka_insert := fun k v c => (k, v) :: c;
  moka_last := fun c k => snd <$> find (fun p => bool_decide (p.1 = k)) c;
}.

#[export] Instance laws : MokaLaws (ML := lib).
Proof.
  split; try done. intros k v c k'. cbn. repeat case_bool_decide; by destruct (decide (k = k')).
Qed.
End KeepAll.

(** ** Strings that are read back *)
(** Values without a comma can be read back from their [join]. *)
Lemma str_join_inj l k :
  l <> [] -> k <> [] ->
  Forall (fun s => str_mem "," s = false) l -> Forall (fun s => str_mem "," s = false) k ->
  str_join "," l = str_join "," k -> l = k.
Proof.
  revert k. induction l as [|a l IH]; intros k Hl Hk HFl HFk E; [done|].
  destruct k as [|b k]; [done|]. apply Forall_cons in HFl as [Ha HFl], HFk as [Hb HFk].
  destruct l as [|a' l], k as [|b' k].
  - cbn in E. by rewrite E.
  - change (a = b +:+ String "," (str_join "," (b' :: k)))%string in E. subst a.
    rewrite str_mem_app in Ha. apply orb_false_iff in Ha as [_ Ha]. discriminate.
  - change (a +:+ String "," (str_join "," (a' :: l)) = b)%string in E. subst b.
    rewrite str_mem_app in Hb. apply orb_false_iff in Hb as [_ Hb]. discriminate.
  - change (a +:+ String "," (str_join "," (a' :: l)) = b +:+ String "," (str_join "," (b' :: k)))%string in E.
    apply split_at_char in E as [-> E]; [|done..]. f_equal. by apply IH.
Qed.

Section KeySpecs.
Context `{FDL : FloatDebugLaws} `{UOL : UnspecifiedOrderLaws}.

Lemma debug_opt_inj x y : debug_opt x = debug_opt y -> x = y.
Proof.
  destruct x as [x|], y as [y|]; cbn [debug_opt]; intros E; try done. injection E as E.
  change (debug_f64 x +:+ ")" = debug_f64 y +:+ ")")%string in E.
  apply str_app_inv_r in E. by apply debug_f64_inj in E as ->.
Qed.

Lemma debug_opt_colon x : str_mem ":" (debug_opt x) = false.
Proof.
  destruct x as [x|]; [|done]. cbn [debug_opt]. by rewrite !str_mem_app, debug_f64_colon.
Qed.

(** When two filters get the same text. *)
Definition filter_agree (v w : FilterValue) : Prop :=
  match v, w with
  | FEquality a, FEquality b => a = b
  | FRange a b, FRange a' b' => a = a' /\ b = b'
  | FMultiValue l, FMultiValue k =>
      str_join "," (sort_by str_cmp l) = str_join "," (sort_by str_cmp k)
  | _, _ => False
  end.

Lemma filter_text_agree v w : filter_text v = filter_text w <-> filter_agree v w.
Proof.
  destruct v as [a|a b|l], w as [a'|a' b'|k]; cbn [filter_text filter_agree]; split; try done;
    try (intros E; discriminate E).
  - intros E. by injection E.
  - by intros ->.
  - intros E. injection E as E.
    change (debug_opt a +:+ String ":" (debug_opt b) = debug_opt a' +:+ String ":" (debug_opt b'))%string in E.
    apply split_at_char in E as [E1 E2]; [|apply debug_opt_colon..].
    by apply debug_opt_inj in E1, E2.
  - by intros [-> ->].
  - intros E. by injection E.
  - by intros ->.
Qed.

Lemma sorted_values l k : l ≡ₚ k -> sort_by str_cmp l = sort_by str_cmp k.
Proof.
  intros Hp.
  assert (forall l, StronglySorted (cmp_le str_cmp) (sort_by str_cmp l)) as Hs
    by (intros l'; apply (sort_by_sorted _ (fun _ => True)), Forall_true; done).
  apply (StronglySorted_unique_strong (cmp_le str_cmp)); [|apply Hs..|].
  - intros x y _ _ Hxy Hyx. unfold cmp_le in *.
    rewrite (cmp_antisym (P := fun _ => True) x y I I) in Hyx.
    destruct (str_cmp x y) eqn:E; [|done|done]. by apply str_cmp_eq in E.
  - by rewrite !sort_by_perm.
Qed.

(** Multi-value filters agree as sets of values do, for values without commas. *)
Lemma multi_agree l k :
  l <> [] -> k <> [] ->
  Forall (fun s => str_mem "," s = false) l -> Forall (fun s => str_mem "," s = false) k ->
  filter_agree (FMultiValue l) (FMultiValue k) <-> l ≡ₚ k.
Proof.
  intros Hl Hk HFl HFk. cbn [filter_agree]. split; [|by intros ->%sorted_values].
  intros E. apply str_join_inj in E.
  - by rewrite <- (sort_by_perm str_cmp l), E, sort_by_perm.
  - intros E0. apply (f_equal length) in E0. rewrite length_sort_by in E0. by destruct l.
  - intros E0. apply (f_equal length) in E0. rewrite length_sort_by in E0. by destruct k.
  - by apply Forall_sort_by.
  - by apply Forall_sort_by.
Qed.

(** The sorted pairs determine the map and are determined by it. *)
Definition filter_pairs (m : gmap string FilterValue) : list (string * string) :=
  sort_by (cmp_on fst str_cmp) ((fun kv => (kv.1, filter_text kv.2)) <$> hm_iter m).

Lemma filter_pairs_perm m : filter_pairs m ≡ₚ map_to_list (filter_text <$> m).
Proof.
  unfold filter_pairs. rewrite sort_by_perm, hm_iter_perm, map_to_list_fmap.
  enough ((fun kv : string * FilterValue => (kv.1, filter_text kv.2)) <$> map_to_list m
    = prod_map id filter_text <$> map_to_list m) as -> by done.
  apply list_fmap_ext. by intros _ [k v] _.
Qed.

Lemma filter_pairs_sorted m : StronglySorted (cmp_le (cmp_on fst str_cmp)) (filter_pairs m).
Proof.
  apply (sort_by_sorted _ (fun a : string * string => (fun _ : string => True) a.1)).
  by apply Forall_true.
Qed.

Lemma filter_pairs_eq m m' :
  filter_pairs m = filter_pairs m' <-> filter_text <$> m = filter_text <$> m'.
Proof.
  split; intros E.
  - apply map_to_list_inj. by rewrite <- !filter_pairs_perm, E.
  - assert (filter_pairs m ≡ₚ filter_pairs m') as Hp by (by rewrite !filter_pairs_perm, E).
    apply (StronglySorted_unique_strong (cmp_le (cmp_on fst str_cmp)));
      [|apply filter_pairs_sorted..|done].
    intros [k v] [k' v'] H1 H2 Hxy Hyx. rewrite <- Hp in H2. rewrite filter_pairs_perm in H1, H2.
    apply elem_of_map_to_list in H1, H2. unfold cmp_le, cmp_on in *. cbn [fst] in *.
    rewrite (cmp_antisym (P := fun _ => True) k k' I I) in Hyx.
    destruct (str_cmp k k') eqn:Ek; [|done|done]. apply str_cmp_eq in Ek as ->. naive_solver.
Qed.
End KeySpecs.

(** A text for every [f64] that satisfies the laws: its sign, the bits of its
    mantissa and of its exponent. *)
Module BitsDebug.
Fixpoint bits (p : positive) : string :=
  match p with
  | xH => ""
  | xO p => String "0" (bits p)
  | xI p => String "1" (bits p)
  end.

Definition exponent (e : Z) : string :=
  match e with Z0 => "" | Zpos p => String "+" (bits p) | Zneg p => String "-" (bits p) end.

Definition sign (s : bool) : ascii := if s then "-"%char else "+"%char.

Definition text (x : f64) : string :=
  match x with
  | S754_nan => "N"
  | S754_zero s => String "0" (String (sign s) "")
  | S754_infinity s => String "i" (String (sign s) "")
  | S754_finite s m e => String "." (String (sign s) (bits m +:+ String "e" (exponent e)))
  end.

#[export] Instance float : FloatDebug := { debug_f64 := text }.

Lemma bits_inj p q : bits p = bits q -> p = q.
Proof. revert q. induction p; intros [q|q|] E; try done; injection E as E; f_equal; auto. Qed.

Lemma bits_mem c p : c <> "0"%char -> c <> "1"%char -> str_mem c (bits p) = false.
Proof.
  intros H0 H1. induction p as [p IH|p IH|]; cbn; [| |done]; by rewrite bool_decide_false, IH.
Qed.

Lemma exponent_inj e e' : exponent e = exponent e' -> e = e'.
Proof. destruct e, e'; intros E; try done; injection E as E; by apply bits_inj in E as ->. Qed.

Lemma sign_inj s s' : sign s = sign s' -> s = s'.
Proof. by destruct s, s'. Qed.

#[export] Instance float_laws : FloatDebugLaws (FD := float).
Proof.
  split.
  - intros x y. cbn [debug_f64 float]. destruct x as [s|s| |s m e], y as [s'|s'| |s' m' e'];
      cbn [text]; intros E; try done.
    + injection E as E. by apply sign_inj in E as ->.
    + injection E as E. by apply sign_inj in E as ->.
    + injection E as Es E. apply sign_inj in Es as ->.
      apply split_at_char in E as [Em Ee]; [|by apply bits_mem..].
      by apply bits_inj in Em as ->; apply exponent_inj in Ee as ->.
  - intros x. cbn [debug_f64 float]. destruct x as [[]|[]| |[] m e]; [done..| |].
    all: cbn [text sign str_mem]; rewrite !bool_decide_false, str_mem_app, bits_mem by done.
    all: cbn [str_mem]; rewrite bool_decide_false by done.
    all: destruct e; [done|..]; cbn [exponent str_mem]; rewrite bool_decide_false by done.
    all: by rewrite bits_mem.
Qed.
End BitsDebug.

(** ** Claims *)
Section KeyClaims.
Context `{FDL : FloatDebugLaws} `{UOL : UnspecifiedOrderLaws}.

Lemma filter_text_lookup (m m' : gmap string FilterValue) :
  filter_text <$> m = filter_text <$> m' <->
  forall k, option_Forall2 filter_agree (m !! k) (m' !! k).
Proof.
  split.
  - intros E k. apply (f_equal (lookup k)) in E. rewrite !lookup_fmap in E.
    destruct (m !! k), (m' !! k); cbn in E; try done; constructor.
    apply filter_text_agree. by injection E.
  - intros Hk. apply map_eq. intros k. rewrite !lookup_fmap.
    destruct (Hk k) as [v w Hvw|]; [|done]. cbn. f_equal. by apply filter_text_agree.
Qed.

Lemma sort_key_inj (s s' : option SortSpec) :
  (fun s => (ss_field s, bool_decide (ss_order s = Asc))) <$> s
    = (fun s => (ss_field s, bool_decide (ss_order s = Asc))) <$> s' <-> s = s'.
Proof.
  split; [|by intros ->]. destruct s as [[f []]|], s' as [[f' []]|]; cbn; intros E; by simplify_eq.
Qed.

(** Two requests share a cache entry exactly when they ask for the same
    answer: every field but [include_docs] is equal, where two filters count
    as equal field by field, a multi-value filter up to the order of its
    values; the iteration order of the filter map never shows.  Values that
    contain commas are where the key is too coarse. *)
Theorem cache_key_correct (a b : SearchRequest) :
  (from_request a = from_request b <->
   rq_query a = rq_query b /\
   (forall k, option_Forall2 filter_agree (rq_filters a !! k) (rq_filters b !! k)) /\
   rq_aggregations a = rq_aggregations b /\ rq_sort a = rq_sort b /\
   rq_offset a = rq_offset b /\ rq_limit a = rq_limit b /\
   rq_typo_tolerance a = rq_typo_tolerance b /\ rq_language a = rq_language b /\
   rq_destination_zone a = rq_destination_zone b) /\
  (forall l k, l <> [] -> k <> [] ->
     Forall (fun s => str_mem "," s = false) l -> Forall (fun s => str_mem "," s = false) k ->
     filter_agree (FMultiValue l) (FMultiValue k) <-> l ≡ₚ k) /\
  filter_agree (FMultiValue ["a,b"]) (FMultiValue ["a"; "b"]).
Proof.
  split_and!; [|by apply multi_agree|done].
  rewrite <- filter_text_lookup, <- filter_pairs_eq.
  rewrite <- (sort_key_inj (rq_sort a)). unfold from_request. fold (filter_pairs (rq_filters a)).
  fold (filter_pairs (rq_filters b)). split.
  - intros [= -> -> -> -> -> -> -> -> ->]. tauto.
  - by intros (-> & -> & -> & -> & -> & -> & -> & -> & ->).
Qed.
End KeyClaims.

Lemma cache_key_correct_witness :
  let multi l := {| rq_query := "shoes"; rq_filters := {[ "color" := FMultiValue l ]};
    rq_aggregations := ["color"]; rq_sort := None; rq_offset := 0; rq_limit := 20;
    rq_typo_tolerance := true; rq_language := None; rq_destination_zone := None;
    rq_include_docs := true |} in
  from_request (FD := BitsDebug.float) (UO := StableOrder.stable_order) (multi ["red"; "blue"])
    = from_request (FD := BitsDebug.float) (UO := StableOrder.stable_order) (multi ["blue"; "red"]).
Proof.
  intros multi.
  apply (cache_key_correct (FDL := BitsDebug.float_laws) (UOL := StableOrder.stable_order_laws)).
  split_and!; try reflexivity. intros k. unfold multi. cbn [rq_filters].
  destruct (decide (k = "color")) as [->|Hk].
  - rewrite !lookup_singleton. constructor. vm_compute. reflexivity.
  - rewrite !lookup_singleton_ne by done. constructor.
Defined.
