(* ===== verification/Availability.v ===== *)
(** The availability strategies of the router
    ([crates/router/src/availability.rs]): which re-ranked candidates may be
    shown for a destination zone.  Reading an [f64] from text and the HTTP stock
    service are interfaces. *)
From S2P Require Import Prelude Bytes Order Float Types Config Text Decimal Async.

Local Open Scope Z_scope.

(** ** Interfaces *)

(** [s.parse::<f64>().ok()]. *)
Class ParseF64 := { parse_f64 : string -> option f64 }.

(** The HTTP client: [send] fails when no response comes back in time, [json]
    when the body is not a [StockResponse]; the errors are their text. *)
Class StockService (W : Type) := {
  stock_response : Type;
  stock_get : string -> list (string * string) -> Z -> Async string W stock_response;
  stock_is_success : stock_response -> bool;
  stock_json : stock_response -> Async string W (list Z);       (* available_ids *)
}.

(** The client reports failures as errors. *)
Class StockServiceLaws (W : Type) `{SS : StockService W} : Prop := {
  stock_get_no_panic url query ms w : (stock_get url query ms w).2 <> Panic;
  stock_json_no_panic resp w : (stock_json resp w).2 <> Panic;
}.

(** ** The strategies *)
Record AvailabilityStrategy (W : Type) := mkAvailabilityStrategy {
  av_apply : list (Z * f32) -> gmap Z Document -> string -> Task W (list (Z * f32));
  candidate_multiplier : Z;                                     (* usize *)
}.
Arguments mkAvailabilityStrategy {W} _ _.
Arguments av_apply {W} _ _ _ _.
Arguments candidate_multiplier {W} _.

Definition NoopStrategy {W} : AvailabilityStrategy W := {|
  av_apply := fun candidates _docs _zone => mret candidates;
  candidate_multiplier := 1;
|}.

(** [Vec::retain]. *)
Definition retain {A} (p : A -> bool) (l : list A) : list A := filter (fun x => p x = true) l.

Definition is_available `{ParseF64} (cfg : StaticAvailabilityConfig) (docs : gmap Z Document)
    (attr_key : string) (id : Z) : bool :=
  match docs !! id with
  | None => sa_default_available cfg
  | Some doc =>
      match doc_attributes doc !! attr_key with
      | None => sa_default_available cfg
      | Some (VNumber n) => f_ge n (sa_min_stock cfg)
      | Some (VString s) =>
          match parse_f64 s with
          | None => sa_default_available cfg
          | Some n => f_ge n (sa_min_stock cfg)
          end
      | _ => sa_default_available cfg
      end
  end.

Definition StaticAvailabilityStrategy {W} `{ParseF64} (cfg : StaticAvailabilityConfig)
  : AvailabilityStrategy W := {|
  av_apply := fun candidates docs zone =>
    let attr_key := (sa_stock_attribute_prefix cfg +:+ zone)%string in
    mret (retain (fun c => is_available cfg docs attr_key c.1) candidates);
  candidate_multiplier := 3;
|}.

Definition region_apply {W} `{StockService W} (cfg : RegionStockConfig)
    (candidates : list (Z * f32)) (_docs : gmap Z Document) (zone : string)
  : Task W (list (Z * f32)) :=
  if bool_decide (candidates = []) then mret candidates
  else
    let ids := (fun c : Z * f32 => format_u64 c.1) <$> candidates in
    let url := (rsc_base_url cfg +:+ "/availability")%string in
    result ← attempt (stock_get url [("zone", zone); ("doc_ids", str_join "," ids)]
                        (rsc_timeout_ms cfg));
    match result with
    | Ret resp =>
        if stock_is_success resp then
          body ← attempt (stock_json resp);
          match body with
          | Ret available_ids =>
              let available : gset Z := list_to_set available_ids in
              mret (retain (fun c => bool_decide (c.1 ∈ available)) candidates)
          | _ => mret candidates
          end
        else mret candidates
    | _ => mret candidates
    end.

Definition RegionStockStrategy {W} `{StockService W} (cfg : RegionStockConfig)
  : AvailabilityStrategy W := {|
  av_apply := region_apply cfg;
  candidate_multiplier := 3;
|}.

(** [build_strategy]: [expect] panics on a missing [region_stock] section. *)
Definition build_strategy {W} `{ParseF64} `{StockService W} (config : AvailabilityConfig)
  : Result (AvailabilityStrategy W) :=
  match av_strategy config with
  | AsNoop => Ret NoopStrategy
  | AsStatic =>
      let cfg := default StaticAvailabilityConfig_default (av_static config) in
      Ret (StaticAvailabilityStrategy cfg)
  | AsRegionStock => RegionStockStrategy <$> unwrap (av_region_stock config)
  end.

(** ** What the strategies keep *)

Lemma elem_of_retain {A} (p : A -> bool) l x : x ∈ retain p l <-> x ∈ l /\ p x = true.
Proof. unfold retain. rewrite list_elem_of_filter. tauto. Qed.

Lemma retain_sublist {A} (p : A -> bool) l : sublist (retain p l) l.
Proof.
  induction l as [|x l IH]; [constructor|]. unfold retain. rewrite filter_cons.
  case_decide; by constructor.
Qed.

(** The stock a document states for a zone. *)
Definition stated_stock `{ParseF64} (doc : Document) (attr_key : string) : option f64 :=
  match doc_attributes doc !! attr_key with
  | Some (VNumber n) => Some n
  | Some (VString s) => parse_f64 s
  | _ => None
  end.

(** In stock: a stated stock of at least the minimum; without one, the default. *)
Definition in_stock `{ParseF64} (cfg : StaticAvailabilityConfig) (docs : gmap Z Document)
    (zone : string) (id : Z) : Prop :=
  match docs !! id ≫= fun doc => stated_stock doc (sa_stock_attribute_prefix cfg +:+ zone)%string with
  | Some n => f_ge n (sa_min_stock cfg) = true
  | None => sa_default_available cfg = true
  end.

Lemma is_available_iff `{ParseF64} cfg docs zone id :
  is_available cfg docs (sa_stock_attribute_prefix cfg +:+ zone)%string id = true
    <-> in_stock cfg docs zone id.
Proof.
  unfold is_available, in_stock. destruct (docs !! id) as [doc|]; [|done]. cbn.
  unfold stated_stock. destruct (doc_attributes doc !! _) as [[s|n|b|l]|]; try done.
  by destruct (parse_f64 s).
Qed.

(** What the stock service answered: the ids in stock, unless something failed. *)
Definition stock_answer {W} `{StockService W} (cfg : RegionStockConfig)
    (candidates : list (Z * f32)) (zone : string) (w : W) : option (list Z) :=
  match stock_get (rsc_base_url cfg +:+ "/availability")%string
          [("zone", zone); ("doc_ids", str_join "," ((fun c => format_u64 c.1) <$> candidates))]
          (rsc_timeout_ms cfg) w with
  | (w, Ret resp) =>
      if stock_is_success resp then outcome_ok (stock_json resp w).2 else None
  | _ => None
  end.

Lemma region_apply_answer {W} `{StockServiceLaws W} cfg candidates docs zone (w : W) :
  exists w', region_apply cfg candidates docs zone w = (w', Ret
    match stock_answer cfg candidates zone w with
    | Some ids => retain (fun c => bool_decide (c.1 ∈ (list_to_set ids : gset Z))) candidates
    | None => candidates
    end).
Proof.
  unfold region_apply. case_bool_decide as Hc.
  { exists w. subst candidates. by destruct (stock_answer _ _ _ _). }
  unfold stock_answer. pose proof (stock_get_no_panic (rsc_base_url cfg +:+ "/availability")%string
    [("zone", zone); ("doc_ids", str_join "," ((fun c => format_u64 c.1) <$> candidates))]%string
    (rsc_timeout_ms cfg) w) as Hg.
  unfold mbind, Async_bind, attempt.
  destruct (stock_get _ _ _ w) as [w1 [resp|e|]]; [|by exists w1|done].
  destruct (stock_is_success resp); [|by exists w1].
  pose proof (stock_json_no_panic resp w1) as Hj.
  destruct (stock_json resp w1) as [w2 [ids|e|]]; [by exists w2|by exists w2|done].
Qed.

(** ** Claim *)

(** the availability filter, whichever strategy the configuration selects,
    always returns, and returns a sublist of the candidates: nothing is added,
    reordered or rescored.  [noop] keeps all of them; [static] keeps exactly
    those in stock; [region_stock] keeps exactly those the service lists and,
    when the service fails in any way, all of them.  Only a [region_stock]
    strategy without its section has no strategy at all: it panics. *)
Theorem availability_correct {W} `{ParseF64} `{StockServiceLaws W} (config : AvailabilityConfig)
    (candidates : list (Z * f32)) (docs : gmap Z Document) (zone : string) (w : W) :
  (build_strategy (W := W) config = Panic <->
   av_strategy config = AsRegionStock /\ av_region_stock config = None) /\
  (build_strategy (W := W) config <> Panic -> exists s w' kept,
    build_strategy config = Ret s /\
    av_apply s candidates docs zone w = (w', Ret kept) /\
    sublist kept candidates /\
    forall c, c ∈ kept <-> c ∈ candidates /\
      match av_strategy config with
      | AsNoop => True
      | AsStatic =>
          in_stock (default StaticAvailabilityConfig_default (av_static config)) docs zone c.1
      | AsRegionStock =>
          forall cfg ids, av_region_stock config = Some cfg ->
            stock_answer cfg candidates zone w = Some ids -> c.1 ∈ ids
      end).
Proof.
  unfold build_strategy. split.
  { destruct (av_strategy config); [naive_solver..|].
    destruct (av_region_stock config); cbn; naive_solver. }
  intros Hd. destruct (av_strategy config).
  - exists NoopStrategy, w, candidates. split_and!; [done..|]. naive_solver.
  - set (cfg := default StaticAvailabilityConfig_default (av_static config)).
    exists (StaticAvailabilityStrategy cfg), w,
      (retain (fun c => is_available cfg docs (sa_stock_attribute_prefix cfg +:+ zone)%string c.1)
         candidates).
    split_and!; [done..|apply retain_sublist|].
    intros c. by rewrite elem_of_retain, is_available_iff.
  - destruct (av_region_stock config) as [cfg|]; [|naive_solver].
    destruct (region_apply_answer cfg candidates docs zone w) as [w' Hw'].
    eexists _, w', _. split_and!; [reflexivity|exact Hw'|by destruct (stock_answer _ _ _ _); [apply retain_sublist|]|].
    intros c. destruct (stock_answer cfg candidates zone w) as [ids|] eqn:Ea; [|naive_solver].
    rewrite elem_of_retain, bool_decide_eq_true, elem_of_list_to_set. split; [|naive_solver].
    intros [Hc Hin]. split; [done|]. intros cfg' ids' [= <-] [= <-]%(eq_trans (eq_sym Ea)). done.
Qed.

(** ** A service that answers, one that does not *)
Section Witness.
Local Instance whole_numbers : ParseF64 := {
  parse_f64 := fun s => f64_of_Z <$> parse_unsigned u64_max s;
}.
Local Instance down : StockService unit := {
  stock_response := list Z;
  stock_get := fun _ _ _ w => (w, Fail "connection refused");
  stock_is_success := fun _ => true;
  stock_json := fun ids w => (w, Ret ids);
}.
Local Instance down_laws : StockServiceLaws unit.
Proof. by split. Qed.

Definition stocked (id : Z) (v : Value) : Document :=
  mkDocument id "" "" f_zero "" {[ "stock_ba" := v ]}.
Definition stocks : gmap Z Document :=
  {[ 1 := stocked 1 (VNumber (f64_of_Z 5)); 2 := stocked 2 (VString "0"); 3 := stocked 3 (VBool true) ]}.
Definition static_config : AvailabilityConfig := mkAvailabilityConfig AsStatic None None.
Definition hits : list (Z * f32) := (fun id => (id, f_zero)) <$> [1; 2; 3; 4].

Lemma availability_correct_witness :
  (av_apply (StaticAvailabilityStrategy StaticAvailabilityConfig_default) hits stocks "ba" tt).2
    = Ret ((fun id => (id, f_zero)) <$> [1; 3; 4]) /\
  exists s w' kept,
    build_strategy (W := unit) static_config = Ret s /\
    av_apply s hits stocks "ba" tt = (w', Ret kept) /\ sublist kept hits.
Proof.
  split; [vm_compute; reflexivity|].
  destruct (availability_correct static_config hits stocks "ba" tt) as [_ Hc].
  destruct Hc as (s & w' & kept & H1 & H2 & H3 & _); [discriminate|].
  exists s, w', kept. split; [exact H1|split; [exact H2|exact H3]].
Defined.
End Witness.
