(* ===== verification/Client.v ===== *)
(** The shard clients of the router ([crates/router/src/client.rs] and
    [breaker.rs]): the [ShardClient] trait as a record of operations over the
    world, its in-process, remote and circuit-breaker implementations, and the
    group of a primary with its replicas. *)
From S2P Require Import Prelude Bytes Order Float Types Config Breaker Text Analysis Posting.
From S2P Require Import Disk Inverted Column DocStore Segment Scorer Collector Wand Executor.
From S2P Require Import Multi Object Wal WriteBuffer SegmentList Proto Replication Shard Async.
From S2P Require Import ShardGrpc Suggest.

Local Open Scope Z_scope.

Record ShardSearchResult := mkShardSearchResult {
  shr_hits : list (Z * f32);            (* (global_doc_id, score) *)
  shr_total_hits : Z;                   (* u64 *)
  shr_aggregations : gmap string (list (string * Z));
  shr_used_or_fallback : bool;
}.

(** ** The trait *)
Record ShardClient (W : Type) := mkShardClient {
  is_circuit_open : W -> bool;
  cl_search : SearchRequest -> Task W ShardSearchResult;
  cl_index : Document -> Task W unit;
  cl_bulk : list Document -> Task W Z;  (* u32 *)
  cl_delete : Z -> Task W unit;
  cl_get_docs : list Z -> Task W (list Document);
  cl_stats : Task W ShardStats;
  cl_flush : Task W unit;
  cl_reindex : Task W ReindexStats;
  cl_health : W -> W * bool;
  cl_suggest : string -> string -> nat -> Task W (list SuggestTerm);
}.
Arguments mkShardClient {W}.
Arguments is_circuit_open {W}. Arguments cl_search {W}. Arguments cl_index {W}.
Arguments cl_bulk {W}. Arguments cl_delete {W}. Arguments cl_get_docs {W}.
Arguments cl_stats {W}. Arguments cl_flush {W}. Arguments cl_reindex {W}.
Arguments cl_health {W}. Arguments cl_suggest {W}.

(** The trait's default methods. *)
Definition no_breaker {W} (_ : W) : bool := false.
Definition no_suggest {W} (_prefix _field : string) (_limit : nat) : Task W (list SuggestTerm) :=
  mret [].

(** ** The group of a primary and its replicas *)

(** [next] is the group's atomic counter in the world. *)
Record ShardGroup (W : Type) := mkShardGroup {
  gr_primary : ShardClient W;
  gr_replicas : list (ShardClient W);
  gr_next : Lens W Z;                   (* AtomicUsize *)
}.
Arguments mkShardGroup {W}. Arguments gr_primary {W}. Arguments gr_replicas {W}.
Arguments gr_next {W}.

Section Group.
Context {W : Type}.

(** [ShardGroup::new]: the counter starts at 0 where the world keeps it. *)
Definition group_new (next : Lens W Z) (primary : ShardClient W) (replicas : list (ShardClient W))
  : W -> W * ShardGroup W := fun w => (lset next 0 w, mkShardGroup primary replicas next).

Definition primary_only (next : Lens W Z) (primary : ShardClient W) : W -> W * ShardGroup W :=
  group_new next primary [].

Definition write_target (g : ShardGroup W) : ShardClient W := gr_primary g.

(** The endpoint with index [idx < 1 + replicas.len()]. *)
Definition endpoint (g : ShardGroup W) (idx : Z) : ShardClient W :=
  if idx =? 0 then gr_primary g
  else default (gr_primary g) (gr_replicas g !! Z.to_nat (idx - 1)).

(** [read_target]: [fetch_add] and [start + i] wrap at 64 bits. *)
Definition read_target (g : ShardGroup W) (w : W) : W * ShardClient W :=
  let total := 1 + Z.of_nat (length (gr_replicas g)) in
  let start := lget (gr_next g) w in
  let w := lset (gr_next g) (wrap 64 (start + 1)) w in
  let rotation := (fun i => endpoint g (wrap 64 (start + i) `mod` total)) <$> ziota total in
  (w, default (gr_primary g) (find (fun client => negb (is_circuit_open client w)) rotation)).

Definition replica_count (g : ShardGroup W) : nat := length (gr_replicas g).
Definition replica_clients (g : ShardGroup W) : list (ShardClient W) := gr_replicas g.
End Group.

(** ** The circuit breaker around a client *)
Section BreakerClient.
Context {W : Type} `{RT : Runtime W} (breaker : Lens W CircuitBreaker).

Definition record {A} (m : Task W A) : Task W A := fun w =>
  match m w with
  | (w, Ret a) => (lset breaker (record_success (lget breaker w)) w, Ret a)
  | (w, Fail e) => (lset breaker (record_failure (now_ms w) (lget breaker w)) w, Fail e)
  | (w, Panic) => (w, Panic)
  end.

(** Only searches and document fetches are recorded; [suggest] is not forwarded. *)
Definition BreakerShardClient (inner : ShardClient W) : ShardClient W := {|
  is_circuit_open := fun w => is_open (now_ms w) (lget breaker w);
  cl_search := fun request => record (cl_search inner request);
  cl_index := cl_index inner;
  cl_bulk := cl_bulk inner;
  cl_delete := cl_delete inner;
  cl_get_docs := fun doc_ids => record (cl_get_docs inner doc_ids);
  cl_stats := cl_stats inner;
  cl_flush := cl_flush inner;
  cl_reindex := cl_reindex inner;
  cl_health := cl_health inner;
  cl_suggest := no_suggest;
|}.

(** [BreakerShardClient::new]: the breaker starts closed where the world keeps it. *)
Definition breaker_client_new (config : CircuitBreakerConfig) (inner : ShardClient W)
  : W -> W * ShardClient W := fun w =>
  (lset breaker (breaker_new config) w, BreakerShardClient inner).
End BreakerClient.

(** ** In-process clients *)
Section Local.
Context `{IL : IndexLibs} `{SD : Serde WalRecord} `{TD : TempDirLib} `{ML : MathLib}
  `{UO : UnspecifiedOrder} {W : Type} `{RT : Runtime W}.

Definition local_result (resp : SearchResponse) : ShardSearchResult := {|
  shr_hits := (fun h => (hit_id h, hit_score h)) <$> rs_hits resp;
  shr_total_hits := rs_total_hits resp;
  shr_aggregations :=
    (fun buckets : list AggregationBucket => (fun b => (ab_value b, ab_count b)) <$> buckets)
    <$> rs_aggregations resp;
  shr_used_or_fallback := bool_decide (rs_retrieval_mode resp = RmOrFallback);
|}.

Definition LocalShardClient (shard : Lens W (ShardEngine * Disk)) : ShardClient W :=
  let self {A} (m : Obj ShardEngine A) : Task W A := at_ shard m in {|
  is_circuit_open := no_breaker;
  cl_search := fun request w =>
    (resp ← self (shard_search request (elapsed_ms w)); mret (local_result resp)) w;
  cl_index := fun doc => self (shard_index doc);
  cl_bulk := fun docs =>
    let count := wrap 32 (Z.of_nat (length docs)) in
    _ ← self (index_batch docs);
    mret count;
  cl_delete := fun doc_id => self (shard_delete doc_id);
  cl_get_docs := fun doc_ids => self (s ← get_self; obj_lift (shard_get_docs s doc_ids));
  cl_stats := self (s ← get_self; mret (shard_stats s));
  cl_flush := self flush;
  cl_reindex := fun w => self (reindex_self (elapsed_ms w)) w;
  cl_health := fun w => (w, true);
  cl_suggest := no_suggest;
|}.

Definition LocalSuggestClient (engine : Lens W SuggestShardEngine) : ShardClient W := {|
  is_circuit_open := no_breaker;
  cl_search := fun _request =>
    async_lift (Fail (EConfig "suggest shard does not implement search"));
  cl_index := fun doc => at_ engine (call (fun e => (sge_index_doc doc e, tt)));
  cl_bulk := fun docs =>
    let n := wrap 32 (Z.of_nat (length docs)) in
    _ ← at_ engine (call (fun e => (sge_bulk docs e, tt)));
    mret n;
  cl_delete := fun _doc_id => mret tt;
  cl_get_docs := fun _doc_ids => mret [];
  cl_stats :=
    e ← reads (lget engine);
    mret {| ss_doc_count := Z.of_nat (sge_term_count e); ss_segment_count := 0;
            ss_buffer_doc_count := 0; ss_buffer_size_bytes := 0;
            ss_shard_id := su_shard_id (sge_config e) |};
  cl_flush := _ ← at_ engine (call sge_flush); mret tt;
  cl_reindex :=
    e ← reads (lget engine);
    mret {| rx_shard_id := su_shard_id (sge_config e); rx_docs_reindexed := 0;
            rx_elapsed_ms := 0 |};
  cl_health := fun w => (w, true);
  cl_suggest := fun prefix field limit =>
    e ← reads (lget engine); mret (sge_suggest e prefix field limit);
|}.
End Local.

(** ** The remote client *)

(** Connecting to an endpoint (a transport error is its text), the service
    behind it as the channel shows it, and the text of a status. *)
Class ShardNet (W : Type) := {
  shard_connect : string -> Async string W unit;
  shard_service : string -> ShardService W;
  status_text : Status -> string;
}.

Definition doc_to_proto (doc : Document) : DocumentProto := {|
  dp_id := doc_id doc;
  dp_title := doc_title doc;
  dp_description := doc_description doc;
  dp_price := doc_price doc;
  dp_category := doc_category doc;
  dp_attributes := omap string_attribute (doc_attributes doc);
|}.

Definition proto_to_doc (proto : DocumentProto) : Document := {|
  doc_id := dp_id proto;
  doc_title := dp_title proto;
  doc_description := dp_description proto;
  doc_price := dp_price proto;
  doc_category := dp_category proto;
  doc_attributes := VString <$> dp_attributes proto;
|}.

Definition filter_to_proto (fv : FilterValue) : ProtoFilterValue :=
  match fv with
  | FEquality eq => {| pfv_filter := Some (PfEq eq) |}
  | FRange gte lte => {| pfv_filter := Some (PfRange gte lte) |}
  | FMultiValue in_ => {| pfv_filter := Some (PfMulti in_) |}
  end.

(** [offset] and [limit] are cast [as u64], the identity on 64-bit targets. *)
Definition search_request_to_proto (req : SearchRequest) : ProtoSearchRequest := {|
  pq_query := rq_query req;
  pq_filters := filter_to_proto <$> rq_filters req;
  pq_aggregations := rq_aggregations req;
  pq_sort := (fun s => {| pss_field := ss_field s;
                          pss_order := match ss_order s with
                                       | Asc => proto_asc | Desc => proto_desc end |})
             <$> rq_sort req;
  pq_offset := rq_offset req;
  pq_limit := rq_limit req;
  pq_typo_tolerance := rq_typo_tolerance req;
  pq_language := rq_language req;
|}.

Definition agg_result_to_counts (buckets : list ProtoBucket) : list (string * Z) :=
  (fun b => (pb_value b, pb_count b)) <$> buckets.

Section Remote.
Context {W : Type} `{SN : ShardNet W} (endpoint_ : string).

Definition connect : Task W (ShardService W) :=
  _ ← async_map_err EGrpc (shard_connect endpoint_);
  mret (shard_service endpoint_).

(** [.await.map_err(|e| Error::Grpc(e.to_string()))?]. *)
Definition grpc {A} (m : Rpc W A) : Task W A := async_map_err (fun e => EGrpc (status_text e)) m.

Definition RemoteShardClient : ShardClient W := {|
  is_circuit_open := no_breaker;
  cl_search := fun request =>
    client ← connect;
    resp ← grpc (sv_search client (search_request_to_proto request));
    mret {| shr_hits := (fun h => (psd_doc_id h, psd_score h)) <$> pr_hits resp;
            shr_total_hits := pr_total_hits resp;
            shr_aggregations := agg_result_to_counts <$> pr_aggregations resp;
            shr_used_or_fallback := bool_decide (pr_retrieval_mode resp = "or_fallback") |};
  cl_index := fun doc =>
    client ← connect;
    _ ← grpc (sv_index client (Some (doc_to_proto doc)));
    mret tt;
  cl_bulk := fun docs =>
    client ← connect;
    let documents := doc_to_proto <$> docs in
    grpc (sv_bulk_index client documents);
  cl_delete := fun doc_id =>
    client ← connect;
    _ ← grpc (sv_delete client doc_id);
    mret tt;
  cl_get_docs := fun doc_ids =>
    client ← connect;
    resp ← grpc (sv_get_docs client doc_ids);
    mret (proto_to_doc <$> resp);
  cl_stats :=
    client ← connect;
    resp ← grpc (sv_stats client);
    mret {| ss_doc_count := sr_doc_count resp; ss_segment_count := sr_segment_count resp;
            ss_buffer_doc_count := 0; ss_buffer_size_bytes := 0;
            ss_shard_id := sr_shard_id resp |};
  cl_flush :=
    client ← connect;
    _ ← grpc (sv_flush client);
    mret tt;
  cl_reindex :=
    client ← connect;
    resp ← grpc (sv_reindex client);
    mret {| rx_shard_id := rir_shard_id resp; rx_docs_reindexed := rir_docs_reindexed resp;
            rx_elapsed_ms := rir_elapsed_ms resp |};
  cl_health := fun w =>
    match connect w with
    | (w, Ret client) =>
        match sv_health client w with
        | (w, Ret _) => (w, true)
        | (w, _) => (w, false)
        end
    | (w, _) => (w, false)
    end;
  cl_suggest := fun prefix field limit =>
    client ← connect;
    resp ← grpc (sv_suggest client {| sgr_prefix := prefix; sgr_field := field;
                                      sgr_limit := wrap 32 (Z.of_nat limit) |});
    mret ((fun e => {| stm_term := sge_term e; stm_score := sge_score e |}) <$> resp);
|}.
End Remote.

(** ** Choosing an endpoint *)
Section Rotation.
Context {W : Type}.

Definition endpoints (g : ShardGroup W) : list (ShardClient W) := gr_primary g :: gr_replicas g.

Lemma endpoints_ziota g : endpoint g <$> ziota (Z.of_nat (length (endpoints g))) = endpoints g.
Proof.
  apply list_eq. intros i. unfold ziota. rewrite Nat2Z.id, <- list_fmap_compose, list_lookup_fmap.
  destruct (decide (i < length (endpoints g))%nat) as [Hi|Hi].
  - rewrite lookup_seq_lt by done. cbn. destruct i as [|i]; [done|]. unfold endpoint.
    rewrite (proj2 (Z.eqb_neq _ _)) by lia.
    replace (Z.to_nat (Z.of_nat (S i) - 1)) with i by lia. cbn [endpoints lookup list_lookup].
    destruct (lookup_lt_is_Some_2 (gr_replicas g) i) as [c Hc]; [cbn in Hi; lia|]. by rewrite Hc.
  - rewrite (lookup_ge_None_2 (seq _ _)) by (rewrite length_seq; lia).
    symmetry. apply lookup_ge_None_2. lia.
Qed.

Lemma rotate_perm start n :
  0 <= start -> (fun i => (start + i) `mod` n) <$> ziota n ≡ₚ ziota n.
Proof.
  intros Hs. apply NoDup_Permutation; [|apply NoDup_ziota|].
  - apply NoDup_fmap_2_strong; [|apply NoDup_ziota].
    intros i j Hi%elem_of_ziota Hj%elem_of_ziota E.
    pose proof (Z.div_mod (start + i) n). pose proof (Z.div_mod (start + j) n).
    assert ((start + i) `div` n = (start + j) `div` n) by nia. lia.
  - intros k. rewrite list_elem_of_fmap, elem_of_ziota. split.
    + intros (i & -> & Hi%elem_of_ziota). apply Z.mod_pos_bound. lia.
    + intros Hk. exists ((k - start) `mod` n). rewrite elem_of_ziota.
      split; [|apply Z.mod_pos_bound; lia].
      rewrite Zplus_mod_idemp_r. replace (start + (k - start)) with k by lia.
      by rewrite Z.mod_small.
Qed.

(** The order in which a read tries the endpoints, when the counter does not wrap. *)
Definition rotation (g : ShardGroup W) (start : Z) : list (ShardClient W) :=
  (fun i => endpoint g ((start + i) `mod` Z.of_nat (length (endpoints g))))
    <$> ziota (Z.of_nat (length (endpoints g))).

Lemma rotation_perm g start : 0 <= start -> rotation g start ≡ₚ endpoints g.
Proof.
  intros Hs. transitivity (endpoint g <$> ziota (Z.of_nat (length (endpoints g)))).
  - rewrite <- (rotate_perm start) by done. by rewrite <- list_fmap_compose.
  - by rewrite endpoints_ziota.
Qed.

Lemma read_target_rotation g w :
  0 <= lget (gr_next g) w ->
  lget (gr_next g) w + Z.of_nat (length (endpoints g)) <= 2 ^ 64 ->
  let w' := lset (gr_next g) (wrap 64 (lget (gr_next g) w + 1)) w in
  read_target g w = (w', default (gr_primary g)
    (find (fun c => negb (is_circuit_open c w')) (rotation g (lget (gr_next g) w)))).
Proof.
  intros H0 Hn w'. unfold read_target. fold w'. do 3 f_equal. unfold rotation.
  replace (Z.of_nat (length (endpoints g))) with (1 + Z.of_nat (length (gr_replicas g)))
    in * by (unfold endpoints; cbn; lia).
  apply list_fmap_ext. intros i x Hx. apply list_elem_of_lookup_2, elem_of_ziota in Hx.
  by rewrite wrap_id by (unfold in_width; lia).
Qed.

Lemma find_all {A} (p : A -> bool) l : (forall x, x ∈ l -> p x = true) -> find p l = head l.
Proof. destruct l as [|x l]; [done|]. intros Hp. cbn. by rewrite Hp by left. Qed.

Lemma find_split {A} (p : A -> bool) l x : find p l = Some x ->
  exists l1 l2, l = l1 ++ x :: l2 /\ p x = true /\ forall y, y ∈ l1 -> p y = false.
Proof.
  induction l as [|a l IH]; [done|]. cbn. destruct (p a) eqn:Ea.
  - intros [= <-]. exists [], l. split_and!; [done..|]. intros y Hy. by apply elem_of_nil in Hy.
  - intros (l1 & l2 & -> & Hx & Hl1)%IH. exists (a :: l1), l2. split_and!; [done..|].
    intros y [->|Hy]%elem_of_cons; auto.
Qed.

(** Successive reads. *)
Fixpoint read_targets (n : nat) (g : ShardGroup W) (w : W) : W * list (ShardClient W) :=
  match n with
  | O => (w, [])
  | S n => let '(w, c) := read_target g w in
           let '(w, l) := read_targets n g w in (w, c :: l)
  end.

Lemma read_target_closed g w :
  0 <= lget (gr_next g) w ->
  lget (gr_next g) w + Z.of_nat (length (endpoints g)) <= 2 ^ 64 ->
  (forall c w, c ∈ endpoints g -> is_circuit_open c w = false) ->
  read_target g w = (lset (gr_next g) (wrap 64 (lget (gr_next g) w + 1)) w,
    endpoint g (lget (gr_next g) w `mod` Z.of_nat (length (endpoints g)))).
Proof.
  intros H0 Hn Hc. rewrite read_target_rotation by done. f_equal. rewrite find_all.
  - unfold rotation, ziota. rewrite Nat2Z.id. cbn [endpoints length seq fmap list_fmap head default].
    by rewrite Z.add_0_r.
  - intros c Hin. rewrite rotation_perm in Hin by done. by rewrite Hc.
Qed.

Lemma read_targets_closed (g : ShardGroup W) `{!LensLaws (gr_next g)} n : forall w,
  0 <= lget (gr_next g) w ->
  lget (gr_next g) w + Z.of_nat n + Z.of_nat (length (endpoints g)) <= 2 ^ 64 ->
  (forall c w, c ∈ endpoints g -> is_circuit_open c w = false) ->
  (read_targets n g w).2 =
    (fun i => endpoint g ((lget (gr_next g) w + i) `mod` Z.of_nat (length (endpoints g))))
      <$> ziota (Z.of_nat n).
Proof.
  induction n as [|n IH]; intros w H0 Hn Hc; [done|]. cbn [read_targets].
  rewrite read_target_closed by (done || lia).
  set (w1 := lset _ _ w). assert (lget (gr_next g) w1 = lget (gr_next g) w + 1) as Hw1.
  { unfold w1. rewrite lget_lset, wrap_id; [done|]. unfold in_width. cbn in Hn. lia. }
  specialize (IH w1). rewrite Hw1 in IH.
  destruct (read_targets n g w1) as [w2 l]. cbn [snd] in *. rewrite IH by (done || lia).
  unfold ziota. rewrite !Nat2Z.id. cbn [seq fmap list_fmap]. rewrite Z.add_0_r. f_equal.
  rewrite <- fmap_S_seq, <- !list_fmap_compose. apply list_fmap_ext.
  intros i x _. unfold compose. do 2 f_equal. lia.
Qed.
End Rotation.

(** ** Claims: choosing an endpoint *)

(** a read goes to an endpoint of the group and moves the group's counter by
    one: an open circuit is chosen only when every endpoint's circuit is open,
    and then it is the primary's; the chosen endpoint is the first closed one
    from the counter on.  While no circuit is open, a round of as many reads as
    the group has endpoints reaches each exactly once.  (The counter is
    far from the end of its 64-bit range.) *)
Theorem read_target_correct {W} (g : ShardGroup W) `{!LensLaws (gr_next g)} (w : W) :
  0 <= lget (gr_next g) w ->
  lget (gr_next g) w + 2 * Z.of_nat (length (endpoints g)) <= 2 ^ 64 ->
  let w' := (read_target g w).1 in
  let c := (read_target g w).2 in
  w' = lset (gr_next g) (lget (gr_next g) w + 1) w /\
  c ∈ endpoints g /\
  (is_circuit_open c w' = true ->
     c = gr_primary g /\ forall e, e ∈ endpoints g -> is_circuit_open e w' = true) /\
  (is_circuit_open c w' = false ->
     exists before after, rotation g (lget (gr_next g) w) = before ++ c :: after /\
       forall e, e ∈ before -> is_circuit_open e w' = true) /\
  ((forall e w, e ∈ endpoints g -> is_circuit_open e w = false) ->
     (read_targets (length (endpoints g)) g w).2 ≡ₚ endpoints g).
Proof.
  intros H0 Hn. rewrite read_target_rotation by (done || lia). cbn [fst snd].
  rewrite wrap_id by (unfold in_width; cbn in *; lia). set (w' := lset _ _ w).
  set (p := fun c => negb (is_circuit_open c w')).
  pose proof (rotation_perm g _ H0) as Hperm.
  split; [done|]. destruct (find p (rotation g (lget (gr_next g) w))) as [c|] eqn:Ef; unfold default, id.
  - destruct (find_split _ _ _ Ef) as (l1 & l2 & El & Hc & Hl1).
    assert (c ∈ endpoints g) by (rewrite <- Hperm, El; set_solver).
    apply negb_true_iff in Hc. split_and!; [done|intros E; congruence| |].
    + intros _. exists l1, l2. split; [done|]. intros e He. by apply negb_false_iff, Hl1.
    + intros Hclosed. rewrite read_targets_closed by (done || lia). exact Hperm.
  - assert (forall e, e ∈ endpoints g -> is_circuit_open e w' = true) as Hall.
    { intros e He. rewrite <- Hperm in He. apply list_elem_of_In in He.
      apply (List.find_none _ _ Ef) in He. unfold p in He. by zbool. }
    split_and!; [by left|done| |].
    + rewrite Hall by (by left). done.
    + intros Hclosed. rewrite read_targets_closed by (done || lia). exact Hperm.
Qed.

(** ** A remote shard behaves as the shard behind it *)

(** What the wire keeps of a document: its string attributes. *)
Definition wire_doc (d : Document) : Document := {|
  doc_id := doc_id d; doc_title := doc_title d; doc_description := doc_description d;
  doc_price := doc_price d; doc_category := doc_category d;
  doc_attributes :=
    omap (fun v => match v with VString s => Some (VString s) | _ => None end) (doc_attributes d);
|}.

(** What the wire keeps of the statistics. *)
Definition wire_stats (s : ShardStats) : ShardStats := {|
  ss_doc_count := ss_doc_count s; ss_segment_count := ss_segment_count s;
  ss_buffer_doc_count := 0; ss_buffer_size_bytes := 0; ss_shard_id := ss_shard_id s |}.

Lemma wire_doc_proto d : Replication.proto_to_doc (doc_to_proto d) = wire_doc d.
Proof.
  unfold Replication.proto_to_doc, wire_doc. cbn. f_equal. apply map_eq. intros k.
  rewrite lookup_fmap, !lookup_omap. by destruct (doc_attributes d !! k) as [[]|].
Qed.

Lemma doc_wire_proto d : proto_to_doc (Replication.doc_to_proto d) = wire_doc d.
Proof. apply wire_doc_proto. Qed.

Lemma wire_docs_proto (ds : list Document) : Replication.proto_to_doc <$> (doc_to_proto <$> ds) = wire_doc <$> ds.
Proof. rewrite <- list_fmap_compose. apply list_fmap_ext. intros. apply wire_doc_proto. Qed.

Lemma async_bind_ret_r {E W A} (m : Async E W A) w : (m ≫= mret) w = m w.
Proof. unfold mbind, Async_bind. by destruct (m w) as [? []]. Qed.

Lemma search_request_roundtrip r :
  proto_to_search_request (search_request_to_proto r) = with_routing None true r.
Proof.
  unfold proto_to_search_request, with_routing. cbn. f_equal.
  - apply map_eq. intros k. rewrite lookup_omap, lookup_fmap.
    by destruct (rq_filters r !! k) as [[]|].
  - by destruct (rq_sort r) as [[f []]|].
Qed.

Section Refinement.
Context `{IL : IndexLibs} `{SD : Serde WalRecord} `{TD : TempDirLib} `{ML : MathLib}
  `{UO : UnspecifiedOrder} {W : Type} `{RT : Runtime W} `{SN : ShardNet W}.

(** The endpoint [ep] can be reached and serves [service]. *)
Definition serves (ep : string) (service : ShardService W) : Prop :=
  (forall w, shard_connect ep w = (w, Ret tt)) /\ shard_service ep = service.

(** A computation as the other side of the wire sees it: errors become the text
    of a status, results go through [f]. *)
Definition over_wire {A B} (f : A -> B) (m : Task W A) : Task W B := fun w =>
  let '(w, r) := m w in (w, map_err (fun e => EGrpc (status_text (internal e))) (f <$> r)).

Lemma connect_served ep service (w : W) : serves ep service -> connect ep w = (w, Ret service).
Proof. intros [Hc <-]. unfold connect, async_map_err, mbind, Async_bind. by rewrite Hc. Qed.

Lemma served_call {A} ep service (f : ShardService W -> Task W A) (w : W) :
  serves ep service -> (connect ep ≫= f) w = f service w.
Proof. intros Hs. unfold mbind, Async_bind. by rewrite (connect_served ep service). Qed.

(** An engine method [m] called through a lens, over gRPC and back, against the
    same method called in process: [f] and [g] convert the result on the two
    sides of the wire, [h] in process. *)
Lemma wire_call {T A B C D} (l : Lens W T) (m : T -> T * Result A) (f : A -> B) (g : B -> D)
    (h : A -> C) (k : C -> D) (n : Task W C) (w : W) :
  n w = (let '(t, r) := m (lget l w) in (lset l t w, h <$> r)) ->
  (forall a, g (f a) = k (h a)) ->
  (resp ← grpc (at_ l (a ← async_map_err internal m; mret (f a))); mret (g resp)) w
    = over_wire k n w.
Proof.
  intros Hn Hfg. unfold over_wire. rewrite Hn.
  unfold grpc, at_, async_map_err, mbind, Async_bind, mret, Async_ret.
  destruct (m (lget l w)) as [t [a|e|]]; cbn; by rewrite ?Hfg.
Qed.
End Refinement.

(** A local operation that is one engine method. *)
Ltac local_call m := unfold at_, mbind, Async_bind; by destruct m as [? [?|?|]].

(** C16: a router that talks to a shard over gRPC sees what an in-process router
    would: every operation of the remote client is that of the local client,
    with errors turned into gRPC errors, up to what the messages do not carry:
    attributes that are not strings are lost in both directions, the write
    buffer's statistics read zero.  Searches are the same, with every field a
    shard reads.  The one operation that differs is [suggest], which a search
    shard answers with nothing in process and refuses over gRPC. *)
Theorem remote_refines_local `{IndexLibs} `{Serde WalRecord} `{TempDirLib} `{MathLib}
    `{UnspecifiedOrder} {W} `{Runtime W} `{ShardNet W} (shard : Lens W (ShardEngine * Disk))
    (ep : string) :
  serves ep (ShardGrpcServer shard) ->
  let remote := RemoteShardClient ep in
  let local := LocalShardClient shard in
  (forall r w, cl_search remote r w = over_wire id (cl_search local r) w) /\
  (forall d w, cl_index remote d w = over_wire id (cl_index local (wire_doc d)) w) /\
  (forall ds w, cl_bulk remote ds w = over_wire id (cl_bulk local (wire_doc <$> ds)) w) /\
  (forall i w, cl_delete remote i w = over_wire id (cl_delete local i) w) /\
  (forall ids w, cl_get_docs remote ids w = over_wire (fmap wire_doc) (cl_get_docs local ids) w) /\
  (forall w, cl_stats remote w = over_wire wire_stats (cl_stats local) w) /\
  (forall w, cl_flush remote w = over_wire id (cl_flush local) w) /\
  (forall w, cl_reindex remote w = over_wire id (cl_reindex local) w) /\
  (forall w, (cl_health remote w).2 = (cl_health local w).2) /\
  (forall p f n w, is_ret (cl_suggest remote p f n w).2 = false /\
     cl_suggest local p f n w = (w, Ret [])).
Proof.
  intros Hs remote local. split_and!.
  - intros r w. cbn [remote RemoteShardClient cl_search]. rewrite (served_call _ _ _ _ Hs).
    cbn [ShardGrpcServer sv_search local LocalShardClient cl_search].
    unfold grpc_search, engine. rewrite search_request_roundtrip.
    pose proof (shard_search_routing None true r) as Hr. revert Hr.
    generalize (shard_search (with_routing None true r)), (shard_search r). intros m m' Hr.
    apply (wire_call shard (m (elapsed_ms w)) response_to_proto _ local_result).
    + unfold at_, mbind, Async_bind. rewrite <- Hr.
      by destruct (m (elapsed_ms w) (lget shard w)) as [t [a|e|]].
    + intros a. unfold id, local_result. cbn. f_equal.
      * by rewrite <- list_fmap_compose.
      * rewrite <- map_fmap_compose. apply map_fmap_ext. intros k bs _. cbn.
        unfold agg_result_to_counts. by rewrite <- list_fmap_compose.
      * by destruct a as [? ? ? ? ? []].
  - intros d w. cbn [remote RemoteShardClient cl_index]. rewrite (served_call _ _ _ _ Hs).
    apply (wire_call shard (shard_index (Replication.proto_to_doc (doc_to_proto d)))
      (fun _ => true) _ (fun u => u)); [|by intros []].
    rewrite wire_doc_proto. cbn [local LocalShardClient cl_index].
    local_call (shard_index (wire_doc d) (lget shard w)).
  - intros ds w. cbn [remote RemoteShardClient cl_bulk]. rewrite (served_call _ _ _ _ Hs).
    rewrite <- async_bind_ret_r.
    apply (wire_call shard (index_batch (Replication.proto_to_doc <$> (doc_to_proto <$> ds)))
      (fun _ => wrap 32 (Z.of_nat (length (Replication.proto_to_doc <$> (doc_to_proto <$> ds))))) _
      (fun _ => wrap 32 (Z.of_nat (length (wire_doc <$> ds))))); [|intros []].
    + rewrite wire_docs_proto. cbn [local LocalShardClient cl_bulk].
      local_call (index_batch (wire_doc <$> ds) (lget shard w)).
    + by rewrite wire_docs_proto.
  - intros i w. cbn [remote RemoteShardClient cl_delete]. rewrite (served_call _ _ _ _ Hs).
    apply (wire_call shard (shard_delete i) (fun _ => true) _ (fun u => u)); [|by intros []].
    cbn [local LocalShardClient cl_delete]. local_call (shard_delete i (lget shard w)).
  - intros ids w. cbn [remote RemoteShardClient cl_get_docs]. rewrite (served_call _ _ _ _ Hs).
    cbn [ShardGrpcServer sv_get_docs local LocalShardClient cl_get_docs].
    unfold grpc_get_docs, engine. generalize shard_get_docs. intros m.
    apply (wire_call shard (s ← get_self; obj_lift (m s ids)) (fmap Replication.doc_to_proto) _
      (fun l => l)).
    + unfold at_.
      match goal with |- context [?m (lget shard w)] => by destruct (m (lget shard w)) as [t [l|e|]] end.
    + intros l. rewrite <- list_fmap_compose. apply list_fmap_ext. intros. apply doc_wire_proto.
  - intros w. cbn [remote RemoteShardClient cl_stats]. by rewrite (served_call _ _ _ _ Hs).
  - intros w. cbn [remote RemoteShardClient cl_flush]. rewrite (served_call _ _ _ _ Hs).
    cbn [local LocalShardClient cl_flush ShardGrpcServer sv_flush].
    unfold grpc_flush, grpc, over_wire, engine, reads, async_map_err, at_, mbind, Async_bind.
    by destruct (flush (lget shard w)) as [t [[]|e|]].
  - intros w. cbn [remote RemoteShardClient cl_reindex]. rewrite (served_call _ _ _ _ Hs).
    cbn [ShardGrpcServer sv_reindex local LocalShardClient cl_reindex].
    unfold grpc_reindex, engine. generalize reindex_self. intros m.
    apply (wire_call shard (m (elapsed_ms w))
      (fun stats => {| rir_shard_id := rx_shard_id stats;
         rir_docs_reindexed := rx_docs_reindexed stats; rir_elapsed_ms := rx_elapsed_ms stats |})
      _ (fun s => s)); [|by intros []].
    local_call (m (elapsed_ms w) (lget shard w)).
  - intros w. cbn [remote RemoteShardClient cl_health]. by rewrite (connect_served _ _ _ Hs).
  - intros p f n w. split; [|done]. cbn [remote RemoteShardClient cl_suggest].
    by rewrite (served_call _ _ _ _ Hs).
Qed.

(** ** Concrete groups and wires *)
Section Witness.
Import Patient.

(** A world with the counter of one group; clients that never fail. *)
Definition counter : Lens Z Z := mkLens id (fun n _ => n).
#[local] Instance counter_laws : LensLaws counter.
Proof. by split. Qed.

Definition idle_client (open : bool) (id : Z) : ShardClient Z := {|
  is_circuit_open := fun _ => open;
  cl_search := fun _ => mret (mkShardSearchResult [] 0 ∅ false);
  cl_index := fun _ => mret tt; cl_bulk := fun _ => mret 0; cl_delete := fun _ => mret tt;
  cl_get_docs := fun _ => mret [];
  cl_stats := mret (mkShardStats 0 0 0 0 id);
  cl_flush := mret tt; cl_reindex := mret (mkReindexStats id 0 0);
  cl_health := fun w => (w, true); cl_suggest := no_suggest;
|}.

Definition three : ShardGroup Z :=
  mkShardGroup (idle_client false 0) [idle_client true 1; idle_client false 2] counter.

Lemma read_target_correct_witness :
  (read_target three 4).2 = idle_client false 2 /\ (read_target three 4).1 = 5 /\
  (read_target three 4).2 ∈ endpoints three.
Proof.
  destruct (read_target_correct three 4) as (H1 & H2 & _); [cbn; lia|cbn; lia|].
  split; [vm_compute; reflexivity|]. split; [exact H1|exact H2].
Defined.

Import TestLibs StableOrder CountableSerde WriteBuffer.FreshTemp.
#[local] Instance identity_ln : MathLib := {| f32_ln := fun x => x |}.

(** The world is one shard with its disk; the wire leads to it. *)
Definition whole : Lens (ShardEngine * Disk) (ShardEngine * Disk) := mkLens id (fun t _ => t).
#[local] Instance direct : ShardNet (ShardEngine * Disk) := {
  shard_connect := fun _ => mret tt;
  shard_service := fun _ => ShardGrpcServer whole;
  status_text := st_message;
}.

Definition one_doc_shard : ShardEngine :=
  engine_new ShardConfig_default default_product_schema
    {| wal_path := ["./data"; "wal.bin"]; wal_next_seq := 1 |}
    (wb_add (mkDocument 7 "red shoes" "" f_zero "" {[ "size" := VNumber f_zero; "color" := VString "red" ]})
       (wb_new default_product_schema 1000)).1
    {| sl_segments := []; sl_doc_id_map := ∅; sl_data_dir := ["./data"; "segments"];
       sl_next_segment_seq := 1 |}.

Lemma remote_refines_local_witness :
  (cl_get_docs (RemoteShardClient "shard-0") [7] (one_doc_shard, mkDisk ∅ ∅)).2
    = Ret [mkDocument 7 "red shoes" "" f_zero "" {[ "color" := VString "red" ]}] /\
  ss_buffer_doc_count (shard_stats one_doc_shard) = 1%nat /\
  cl_stats (RemoteShardClient "shard-0") (one_doc_shard, mkDisk ∅ ∅)
    = over_wire wire_stats (cl_stats (LocalShardClient whole)) (one_doc_shard, mkDisk ∅ ∅).
Proof.
  split; [vm_compute; reflexivity|]. split; [vm_compute; reflexivity|].
  destruct (remote_refines_local whole "shard-0") as (_ & _ & _ & _ & _ & Hst & _);
    [split; reflexivity|].
  apply Hst.
Defined.
End Witness.
