(* ===== verification/Router.v ===== *)
(** The router ([crates/router/src/router.rs]): routing of documents to shard
    groups, writes, the suggest cluster and the operations on every shard.  The
    search is in RouterSearch.v. *)
From S2P Require Import Prelude Bytes Order Float Types Config Breaker Routing Text Analysis Posting.
From S2P Require Import Disk Inverted Column DocStore Segment Scorer Collector Wand Executor.
From S2P Require Import Multi Object Wal WriteBuffer SegmentList Proto Replication Shard Async.
From S2P Require Import ShardGrpc Suggest Ranker Cache Availability Client.

Local Open Scope Z_scope.

Record ShardGroupStats := mkShardGroupStats {
  gs_primary : ShardStats;
  gs_replicas : list ShardStats;
}.
Record RouterStats := mkRouterStats { rts_shards : list ShardGroupStats }.

(** ** Partitioning work by a bucket *)
Section Partition.
Context {E A : Type} (bucket : A -> Z).

(** [by_shard\[bucket(x)\].push(x)]. *)
Definition push_to (parts : list (list A)) (x : A) : outcome E (list (list A)) :=
  part ← unwrap (parts !! Z.to_nat (bucket x));
  Ret (<[Z.to_nat (bucket x) := part ++ [x]]> parts).

Definition partition (n : nat) (l : list A) : outcome E (list (list A)) :=
  try_fold push_to (replicate n []) l.
End Partition.

Section Router.
Context {W : Type} `{RT : Runtime W} `{ML : MokaLib}.

(** The configuration; the cache is the place of the world that holds it. *)
Record Router := mkRouter {
  ro_shards : list (ShardGroup W);
  ro_ranker : Ranker W;
  ro_ranker_timeout : Z;                (* ms *)
  ro_ranker_candidates : Z;             (* usize *)
  ro_query_timeout : Z;                 (* ms *)
  ro_availability : AvailabilityStrategy W;
  ro_cache : option (Lens W QueryCache);
  ro_suggest_shards : list (ShardClient W);
  ro_suggest_write_timeout : Z;         (* ms *)
  ro_suggest_query_timeout : Z;         (* ms *)
}.

(** ** Constructors *)
Definition with_cache (shards : list (ShardGroup W)) (ranker : Ranker W)
    (ranker_timeout_ms ranker_candidates query_timeout_ms : Z)
    (availability : AvailabilityStrategy W) (place : Lens W QueryCache)
    (cache_config : QueryCacheConfig) : W -> W * Router := fun w =>
  let build w cache := (w, {|
    ro_shards := shards; ro_ranker := ranker; ro_ranker_timeout := ranker_timeout_ms;
    ro_ranker_candidates := ranker_candidates; ro_query_timeout := query_timeout_ms;
    ro_availability := availability; ro_cache := cache; ro_suggest_shards := [];
    ro_suggest_write_timeout := 200; ro_suggest_query_timeout := 100 |}) in
  match cache_build cache_config with
  | Some cache => build (lset place cache w) (Some place)
  | None => build w None
  end.

Definition router_new (shards : list (ShardGroup W)) (ranker : Ranker W)
    (ranker_timeout_ms ranker_candidates query_timeout_ms : Z)
    (availability : AvailabilityStrategy W) (place : Lens W QueryCache) : W -> W * Router :=
  with_cache shards ranker ranker_timeout_ms ranker_candidates query_timeout_ms availability
    place QueryCacheConfig_default.

Definition new_simple (shards : list (Lens W Z * ShardClient W)) (ranker : Ranker W)
    (ranker_timeout_ms ranker_candidates query_timeout_ms : Z) (place : Lens W QueryCache)
  : Task W Router :=
  groups ← mapM (fun s : Lens W Z * ShardClient W => call (primary_only s.1 s.2)) shards;
  call (router_new groups ranker ranker_timeout_ms ranker_candidates query_timeout_ms
          NoopStrategy place).

Definition with_suggest_shards (shards : list (ShardClient W))
    (write_timeout_ms query_timeout_ms : Z) (r : Router) : Router := {|
  ro_shards := ro_shards r; ro_ranker := ro_ranker r; ro_ranker_timeout := ro_ranker_timeout r;
  ro_ranker_candidates := ro_ranker_candidates r; ro_query_timeout := ro_query_timeout r;
  ro_availability := ro_availability r; ro_cache := ro_cache r;
  ro_suggest_shards := shards;
  ro_suggest_write_timeout := write_timeout_ms;
  ro_suggest_query_timeout := query_timeout_ms |}.

(** ** Routing *)

(** The hash always has a value (Routing.v). *)
Definition bucket_of (doc_id n : Z) : Z := default 0 (jump_consistent_hash doc_id (wrap 32 n)).

Definition shard_for (r : Router) (doc_id : Z) : Z :=
  bucket_of doc_id (Z.of_nat (length (ro_shards r))).

(** A future under [tokio::time::timeout]; [None] when it elapsed. *)
Definition timed {A} (ms : Z) (m : Task W A) : Task W (option (Result A)) :=
  result ← attempt (timeout ms m);
  mret match result with
       | Ret (Some a) => Some (Ret a)
       | Ret None => None
       | Fail e => Some (Fail e)
       | Panic => Some Panic
       end.

(** [tokio::spawn] of a task nobody waits for. *)
Definition detached {A} (m : Task W A) : Task W unit := fun w => ((m w).1, Ret tt).

(** The task of every group that has work. *)
Definition for_batches {A B C} (groups : list B) (batches : list (list A))
    (f : B -> list A -> Task W C) : list (Task W C) :=
  (fun p : B * list A => f p.1 p.2) <$> filter (fun p => p.2 <> []) (zip groups batches).

(** ** Suggest writes *)
Definition fan_out_suggest_write (r : Router) (docs : list Document) : Task W unit :=
  let n := length (ro_suggest_shards r) in
  if bool_decide (n = 0%nat) || bool_decide (docs = []) then mret tt
  else
    partitions ← async_lift
      (partition (fun doc => bucket_of (doc_id doc) (Z.of_nat n)) n docs);
    _ ← join_all (for_batches (ro_suggest_shards r) partitions (fun shard batch =>
          detached (timed (ro_suggest_write_timeout r) (cl_bulk shard batch))));
    mret tt.

(** ** Writes *)
Definition group_for (r : Router) (doc_id : Z) : Task W (ShardGroup W) :=
  async_lift (unwrap (ro_shards r !! Z.to_nat (shard_for r doc_id))).

Definition index (r : Router) (doc : Document) : Task W unit :=
  _ ← fan_out_suggest_write r [doc];
  group ← group_for r (doc_id doc);
  cl_index (write_target group) doc.

Definition delete_doc (r : Router) (doc_id : Z) : Task W unit :=
  group ← group_for r doc_id;
  cl_delete (write_target group) doc_id.

(** The handles of spawned tasks, awaited in order: [t.await.map_err(..)??]. *)
Definition await_all {A} (results : list (Result A)) : Task W (list A) :=
  async_lift (mapM id results).

Definition bulk_index (r : Router) (docs : list Document) : Task W Z :=
  _ ← fan_out_suggest_write r docs;
  by_shard ← async_lift
    (partition (fun doc => shard_for r (doc_id doc)) (length (ro_shards r)) docs);
  results ← join_all (spawned <$> for_batches (ro_shards r) by_shard (fun shard batch =>
              cl_bulk (write_target shard) batch));
  counts ← await_all results;
  mret (foldl (fun total n => wrap 32 (total + n)) 0 counts).

Definition reindex (r : Router) : Task W (list ReindexStats) :=
  results ← join_all ((fun s => spawned (cl_reindex (write_target s))) <$> ro_shards r);
  await_all results.

Definition flush_all (r : Router) : Task W unit :=
  results ← join_all ((fun s => spawned (cl_flush (write_target s))) <$> ro_shards r);
  _ ← await_all results;
  mret tt.

(** ** Statistics (one request after the other) *)
Definition oks {A} (results : list (Result A)) : list A := omap outcome_ok results.

Definition group_stats (group : ShardGroup W) : Task W (option ShardGroupStats) :=
  primary ← attempt (cl_stats (write_target group));
  match primary with
  | Ret primary =>
      replicas ← join_all ((fun replica => attempt (cl_stats replica)) <$> replica_clients group);
      mret (Some {| gs_primary := primary; gs_replicas := oks replicas |})
  | _ => mret None
  end.

Definition stats (r : Router) : Task W RouterStats :=
  shards ← join_all (group_stats <$> ro_shards r);
  mret {| rts_shards := omap id shards |}.

(** ** Suggest queries *)

(** [or_insert(0.0)], then the larger score. *)
Definition merge_entry (merged : gmap string f32) (e : SuggestTerm) : gmap string f32 :=
  let slot := default f_zero (merged !! stm_term e) in
  <[stm_term e := if f_lt slot (stm_score e) then stm_score e else slot]> merged.

Definition merge_suggestions (results : list (option (Result (list SuggestTerm))))
  : gmap string f32 :=
  foldl (fun merged res =>
    match res with Some (Ret entries) => foldl merge_entry merged entries | _ => merged end)
    ∅ results.

Definition suggestion_cmp (a b : SuggestTerm) : comparison :=
  then_with (f_cmp (stm_score b) (stm_score a)) (str_cmp (stm_term a) (stm_term b)).

Definition suggest `{UO : UnspecifiedOrder} (r : Router) (prefix field : string) (limit : nat)
  : Task W (list SuggestTerm) :=
  if bool_decide (ro_suggest_shards r = []) || bool_decide (prefix = "")
     || bool_decide (limit = 0%nat)
  then mret []
  else
    results ← join_all ((fun s => timed (ro_suggest_query_timeout r) (cl_suggest s prefix field limit))
                          <$> ro_suggest_shards r);
    let merged := merge_suggestions results in
    let out := (fun p : string * f32 => {| stm_term := p.1; stm_score := p.2 |}) <$> hm_iter merged in
    mret (take limit (sort_by suggestion_cmp out)).

(** ** Fetching documents *)
Definition fetch_docs (r : Router) (doc_ids : list Z) : Task W (list Document) :=
  if bool_decide (doc_ids = []) then mret []
  else
    by_shard ← async_lift (partition (shard_for r) (length (ro_shards r)) doc_ids);
    targets ← mapM (fun p : ShardGroup W * list Z =>
                      shard ← call (read_target p.1); mret (shard, p.2))
                (filter (fun p => p.2 <> []) (zip (ro_shards r) by_shard));
    results ← join_all ((fun p : ShardClient W * list Z => attempt (cl_get_docs p.1 p.2))
                          <$> targets);
    mret (concat (oks results)).
End Router.
Arguments Router _ {_}.

(** ** Partitions *)

Lemma concat_nil_all {A} (l : list (list A)) : (forall x, x ∈ l -> x = []) -> concat l = [].
Proof.
  induction l as [|x l IH]; intros Hl; [done|]. cbn. rewrite (Hl x) by left. cbn.
  apply IH. intros y Hy. apply Hl. by right.
Qed.

Lemma concat_insert_snoc {A} (parts : list (list A)) k part x :
  parts !! k = Some part -> concat (<[k := part ++ [x]]> parts) ≡ₚ x :: concat parts.
Proof.
  revert k. induction parts as [|p parts IH]; intros [|k] Hk; [done..| |]; cbn in Hk |- *.
  - injection Hk as ->. rewrite <- (assoc (++)). symmetry. apply Permutation_middle.
  - rewrite IH by done. symmetry. apply Permutation_middle.
Qed.

Lemma concat_filter_nonempty {A} (l : list (list A)) : concat (filter (.≠ []) l) = concat l.
Proof.
  induction l as [|[|a x] l IH]; [done| |].
  - by rewrite filter_cons_False by naive_solver.
  - rewrite filter_cons_True by done. cbn [concat]. by rewrite IH.
Qed.
Section PartitionSpecs.
Context {E A : Type} (bucket : A -> Z).

Lemma push_to_ret (parts : list (list A)) x :
  0 <= bucket x < Z.of_nat (length parts) ->
  push_to (E := E) bucket parts x =
    Ret (alter (fun part => part ++ [x]) (Z.to_nat (bucket x)) parts).
Proof.
  intros Hx. unfold push_to. destruct (lookup_lt_is_Some_2 parts (Z.to_nat (bucket x))) as [part Hp];
    [lia|]. rewrite Hp. cbn. f_equal. rewrite list_insert_alter.
  apply list_alter_ext; [|done]. intros y Hy. congruence.
Qed.

Lemma filter_snd {B C} (l : list (B * list C)) :
  (filter (fun b => b.2 <> []) l).*2 = filter (.≠ []) l.*2.
Proof.
  induction l as [|[b [|c x]] l IH]; [done| |].
  - rewrite filter_cons_False by naive_solver. cbn [fmap list_fmap snd].
    by rewrite filter_cons_False by naive_solver.
  - rewrite filter_cons_True by done. cbn [fmap list_fmap snd].
    by rewrite filter_cons_True, <- IH by done.
Qed.

(** Each part holds the elements of its bucket, in their order. *)
Lemma partition_ret n (l : list A) :
  Forall (fun x => 0 <= bucket x < Z.of_nat n) l ->
  exists parts, partition (E := E) bucket n l = Ret parts /\ length parts = n /\
    forall i part, parts !! i = Some part -> part = filter (fun x => bucket x = Z.of_nat i) l.
Proof.
  intros Hl. unfold partition.
  enough (forall parts, length parts = n -> exists parts', try_fold (push_to (E := E) bucket) parts l
      = Ret parts' /\ length parts' = n /\ forall i part', parts' !! i = Some part' ->
        exists part, parts !! i = Some part /\
          part' = part ++ filter (fun x => bucket x = Z.of_nat i) l) as Hgen.
  { destruct (Hgen (replicate n [])) as (parts & Hp & Hlen & Hi); [apply length_replicate|].
    exists parts. split_and!; [done..|]. intros i part Hpart.
    destruct (Hi i part Hpart) as (p & [-> _]%lookup_replicate & ->). done. }
  induction l as [|x l IH]; intros parts Hlen; cbn [try_fold].
  { exists parts. split_and!; [done..|]. intros i part Hp. exists part. by rewrite app_nil_r. }
  apply Forall_cons in Hl as [Hx Hl]. rewrite push_to_ret by lia. cbn [mbind outcome_bind].
  destruct (IH Hl (alter (fun part => part ++ [x]) (Z.to_nat (bucket x)) parts))
    as (parts' & Hp & Hlen' & Hi); [by rewrite length_alter|].
  exists parts'. split_and!; [done..|]. intros i part' Hpart.
  destruct (Hi i part' Hpart) as (part & Hlk & ->). rewrite filter_cons.
  destruct (decide (i = Z.to_nat (bucket x))) as [->|Hne].
  - rewrite list_lookup_alter_eq in Hlk. apply fmap_Some in Hlk as (p & -> & ->).
    exists p. split; [done|]. rewrite decide_True by lia. by rewrite <- (assoc (++)).
  - rewrite list_lookup_alter_ne in Hlk by done. exists part. split; [done|].
    by rewrite decide_False by lia.
Qed.

(** No element is lost or duplicated. *)
Lemma partition_perm n (l : list A) parts :
  partition (E := E) bucket n l = Ret parts -> concat parts ≡ₚ l.
Proof.
  unfold partition. enough (forall parts0, try_fold (push_to (E := E) bucket) parts0 l = Ret parts ->
    concat parts ≡ₚ concat parts0 ++ l) as Hgen.
  { intros Hp. rewrite (Hgen _ Hp), concat_nil_all by (intros x [-> _]%elem_of_replicate; done). done. }
  induction l as [|x l IH]; intros parts0 Hp; cbn [try_fold] in Hp.
  { injection Hp as ->. by rewrite app_nil_r. }
  apply bind_ret_inv in Hp as (parts1 & Hx & Hp). rewrite (IH _ Hp).
  unfold push_to in Hx. apply bind_ret_inv in Hx as (part & Hk%unwrap_ret_inv & [= <-]).
  rewrite (concat_insert_snoc _ _ _ _ Hk). apply Permutation_middle.
Qed.
End PartitionSpecs.

Lemma bucket_of_range i n : 0 < n < 2 ^ 32 -> 0 <= bucket_of i n < n.
Proof.
  intros Hn. unfold bucket_of. rewrite (wrap_id 32) by (unfold in_width; lia).
  destruct (jump_hash_some i n) as [b Hb]; [lia|]. rewrite Hb.
  destruct (jump_hash_inv i n b) as [[? _]|(_ & ? & _)]; [lia|done|lia|done].
Qed.

(** ** Writes *)
Section WriteSpecs.
Context {W : Type} `{RT : Runtime W} `{ML : MokaLib}.

(** The documents of each shard that gets any, in the order of the shards. *)
Definition batches (r : Router W) (docs : list Document) : list (ShardGroup W * list Document) :=
  filter (fun b => b.2 <> [])
    (imap (fun i group => (group, filter (fun d => shard_for r (doc_id d) = Z.of_nat i) docs))
       (ro_shards r)).

Definition first_error {A} (results : list (Result A)) : option Error :=
  head (omap (fun res => match res with Fail e => Some e | _ => None end) results).

Definition shards_ok {A} (l : list A) : Prop := Z.of_nat (length l) < 2 ^ 32.

Lemma spawned_ret {A} (m : Task W A) w : exists w' res, spawned m w = (w', Ret res) /\ res <> Panic.
Proof. unfold spawned. destruct (m w) as [w' [a|e|]]; by eexists _, _. Qed.

Lemma join_spawned {A} (l : list (Task W A)) w :
  exists w' results, join_all (spawned <$> l) w = (w', Ret results) /\
    length results = length l /\ Forall (fun res => res <> Panic) results.
Proof.
  destruct (join_all_ret (fun _ => True) (spawned <$> l) (fun _ res => res <> Panic)) with (w := w)
    as (w' & results & Hj & _ & Hlen & Hr); [|done|].
  - intros i m w0 Hm _. apply list_lookup_fmap_Some in Hm as (m' & -> & _).
    destruct (spawned_ret m' w0) as (w' & res & -> & Hres). by exists w', res.
  - exists w', results. rewrite length_fmap in Hlen. split_and!; [done..|].
    apply Forall_lookup_2. intros i res. apply Hr.
Qed.

Lemma mapM_id_results {A} (results : list (Result A)) :
  Forall (fun res => res <> Panic) results ->
  mapM id results = match first_error results with Some e => Fail e | None => Ret (oks results) end.
Proof.
  unfold first_error, oks. induction 1 as [|res results Hres _ IH]; [done|].
  cbn [mapM]. destruct res as [a|e|]; [|done|done]. cbn. rewrite IH. cbn.
  by destruct (head _).
Qed.

Lemma partition_batches r docs :
  ro_shards r <> [] -> shards_ok (ro_shards r) ->
  exists parts,
    partition (E := Error) (fun d => shard_for r (doc_id d)) (length (ro_shards r)) docs = Ret parts /\
    filter (fun b : ShardGroup W * list Document => b.2 <> []) (zip (ro_shards r) parts)
      = batches r docs /\ concat (batches r docs).*2 ≡ₚ docs.
Proof.
  intros Hne Hok. unfold shards_ok in Hok.
  assert (0 < Z.of_nat (length (ro_shards r))) by (destruct (ro_shards r); [done|cbn; lia]).
  destruct (partition_ret (E := Error) (fun d => shard_for r (doc_id d)) (length (ro_shards r)) docs)
    as (parts & Hp & Hlen & Hi).
  { apply Forall_true. intros d. unfold shard_for. apply bucket_of_range. lia. }
  assert (zip (ro_shards r) parts = imap (fun i group =>
    (group, filter (fun d => shard_for r (doc_id d) = Z.of_nat i) docs)) (ro_shards r)) as Ez.
  { apply list_eq. intros i. rewrite list_lookup_imap. apply option_eq. intros [g part].
    rewrite lookup_zip_Some, fmap_Some. split.
    - intros [Hg Hpart]. exists g. by rewrite (Hi i part Hpart).
    - intros (g' & Hg & [= -> ->]). split; [done|].
      destruct (lookup_lt_is_Some_2 parts i) as [part Hpart].
      { rewrite Hlen. by eapply lookup_lt_Some. }
      by rewrite Hpart, (Hi i part Hpart). }
  exists parts. split_and!; [done|by rewrite Ez|].
  unfold batches. rewrite <- Ez, <- (partition_perm _ _ _ _ Hp) at 1.
  by rewrite filter_snd, concat_filter_nonempty, snd_zip by lia.
Qed.

Lemma detached_ret {A} (m : Task W A) w : detached m w = ((m w).1, Ret tt).
Proof. done. Qed.

(** Forwarding to the suggest cluster never fails and never panics. *)
Lemma fan_out_ret r docs w :
  shards_ok (ro_suggest_shards r) ->
  exists w', fan_out_suggest_write r docs w = (w', Ret tt).
Proof.
  intros Hok. unfold fan_out_suggest_write, shards_ok in *.
  case_bool_decide as Hn; cbn [orb]; [by exists w|]. case_bool_decide; [by exists w|].
  destruct (partition_ret (E := Error)
    (fun doc => bucket_of (doc_id doc) (Z.of_nat (length (ro_suggest_shards r))))
    (length (ro_suggest_shards r)) docs) as (parts & Hp & _).
  { apply Forall_true. intros d. apply bucket_of_range. lia. }
  rewrite Hp. cbn [async_lift]. unfold mbind at 1, Async_bind at 1. cbn [async_lift].
  destruct (join_all_ret (fun _ => True) (for_batches (ro_suggest_shards r) parts (fun shard batch =>
    detached (timed (ro_suggest_write_timeout r) (cl_bulk shard batch)))) (fun _ _ => True))
    with (w := w) as (w' & results & Hj & _); [|done|].
  - intros i m w0 Hm _. unfold for_batches in Hm.
    apply list_lookup_fmap_Some in Hm as (b & -> & _). rewrite detached_ret. by eexists _, _.
  - exists w'. by erewrite async_bind_ret by exact Hj.
Qed.

(** Documents of one id always go to the same group. *)
Lemma group_for_batches r docs b d w :
  b ∈ batches r docs -> d ∈ b.2 -> group_for r (doc_id d) w = (w, Ret b.1).
Proof.
  unfold batches. rewrite list_elem_of_filter. intros [_ Hb] Hd.
  apply list_elem_of_lookup in Hb as [i Hi]. rewrite list_lookup_imap in Hi.
  apply fmap_Some in Hi as (g & Hg & ->). cbn [fst snd] in *.
  apply list_elem_of_filter in Hd as [Hd _]. unfold group_for, async_lift.
  by rewrite Hd, Nat2Z.id, Hg.
Qed.

Lemma foldl_wrap l : forall t, foldl (fun total n => wrap 32 (total + n)) (wrap 32 t) l
  = wrap 32 (t + foldr Z.add 0 l).
Proof.
  induction l as [|n l IH]; intros t; cbn [foldl foldr]; [by rewrite Z.add_0_r|].
  replace (wrap 32 (wrap 32 t + n)) with (wrap 32 (t + n))
    by (unfold wrap; by rewrite Zplus_mod_idemp_l).
  rewrite IH. f_equal. lia.
Qed.

(** C24: a bulk write splits the documents by shard without losing, duplicating or
    reordering any (each document goes to the group every other operation uses
    for its id), sends every batch to its group's primary even when another
    batch fails or its task panics, and answers with the sum of the counts, or
    with the error of the first failing shard.  The suggest cluster never
    affects the answer. *)
Theorem bulk_index_correct (r : Router W) (docs : list Document) (w : W) :
  ro_shards r <> [] -> shards_ok (ro_shards r) -> shards_ok (ro_suggest_shards r) ->
  concat (batches r docs).*2 ≡ₚ docs /\
  (forall b, b ∈ batches r docs -> sublist b.2 docs /\ forall d w, d ∈ b.2 ->
     group_for r (doc_id d) w = (w, Ret b.1)) /\
  exists w1 w2 results,
    fan_out_suggest_write r docs w = (w1, Ret tt) /\
    join_all ((fun b => spawned (cl_bulk (write_target b.1) b.2)) <$> batches r docs) w1
      = (w2, Ret results) /\
    length results = length (batches r docs) /\
    bulk_index r docs w = (w2,
      match first_error results with
      | Some e => Fail e
      | None => Ret (wrap 32 (foldr Z.add 0 (oks results)))
      end).
Proof.
  intros Hne Hok Hsok. destruct (partition_batches r docs Hne Hok) as (parts & Hp & Hb & Hperm).
  split; [done|]. split.
  { intros b Hin. split; [|intros d w0 Hd; by eapply group_for_batches].
    unfold batches in Hin. apply list_elem_of_filter in Hin as [_ Hin].
    apply list_elem_of_lookup in Hin as [i Hi]. rewrite list_lookup_imap in Hi.
    apply fmap_Some in Hi as (g & _ & ->). cbn [snd].
    generalize docs. clear. intros l. induction l as [|d l IH]; [constructor|].
    rewrite filter_cons. case_decide; by constructor. }
  destruct (fan_out_ret r docs w Hsok) as [w1 Hf].
  destruct (join_spawned ((fun b : ShardGroup W * list Document =>
    cl_bulk (write_target b.1) b.2) <$> batches r docs) w1) as (w2 & results & Hj & Hlen & Hres).
  rewrite <- list_fmap_compose in Hj. rewrite length_fmap in Hlen.
  exists w1, w2, results. split_and!; [done..|]. unfold bulk_index.
  erewrite async_bind_ret by exact Hf. rewrite Hp. unfold mbind at 1, Async_bind at 1.
  cbn [async_lift]. unfold for_batches. rewrite Hb, <- list_fmap_compose.
  erewrite async_bind_ret by exact Hj. unfold await_all. rewrite mapM_id_results by done.
  destruct (first_error results); [done|].
  pose proof (foldl_wrap (oks results) 0) as Hw. change (wrap 32 0) with 0 in Hw.
  rewrite <- (Z.add_0_l (foldr _ _ _)), <- Hw. done.
Qed.
End WriteSpecs.

(** ** Suggestions *)
Section SuggestSpecs.
Context {W : Type} `{RT : Runtime W} `{ML : MokaLib} `{UOL : UnspecifiedOrderLaws}.

Lemma timed_ret {A} ms (m : Task W A) w :
  (timed ms m w).2 <> Panic -> exists w' res, timed ms m w = (w', Ret res).
Proof.
  unfold timed, attempt, mbind, Async_bind. destruct (timeout ms m w) as [w' [[a|]|e|]]; cbn;
    [by eexists _, _..|done].
Qed.

(** What the shards that answered in time suggested. *)
Definition healthy_entries (results : list (option (Result (list SuggestTerm))))
  : list SuggestTerm :=
  concat (omap (fun res => match res with Some (Ret l) => Some l | _ => None end) results).

Lemma merge_suggestions_entries results :
  merge_suggestions results = foldl merge_entry ∅ (healthy_entries results).
Proof.
  unfold merge_suggestions, healthy_entries. generalize (∅ : gmap string f32).
  induction results as [|[[l|e|]|] results IH]; intros m; cbn; [done| |apply IH..].
  by rewrite IH, foldl_app.
Qed.

Lemma f_lt_false x y :
  f_nan x = false -> f_nan y = false -> f_lt x y = false <-> cmp_le f_cmp y x.
Proof.
  intros Hx Hy. unfold cmp_le. rewrite (cmp_antisym (P := fun x => f_nan x = false) x y Hx Hy).
  pose proof (f_lt_cmp x y Hx Hy) as Hlt. destruct (f_lt x y), (f_cmp x y); cbn; naive_solver.
Qed.

(** The slot after a comparison with [y] is the larger of the two. *)
Lemma larger_score x y :
  f_nan x = false -> f_nan y = false ->
  let z := if f_lt x y then y else x in
  f_nan z = false /\ f_lt z y = false /\
  forall u, f_nan u = false -> f_lt x u = false -> f_lt z u = false.
Proof.
  intros Hx Hy z. assert (f_nan z = false) as Hz by (unfold z; by destruct (f_lt x y)).
  split; [done|]. unfold z in *. destruct (f_lt x y) eqn:E; [|done]. split.
  - apply f_lt_false; [done..|]. unfold cmp_le. by rewrite (cmp_refl (P := fun x => f_nan x = false)).
  - intros u Hu Hxu. apply f_lt_false in Hxu; [|done..]. apply f_lt_false; [done..|].
    apply f_lt_cmp in E; [|done..].
    apply (cmp_trans (P := fun x => f_nan x = false) u x y); try done. by rewrite E.
Qed.

(** [s] is at least zero and every score of the term among the entries. *)
Definition covers (entries : list SuggestTerm) (t : string) (s : f32) : Prop :=
  f_nan s = false /\ f_lt s f_zero = false /\
  (forall e, e ∈ entries -> stm_term e = t -> f_lt s (stm_score e) = false) /\
  (s = f_zero \/ exists e, e ∈ entries /\ stm_term e = t /\ stm_score e = s).

(** The best score of a term among the entries. *)
Definition best_score (entries : list SuggestTerm) (t : string) (s : f32) : Prop :=
  (exists e, e ∈ entries /\ stm_term e = t) /\ covers entries t s.

Lemma covers_snoc entries t s e :
  f_nan (stm_score e) = false -> Forall (fun e => f_nan (stm_score e) = false) entries ->
  stm_term e = t -> covers entries t s ->
  covers (entries ++ [e]) t (if f_lt s (stm_score e) then stm_score e else s).
Proof.
  intros He Hn Ht (H0 & H1 & H2 & H3). destruct (larger_score s (stm_score e) H0 He) as (L0 & L1 & L2).
  split_and!; [done|by apply L2| |].
  - intros e2 [He2|[->|?%elem_of_nil]%elem_of_cons]%elem_of_app E2; [|done|done].
    apply L2; [exact (proj1 (Forall_forall _ _) Hn e2 He2)|by apply H2].
  - destruct (f_lt s (stm_score e)); [right; exists e; set_solver|].
    destruct H3 as [|(e2 & ? & ? & ?)]; [by left|right; exists e2; set_solver].
Qed.

Lemma covers_other entries t s e :
  stm_term e <> t -> covers entries t s -> covers (entries ++ [e]) t s.
Proof.
  intros Ht (H0 & H1 & H2 & H3). split_and!; [done|done| |].
  - intros e2 [He2|[->|?%elem_of_nil]%elem_of_cons]%elem_of_app E2; [by apply H2|done|done].
  - destruct H3 as [|(e2 & ? & ? & ?)]; [by left|right; exists e2; set_solver].
Qed.

Lemma merge_entries_best entries :
  Forall (fun e => f_nan (stm_score e) = false) entries ->
  forall t, match foldl merge_entry ∅ entries !! t with
            | None => forall e, e ∈ entries -> stm_term e <> t
            | Some s => best_score entries t s
            end.
Proof.
  induction entries as [|e entries IH] using rev_ind; intros Hn t.
  { cbn. rewrite lookup_empty. intros e He. by apply elem_of_nil in He. }
  apply Forall_app in Hn as [Hn [He _]%Forall_cons]. specialize (IH Hn t).
  rewrite foldl_app. cbn [foldl]. set (m := foldl merge_entry ∅ entries) in *.
  unfold merge_entry. destruct (decide (stm_term e = t)) as [Ht|Ht].
  - rewrite Ht, lookup_insert_eq. split; [exists e; set_solver|]. apply covers_snoc; [done..|].
    destruct (m !! t) as [s|]; [apply IH|]. cbn. split_and!; [done|done| |by left].
    intros e2 He2 E2. by destruct (IH e2 He2).
  - rewrite lookup_insert_ne by done. destruct (m !! t) as [s|].
    + destruct IH as [(e1 & ? & ?) Hc]. split; [exists e1; set_solver|]. by apply covers_other.
    + intros e2 [He2|[->|?%elem_of_nil]%elem_of_cons]%elem_of_app; [by apply IH|done|done].
Qed.

Lemma suggestion_preorder :
  CmpPreorder (fun e => f_nan (stm_score e) = false) suggestion_cmp.
Proof.
  unfold suggestion_cmp. apply (then_with_preorder _
    (fun a b => f_cmp (stm_score b) (stm_score a)) (fun a b => str_cmp (stm_term a) (stm_term b))).
  - apply (cmp_desc_preorder _ (cmp_on stm_score f_cmp)),
      (cmp_on_preorder stm_score (fun x => f_nan x = false) f_cmp). apply _.
  - destruct (cmp_on_preorder stm_term (fun _ => True) str_cmp _) as [Ha Ht].
    split; intros; [by apply Ha|by eapply Ht].
Qed.

End SuggestSpecs.

(** ** Computations that return *)
Section Yields.
Context {W : Type} `{RT : Runtime W} `{ML : MokaLib}.

(** From every world [m] returns, and what it returns satisfies [P]. *)
Definition yields {A} (m : Task W A) (P : A -> Prop) : Prop :=
  forall w, exists w' a, m w = (w', Ret a) /\ P a.
Definition no_panic {A} (m : Task W A) : Prop := forall w, (m w).2 <> Panic.

Lemma yields_ret {A} (a : A) (P : A -> Prop) : P a -> yields (mret a) P.
Proof. intros Ha w. by exists w, a. Qed.

Lemma yields_mono {A} (m : Task W A) (P Q : A -> Prop) :
  yields m P -> (forall a, P a -> Q a) -> yields m Q.
Proof. intros Hm HPQ w. destruct (Hm w) as (w' & a & E & Ha). exists w', a. eauto. Qed.

Lemma yields_bind {A B} (m : Task W A) (f : A -> Task W B) (P : A -> Prop) (Q : B -> Prop) :
  yields m P -> (forall a, P a -> yields (f a) Q) -> yields (m ≫= f) Q.
Proof.
  intros Hm Hf w. destruct (Hm w) as (w1 & a & E & Ha). destruct (Hf a Ha w1) as (w2 & b & E2 & Hb).
  exists w2, b. split; [|done]. by erewrite async_bind_ret by exact E.
Qed.

Lemma yields_attempt {A} (m : Task W A) :
  no_panic m -> yields (attempt (E' := Error) m) (fun res => res <> Panic).
Proof.
  intros Hm w. specialize (Hm w). unfold attempt.
  destruct (m w) as [w' [a|e|]]; [by eexists _, _..|done].
Qed.

Lemma yields_call {A} (f : W -> W * A) (P : A -> Prop) : (forall w, P (f w).2) -> yields (call f) P.
Proof. intros Hf w. specialize (Hf w). unfold call. destruct (f w) as [w' a]. by exists w', a. Qed.

Lemma yields_join {A} (l : list (Task W A)) (P : A -> Prop) :
  (forall m, m ∈ l -> yields m P) ->
  yields (join_all l) (fun results => length results = length l /\ Forall P results).
Proof.
  intros Hl. induction l as [|m l IH]; [by apply yields_ret|]. cbn [join_all].
  apply (yields_bind _ _ P); [apply Hl; by left|]. intros a Ha.
  eapply yields_bind; [apply IH; intros m' Hm'; apply Hl; by right|]. intros r [Hlen Hr].
  apply yields_ret. split; [cbn; lia|by constructor].
Qed.

Lemma yields_mapM {A B} (f : A -> Task W B) l (P : B -> Prop) :
  (forall a, a ∈ l -> yields (f a) P) ->
  yields (mapM f l) (fun results => length results = length l /\ Forall P results).
Proof.
  intros Hf. induction l as [|a l IH]; [by apply yields_ret|]. cbn [mapM].
  apply (yields_bind _ _ P); [apply Hf; by left|]. intros b Hb.
  eapply yields_bind; [apply IH; intros a' Ha'; apply Hf; by right|]. intros r [Hlen Hr].
  apply yields_ret. split; [cbn; lia|by constructor].
Qed.

Lemma yields_mapM_rel {A B} (f : A -> Task W B) l (R : A -> B -> Prop) :
  (forall a, a ∈ l -> yields (f a) (R a)) -> yields (mapM f l) (Forall2 R l).
Proof.
  intros Hf. induction l as [|a l IH]; [apply yields_ret; constructor|]. cbn [mapM].
  apply (yields_bind _ _ (R a)); [apply Hf; by left|]. intros b Hb.
  eapply yields_bind; [apply IH; intros a' Ha'; apply Hf; by right|]. intros r Hr.
  apply yields_ret. by constructor.
Qed.

Lemma yields_timed {A} ms (m : Task W A) :
  no_panic (timeout ms m) -> yields (timed ms m) (fun res => res <> Some Panic).
Proof.
  intros Hm. unfold timed. eapply yields_bind; [by apply yields_attempt|]. intros [[a|]|e|] Ha;
    [by apply yields_ret..|done].
Qed.

(** Every endpoint of the router. *)
Definition router_endpoints (r : Router W) : list (ShardClient W) := ro_shards r ≫= endpoints.

Lemma read_target_endpoint (g : ShardGroup W) w : (read_target g w).2 ∈ endpoints g.
Proof.
  unfold read_target. cbn [snd]. set (w' := lset _ _ w). destruct (find _ _) as [c|] eqn:Ef; [|by left].
  apply List.find_some in Ef as [Hc _]. apply list_elem_of_In, list_elem_of_fmap in Hc as (i & -> & _).
  unfold default, id, endpoint. destruct (_ =? 0); [by left|].
  destruct (gr_replicas g !! _) as [c|] eqn:Ec; [|by left].
  right. by eapply list_elem_of_lookup_2.
Qed.

(** The documents of [doc_ids] that could be fetched: one request per shard that
    owns some of them; a request that fails gives none. *)
Lemma fetch_docs_yields r doc_ids :
  ro_shards r <> [] -> shards_ok (ro_shards r) ->
  (forall c ids, c ∈ router_endpoints r -> no_panic (cl_get_docs c ids)) ->
  yields (fetch_docs r doc_ids) (fun _ => True).
Proof.
  intros Hne Hok Hc. unfold fetch_docs. case_bool_decide; [by apply yields_ret|].
  unfold shards_ok in Hok.
  assert (0 < Z.of_nat (length (ro_shards r))) by (destruct (ro_shards r); [done|cbn; lia]).
  destruct (partition_ret (E := Error) (shard_for r) (length (ro_shards r)) doc_ids)
    as (parts & Hp & _); [apply Forall_true; intros i; apply bucket_of_range; lia|].
  apply (yields_bind _ _ (fun _ => True)); [intros w; exists w, parts; by rewrite Hp|].
  intros by_shard _. eapply (yields_bind _ _ (fun targets =>
    _ /\ Forall (fun q : ShardClient W * list Z => q.1 ∈ router_endpoints r) targets)).
  { apply yields_mapM. intros [g ids] Hin%list_elem_of_filter.
    apply (yields_bind _ _ (fun c => c ∈ router_endpoints r)); [|intros c Hcin; by apply yields_ret].
    apply yields_call. intros w. unfold router_endpoints. apply list_elem_of_bind. exists g.
    split; [apply read_target_endpoint|]. destruct Hin as [_ Hin]. by apply elem_of_zip_l in Hin. }
  intros targets [_ Ht]. eapply yields_bind; [|intros; by apply yields_ret].
  apply yields_join. intros m (q & -> & Hq)%list_elem_of_fmap. apply yields_attempt, Hc.
  exact (proj1 (Forall_forall _ _) Ht q Hq).
Qed.
End Yields.

(** ** A small cluster: two shards of which one is down, two suggest shards *)
Module Cluster.
Import Patient.
#[export] Existing Instance KeepAll.lib.
#[export] Existing Instance patient.

(** The world: the round-robin counter and the query cache. *)
Definition World : Type := Z * QueryCache.
Definition next : Lens World Z := mkLens fst (fun n w => (n, w.2)).
Definition place : Lens World QueryCache := mkLens snd (fun c w => (w.1, c)).

#[export] Instance place_laws : LensLaws place.
Proof. split; [done| |done]. by intros []. Qed.

Definition answer {A} (up : bool) (a : A) : Task World A :=
  if up then mret a else async_lift (Fail (EGrpc "down")).

Definition client (up : bool) (docs : list Document) (terms : list SuggestTerm)
  : ShardClient World := {|
  is_circuit_open := no_breaker;
  cl_search := fun req => answer up (mkShardSearchResult
    ((fun d => (doc_id d, doc_price d)) <$> docs) (Z.of_nat (length docs))
    {[ "category"%string := [("shoes"%string, Z.of_nat (length docs))] ]} false);
  cl_index := fun _ => answer up tt;
  cl_bulk := fun batch => answer up (Z.of_nat (length batch));
  cl_delete := fun _ => answer up tt;
  cl_get_docs := fun ids => answer up (filter (fun d => doc_id d ∈ ids) docs);
  cl_stats := answer up (mkShardStats (Z.of_nat (length docs)) 0 0 0 0);
  cl_flush := answer up tt; cl_reindex := answer up (mkReindexStats 0 0 0);
  cl_health := fun w => (w, up);
  cl_suggest := fun _ _ limit => answer up (take limit terms);
|}.

Definition item (id price : Z) : Document :=
  mkDocument id "boot" "" (f64_of_Z price) "shoes" ∅.
Definition term (t : string) (score : Z) : SuggestTerm := mkSuggestTerm t (f32_of_Z score).

(** The ids 1 and 3 hash to the first shard, 4 to the second. *)
Definition router : Router World := {|
  ro_shards := [mkShardGroup (client true [item 1 5; item 3 9] []) [] next;
                mkShardGroup (client false [item 4 7] []) [] next];
  ro_ranker := NoopRanker; ro_ranker_timeout := 30; ro_ranker_candidates := 10;
  ro_query_timeout := 5000; ro_availability := NoopStrategy; ro_cache := Some place;
  ro_suggest_shards := [client true [] [term "boot" 2; term "bow" 1];
                        client false [] []; client true [] [term "boot" 3]];
  ro_suggest_write_timeout := 200; ro_suggest_query_timeout := 100 |}.

Definition start : World := (0, mkQueryCache []).
End Cluster.

Section Witness.
Import Cluster StableOrder.

Lemma bulk_index_correct_witness :
  bulk_index router [item 1 5; item 3 9] start = (start, Ret 2) /\
  concat (batches router [item 1 5; item 4 7; item 3 9]).*2 ≡ₚ [item 1 5; item 4 7; item 3 9] /\
  (bulk_index router [item 1 5; item 4 7; item 3 9] start).2 = Fail (EGrpc "down").
Proof.
  split; [vm_compute; reflexivity|]. split; [|vm_compute; reflexivity].
  apply (bulk_index_correct router [item 1 5; item 4 7; item 3 9] start);
    [discriminate|vm_compute; reflexivity|vm_compute; reflexivity].
Defined.

End Witness.
