(* ===== verification/RouterSearch.v ===== *)
(** The search of the router ([Router::search] of
    [crates/router/src/router.rs]): cache lookup, scatter to one endpoint of
    every shard group, gather, re-ranking, availability, cache store and
    pagination. *)
From S2P Require Import Prelude Bytes Order Float Types Config Breaker Routing Text Analysis Posting.
From S2P Require Import Disk Inverted Column DocStore Segment Scorer Collector Wand Executor.
From S2P Require Import Multi Object Wal WriteBuffer SegmentList Proto Replication Shard Async.
From S2P Require Import ShardGrpc Suggest Ranker Cache Availability Client Router.

Local Open Scope Z_scope.

Section Search.
Context `{FD : FloatDebug} `{UO : UnspecifiedOrder} `{ML : MokaLib} {W : Type} `{RT : Runtime W}.

(** ** Documents of the hits *)

(** [docs.into_iter().map(|d| (d.id, d)).collect::<HashMap<_, _>>()]. *)
Definition doc_map (docs : list Document) : gmap Z Document :=
  foldl (fun m d => <[doc_id d := d]> m) ∅ docs.

Definition build_hits (r : Router W) (page_hits : list (Z * f32))
    (candidate_doc_map : gmap Z Document) (include_docs : bool) : Task W (list SearchHit) :=
  if negb include_docs then
    mret ((fun h : Z * f32 => {| hit_id := h.1; hit_score := h.2; hit_document := None |})
            <$> page_hits)
  else
    let page_ids := page_hits.*1 in
    let from_cache := omap (fun id => candidate_doc_map !! id) page_ids in
    page_docs ← (if bool_decide (length from_cache = length page_ids) then mret from_cache
                 else fetch_docs r page_ids);
    let m := doc_map page_docs in
    mret ((fun h : Z * f32 => {| hit_id := h.1; hit_score := h.2; hit_document := m !! h.1 |})
            <$> page_hits).

(** [hits.skip(offset).take(limit)]. *)
Definition page {A} (request : SearchRequest) (hits : list A) : list A :=
  take (Z.to_nat (rq_limit request)) (drop (Z.to_nat (rq_offset request)) hits).

Definition respond_from_cache (r : Router W) (request : SearchRequest) (cached : CachedResponse)
  : Task W SearchResponse :=
  let page_hits := page request (cd_hits cached) in
  hits ← build_hits r page_hits ∅ (rq_include_docs request);
  elapsed ← reads elapsed_ms;
  mret {| rs_hits := hits; rs_total_hits := cd_total_hits cached;
          rs_aggregations := cd_aggregations cached; rs_reranked := cd_reranked cached;
          rs_took_ms := elapsed; rs_retrieval_mode := cd_retrieval_mode cached;
          rs_cache_hit := true |}.

(** ** Scatter *)
Definition scatter_request (r : Router W) (request : SearchRequest) : SearchRequest :=
  let scatter_limit :=
    wrap 64 (ro_ranker_candidates r * candidate_multiplier (ro_availability r)) in {|
  rq_query := rq_query request; rq_filters := rq_filters request;
  rq_aggregations := rq_aggregations request; rq_sort := rq_sort request;
  rq_offset := 0; rq_limit := scatter_limit;
  rq_typo_tolerance := rq_typo_tolerance request; rq_language := rq_language request;
  rq_destination_zone := rq_destination_zone request;
  rq_include_docs := rq_include_docs request |}.

Definition query_shard (r : Router W) (shard_req : SearchRequest) (shard : ShardClient W)
  : Task W (Result ShardSearchResult) :=
  result ← timed (ro_query_timeout r) (cl_search shard shard_req);
  mret (default (Fail (EShard "shard query timeout")) result).

(** The endpoint of every group is chosen before the first query is sent. *)
Definition scatter (r : Router W) (request : SearchRequest)
  : Task W (list (Result ShardSearchResult)) :=
  let shard_req := scatter_request r request in
  targets ← mapM (fun group => call (read_target group)) (ro_shards r);
  join_all (query_shard r shard_req <$> targets).

(** ** Gather *)
Record Gathered := mkGathered {
  ga_all_hits : list (Z * f32);
  ga_total_hits : Z;                    (* u64 *)
  ga_merged_aggs : gmap string (gmap string Z);
  ga_healthy_shards : nat;
  ga_any_or_fallback : bool;
}.
Definition Gathered_init : Gathered := mkGathered [] 0 ∅ 0 false.

Definition gather_result (g : Gathered) (result : Result ShardSearchResult) : Gathered :=
  match result with
  | Ret shard_result => {|
      ga_all_hits := ga_all_hits g ++ shr_hits shard_result;
      ga_total_hits := wrap 64 (ga_total_hits g + shr_total_hits shard_result);
      ga_merged_aggs := merge_aggs (ga_merged_aggs g) (hm_iter (shr_aggregations shard_result));
      ga_healthy_shards := S (ga_healthy_shards g);
      ga_any_or_fallback := ga_any_or_fallback g || shr_used_or_fallback shard_result |}
  | _ => g
  end.

Definition gather (results : list (Result ShardSearchResult)) : Gathered :=
  foldl gather_result Gathered_init results.

(** ** Ranking *)
Definition score_desc (a b : Z * f32) : comparison := f_cmp b.2 a.2.

Definition rank_candidate (docs : gmap Z Document) (hit : Z * f32) : option RankCandidate :=
  (fun doc => {| rc_doc_id := hit.1; rc_bm25_score := hit.2; rc_title := doc_title doc;
                 rc_category := doc_category doc; rc_price := doc_price doc;
                 rc_attributes := doc_attributes doc |}) <$> docs !! hit.1.

Definition rank_hits (r : Router W) (request : SearchRequest) (docs : gmap Z Document)
    (all_hits : list (Z * f32)) : Task W (list (Z * f32) * bool) :=
  if bool_decide (all_hits = []) then mret (all_hits, false)
  else
    let rank_candidates := omap (rank_candidate docs) all_hits in
    '(ranked, did_rerank) ← rerank_with_fallback (ro_ranker r) (rq_query request)
                              rank_candidates (ro_ranker_timeout r);
    mret ((fun x => (rr_doc_id x, rr_score x)) <$> ranked, did_rerank).

Definition filter_available (r : Router W) (request : SearchRequest) (docs : gmap Z Document)
    (final_hits : list (Z * f32)) : Task W (list (Z * f32)) :=
  match rq_destination_zone request with
  | Some zone =>
      if bool_decide (zone = "") then mret final_hits
      else av_apply (ro_availability r) final_hits docs zone
  | None => mret final_hits
  end.

(** ** The search *)
Definition cache_lookup (r : Router W) (key : QueryCacheKey) : Task W (option CachedResponse) :=
  match ro_cache r with
  | Some cache => at_ cache (call (cache_get key))
  | None => mret None
  end.

Definition cache_store (r : Router W) (key : QueryCacheKey) (value : CachedResponse)
  : Task W unit :=
  match ro_cache r with
  | Some cache => at_ cache (call (fun c => (cache_insert key value c, tt)))
  | None => mret tt
  end.

(** Steps 1 to 6: what is cached. *)
Definition compute (r : Router W) (request : SearchRequest)
  : Task W (CachedResponse * gmap Z Document) :=
  shard_results ← scatter r request;
  let g := gather shard_results in
  if bool_decide (ga_healthy_shards g = 0%nat)
  then async_lift (Fail (EShard "all shards failed"))
  else
    let all_hits := sort_unstable_by score_desc (ga_all_hits g) in
    candidate_docs ← fetch_docs r all_hits.*1;
    let candidate_doc_map := doc_map candidate_docs in
    '(final_hits, reranked) ← rank_hits r request candidate_doc_map all_hits;
    final_hits ← filter_available r request candidate_doc_map final_hits;
    mret ({| cd_hits := final_hits; cd_total_hits := ga_total_hits g;
             cd_aggregations := make_buckets <$> ga_merged_aggs g; cd_reranked := reranked;
             cd_retrieval_mode := if ga_any_or_fallback g then RmOrFallback else RmAnd |},
          candidate_doc_map).

Definition router_search (r : Router W) (request : SearchRequest) : Task W SearchResponse :=
  let key := from_request request in
  cached ← cache_lookup r key;
  match cached with
  | Some cached => respond_from_cache r request cached
  | None =>
      '(response, docs) ← compute r request;
      _ ← cache_store r key response;
      let page_hits := page request (cd_hits response) in
      hits ← build_hits r page_hits docs (rq_include_docs request);
      elapsed ← reads elapsed_ms;
      mret {| rs_hits := hits; rs_total_hits := cd_total_hits response;
              rs_aggregations := cd_aggregations response; rs_reranked := cd_reranked response;
              rs_took_ms := elapsed; rs_retrieval_mode := cd_retrieval_mode response;
              rs_cache_hit := false |}
  end.
End Search.

(** ** Gathering *)
Section GatherSpecs.
Context `{UOL : UnspecifiedOrderLaws}.

Definition zsum {A} (f : A -> Z) (l : list A) : Z := foldr (fun x n => f x + n) 0 l.

Lemma zsum_snoc {A} (f : A -> Z) l x : zsum f (l ++ [x]) = zsum f l + f x.
Proof. unfold zsum. induction l as [|y l IH]; cbn; [lia|]. rewrite IH. lia. Qed.

(** The count of a value of a field in a shard's answer. *)
Definition shard_count (f v : string) (s : ShardSearchResult) : Z :=
  match shr_aggregations s !! f with Some counts => count_of v counts | None => 0 end.

Lemma oks_snoc {A} (results : list (Result A)) res :
  oks (results ++ [res]) = oks results ++ match res with Ret a => [a] | _ => [] end.
Proof. unfold oks. rewrite omap_app. by destruct res. Qed.

(** What the gathering loop has after the results, from the healthy ones. *)
Record gathered_from (healthy : list ShardSearchResult) (g : Gathered) : Prop := {
  gf_hits : ga_all_hits g = healthy ≫= shr_hits;
  gf_total : ga_total_hits g = wrap 64 (zsum shr_total_hits healthy);
  gf_healthy : ga_healthy_shards g = length healthy;
  gf_fallback : ga_any_or_fallback g = true <-> exists s, s ∈ healthy /\ shr_used_or_fallback s = true;
  gf_counts f v : merged_count (ga_merged_aggs g) f v = wrap 64 (zsum (shard_count f v) healthy);
}.

Lemma gathered_from_snoc healthy g s :
  gathered_from healthy g -> gathered_from (healthy ++ [s]) (gather_result g (Ret s)).
Proof.
  intros [Hh Ht Hn Hf Hc]. split; cbn.
  - rewrite bind_app. cbn. by rewrite Hh, app_nil_r.
  - rewrite Ht, zsum_snoc. unfold wrap. by rewrite Zplus_mod_idemp_l.
  - rewrite length_app, Hn. cbn. lia.
  - rewrite orb_true_iff, Hf. split.
    + intros [(x & ? & ?)|]; [exists x|exists s]; set_solver.
    + intros (x & [Hx|[->|?%elem_of_nil]%elem_of_cons]%elem_of_app & ?); [left; by exists x|by right|done].
  - intros f v. rewrite merge_aggs_lookup.
    + rewrite Hc, zsum_snoc, list_to_map_hm_iter. unfold shard_count, wrap.
      by rewrite Zplus_mod_idemp_l.
    + apply NoDup_fst_hm_iter.
    + rewrite Hc. apply wrap_in_width. lia.
Qed.

Lemma gather_spec results : gathered_from (oks results) (gather results).
Proof.
  unfold gather. induction results as [|res results IH] using rev_ind.
  { split; try done. split; [done|]. intros (s & Hs & _). by apply elem_of_nil in Hs. }
  rewrite foldl_app, oks_snoc. cbn [foldl]. destruct res as [s|e|]; cbn [gather_result].
  - by apply gathered_from_snoc.
  - by rewrite app_nil_r.
  - by rewrite app_nil_r.
Qed.
End GatherSpecs.

Lemma doc_map_id docs i d : doc_map docs !! i = Some d -> doc_id d = i.
Proof.
  unfold doc_map. induction docs as [|x docs IH] using rev_ind; [by cbn; rewrite lookup_empty|].
  rewrite foldl_app. cbn [foldl]. rewrite lookup_insert_Some. naive_solver.
Qed.

(** ** The steps return *)
Section SearchSpecs.
Context `{FD : FloatDebug} `{UOL : UnspecifiedOrderLaws} `{ML : MokaLib} {W : Type} `{RT : Runtime W}.

(** A router with a usable number of shards whose parts do not panic; the
    availability strategy returns. *)
Record router_ok (r : Router W) : Prop := {
  rok_shards : ro_shards r <> [];
  rok_few : shards_ok (ro_shards r);
  rok_search c req : c ∈ router_endpoints r ->
    no_panic (timeout (ro_query_timeout r) (cl_search c req));
  rok_docs c ids : c ∈ router_endpoints r -> no_panic (cl_get_docs c ids);
  rok_ranker query candidates :
    no_panic (timeout (ro_ranker_timeout r) (rerank (ro_ranker r) query candidates));
  rok_availability hits docs zone :
    yields (av_apply (ro_availability r) hits docs zone) (fun _ => True);
}.

Lemma scatter_yields r request : router_ok r ->
  yields (scatter r request) (fun results =>
    length results = length (ro_shards r) /\ Forall (fun res => res <> Panic) results).
Proof.
  intros Hr. unfold scatter. eapply (yields_bind _ _ (fun targets =>
    length targets = length (ro_shards r) /\ Forall (fun c => c ∈ router_endpoints r) targets)).
  { apply yields_mapM. intros g Hg. apply yields_call. intros w. unfold router_endpoints.
    apply list_elem_of_bind. exists g. split; [apply read_target_endpoint|done]. }
  intros targets [Hlen Ht]. rewrite <- Hlen, <- (length_fmap (query_shard r (scatter_request r request))).
  apply yields_join. intros m (c & -> & Hc)%list_elem_of_fmap. unfold query_shard.
  eapply yields_bind.
  { apply yields_timed, Hr. exact (proj1 (Forall_forall _ _) Ht c Hc). }
  intros [[]|] Hres; apply yields_ret; naive_solver.
Qed.

(** Ranking: the ranker's answer when it came in time, and otherwise the hits
    whose documents could be fetched, with the scores and the order they had. *)
Definition ranked_as (r : Router W) (request : SearchRequest) (docs : gmap Z Document)
    (hits : list (Z * f32)) (reranked : bool) (ranked : list (Z * f32)) : Prop :=
  if reranked then
    exists w w' rs,
      timeout (ro_ranker_timeout r)
        (rerank (ro_ranker r) (rq_query request) (omap (rank_candidate docs) hits)) w
        = (w', Ret (Some rs)) /\
      ranked = (fun x => (rr_doc_id x, rr_score x)) <$> rs
  else ranked = filter (fun h => is_Some (docs !! h.1)) hits.

Lemma bm25_candidates docs hits :
  (fun x => (rr_doc_id x, rr_score x)) <$> bm25_results (omap (rank_candidate docs) hits)
    = filter (fun h => is_Some (docs !! h.1)) hits.
Proof.
  unfold bm25_results. induction hits as [|[i x] hits IH]; [done|].
  rewrite filter_cons. cbn [omap list_omap]. unfold rank_candidate at 1. cbn [fst snd].
  destruct (docs !! i) as [d|] eqn:Ed; cbn [fmap option_fmap option_map].
  - rewrite decide_True by (by eexists). cbn [fmap list_fmap rc_doc_id rc_bm25_score rr_doc_id rr_score].
    by f_equal.
  - rewrite decide_False by (by intros []). exact IH.
Qed.

Lemma rank_hits_yields r request docs hits : router_ok r ->
  yields (rank_hits r request docs hits) (fun out => ranked_as r request docs hits out.2 out.1).
Proof.
  intros Hr. unfold rank_hits, ranked_as. case_bool_decide as Hh; [apply yields_ret; by subst|].
  set (cands := omap (rank_candidate docs) hits).
  eapply (yields_bind _ _ (fun out : list RankedResult * bool =>
    if out.2 then exists w w', timeout (ro_ranker_timeout r)
        (rerank (ro_ranker r) (rq_query request) cands) w = (w', Ret (Some out.1))
    else out.1 = bm25_results cands)).
  - unfold rerank_with_fallback. intros w. pose proof (rok_ranker r Hr (rq_query request) cands w) as Hp.
    unfold attempt, mbind, Async_bind.
    destruct (timeout _ _ w) as [w' [[rs|]|e|]] eqn:E; [| | |done]; eexists w', _; split; try done.
    by exists w, w'.
  - intros [ranked did] Hranked. apply yields_ret. cbn [fst snd] in *. destruct did.
    + destruct Hranked as (w & w' & E). by exists w, w', ranked.
    + rewrite Hranked. apply bm25_candidates.
Qed.

(** The availability filter applies to a non-empty zone. *)
Definition available_as (r : Router W) (request : SearchRequest) (docs : gmap Z Document)
    (hits final : list (Z * f32)) : Prop :=
  if bool_decide (default "" (rq_destination_zone request) = ""%string) then final = hits
  else exists w w', av_apply (ro_availability r) hits docs (default "" (rq_destination_zone request)) w
         = (w', Ret final).

Lemma filter_available_yields r request docs hits : router_ok r ->
  yields (filter_available r request docs hits) (available_as r request docs hits).
Proof.
  intros Hr. unfold filter_available, available_as.
  destruct (rq_destination_zone request) as [zone|]; [|by apply yields_ret].
  cbn [default]. unfold default, id. case_bool_decide as Hz; [by apply yields_ret|].
  intros w. destruct (rok_availability r Hr hits docs zone w) as (w' & final & E & _).
  exists w', final. split; [done|]. by exists w, w'.
Qed.

(** A hit as the client sees it: its id and score. *)
Definition hit_pair (h : SearchHit) : Z * f32 := (hit_id h, hit_score h).

(** The hits of a page are the page; a document is attached only on request,
    and only the one with the hit's id. *)
Definition shows (page_hits : list (Z * f32)) (include_docs : bool) (hits : list SearchHit) : Prop :=
  hit_pair <$> hits = page_hits /\
  forall h, h ∈ hits -> match hit_document h with
    | None => True
    | Some d => include_docs = true /\ doc_id d = hit_id h
    end.

Lemma build_hits_yields r page_hits docs include_docs : router_ok r ->
  yields (build_hits r page_hits docs include_docs) (shows page_hits include_docs).
Proof.
  intros Hr. unfold build_hits, shows, hit_pair. destruct include_docs; cbn [negb].
  - apply (yields_bind _ _ (fun _ => True)).
    { case_bool_decide; [by apply yields_ret|]. by apply fetch_docs_yields; apply Hr. }
    intros page_docs _. apply yields_ret. split.
    + rewrite <- list_fmap_compose. transitivity (id <$> page_hits); [|apply list_fmap_id].
      apply list_fmap_ext. by intros _ [] _.
    + intros h ([i x] & -> & _)%list_elem_of_fmap. cbn.
      destruct (doc_map page_docs !! i) eqn:E; [|done]. split; [done|]. by apply doc_map_id in E.
  - apply yields_ret. split.
    + rewrite <- list_fmap_compose. transitivity (id <$> page_hits); [|apply list_fmap_id].
      apply list_fmap_ext. by intros _ [] _.
    + by intros h ([i x] & -> & _)%list_elem_of_fmap.
Qed.

(** What the cached part of an answer is, given the healthy shards' results:
    their hits sorted by score, ranked and filtered for the zone; their totals
    and counts added up. *)
Definition answers (r : Router W) (request : SearchRequest) (healthy : list ShardSearchResult)
    (cd : CachedResponse) : Prop :=
  (exists (sorted ranked : list (Z * f32)) (docs : gmap Z Document),
     sorted ≡ₚ healthy ≫= shr_hits /\
     (Forall (fun h => f_nan h.2 = false) (healthy ≫= shr_hits) ->
        StronglySorted (cmp_le score_desc) sorted) /\
     ranked_as r request docs sorted (cd_reranked cd) ranked /\
     available_as r request docs ranked (cd_hits cd)) /\
  cd_total_hits cd = wrap 64 (zsum shr_total_hits healthy) /\
  (cd_retrieval_mode cd = RmOrFallback <->
     exists s, s ∈ healthy /\ shr_used_or_fallback s = true) /\
  exists merged, cd_aggregations cd = make_buckets <$> merged /\
    forall f v, merged_count merged f v = wrap 64 (zsum (shard_count f v) healthy).

Lemma pair_score_preorder : CmpPreorder (fun h : Z * f32 => f_nan h.2 = false) score_desc.
Proof.
  apply (cmp_desc_preorder _ (cmp_on snd f_cmp)),
    (cmp_on_preorder snd (fun x => f_nan x = false) f_cmp), _.
Qed.

Lemma compute_spec r request w w1 results : router_ok r ->
  scatter r request w = (w1, Ret results) ->
  (oks results = [] -> compute r request w = (w1, Fail (EShard "all shards failed"))) /\
  (oks results <> [] -> exists w' cd docs,
     compute r request w = (w', Ret (cd, docs)) /\ answers r request (oks results) cd).
Proof.
  intros Hr Hs. pose proof (gather_spec results) as [Hh Ht Hn Hf Hc].
  unfold compute. erewrite async_bind_ret by exact Hs. split; intros Hok.
  { rewrite Hn, Hok. done. }
  rewrite bool_decide_false by (rewrite Hn; by destruct (oks results)).
  set (sorted := sort_unstable_by score_desc (ga_all_hits (gather results))).
  assert (yields (fetch_docs r sorted.*1) (fun _ => True)) as Hfetch
    by (apply fetch_docs_yields; apply Hr).
  destruct (Hfetch w1) as (w2 & docs & Ed & _). erewrite async_bind_ret by exact Ed.
  destruct (rank_hits_yields r request (doc_map docs) sorted Hr w2) as (w3 & [ranked did] & Er & Hd).
  erewrite async_bind_ret by exact Er. cbn [fst snd] in Hd. cbv beta iota.
  destruct (filter_available_yields r request (doc_map docs) ranked Hr w3) as (w4 & final & Ef & Hz).
  erewrite async_bind_ret by exact Ef.
  eexists w4, _, (doc_map docs). split; [reflexivity|]. split_and!; cbn; [|done| |].
  - exists sorted, ranked, (doc_map docs). rewrite <- Hh. split_and!; [|intros Hnan|done..].
    + apply sort_unstable_perm.
    + exact (sort_unstable_sorted _ _ (CmpPreorder0 := pair_score_preorder) _ Hnan).
  - rewrite <- Hf. by destruct (ga_any_or_fallback _).
  - by exists (ga_merged_aggs (gather results)).
Qed.

(** ** Claims *)


Lemma respond_from_cache_hit r request cd w w' resp :
  respond_from_cache r request cd w = (w', Ret resp) -> rs_cache_hit resp = true.
Proof.
  unfold respond_from_cache. intros H. apply async_bind_ret_inv in H as (w1 & hits & _ & H).
  by injection H as _ <-.
Qed.

Lemma respond_from_cache_yields r request cd : router_ok r ->
  yields (respond_from_cache r request cd) (fun resp =>
    shows (page request (cd_hits cd)) (rq_include_docs request) (rs_hits resp) /\
    rs_total_hits resp = cd_total_hits cd /\ rs_aggregations resp = cd_aggregations cd /\
    rs_reranked resp = cd_reranked cd /\ rs_retrieval_mode resp = cd_retrieval_mode cd /\
    rs_cache_hit resp = true).
Proof.
  intros Hr. unfold respond_from_cache. eapply yields_bind; [by apply build_hits_yields|].
  intros hits Hh w. by eexists w, _.
Qed.

(** What a computed answer stores and shows. *)
Lemma router_search_miss r request w w' resp : router_ok r ->
  router_search r request w = (w', Ret resp) -> rs_cache_hit resp = false ->
  exists cd wi wi', cache_store r (from_request request) cd wi = (wi', Ret tt) /\
    hit_pair <$> rs_hits resp = page request (cd_hits cd) /\
    rs_total_hits resp = cd_total_hits cd /\ rs_aggregations resp = cd_aggregations cd /\
    rs_reranked resp = cd_reranked cd /\ rs_retrieval_mode resp = cd_retrieval_mode cd.
Proof.
  intros Hr Hs Hmiss. unfold router_search in Hs.
  apply async_bind_ret_inv in Hs as (w1 & [cached|] & _ & Hs).
  { apply respond_from_cache_hit in Hs. congruence. }
  apply async_bind_ret_inv in Hs as (w2 & [cd docs] & _ & Hs). cbv beta iota in Hs.
  apply async_bind_ret_inv in Hs as (w3 & [] & Hst & Hs).
  apply async_bind_ret_inv in Hs as (w4 & hits & Hb & Hs). injection Hs as _ <-.
  destruct (build_hits_yields r (page request (cd_hits cd)) docs (rq_include_docs request) Hr w3)
    as (w5 & hits' & Hb' & [Hh _]).
  rewrite Hb in Hb'. injection Hb' as _ <-. by exists cd, w2, w3.
Qed.

Lemma page_key a b {A} (l : list A) : from_request a = from_request b -> page a l = page b l.
Proof. intros E. unfold page. by injection E as _ _ _ _ -> -> _ _ _. Qed.

End SearchSpecs.

(** ** Searches on the small cluster *)
Section Witness.
Import Cluster StableOrder BitsDebug Patient KeepAll.

Lemma cluster_ok : router_ok router.
Proof.
  split.
  - discriminate.
  - vm_compute. reflexivity.
  - intros c req Hc w. repeat (apply elem_of_cons in Hc as [->|Hc]; [discriminate|]).
    by apply elem_of_nil in Hc.
  - intros c ids Hc w. repeat (apply elem_of_cons in Hc as [->|Hc]; [discriminate|]).
    by apply elem_of_nil in Hc.
  - intros q cands w. discriminate.
  - intros hits docs zone. by apply yields_ret.
Qed.

Definition boots : SearchRequest := mkSearchRequest "boot" ∅ ["category"] None 0 20 true None None true.


Definition first_answer : SearchResponse :=
  match (router_search router boots start).2 with
  | Ret resp => resp
  | _ => mkSearchResponse [] 0 ∅ false 0 RmAnd true
  end.

End Witness.
