(* ===== verification/Meli.v ===== *)
(** Ingestion of MercadoLibre items ([crates/meli/src/mapper.rs] and
    [types.rs]): an item becomes a document whose id and category are the
    numbers behind the site prefix. *)
From S2P Require Import Prelude Bytes Order Float Types Text Decimal Analysis.

Local Open Scope Z_scope.

(** ** types.rs *)
Record MeliAttribute := mkMeliAttribute {
  ma_id : string;
  ma_name : string;
  ma_value_name : option string;
}.
Record MeliItem := mkMeliItem {
  mi_id : string;
  mi_site_id : string;
  mi_title : string;
  mi_price : f64;
  mi_category_id : string;
  mi_condition : string;
  mi_attributes : list MeliAttribute;
  mi_thumbnail : string;
  mi_status : string;
}.

(** ** mapper.rs *)
Inductive MappingError :=
  | InvalidId (id : string)
  | InvalidCategoryId (id : string).

Definition mapping_error_to_string (e : MappingError) : string :=
  match e with
  | InvalidId id =>
      "invalid item id '" +:+ id +:+ "': expected site prefix + numeric id (e.g. MLA1234)"
  | InvalidCategoryId id =>
      "invalid category_id '" +:+ id +:+ "': expected site prefix + numeric id (e.g. MLA109027)"
  end%string.

Definition strip_prefix (id site_id : string) : option Z :=
  s ← str_strip_prefix id site_id; parse_unsigned u64_max s.

Section Mapper.
Context `{TL : TextLib}.

(** [filter_map(..).collect::<HashMap<_, _>>()]: later attributes win. *)
Definition add_attribute (m : gmap string Value) (a : MeliAttribute) : gmap string Value :=
  match ma_value_name a with
  | Some val => <[to_lowercase (ma_id a) := VString val]> m
  | None => m
  end.

Definition add_nonempty (key value : string) (m : gmap string Value) : gmap string Value :=
  if bool_decide (value = "") then m else <[key := VString value]> m.

Definition map_item (item : MeliItem) : outcome MappingError Document :=
  id ← ok_or (InvalidId (mi_id item)) (strip_prefix (mi_id item) (mi_site_id item));
  category ← ok_or (InvalidCategoryId (mi_category_id item))
               (strip_prefix (mi_category_id item) (mi_site_id item));
  let attributes := foldl add_attribute ∅ (mi_attributes item) in
  let attributes := add_nonempty "condition" (mi_condition item) attributes in
  let attributes := add_nonempty "thumbnail" (mi_thumbnail item) attributes in
  let attributes := add_nonempty "status" (mi_status item) attributes in
  Ret {| doc_id := id; doc_title := mi_title item; doc_description := "";
         doc_price := mi_price item; doc_category := format_u64 category;
         doc_attributes := attributes |}.

(** The loop pushes to [docs] and [errors]. *)
Definition map_one (acc : list Document * list MappingError) (item : MeliItem)
  : list Document * list MappingError :=
  match map_item item with
  | Ret doc => (acc.1 ++ [doc], acc.2)
  | Fail e => (acc.1, acc.2 ++ [e])
  | Panic => acc
  end.

Definition map_batch (items : list MeliItem) : list Document * list MappingError :=
  foldl map_one ([], []) items.

(** ** Lemmas *)

Lemma map_item_no_panic item : map_item item <> Panic.
Proof.
  unfold map_item. destruct (strip_prefix (mi_id item) _); [|done].
  by destruct (strip_prefix (mi_category_id item) _).
Qed.

Lemma map_batch_split items :
  map_batch items = (omap (fun i => outcome_ok (map_item i)) items,
    omap (fun i => match map_item i with Fail e => Some e | _ => None end) items).
Proof.
  unfold map_batch. induction items as [|i items IH] using rev_ind; [done|].
  rewrite foldl_app, IH, !omap_app. cbn. unfold map_one. pose proof (map_item_no_panic i).
  destruct (map_item i); cbn; by rewrite ?app_nil_r.
Qed.

(** A prefix followed by digits is read back. *)
Lemma strip_prefix_format site n :
  in_width 64 n -> strip_prefix (site +:+ format_u64 n) site = Some n.
Proof.
  intros [Hn Hm]. unfold strip_prefix.
  rewrite (proj2 (str_strip_prefix_spec _ site (format_u64 n)) eq_refl). cbn [mbind option_bind].
  pose proof (parse_unsigned_pad u64_max 0 n) as Hp. unfold zero_pad in Hp. cbn in Hp.
  apply Hp; unfold u64_max; lia.
Qed.

Lemma strip_prefix_width id site n : strip_prefix id site = Some n -> in_width 64 n.
Proof.
  unfold strip_prefix. destruct (str_strip_prefix id site) as [s|]; [|done]. cbn.
  intros Hp%parse_unsigned_range; unfold u64_max, in_width in *; lia.
Qed.

(** The last attribute with a value under a key. *)
Definition last_value (attributes : list MeliAttribute) (key : string) : option string :=
  last (omap (fun a => if bool_decide (to_lowercase (ma_id a) = key) then ma_value_name a else None)
          attributes).

Lemma add_attributes_lookup attributes key :
  foldl add_attribute ∅ attributes !! key = VString <$> last_value attributes key.
Proof.
  unfold last_value. induction attributes as [|a attributes IH] using rev_ind.
  { cbn. by rewrite lookup_empty. }
  rewrite foldl_app, omap_app. cbn [foldl]. unfold add_attribute at 1.
  cbn [omap list_omap]. destruct (ma_value_name a) as [val|]; case_bool_decide as E.
  - subst key. by rewrite lookup_insert_eq, last_snoc.
  - rewrite lookup_insert_ne by done. by rewrite app_nil_r.
  - by rewrite app_nil_r.
  - by rewrite app_nil_r.
Qed.

Lemma add_nonempty_lookup key value m k :
  add_nonempty key value m !! k =
    if bool_decide (k = key /\ value <> "") then Some (VString value) else m !! k.
Proof.
  unfold add_nonempty. case_bool_decide as Hv.
  - by rewrite bool_decide_false by naive_solver.
  - destruct (decide (k = key)) as [->|Hk].
    + by rewrite lookup_insert_eq, bool_decide_true.
    + by rewrite lookup_insert_ne, bool_decide_false by naive_solver.
Qed.

(** What the document has under an attribute key: the item's status, thumbnail
    and condition come before its attributes. *)
Definition attribute_of (item : MeliItem) (key : string) : option string :=
  if bool_decide (key = "status" /\ mi_status item <> "") then Some (mi_status item)
  else if bool_decide (key = "thumbnail" /\ mi_thumbnail item <> "") then Some (mi_thumbnail item)
  else if bool_decide (key = "condition" /\ mi_condition item <> "") then Some (mi_condition item)
  else last_value (mi_attributes item) key.

Lemma map_item_ret item d : map_item item = Ret d ->
  strip_prefix (mi_id item) (mi_site_id item) = Some (doc_id d) /\
  (exists c, strip_prefix (mi_category_id item) (mi_site_id item) = Some c /\
     doc_category d = format_u64 c) /\
  doc_title d = mi_title item /\ doc_price d = mi_price item /\
  forall key, doc_attributes d !! key = VString <$> attribute_of item key.
Proof.
  unfold map_item. destruct (strip_prefix (mi_id item) _) as [n|]; [|done].
  destruct (strip_prefix (mi_category_id item) _) as [c|]; [|done]. intros [= <-]. cbn.
  split_and!; [done|by exists c|done|done|]. intros key. unfold attribute_of.
  rewrite !add_nonempty_lookup, add_attributes_lookup. by repeat case_bool_decide.
Qed.

(** mapping a MercadoLibre item never panics and fails only for an id, then
    for a category, that is not the site prefix followed by a 64-bit number;
    otherwise the document carries that number as its id (so ids written from
    numbers read back), the category's number, and the item's attributes, of
    which the last with a value wins, behind its status, thumbnail and
    condition.  A batch keeps every item on one side, in order. *)
Theorem meli_map_correct (items : list MeliItem) :
  (forall item, match map_item item with
    | Panic => False
    | Fail (InvalidId s) =>
        s = mi_id item /\ strip_prefix (mi_id item) (mi_site_id item) = None
    | Fail (InvalidCategoryId s) =>
        s = mi_category_id item /\ strip_prefix (mi_category_id item) (mi_site_id item) = None
    | Ret d =>
        in_width 64 (doc_id d) /\
        (forall n, in_width 64 n -> mi_id item = (mi_site_id item +:+ format_u64 n)%string ->
           doc_id d = n) /\
        (forall n, in_width 64 n -> mi_category_id item = (mi_site_id item +:+ format_u64 n)%string ->
           doc_category d = format_u64 n) /\
        doc_title d = mi_title item /\ doc_price d = mi_price item /\
        forall key, doc_attributes d !! key = VString <$> attribute_of item key
    end) /\
  (map_batch items).1 = omap (fun i => outcome_ok (map_item i)) items /\
  (length (map_batch items).1 + length (map_batch items).2 = length items)%nat.
Proof.
  split_and!.
  - intros item. pose proof (map_item_no_panic item) as Hp.
    destruct (map_item item) as [d|e|] eqn:E; [|unfold map_item in E|done].
    + destruct (map_item_ret item d E) as (Hid & (c & Hc & Hcat) & Ht & Hpr & Ha).
      split_and!; [by eapply strip_prefix_width| | |done..].
      * intros n Hn Hi. rewrite Hi, strip_prefix_format in Hid by done. by injection Hid.
      * intros n Hn Hi. rewrite Hi, strip_prefix_format in Hc by done. injection Hc as <-. done.
    + destruct (strip_prefix (mi_id item) _); cbn in E; [|by injection E as <-].
      destruct (strip_prefix (mi_category_id item) _); cbn in E; [done|by injection E as <-].
  - by rewrite map_batch_split.
  - rewrite map_batch_split. cbn [fst snd]. induction items as [|i items IH]; [done|].
    pose proof (map_item_no_panic i). cbn. destruct (map_item i); cbn in *; [lia|lia|done].
Qed.
End Mapper.
