(* ===== verification/Server.v ===== *)
(** The HTTP front door ([crates/server/src/main.rs], handlers): validation,
    the JSON-lines reader and the calls of the router.  A handler's error is its
    status code with the ["error"] text (and ["details"]) of the JSON body;
    reading JSON is an interface. *)
From Stdlib Require Import Strings.Ascii.
From S2P Require Import Prelude Bytes Order Float Types Config Breaker Routing Text Decimal Analysis.
From S2P Require Import Posting Disk Inverted Column DocStore Segment Scorer Collector Wand Executor.
From S2P Require Import Multi Object Wal WriteBuffer SegmentList Proto Replication Shard Async.
From S2P Require Import ShardGrpc Suggest Ranker Cache Availability Client Router RouterSearch Meli.

Local Open Scope Z_scope.

(** ** Interfaces *)

(** [serde_json] for items, and the text of a UTF-8 error. *)
Class ItemJson := {
  items_of_json : string -> outcome string (list MeliItem);    (* from_slice *)
  item_of_json : string -> outcome string MeliItem;            (* from_str *)
  utf8_error : string -> string;
}.

(** ** Strings *)

(** [char::is_whitespace]. *)
Definition is_whitespace (c : Z) : bool :=
  ((9 <=? c) && (c <=? 13)) || (c =? 32) || (c =? 133) || (c =? 160) || (c =? 5760)
  || ((8192 <=? c) && (c <=? 8202)) || (c =? 8232) || (c =? 8233) || (c =? 8239)
  || (c =? 8287) || (c =? 12288).

(** [s.trim()]. *)
Definition trim (s : string) : string :=
  let kept := filter (fun p : nat * Z => negb (is_whitespace p.2) = true) (char_indices s) in
  match head kept, last kept with
  | Some (a, _), Some (b, c) => str_slice s a (b + len_utf8 c)
  | _, _ => ""
  end.

Definition newline : ascii := "010"%char.
Definition return_ : ascii := "013"%char.

(** [s.lines()], with the current line read so far. *)
Definition strip_return (line : string) : string :=
  let n := String.length line in
  match String.get (n - 1) line with
  | Some a => if bool_decide (a = return_) then String.substring 0 (n - 1) line else line
  | None => line
  end.
Fixpoint lines_from (line s : string) : list string :=
  match s with
  | EmptyString => if bool_decide (line = "") then [] else [line]
  | String a s =>
      if bool_decide (a = newline) then strip_return line :: lines_from "" s
      else lines_from (line +:+ String a "") s
  end.
Definition lines (s : string) : list string := lines_from "" s.

(** [to_ascii_lowercase]. *)
Fixpoint to_ascii_lowercase (s : string) : string :=
  match s with
  | EmptyString => ""
  | String a s =>
      let b := ascii_Z a in
      String (if (65 <=? b) && (b <=? 90) then ascii_of_N (Z.to_N (b + 32)) else a)
        (to_ascii_lowercase s)
  end.

(** ** Errors *)
Record HttpError := mkHttpError {
  he_status : Z;
  he_error : string;
  he_details : list string;
}.
Definition bad_request (error : string) : HttpError := mkHttpError 400 error [].
Definition internal_error (e : Error) : HttpError := mkHttpError 500 (error_to_string e) [].

Abbreviation Http := (Async HttpError).

(** ** JSON lines *)
Section JsonLines.
Context `{IJ : ItemJson}.

(** One line of the loop, its number from 0. *)
Definition parse_line (items : list MeliItem) (numbered : nat * string)
  : outcome string (list MeliItem) :=
  let line := trim numbered.2 in
  if bool_decide (line = "") then Ret items
  else
    item ← map_err (fun e => "line " +:+ format_u64 (Z.of_nat numbered.1 + 1) +:+ ": " +:+ e)%string
             (item_of_json line);
    Ret (items ++ [item]).

Definition from_utf8 (body : string) : outcome string string :=
  if utf8_valid body then Ret body else Fail (utf8_error body).

Definition parse_jsonl (body : string) : outcome string (list MeliItem) :=
  text ← from_utf8 body;
  try_fold parse_line [] (imap pair (lines text)).
End JsonLines.

(** ** The handlers *)
Section Handlers.
Context `{FD : FloatDebug} `{UO : UnspecifiedOrder} `{TL : TextLib} `{IJ : ItemJson} `{ML : MokaLib}
  {W : Type} `{RT : Runtime W}.

Definition ensure (ok : bool) (error : string) : Http W unit :=
  async_lift (if ok then Ret tt else Fail (bad_request error)).

Definition http_search (router : Router W) (request : SearchRequest) : Http W SearchResponse :=
  _ ← ensure (Z.of_nat (String.length (rq_query request)) <=? 1024) "query too long";
  _ ← ensure (rq_limit request <=? 1000) "limit exceeds maximum of 1000";
  async_map_err internal_error (router_search router request).

Record SuggestParams := mkSuggestParams {
  sp_q : string;
  sp_limit : option Z;                  (* usize *)
  sp_field : option string;
}.
Record HttpSuggestResponse := mkHttpSuggestResponse {
  sp_suggestions : list SuggestTerm;
  sp_consistency : string;
  sp_took_ms : Z;
}.

(** [limit.unwrap_or(5).clamp(1, 20)]. *)
Definition clamp_limit (limit : option Z) : Z := Z.min 20 (Z.max 1 (default 5 limit)).

Definition http_suggest (router : Router W) (params : SuggestParams) : Http W HttpSuggestResponse :=
  let q := trim (sp_q params) in
  if bool_decide (q = "") then mret (mkHttpSuggestResponse [] "eventual" 0)
  else
    _ ← ensure (Z.of_nat (String.length q) <=? 100) "q too long (max 100)";
    let limit := clamp_limit (sp_limit params) in
    let field := default "title"%string (sp_field params) in
    entries ← async_map_err internal_error (suggest router q field (Z.to_nat limit));
    elapsed ← reads elapsed_ms;
    mret (mkHttpSuggestResponse entries "eventual" elapsed).

Definition http_index_doc (router : Router W) (doc : Document) : Http W bool :=
  _ ← ensure (negb (bool_decide (doc_title doc = ""))) "title is required";
  _ ← async_map_err internal_error (index router doc);
  mret true.

Definition http_bulk_index (router : Router W) (docs : list Document) : Http W Z :=
  _ ← ensure (negb (bool_decide (docs = []))) "empty batch";
  _ ← ensure (Z.of_nat (length docs) <=? 10000) "batch exceeds 10,000 documents";
  _ ← ensure (negb (existsb (fun d => bool_decide (doc_title d = "")) docs))
        "all documents must have a title";
  async_map_err internal_error (bulk_index router docs).

(** [indexed], the number of skipped items and their errors. *)
Record MeliBulkResponse := mkMeliBulkResponse {
  mb_indexed : nat;
  mb_skipped : nat;
  mb_errors : list string;
}.

(** A request: its content type when there is one in text, and the body as far
    as it could be read within 256 MiB. *)
Record MeliRequest := mkMeliRequest {
  mq_content_type : option string;
  mq_body : outcome string string;
}.

Definition is_jsonl (content_type : string) : bool :=
  str_contains content_type "ndjson" || str_contains content_type "jsonlines"
  || str_contains content_type "jsonl".

Definition http_meli_bulk (router : Router W) (request : MeliRequest) : Http W MeliBulkResponse :=
  let content_type := to_ascii_lowercase (default ""%string (mq_content_type request)) in
  body ← async_lift (map_err bad_request (mq_body request));
  items ← async_lift (map_err bad_request
            (if is_jsonl content_type then parse_jsonl body else items_of_json body));
  _ ← ensure (negb (bool_decide (length items = 0%nat))) "empty batch";
  _ ← ensure (Z.of_nat (length items) <=? 10000) "batch exceeds 10,000 items";
  let '(docs, errors) := map_batch items in
  let indexed := length docs in
  let skipped := mapping_error_to_string <$> errors in
  if bool_decide (indexed = 0%nat)
  then async_lift (Fail (mkHttpError 400 "all items failed mapping" skipped))
  else
    _ ← async_map_err internal_error (bulk_index router docs);
    mret (mkMeliBulkResponse indexed (length skipped) skipped).

Definition http_delete_doc (router : Router W) (id : Z) : Http W bool :=
  _ ← async_map_err internal_error (delete_doc router id);
  mret true.

Definition http_flush_all (router : Router W) : Http W bool :=
  _ ← async_map_err internal_error (flush_all router);
  mret true.

(** The sums wrap at their width. *)
Definition sum_width (w : Z) (l : list Z) : Z := foldl (fun total n => wrap w (total + n)) 0 l.

Record ReindexAllResponse := mkReindexAllResponse {
  ra_total_docs : Z;
  ra_total_elapsed_ms : Z;
  ra_shards : list ReindexStats;
}.

Definition http_reindex_all (router : Router W) : Http W ReindexAllResponse :=
  shard_stats ← async_map_err internal_error (reindex router);
  elapsed ← reads elapsed_ms;
  mret {| ra_total_docs := sum_width 64 (rx_docs_reindexed <$> shard_stats);
          ra_total_elapsed_ms := elapsed; ra_shards := shard_stats |}.

Record StatsAllResponse := mkStatsAllResponse {
  sa_total_docs : Z;                    (* u64 *)
  sa_total_segments : Z;                (* u32 *)
  sa_shards : list ShardGroupStats;
}.

Definition http_stats (router : Router W) : Http W StatsAllResponse :=
  router_stats ← async_map_err internal_error (stats router);
  let primaries := gs_primary <$> rts_shards router_stats in
  mret {| sa_total_docs := sum_width 64 (ss_doc_count <$> primaries);
          sa_total_segments := sum_width 32 (ss_segment_count <$> primaries);
          sa_shards := rts_shards router_stats |}.
End Handlers.

(** ** Lines *)

Definition char_free (c : ascii) (s : string) : Prop := str_mem c s = false.
Definition unlines (ls : list string) : string :=
  foldr (fun l s => l +:+ String newline s)%string "" ls.

Lemma lines_from_line l : forall line rest,
  char_free newline l ->
  lines_from line (l +:+ String newline rest)%string = strip_return (line +:+ l)%string :: lines_from "" rest.
Proof.
  induction l as [|a l IH]; intros line rest Hl.
  - change ("" +:+ String newline rest)%string with (String newline rest).
    cbn [lines_from]. by rewrite bool_decide_true, str_app_nil_r.
  - apply orb_false_iff in Hl as [Ha Hl].
    change (String a l +:+ String newline rest)%string with (String a (l +:+ String newline rest)).
    cbn [lines_from]. rewrite Ha, IH by done. by rewrite str_app_assoc.
Qed.

Lemma string_get_mem s n a : String.get n s = Some a -> str_mem a s = true.
Proof.
  revert n. induction s as [|b s IH]; intros n; [by destruct n|]. destruct n as [|n]; cbn.
  - intros [= ->]. by rewrite bool_decide_true.
  - intros H%IH. by rewrite H, orb_true_r.
Qed.

Lemma strip_return_free l : char_free return_ l -> strip_return l = l.
Proof.
  intros Hl. unfold strip_return. destruct (String.get _ l) as [a|] eqn:E; [|done].
  case_bool_decide as Ha; [|done]. subst. apply string_get_mem in E. by rewrite Hl in E.
Qed.

Lemma lines_unlines ls :
  Forall (fun l => char_free newline l /\ char_free return_ l) ls -> lines (unlines ls) = ls.
Proof.
  unfold lines. induction 1 as [|l ls [Hn Hr] _ IH]; [done|]. cbn [unlines foldr].
  fold (unlines ls). rewrite lines_from_line by done. rewrite IH.
  change ("" +:+ l)%string with l. by rewrite strip_return_free.
Qed.

Section JsonLinesSpecs.
Context `{IJ : ItemJson}.

Definition line_error (k : nat) (e : string) : string :=
  "line " +:+ format_u64 (Z.of_nat k + 1) +:+ ": " +:+ e.

Lemma parse_line_eq items n l :
  parse_line items (n, l) =
    if bool_decide (trim l = ""%string) then Ret items
    else match item_of_json (trim l) with
         | Ret i => Ret (items ++ [i])
         | Fail e => Fail (line_error n e)
         | Panic => Panic
         end.
Proof. unfold parse_line. cbn. case_bool_decide; [done|]. by destruct (item_of_json _). Qed.

Lemma parse_lines_ret ls : forall k acc items,
  try_fold parse_line acc (imap (fun i l => (k + i, l)%nat) ls) = Ret items <->
  exists new, items = acc ++ new /\
    Forall2 (fun l i => item_of_json l = Ret i) (filter (.≠ ""%string) (trim <$> ls)) new.
Proof.
  induction ls as [|l ls IH]; intros k acc items; cbn [imap try_fold].
  { split; [intros [= ->]; exists []; by rewrite app_nil_r|].
    intros (new & -> & Hn). apply Forall2_nil_inv_l in Hn as ->. by rewrite app_nil_r. }
  rewrite (imap_ext _ (fun i l => (S k + i, l)%nat)) by (intros; cbn; f_equal; lia).
  rewrite parse_line_eq. cbn [fmap list_fmap]. rewrite filter_cons.
  case_bool_decide as Hb.
  - cbn [mbind outcome_bind]. rewrite decide_False by naive_solver. apply IH.
  - rewrite decide_True by done. destruct (item_of_json (trim l)) as [i|e|] eqn:Ei; cbn [mbind outcome_bind].
    + rewrite IH. split.
      * intros (new & -> & Hn). exists (i :: new). rewrite <- (assoc (++)). split; [done|by constructor].
      * intros (new & -> & Hn). apply Forall2_cons_inv_l in Hn as (i' & new' & Hi & Hn & ->).
        rewrite Ei in Hi. injection Hi as <-. exists new'. by rewrite <- (assoc (++)).
    + split; [done|]. intros (new & -> & Hn).
      apply Forall2_cons_inv_l in Hn as (i' & new' & Hi & _). by rewrite Ei in Hi.
    + split; [done|]. intros (new & -> & Hn).
      apply Forall2_cons_inv_l in Hn as (i' & new' & Hi & _). by rewrite Ei in Hi.
Qed.

Lemma parse_lines_fail ls : forall k acc msg,
  try_fold parse_line acc (imap (fun i l => (k + i, l)%nat) ls) = Fail msg ->
  exists j l e, ls !! j = Some l /\ trim l <> ""%string /\ item_of_json (trim l) = Fail e /\
    msg = line_error (k + j) e /\
    forall l', l' ∈ take j ls -> trim l' = ""%string \/ exists i, item_of_json (trim l') = Ret i.
Proof.
  induction ls as [|l ls IH]; intros k acc msg; cbn [imap try_fold]; [done|].
  rewrite (imap_ext _ (fun i l => (S k + i, l)%nat)) by (intros; cbn; f_equal; lia).
  assert (forall j, S k + j = k + S j)%nat as Hk by lia.
  rewrite parse_line_eq. case_bool_decide as Hb.
  - cbn [mbind outcome_bind]. intros (j & l' & e & H1 & H2 & H3 & H4 & H5)%IH.
    exists (S j), l', e. rewrite <- (Hk j). split_and!; [done..|].
    intros l2 [->|Hl2]%elem_of_cons; [by left|by apply H5].
  - destruct (item_of_json (trim l)) as [i|e|] eqn:Ei; cbn [mbind outcome_bind]; [|intros [= <-]|done].
    + intros (j & l' & e & H1 & H2 & H3 & H4 & H5)%IH.
      exists (S j), l', e. rewrite <- (Hk j). split_and!; [done..|].
      intros l2 [->|Hl2]%elem_of_cons; [right; by exists i|by apply H5].
    + exists 0%nat, l, e. rewrite Nat.add_0_r. split_and!; [done..|].
      intros l2 Hl2. by apply elem_of_nil in Hl2.
Qed.

(** reading JSON lines: a well-formed text of lines gives the items of its
    non-blank lines, in order, exactly when each of them is an item; otherwise
    the error names the first line that is not, counted from 1 with the blank
    lines, and every non-blank line before it was an item. *)
Theorem parse_jsonl_correct (ls : list string) :
  utf8_valid (unlines ls) = true ->
  Forall (fun l => char_free newline l /\ char_free return_ l) ls ->
  (forall items, parse_jsonl (unlines ls) = Ret items <->
     Forall2 (fun l i => item_of_json l = Ret i) (filter (.≠ ""%string) (trim <$> ls)) items) /\
  (forall msg, parse_jsonl (unlines ls) = Fail msg ->
     exists k l e, ls !! k = Some l /\ trim l <> ""%string /\ item_of_json (trim l) = Fail e /\
       msg = line_error k e /\
       forall l', l' ∈ take k ls -> trim l' = ""%string \/ exists i, item_of_json (trim l') = Ret i).
Proof.
  intros Hu Hl. unfold parse_jsonl, from_utf8. rewrite Hu. cbn [mbind outcome_bind].
  rewrite lines_unlines by done. split.
  - intros items. rewrite (parse_lines_ret ls 0 []). naive_solver.
  - intros msg. apply (parse_lines_fail ls 0 []).
Qed.
End JsonLinesSpecs.

(** ** What reaches the router *)
Section FrontDoor.
Context `{FD : FloatDebug} `{UO : UnspecifiedOrder} `{TL : TextLib} `{IJ : ItemJson} `{ML : MokaLib}
  {W : Type} `{RT : Runtime W}.

Lemma ensure_bind {A} ok error (m : Http W A) w :
  (ensure ok error ≫= fun _ => m) w = if ok then m w else (w, Fail (bad_request error)).
Proof. by destruct ok. Qed.

Lemma lift_bind {A B} (a : A) (f : A -> Http W B) w : (async_lift (Ret a) ≫= f) w = f a w.
Proof. done. Qed.

(** The answer of the router, its error as a 500. *)
Definition served {A B} (m : Task W A) (f : A -> B) (w : W) : W * outcome HttpError B :=
  match m w with
  | (w, Ret a) => (w, Ret (f a))
  | (w, Fail e) => (w, Fail (internal_error e))
  | (w, Panic) => (w, Panic)
  end.

(** The request is refused before the router is reached: nothing changes. *)
Definition refused {B} (w : W) (out : W * outcome HttpError B) : Prop :=
  exists e, out = (w, Fail e) /\ he_status e = 400.

Lemma map_err_served {A} (m : Task W A) w : async_map_err internal_error m w = served m id w.
Proof. unfold async_map_err, served. by destruct (m w) as [? []]. Qed.

Lemma bind_served {A B} (m : Task W A) (f : A -> B) w :
  (async_map_err internal_error m ≫= fun a => mret (f a)) w = served m f w.
Proof. unfold async_map_err, served, mbind, Async_bind. by destruct (m w) as [? []]. Qed.

Definition batch_ok (docs : list Document) : Prop :=
  docs <> [] /\ Z.of_nat (length docs) <= 10000 /\ forall d, d ∈ docs -> doc_title d <> ""%string.

Lemma untitled_exists docs :
  existsb (fun d => bool_decide (doc_title d = ""%string)) docs = false <->
  forall d, d ∈ docs -> doc_title d <> ""%string.
Proof.
  rewrite <- not_true_iff_false, existsb_exists. split.
  - intros H d Hd Ht. apply H. exists d. rewrite bool_decide_eq_true. split; [|done].
    by apply list_elem_of_In.
  - intros H (d & Hd%list_elem_of_In & Ht%bool_decide_eq_true). by apply (H d).
Qed.

(** The items of a request that can be read. *)
Definition meli_items (request : MeliRequest) : outcome string (list MeliItem) :=
  body ← mq_body request;
  if is_jsonl (to_ascii_lowercase (default "" (mq_content_type request))) then parse_jsonl body
  else items_of_json body.

Lemma bulk_front_door router docs w :
  (batch_ok docs -> http_bulk_index router docs w = served (bulk_index router docs) id w) /\
  (~ batch_ok docs -> refused w (http_bulk_index router docs w)).
Proof.
  unfold http_bulk_index, batch_ok. rewrite !ensure_bind, map_err_served.
  pose proof (untitled_exists docs) as Hu.
  destruct (existsb _ docs); case_bool_decide as He; cbn [negb];
    destruct (Z.leb_spec (Z.of_nat (length docs)) 10000); split; intros H'; try done;
    try (by eexists); exfalso; naive_solver lia.
Qed.

Lemma map_batch_lengths (items : list MeliItem) :
  (length (map_batch items).1 + length (map_batch items).2 = length items)%nat.
Proof.
  rewrite map_batch_split. cbn [fst snd]. induction items as [|i items IH]; [done|].
  pose proof (map_item_no_panic i). cbn. destruct (map_item i); cbn in *; [lia|lia|done].
Qed.

Lemma meli_front_door router request w :
  meli_items request <> Panic ->
  refused w (http_meli_bulk router request w) \/
  exists items docs skipped, meli_items request = Ret items /\ docs = (map_batch items).1 /\
    docs <> [] /\ Z.of_nat (length items) <= 10000 /\
    (length docs + length skipped = length items)%nat /\
    http_meli_bulk router request w = served (bulk_index router docs)
      (fun _ => mkMeliBulkResponse (length docs) (length skipped) skipped) w.
Proof.
  unfold http_meli_bulk, meli_items. destruct (mq_body request) as [body|e|]; [|intros _; left; by eexists|done].
  cbn [map_err]. rewrite lift_bind. cbn [mbind outcome_bind].
  destruct (if is_jsonl _ then parse_jsonl body else items_of_json body) as [items|e|] eqn:Er;
    [|intros _; left; by eexists|done].
  intros _. cbn [map_err]. rewrite lift_bind, !ensure_bind.
  case_bool_decide as Hne; cbn [negb]; [left; by eexists|].
  destruct (Z.leb_spec (Z.of_nat (length items)) 10000); [|left; by eexists].
  pose proof (map_batch_lengths items) as Hlen.
  destruct (map_batch items) as [docs errors] eqn:Em. cbn [fst snd] in Hlen.
  case_bool_decide as Hd; [left; by eexists|]. right.
  exists items, docs, (mapping_error_to_string <$> errors). rewrite Em, length_fmap.
  split_and!; [done|done|by intros ->|done|done|]. apply bind_served.
Qed.

End FrontDoor.

(** ** A reader of items: a line is an item with that id *)
Section Witness.
Definition plain_item (id : string) : MeliItem := mkMeliItem id "MLA" "boot" f_zero "MLA7" "" [] "" "".
Local Instance plain_json : ItemJson := {
  items_of_json := fun s => Ret [plain_item s];
  item_of_json := fun s =>
    if bool_decide (s = "{") then Fail "EOF while parsing an object" else Ret (plain_item s);
  utf8_error := fun _ => "invalid utf-8 sequence";
}.

Lemma parse_jsonl_correct_witness :
  parse_jsonl (unlines [" MLA1"; ""; "MLA2 "]) = Ret [plain_item "MLA1"; plain_item "MLA2"] /\
  parse_jsonl (unlines ["MLA1"; ""; "{"]) = Fail "line 3: EOF while parsing an object" /\
  (parse_jsonl (unlines [" MLA1"; ""; "MLA2 "]) = Ret [plain_item "MLA1"; plain_item "MLA2"] <->
   Forall2 (fun l i => item_of_json l = Ret i)
     (filter (.≠ ""%string) (trim <$> [" MLA1"; ""; "MLA2 "])) [plain_item "MLA1"; plain_item "MLA2"]).
Proof.
  split; [vm_compute; reflexivity|]. split; [vm_compute; reflexivity|].
  destruct (parse_jsonl_correct [" MLA1"; ""; "MLA2 "]) as [H _]; [reflexivity| |].
  - repeat constructor.
  - apply H.
Defined.

Import Cluster StableOrder BitsDebug AsciiText Patient KeepAll.

End Witness.
