(* ===== verification/HttpApp.v ===== *)
(** The HTTP application ([build_http_app] of [crates/server/src/main.rs]): the
    route table, the handlers that [Server] leaves out, and the answer to a
    request.  Matching a path and reading a request are the axum crate's. *)
From Stdlib Require Import Strings.Ascii.
From S2P Require Import Prelude Bytes Order Float Types Config Breaker Routing Text Decimal Analysis.
From S2P Require Import Posting Disk Inverted Column DocStore Segment Scorer Collector Wand Executor.
From S2P Require Import Multi Object Wal WriteBuffer SegmentList Proto Replication Shard Async.
From S2P Require Import ShardGrpc Suggest Ranker Cache Availability Client Router RouterSearch Meli.
From S2P Require Import Server.

Local Open Scope Z_scope.

(** ** Routes *)
Inductive HttpMethod := GET | HEAD | POST | DELETE | OtherMethod.
#[global] Instance HttpMethod_eq_dec : EqDecision HttpMethod.
Proof. solve_decision. Defined.

(** A handler by its name. *)
Inductive Endpoint :=
  | AdminUi | Health | Search | Suggestions | IndexDoc | BulkIndex | MeliBulk | DeleteDoc
  | StatsAll | FlushAll | ReindexAll | PrometheusMetrics.
#[global] Instance Endpoint_eq_dec : EqDecision Endpoint.
Proof. solve_decision. Defined.

Definition http_routes : list (string * HttpMethod * Endpoint) := [
  ("/admin", GET, AdminUi);
  ("/v1/health", GET, Health);
  ("/v1/search", POST, Search);
  ("/v1/suggest", GET, Suggestions);
  ("/v1/index", POST, IndexDoc);
  ("/v1/bulk", POST, BulkIndex);
  ("/v1/ingest/bulk", POST, MeliBulk);
  ("/v1/index/{id}", DELETE, DeleteDoc);
  ("/v1/stats", GET, StatsAll);
  ("/v1/admin/flush", POST, FlushAll);
  ("/v1/admin/reindex", POST, ReindexAll);
  ("/metrics", GET, PrometheusMetrics)
]%string.

Record HttpRequest := mkHttpRequest {
  hq_method : HttpMethod;
  hq_path : string;
  hq_query : string;
  hq_content_type : option string;
  hq_body : outcome string string;      (* as far as it can be read *)
}.

(** axum: the values of a pattern's parameters in a path that matches it; the
    extractors [Json], [Query] and [Path], with the answer when they reject;
    the page and the exporter's text. *)
Class HttpLib := {
  path_captures : string -> string -> option (list string);
  percent_decode : string -> string;
  read_search : HttpRequest -> outcome HttpError SearchRequest;
  read_suggest : HttpRequest -> outcome HttpError SuggestParams;
  read_doc : HttpRequest -> outcome HttpError Document;
  read_docs : HttpRequest -> outcome HttpError (list Document);
  read_id : list string -> outcome HttpError Z;
  admin_html : string;
  render : list (string * string * f64) -> string;
}.

(** A parameter is one non-empty segment of the path. *)
Class HttpLaws `{HL : HttpLib} : Prop := {
  captures_static pattern path : char_free "{" pattern ->
    path_captures pattern path = if bool_decide (path = pattern) then Some [] else None;
  captures_param pre path : char_free "{" pre ->
    path_captures (pre +:+ "{id}") path =
      match str_strip_prefix path pre with
      | Some seg => if bool_decide (seg = ""%string) || str_mem "/" seg then None
                    else Some [percent_decode seg]
      | None => None
      end;
  decode_plain seg : char_free "%" seg -> percent_decode seg = seg;
  read_id_number s n : parse_unsigned u64_max s = Some n -> read_id [s] = Ret n;
}.

(** The body of an answer. *)
Inductive Reply :=
  | RpPage (html : string)
  | RpStatus (status : string)
  | RpSearch (resp : SearchResponse)
  | RpSuggest (resp : HttpSuggestResponse)
  | RpOk (ok : bool)
  | RpCount (indexed : Z)
  | RpMeli (resp : MeliBulkResponse)
  | RpStats (resp : StatsAllResponse)
  | RpReindex (resp : ReindexAllResponse)
  | RpMetrics (text : string).

Section App.
Context `{FD : FloatDebug} `{UO : UnspecifiedOrder} `{TL : TextLib} `{IJ : ItemJson} `{ML : MokaLib}
  `{HL : HttpLib} {W : Type} `{RT : Runtime W}.

(** The gauges set before the exporter renders: name, [shard_id], value. *)
Definition shard_gauges (stats : RouterStats) : list (string * string * f64) :=
  rts_shards stats ≫= fun group =>
    let id := format_u64 (ss_shard_id (gs_primary group)) in
    [("shard_doc_count"%string, id, f64_of_Z (ss_doc_count (gs_primary group)));
     ("shard_segment_count"%string, id, f64_of_Z (ss_segment_count (gs_primary group)))].

Definition prometheus_metrics (router : Router W) : Http W string :=
  s ← async_map_err internal_error (stats router);
  mret (render (shard_gauges s)).

Definition handle (router : Router W) (request : HttpRequest) (captures : list string)
    (endpoint : Endpoint) : Http W Reply :=
  match endpoint with
  | AdminUi => mret (RpPage admin_html)
  | Health => mret (RpStatus "ok")
  | Search => q ← async_lift (read_search request); RpSearch <$> http_search router q
  | Suggestions => p ← async_lift (read_suggest request); RpSuggest <$> http_suggest router p
  | IndexDoc => doc ← async_lift (read_doc request); RpOk <$> http_index_doc router doc
  | BulkIndex => docs ← async_lift (read_docs request); RpCount <$> http_bulk_index router docs
  | MeliBulk => RpMeli <$> http_meli_bulk router
                  {| mq_content_type := hq_content_type request; mq_body := hq_body request |}
  | DeleteDoc => id ← async_lift (read_id captures); RpOk <$> http_delete_doc router id
  | StatsAll => RpStats <$> http_stats router
  | FlushAll => RpOk <$> http_flush_all router
  | ReindexAll => RpReindex <$> http_reindex_all router
  | PrometheusMetrics => RpMetrics <$> prometheus_metrics router
  end.

(** [get] also answers HEAD. *)
Definition serves (m method : HttpMethod) : bool :=
  bool_decide (m = method) || bool_decide (m = GET /\ method = HEAD).

Fixpoint find_route (routes : list (string * HttpMethod * Endpoint)) (path : string)
  : option (list string * HttpMethod * Endpoint) :=
  match routes with
  | [] => None
  | (pattern, m, endpoint) :: routes =>
      match path_captures pattern path with
      | Some captures => Some (captures, m, endpoint)
      | None => find_route routes path
      end
  end.

Definition http_app (router : Router W) (request : HttpRequest) : Http W Reply :=
  match find_route http_routes (hq_path request) with
  | None => async_lift (Fail (mkHttpError 404 "" []))
  | Some (captures, m, endpoint) =>
      if serves m (hq_method request) then handle router request captures endpoint
      else async_lift (Fail (mkHttpError 405 "" []))
  end.
End App.

(** ** The table against the paths *)
Section AppSpecs.
Context `{FD : FloatDebug} `{UO : UnspecifiedOrder} `{TL : TextLib} `{IJ : ItemJson} `{ML : MokaLib}
  `{HLL : HttpLaws} {W : Type} `{RT : Runtime W}.

(** The paths without a parameter. *)
Definition plain_routes : list (string * HttpMethod * Endpoint) :=
  filter (fun r => str_mem "{" r.1.1 = false) http_routes.

Definition delete_path : string := "/v1/index/".

(** Looking a path up in a part of the table, with the first route a path
    without parameters has. *)
Lemma find_plain routes path m e :
  Forall (fun r => str_mem "{" r.1.1 = false \/ r = ("/v1/index/{id}"%string, DELETE, DeleteDoc)) routes ->
  NoDup routes.*1.*1 -> starts_with path delete_path = false ->
  (path, m, e) ∈ routes -> find_route routes path = Some ([], m, e).
Proof.
  intros Hr Hnd Hp Hin. induction Hr as [|[[pattern m'] e'] routes Hr Hrs IH]; [by apply elem_of_nil in Hin|].
  apply NoDup_cons in Hnd as [Hnew Hnd]. cbn [find_route fmap list_fmap fst] in *.
  apply elem_of_cons in Hin as [[= -> -> ->]|Hin].
  - destruct Hr as [Hr|[= -> -> ->]]; [|done]. cbn [fst] in Hr.
    by rewrite captures_static, bool_decide_true.
  - assert (path <> pattern) as Hne.
    { intros ->. apply Hnew. apply list_elem_of_fmap. exists (pattern, m). split; [done|].
      apply list_elem_of_fmap. by exists (pattern, m, e). }
    assert (path_captures pattern path = None) as ->; [|by apply IH].
    destruct Hr as [Hr|[= -> -> ->]].
    + by rewrite captures_static, bool_decide_false.
    + change "/v1/index/{id}"%string with (delete_path +:+ "{id}")%string. rewrite captures_param by done.
      destruct (str_strip_prefix path delete_path) as [seg|] eqn:E; [|done].
      exfalso. apply str_strip_prefix_spec in E as ->. by rewrite starts_with_app in Hp.
Qed.

Lemma find_none routes path :
  Forall (fun r => str_mem "{" r.1.1 = false \/ r = ("/v1/index/{id}"%string, DELETE, DeleteDoc)) routes ->
  starts_with path delete_path = false -> path ∉ routes.*1.*1 -> find_route routes path = None.
Proof.
  intros Hr Hp Hin. induction Hr as [|[[pattern m'] e'] routes Hr Hrs IH]; [done|].
  cbn [find_route fmap list_fmap fst] in *. apply not_elem_of_cons in Hin as [Hne Hin].
  assert (path_captures pattern path = None) as ->; [|by apply IH].
  destruct Hr as [Hr|[= -> -> ->]].
  - by rewrite captures_static, bool_decide_false.
  - change "/v1/index/{id}"%string with (delete_path +:+ "{id}")%string. rewrite captures_param by done.
    destruct (str_strip_prefix path delete_path) as [seg|] eqn:E; [|done].
    exfalso. apply str_strip_prefix_spec in E as ->. by rewrite starts_with_app in Hp.
Qed.

Lemma routes_form :
  Forall (fun r => str_mem "{" r.1.1 = false \/ r = ("/v1/index/{id}"%string, DELETE, DeleteDoc)) http_routes.
Proof. repeat first [apply Forall_cons; split; [first [by left|by right]|]|apply Forall_nil_2]. Qed.

Lemma routes_nodup : NoDup http_routes.*1.*1.
Proof. apply (bool_decide_eq_true_1 (NoDup _)). vm_compute. reflexivity. Qed.

Lemma find_deletion id : in_width 64 id ->
  find_route http_routes (delete_path +:+ format_u64 id)%string = Some ([format_u64 id], DELETE, DeleteDoc).
Proof.
  intros Hid. assert (parse_unsigned u64_max (format_u64 id) = Some id) as Hparse.
  { pose proof (parse_unsigned_pad u64_max 0 id) as Hp. unfold zero_pad in Hp. cbn in Hp.
    destruct Hid. apply Hp; unfold u64_max; lia. }
  assert (format_u64 id <> ""%string) as Hne by (intros E; by rewrite E in Hparse).
  assert (forall pattern, char_free "{" pattern -> (delete_path +:+ format_u64 id)%string <> pattern ->
    path_captures pattern (delete_path +:+ format_u64 id)%string = None) as Hother
    by (intros pattern Hp Hd; by rewrite captures_static, bool_decide_false).
  unfold http_routes. cbn [find_route]. rewrite !Hother by first [reflexivity|discriminate].
  change "/v1/index/{id}"%string with (delete_path +:+ "{id}")%string. rewrite captures_param by done.
  rewrite (proj2 (str_strip_prefix_spec _ _ (format_u64 id)) eq_refl), bool_decide_false by done.
  rewrite format_u64_free by done. cbn [orb].
  rewrite decode_plain by by apply format_u64_free. done.
Qed.

End AppSpecs.

(** ** A path matcher for patterns that end in their parameter *)
Section Witness.
Fixpoint before_brace (pattern : string) : option string :=
  match pattern with
  | EmptyString => None
  | String a rest =>
      if bool_decide (a = "{"%char) then Some ""%string else String a <$> before_brace rest
  end.

Local Instance plain_http : HttpLib := {
  path_captures := fun pattern path =>
    match before_brace pattern with
    | None => if bool_decide (path = pattern) then Some [] else None
    | Some pre =>
        match str_strip_prefix path pre with
        | Some seg => if bool_decide (seg = ""%string) || str_mem "/" seg then None else Some [seg]
        | None => None
        end
    end;
  percent_decode := fun s => s;
  read_search := fun _ => Fail (mkHttpError 415 "" []);
  read_suggest := fun _ => Fail (mkHttpError 400 "" []);
  read_doc := fun _ => Fail (mkHttpError 415 "" []);
  read_docs := fun _ => Fail (mkHttpError 415 "" []);
  read_id := fun l =>
    match l with
    | [s] => match parse_unsigned u64_max s with Some n => Ret n | None => Fail (mkHttpError 400 "" []) end
    | _ => Fail (mkHttpError 400 "" [])
    end;
  admin_html := "";
  render := fun _ => "";
}.

Local Instance plain_laws : HttpLaws.
Proof.
  split.
  - intros pattern path Hp. cbn. assert (before_brace pattern = None) as ->; [|done].
    induction pattern as [|a p IH]; [done|]. apply orb_false_iff in Hp as [Ha Hp].
    cbn [before_brace]. by rewrite Ha, IH.
  - intros pre path Hp. cbn. assert (before_brace (pre +:+ "{id}") = Some pre) as ->; [|done].
    induction pre as [|a p IH]; [done|]. apply orb_false_iff in Hp as [Ha Hp].
    rewrite str_app_cons. cbn [before_brace]. by rewrite Ha, IH.
  - done.
  - intros s n Hs. cbn. by rewrite Hs.
Qed.

Import Cluster StableOrder BitsDebug AsciiText Patient KeepAll.
Local Instance no_items : ItemJson := {
  items_of_json := fun _ => Ret [];
  item_of_json := fun _ => Fail "not an item"%string;
  utf8_error := fun _ => ""%string;
}.

Definition plain_request (m : HttpMethod) (path : string) : HttpRequest :=
  mkHttpRequest m path "" None (Ret ""%string).

End Witness.
