(* ===== verification/Startup.v ===== *)
(** Starting a process ([main] of [crates/server/src/main.rs]): the command
    line over the configuration, the shard number from the host name, endpoint
    templates, and the router of the router and standalone modes. *)
From Stdlib Require Import Strings.Ascii.
From S2P Require Import Prelude Bytes Order Float Types Config Breaker Routing Text Decimal Analysis.
From S2P Require Import Posting Disk Inverted Column DocStore Segment Scorer Collector Wand Executor.
From S2P Require Import Multi Object Wal WriteBuffer SegmentList Proto Replication Shard Async.
From S2P Require Import ShardGrpc Suggest Ranker Cache Availability Client Router.

Local Open Scope Z_scope.

(** ** Strings *)

(** [s.rsplit(c).next()]: what follows the last [c]. *)
Fixpoint last_part (c : ascii) (part s : string) : string :=
  match s with
  | EmptyString => part
  | String a s => if bool_decide (a = c) then last_part c "" s else last_part c (part +:+ String a "") s
  end.

(** [s.replace(from, to)] for a non-empty [from]; [fuel] bounds the characters left. *)
Fixpoint replace (fuel : nat) (s from to : string) : string :=
  match fuel with
  | O => s
  | S fuel =>
      match str_strip_prefix s from with
      | Some rest => to +:+ replace fuel rest from to
      | None => match s with
                | EmptyString => ""
                | String a s => String a (replace fuel s from to)
                end
      end
  end.
Definition str_replace (s from to : string) : string := replace (S (String.length s)) s from to.

(** ** The configuration of a process *)
Record Cli := mkCli {
  cli_mode : Mode;
  cli_config : option path;
  cli_num_shards : Z;
  cli_data_dir : string;
  cli_http_port : Z;
  cli_grpc_port : Z;
  cli_shard_id : Z;
}.

Definition with_shard (s : ShardConfig) (c : Config) : Config := {|
  cfg_mode := cfg_mode c; cfg_router := cfg_router c; cfg_shard := s;
  cfg_suggest_shard := cfg_suggest_shard c; cfg_ranker := cfg_ranker c;
  cfg_telemetry := cfg_telemetry c |}.

(** The command line replaces the mode, the shard's number, count, directory
    and port, and the HTTP port, whether or not it names them. *)
Definition apply_cli (cli : Cli) (c : Config) : Config := {|
  cfg_mode := cli_mode cli;
  cfg_router := let r := cfg_router c in {|
    rt_http_port := cli_http_port cli;
    rt_shard_endpoints := rt_shard_endpoints r; rt_shards := rt_shards r;
    rt_shard_discovery := rt_shard_discovery r; rt_dns_service := rt_dns_service r;
    rt_query_timeout_ms := rt_query_timeout_ms r; rt_availability := rt_availability r;
    rt_cache := rt_cache r; rt_circuit_breaker := rt_circuit_breaker r;
    rt_suggest_shards := rt_suggest_shards r;
    rt_suggest_write_timeout_ms := rt_suggest_write_timeout_ms r;
    rt_suggest_query_timeout_ms := rt_suggest_query_timeout_ms r |};
  cfg_shard := let s := cfg_shard c in {|
    sc_grpc_port := cli_grpc_port cli; sc_shard_id := cli_shard_id cli;
    sc_data_dir := cli_data_dir cli; sc_num_shards := cli_num_shards cli;
    sc_write_buffer_size := sc_write_buffer_size s; sc_merge_threads := sc_merge_threads s;
    sc_role := sc_role s; sc_replica_endpoints := sc_replica_endpoints s;
    sc_replica_endpoint_template := sc_replica_endpoint_template s;
    sc_primary_endpoint := sc_primary_endpoint s;
    sc_primary_endpoint_template := sc_primary_endpoint_template s |};
  cfg_suggest_shard := cfg_suggest_shard c;
  cfg_ranker := cfg_ranker c;
  cfg_telemetry := cfg_telemetry c |}.

Definition with_shard_id (id : Z) (s : ShardConfig) : ShardConfig := {|
  sc_grpc_port := sc_grpc_port s; sc_shard_id := id; sc_data_dir := sc_data_dir s;
  sc_num_shards := sc_num_shards s; sc_write_buffer_size := sc_write_buffer_size s;
  sc_merge_threads := sc_merge_threads s; sc_role := sc_role s;
  sc_replica_endpoints := sc_replica_endpoints s;
  sc_replica_endpoint_template := sc_replica_endpoint_template s;
  sc_primary_endpoint := sc_primary_endpoint s;
  sc_primary_endpoint_template := sc_primary_endpoint_template s |}.

(** The ordinal of a pod: [hostname.rsplit('-').next().parse::<u32>()]. *)
Definition ordinal_of (hostname : string) : option Z :=
  parse_unsigned u32_max (last_part "-" "" hostname).

Definition detect_shard_id (hostname : option string) (s : ShardConfig) : ShardConfig :=
  if sc_shard_id s =? 0 then
    match hostname ≫= ordinal_of with Some ordinal => with_shard_id ordinal s | None => s end
  else s.

(** [take] empties a template that is used. *)
Definition resolve_endpoints (s : ShardConfig) : ShardConfig :=
  let ordinal := format_u64 (sc_shard_id s) in
  let resolve tmpl := str_replace tmpl "{ordinal}" ordinal in
  let use_replicas := bool_decide (sc_replica_endpoints s = []) in
  let use_primary := bool_decide (sc_primary_endpoint s = None) in {|
  sc_grpc_port := sc_grpc_port s; sc_shard_id := sc_shard_id s; sc_data_dir := sc_data_dir s;
  sc_num_shards := sc_num_shards s; sc_write_buffer_size := sc_write_buffer_size s;
  sc_merge_threads := sc_merge_threads s; sc_role := sc_role s;
  sc_replica_endpoints :=
    if use_replicas then
      match sc_replica_endpoint_template s with Some tmpl => [resolve tmpl] | None => [] end
    else sc_replica_endpoints s;
  sc_replica_endpoint_template := if use_replicas then None else sc_replica_endpoint_template s;
  sc_primary_endpoint :=
    if use_primary then resolve <$> sc_primary_endpoint_template s else sc_primary_endpoint s;
  sc_primary_endpoint_template := if use_primary then None else sc_primary_endpoint_template s |}.

(** [Config::from_file]: reading the text is [serde_yaml]'s. *)
Class ConfigReader := { parse_config : string -> outcome string Config }.

Definition read_to_string (p : path) : IO string :=
  contents ← fs_read p;
  let text := String.string_of_list_byte contents in
  if utf8_valid text then mret text else lift (Fail (EIo "stream did not contain valid UTF-8")).

Definition from_file `{ConfigReader} (p : path) : IO Config :=
  contents ← read_to_string p;
  lift (map_err EConfig (parse_config contents)).

(** The file the command line names, if it names one: [expect] panics on an error. *)
Definition load_file `{ConfigReader} (cli : Cli) (d : Disk) : Result (option Config) :=
  match cli_config cli with
  | None => Ret None
  | Some p => match result_of (from_file p) d with Ret c => Ret (Some c) | _ => Panic end
  end.

Definition process_config (cli : Cli) (hostname : option string) (file : option Config) : Config :=
  let config := apply_cli cli (default Config_default file) in
  if bool_decide (cfg_mode config = MShard)
  then with_shard (resolve_endpoints (detect_shard_id hostname (cfg_shard config))) config
  else config.

(** ** The routers *)

Section Wiring.
Context `{IL : IndexLibs} `{SD : Serde WalRecord} `{TD : TempDirLib} `{ML : MathLib}
  `{UO : UnspecifiedOrder} `{MK : MokaLib} `{PF : ParseF64} {W : Type} `{RT : Runtime W}
  `{SN : ShardNet W} `{RN : RankerNet W} `{SS : StockService W}.
(** Where the world keeps the state of the parts. *)
Record Places := mkPlaces {
  next_at : nat -> Lens W Z;                           (* round-robin counter of a group *)
  breaker_at : nat -> nat -> Lens W CircuitBreaker;    (* of a group's endpoint *)
  ranker_breaker_at : Lens W CircuitBreaker;
  cache_at : Lens W QueryCache;
  shard_at : nat -> Lens W (ShardEngine * Disk);
  suggest_at : nat -> Lens W SuggestShardEngine;
}.
Context (places : Places) (load_wasm : string -> Result (outcome string WasmInstance))
  (connect_primary : string -> PrimaryClient).

(** The closure [wrap] of the router mode. *)
Definition wrap_client (cb : CircuitBreakerConfig) (i j : nat) (client : ShardClient W)
  : Task W (ShardClient W) :=
  if cb_enabled cb then call (breaker_client_new (breaker_at places i j) cb client)
  else mret client.

Definition remote_group (cb : CircuitBreakerConfig) (i : nat) (sg : ShardGroupConfig)
  : Task W (ShardGroup W) :=
  primary ← wrap_client cb i 0 (RemoteShardClient (sg_primary sg));
  replicas ← mapM (fun p : nat * string => wrap_client cb i (S p.1) (RemoteShardClient p.2))
               (imap pair (sg_replicas sg));
  call (group_new (next_at places i) primary replicas).

(** [RankerFactory::build(..).unwrap_or_else(|_| NoopRanker)]. *)
Definition build_ranker (config : RankerConfig) : Task W (Ranker W) :=
  ranker ← attempt (ranker_build load_wasm (ranker_breaker_at places) config);
  mret match ranker with Ret ranker => ranker | _ => NoopRanker end.

Definition simple_router (config : Config) (shards : list (ShardClient W)) (ranker : Ranker W)
    (suggest_clients : list (ShardClient W)) : Task W (Router W) :=
  r ← new_simple (imap (fun i client => (next_at places i, client)) shards) ranker
        (rk_timeout_ms (cfg_ranker config)) (rk_candidates (cfg_ranker config))
        (rt_query_timeout_ms (cfg_router config)) (cache_at places);
  mret (with_suggest_shards suggest_clients (rt_suggest_write_timeout_ms (cfg_router config))
          (rt_suggest_query_timeout_ms (cfg_router config)) r).

(** [Mode::Router]: shard groups, or the legacy list of endpoints. *)
Definition router_mode (config : Config) : Task W (Router W) :=
  let rc := cfg_router config in
  let cb := rt_circuit_breaker rc in
  let suggest_clients := (fun ep => RemoteShardClient ep) <$> rt_suggest_shards rc in
  if negb (bool_decide (length (rt_shards rc) = 0%nat)) then
    groups ← mapM (fun p : nat * ShardGroupConfig => remote_group cb p.1 p.2)
               (imap pair (rt_shards rc));
    ranker ← build_ranker (cfg_ranker config);
    availability ← async_lift (build_strategy (rt_availability rc));
    r ← call (with_cache groups ranker (rk_timeout_ms (cfg_ranker config))
                (rk_candidates (cfg_ranker config)) (rt_query_timeout_ms rc) availability
                (cache_at places) (rt_cache rc));
    mret (with_suggest_shards suggest_clients (rt_suggest_write_timeout_ms rc)
            (rt_suggest_query_timeout_ms rc) r)
  else
    shards ← mapM (fun p : nat * string => wrap_client cb p.1 0 (RemoteShardClient p.2))
               (imap pair (rt_shard_endpoints rc));
    if bool_decide (length shards = 0%nat) then async_lift Panic
    else
      ranker ← build_ranker (cfg_ranker config);
      simple_router config shards ranker suggest_clients.

(** [base_data_dir.join(name)] of a relative name. *)
Definition path_join (base name : string) : string :=
  if bool_decide (base = "") then name
  else
    match String.get (String.length base - 1) base with
    | Some "/"%char => base +:+ name
    | _ => base +:+ "/" +:+ name
    end.

(** [ShardConfig { shard_id: i, data_dir: base.join("shard-{i}"), .. }]. *)
Definition standalone_shard_config (s : ShardConfig) (i : nat) : ShardConfig := {|
  sc_grpc_port := sc_grpc_port s; sc_shard_id := Z.of_nat i;
  sc_data_dir := path_join (sc_data_dir s) ("shard-" +:+ format_u64 (Z.of_nat i));
  sc_num_shards := sc_num_shards s; sc_write_buffer_size := sc_write_buffer_size s;
  sc_merge_threads := sc_merge_threads s; sc_role := sc_role s;
  sc_replica_endpoints := sc_replica_endpoints s;
  sc_replica_endpoint_template := sc_replica_endpoint_template s;
  sc_primary_endpoint := sc_primary_endpoint s;
  sc_primary_endpoint_template := sc_primary_endpoint_template s |}.

(** Opening a shard of the process; a failure panics. *)
Definition open_local (s : ShardConfig) (i : nat) : Task W (ShardClient W) := fun w =>
  let place := shard_at places i in
  let '(engine, d) := lget place w in
  match shard_open connect_primary (standalone_shard_config s i) default_product_schema d with
  | (d, Ret engine) => (lset place (engine, d) w, Ret (LocalShardClient place))
  | (d, _) => (lset place (engine, d) w, Panic)
  end.

Definition suggest_config (s : SuggestShardConfig) (i : nat) : SuggestShardConfig := {|
  su_grpc_port := su_grpc_port s; su_shard_id := Z.of_nat i;
  su_num_suggest_shards := su_num_suggest_shards s;
  su_min_doc_frequency := su_min_doc_frequency s;
  su_max_terms_per_shard := su_max_terms_per_shard s; su_fields := su_fields s |}.

Definition local_suggest (s : SuggestShardConfig) (i : nat) : Task W (ShardClient W) := fun w =>
  let place := suggest_at places i in
  (lset place (sge_new (suggest_config s i)) w, Ret (LocalSuggestClient place)).

(** One tick of the background loop: every suggest engine is flushed. *)
Definition suggest_tick (engines : list (Lens W SuggestShardEngine)) : Task W unit :=
  _ ← mapM (fun engine => at_ engine (call sge_flush)) engines;
  mret tt.

(** [Mode::Standalone]. *)
Definition standalone_mode (config : Config) : Task W (Router W) :=
  let num_shards := Z.to_nat (sc_num_shards (cfg_shard config)) in
  let num_suggest := Z.to_nat (su_num_suggest_shards (cfg_suggest_shard config)) in
  shards ← mapM (open_local (cfg_shard config)) (seq 0 num_shards);
  ranker ← build_ranker (cfg_ranker config);
  suggest_clients ← mapM (local_suggest (cfg_suggest_shard config)) (seq 0 num_suggest);
  simple_router config shards ranker suggest_clients.
End Wiring.

(** ** Host names and templates *)

Lemma last_part_free c s : forall part,
  str_mem c s = false -> last_part c part s = (part +:+ s)%string.
Proof.
  induction s as [|a s IH]; intros part Hs; cbn [last_part]; [by rewrite str_app_nil_r|].
  apply orb_false_iff in Hs as [Ha Hs]. rewrite Ha, IH by done. by rewrite str_app_assoc.
Qed.

Lemma last_part_sep c p s : forall part,
  str_mem c s = false -> last_part c part (p +:+ String c s)%string = s.
Proof.
  induction p as [|a p IH]; intros part Hs.
  - change ("" +:+ String c s)%string with (String c s). cbn [last_part].
    rewrite bool_decide_true by done. by rewrite last_part_free.
  - rewrite str_app_cons. cbn [last_part]. case_bool_decide; by apply IH.
Qed.

(** The ordinal of a pod of a stateful set. *)
Lemma ordinal_of_pod pod n :
  in_width 32 n -> ordinal_of (pod +:+ "-" +:+ format_u64 n)%string = Some n.
Proof.
  intros [Hn Hm]. unfold ordinal_of.
  change ("-" +:+ format_u64 n)%string with (String "-" (format_u64 n)).
  rewrite last_part_sep by (by apply format_u64_free).
  pose proof (parse_unsigned_pad u32_max 0 n) as Hp. unfold zero_pad in Hp. cbn in Hp.
  apply Hp; unfold u32_max; lia.
Qed.

Lemma strip_prefix_other s b p :
  str_mem b s = false -> str_strip_prefix s (String b p) = None.
Proof.
  destruct s as [|a s]; [done|]. cbn [str_mem str_strip_prefix]. intros [Ha _]%orb_false_iff.
  destruct (ascii_dec b a) as [->|]; [|done]. by rewrite bool_decide_true in Ha.
Qed.

Lemma replace_free fuel : forall s b from to,
  str_mem b s = false -> replace fuel s (String b from) to = s.
Proof.
  induction fuel as [|fuel IH]; intros s b from to Hs; [done|]. cbn [replace].
  rewrite strip_prefix_other by done. destruct s as [|a s]; [done|].
  apply orb_false_iff in Hs as [_ Hs]. by rewrite IH.
Qed.

Lemma replace_once fuel : forall pre post b from to,
  str_mem b pre = false -> str_mem b post = false -> (String.length pre < fuel)%nat ->
  replace fuel (pre +:+ String b from +:+ post)%string (String b from) to
    = (pre +:+ to +:+ post)%string.
Proof.
  induction fuel as [|fuel IH]; intros pre post b from to Hpre Hpost Hf; [lia|].
  destruct pre as [|a pre].
  - cbn [replace].
    change ("" +:+ String b from +:+ post)%string with (String b from +:+ post)%string.
    rewrite (proj2 (str_strip_prefix_spec _ _ post) eq_refl). by rewrite replace_free.
  - apply orb_false_iff in Hpre as [Ha Hpre]. rewrite str_app_cons. cbn [replace].
    assert (str_strip_prefix (String a (pre +:+ String b from +:+ post)) (String b from) = None) as ->.
    { cbn [str_strip_prefix]. destruct (ascii_dec b a) as [->|]; [|done].
      by rewrite bool_decide_true in Ha. }
    rewrite IH by (done || (cbn in Hf; lia)). done.
Qed.

(** A template with one place holder. *)
Lemma resolve_template pre post id :
  str_mem "{" pre = false -> str_mem "{" post = false ->
  str_replace (pre +:+ "{ordinal}" +:+ post)%string "{ordinal}" id = (pre +:+ id +:+ post)%string.
Proof.
  intros Hpre Hpost. unfold str_replace.
  apply (replace_once _ pre post "{" "ordinal}" id); [done..|].
  clear. induction pre as [|a pre IH]; [cbn; lia|]. rewrite str_app_cons. cbn [String.length] in *. lia.
Qed.

Lemma replicas_resolved s tmpl :
  sc_replica_endpoints s = [] -> sc_replica_endpoint_template s = Some tmpl ->
  sc_replica_endpoints (resolve_endpoints s)
    = [str_replace tmpl "{ordinal}" (format_u64 (sc_shard_id s))].
Proof.
  intros H1 H2. unfold resolve_endpoints. cbn [sc_replica_endpoints].
  by rewrite bool_decide_true, H2.
Qed.

Lemma primary_resolved s tmpl :
  sc_primary_endpoint s = None -> sc_primary_endpoint_template s = Some tmpl ->
  sc_primary_endpoint (resolve_endpoints s)
    = Some (str_replace tmpl "{ordinal}" (format_u64 (sc_shard_id s))).
Proof.
  intros H1 H2. unfold resolve_endpoints. cbn [sc_primary_endpoint].
  by rewrite bool_decide_true, H2.
Qed.

(** ** Claims *)

(** C39: the configuration a process runs with.  The command line decides the
    mode, the ports, the directory and the shard count in every case.  A shard
    whose number is not given takes it from the ordinal of its pod's name; with
    its number it turns the endpoint templates into endpoints, unless the
    configuration lists endpoints itself. *)
Theorem process_config_correct (cli : Cli) (hostname : option string) (file : option Config) :
  let given := cfg_shard (default Config_default file) in
  let c := process_config cli hostname file in
  let s := cfg_shard c in
  cfg_mode c = cli_mode cli /\ rt_http_port (cfg_router c) = cli_http_port cli /\
  sc_grpc_port s = cli_grpc_port cli /\ sc_data_dir s = cli_data_dir cli /\
  sc_num_shards s = cli_num_shards cli /\
  (cli_mode cli <> MShard -> sc_shard_id s = cli_shard_id cli /\
     sc_replica_endpoints s = sc_replica_endpoints given /\
     sc_primary_endpoint s = sc_primary_endpoint given) /\
  (cli_mode cli = MShard ->
     (cli_shard_id cli <> 0 -> sc_shard_id s = cli_shard_id cli) /\
     (forall pod n, cli_shard_id cli = 0 -> in_width 32 n ->
        hostname = Some (pod +:+ "-" +:+ format_u64 n)%string -> sc_shard_id s = n) /\
     (sc_replica_endpoints given <> [] -> sc_replica_endpoints s = sc_replica_endpoints given) /\
     (sc_primary_endpoint given <> None -> sc_primary_endpoint s = sc_primary_endpoint given) /\
     forall pre post, str_mem "{" pre = false -> str_mem "{" post = false ->
       let tmpl := (pre +:+ "{ordinal}" +:+ post)%string in
       let resolved := (pre +:+ format_u64 (sc_shard_id s) +:+ post)%string in
       (sc_replica_endpoints given = [] -> sc_replica_endpoint_template given = Some tmpl ->
          sc_replica_endpoints s = [resolved]) /\
       (sc_primary_endpoint given = None -> sc_primary_endpoint_template given = Some tmpl ->
          sc_primary_endpoint s = Some resolved)).
Proof.
  intros given c s. subst s c. unfold process_config.
  set (config := apply_cli cli (default Config_default file)).
  case_bool_decide as Hm; cbn [config apply_cli cfg_mode] in Hm.
  2: { split_and!; try done. }
  set (found := detect_shard_id hostname (cfg_shard config)).
  assert (exists id, found = with_shard_id id (cfg_shard config)) as [id Hid].
  { unfold found, detect_shard_id. destruct (_ =? 0); [destruct (_ ≫= _) as [n|]|].
    - by exists n.
    - exists (sc_shard_id (cfg_shard config)). by destruct (cfg_shard config).
    - exists (sc_shard_id (cfg_shard config)). by destruct (cfg_shard config). }
  cbn [with_shard cfg_mode cfg_router cfg_shard]. split_and!; [done|done|by rewrite Hid..|done|].
  intros _. split_and!.
  - intros Hne. cbn. unfold found, detect_shard_id. cbn. by rewrite (proj2 (Z.eqb_neq _ _) Hne).
  - intros pod n Hz Hn ->. change (sc_shard_id found = n). unfold found, detect_shard_id.
    cbn [config apply_cli cfg_shard sc_shard_id]. rewrite Hz. cbn [Z.eqb mbind option_bind].
    by rewrite ordinal_of_pod.
  - intros Hne. cbn. rewrite Hid. cbn. by rewrite bool_decide_false.
  - intros Hne. cbn. rewrite Hid. cbn. by rewrite bool_decide_false.
  - intros pre post Hpre Hpost. rewrite Hid. 
    change (sc_shard_id (resolve_endpoints (with_shard_id id (cfg_shard config))))
      with (sc_shard_id (with_shard_id id (cfg_shard config))).
    split; intros Hnone Ht.
    + rewrite <- (resolve_template pre post) by done. by apply replicas_resolved.
    + rewrite <- (resolve_template pre post) by done. by apply primary_resolved.
Qed.

Lemma process_config_correct_witness :
  let cli := mkCli MShard None 4 "./data" 8080 9001 0 in
  let file := {| cfg_mode := MShard; cfg_router := RouterConfig_default;
    cfg_shard := mkShardConfig 9001 0 "./data" 4 1000 2 Primary [] (Some "shard-{ordinal}-replica:9001")
      None None;
    cfg_suggest_shard := SuggestShardConfig_default; cfg_ranker := RankerConfig_default;
    cfg_telemetry := TelemetryConfig_default |} in
  sc_shard_id (cfg_shard (process_config cli (Some "shard-12") (Some file))) = 12 /\
  sc_replica_endpoints (cfg_shard (process_config cli (Some "shard-12") (Some file)))
    = ["shard-12-replica:9001"].
Proof.
  intros cli file.
  destruct (process_config_correct cli (Some "shard-12") (Some file)) as (_ & _ & _ & _ & _ & _ & H).
  destruct (H eq_refl) as (_ & H1 & _ & _ & H2). split.
  - apply (H1 "shard" 12); [reflexivity|vm_compute; split; [discriminate|reflexivity]|reflexivity].
  - destruct (H2 "shard-" "-replica:9001") as [H3 _]; [reflexivity|reflexivity|].
    rewrite H3; reflexivity.
Defined.

(** ** Which part of the configuration a router gets *)
Section WiringSpecs.
Context `{IL : IndexLibs} `{SD : Serde WalRecord} `{TD : TempDirLib} `{ML : MathLib}
  `{UO : UnspecifiedOrder} `{MK : MokaLib} `{PF : ParseF64} {W : Type} `{RT : Runtime W}
  `{SN : ShardNet W} `{RN : RankerNet W} `{SS : StockService W}.
Context (places : Places (W := W)) (load_wasm : string -> Result (outcome string WasmInstance)).
Context (Hload : forall path, load_wasm path <> Panic).

Lemma wrap_client_yields cb i j client : yields (wrap_client places cb i j client) (fun _ => True).
Proof. unfold wrap_client. destruct (cb_enabled cb); [by apply yields_call|by apply yields_ret]. Qed.

Lemma remote_group_yields cb i sg :
  yields (remote_group places cb i sg) (fun g => replica_count g = length (sg_replicas sg)).
Proof.
  unfold remote_group. eapply yields_bind; [apply wrap_client_yields|]. intros primary _.
  eapply yields_bind; [apply yields_mapM; intros; apply wrap_client_yields|]. intros replicas [Hl _].
  apply yields_call. intros w. cbn. by rewrite Hl, length_imap.
Qed.

Lemma build_ranker_yields config : yields (build_ranker places load_wasm config) (fun _ => True).
Proof.
  unfold build_ranker. eapply yields_bind; [apply yields_attempt|intros; by apply yields_ret].
  intros w. unfold ranker_build, mbind, Async_bind.
  destruct (rk_type config); cbn; [| |].
  - by destruct (_ && _).
  - destruct (rk_grpc_endpoint config); cbn; [|done]. by destruct (_ && _).
  - destruct (rk_wasm_module config) as [path|]; cbn; [|done].
    specialize (Hload path). destruct (load_wasm path); cbn; [|done|done]. by destruct (_ && _).
Qed.

Lemma simple_router_yields config shards ranker suggest_clients :
  yields (simple_router places config shards ranker suggest_clients) (fun r =>
    ro_availability r = NoopStrategy /\ ro_cache r = None /\
    length (ro_shards r) = length shards /\ ro_suggest_shards r = suggest_clients).
Proof.
  unfold simple_router. eapply (yields_bind _ _ (fun r => ro_availability r = NoopStrategy /\
    ro_cache r = None /\ length (ro_shards r) = length shards)).
  - unfold new_simple. eapply yields_bind; [apply yields_mapM; intros p _; by apply (yields_call _ (fun _ => True))|].
    intros groups [Hl _]. rewrite length_imap in Hl. apply yields_call. intros w.
    unfold router_new, with_cache. cbn. done.
  - intros r (H1 & H2 & H3). apply yields_ret. done.
Qed.

Lemma router_mode_groups config s : rt_shards (cfg_router config) <> [] ->
  build_strategy (rt_availability (cfg_router config)) = Ret s ->
  yields (router_mode places load_wasm config) (fun r =>
    ro_availability r = s /\
    ro_cache r = (if qc_enabled (rt_cache (cfg_router config)) then Some (cache_at places) else None) /\
    Forall2 (fun sg g => replica_count g = length (sg_replicas sg))
      (rt_shards (cfg_router config)) (ro_shards r) /\
    length (ro_suggest_shards r) = length (rt_suggest_shards (cfg_router config))).
Proof.
  intros Hne Hs. unfold router_mode. rewrite Hs.
  case_bool_decide as Hl; [by destruct (rt_shards _)|]. cbn [negb].
  eapply yields_bind; [apply (yields_mapM_rel _ _ (fun p g => replica_count g = length (sg_replicas p.2)));
    intros p _; apply remote_group_yields|].
  intros groups Hg. eapply yields_bind; [apply build_ranker_yields|]. intros ranker _.
  apply (yields_bind _ _ (eq s)); [apply (yields_ret s); done|]. intros ? <-.
  eapply (yields_bind _ _ (fun r => ro_availability r = s /\
    ro_cache r = (if qc_enabled (rt_cache (cfg_router config)) then Some (cache_at places) else None) /\
    ro_shards r = groups)).
  - apply yields_call. intros w. unfold with_cache, cache_build.
    by destruct (qc_enabled (rt_cache (cfg_router config))).
  - intros r (H1 & H2 & H3). apply yields_ret. cbn. rewrite H1, H2, H3, length_fmap.
    split_and!; [done|done| |done].
    assert ((imap pair (rt_shards (cfg_router config))).*2 = rt_shards (cfg_router config)) as <-.
    { generalize (rt_shards (cfg_router config)). intros l. apply list_eq. intros i.
      rewrite list_lookup_fmap, list_lookup_imap. by destruct (l !! i). }
    by apply Forall2_fmap_l.
Qed.

(** Availability and the query cache are configured for shard groups only: the
    plain list of endpoints gets neither, and an empty list stops the process. *)
Theorem router_wiring config :
  (forall s, rt_shards (cfg_router config) <> [] ->
     build_strategy (rt_availability (cfg_router config)) = Ret s ->
     yields (router_mode places load_wasm config) (fun r =>
       ro_availability r = s /\
       ro_cache r = (if qc_enabled (rt_cache (cfg_router config)) then Some (cache_at places) else None) /\
       Forall2 (fun sg g => replica_count g = length (sg_replicas sg))
         (rt_shards (cfg_router config)) (ro_shards r) /\
       length (ro_suggest_shards r) = length (rt_suggest_shards (cfg_router config)))) /\
  (rt_shards (cfg_router config) = [] -> rt_shard_endpoints (cfg_router config) <> [] ->
     yields (router_mode places load_wasm config) (fun r =>
       ro_availability r = NoopStrategy /\ ro_cache r = None /\
       length (ro_shards r) = length (rt_shard_endpoints (cfg_router config)))) /\
  (rt_shards (cfg_router config) = [] -> rt_shard_endpoints (cfg_router config) = [] ->
     forall w, (router_mode places load_wasm config w).2 = Panic).
Proof.
  split_and!.
  - intros s Hne Hs. by apply router_mode_groups.
  - intros Hs He. unfold router_mode. rewrite Hs. cbn [length]. rewrite bool_decide_true by done.
    cbn [negb]. eapply yields_bind; [apply yields_mapM; intros; apply wrap_client_yields|].
    intros shards [Hl _]. rewrite length_imap in Hl. rewrite bool_decide_false.
    2: { rewrite Hl. by destruct (rt_shard_endpoints _). }
    eapply yields_bind; [apply build_ranker_yields|]. intros ranker _.
    eapply yields_mono; [apply simple_router_yields|]. intros r (H1 & H2 & H3 & _).
    split_and!; [done..|]. by rewrite H3, Hl.
  - intros Hs He w. unfold router_mode. by rewrite Hs, He.
Qed.
End WiringSpecs.
