(* ===== verification/Process.v ===== *)
(** A process from start to stop ([main] of [crates/server/src/main.rs]): what
    each mode opens, serves and does at shutdown, the clock of the suggest
    engines, and the remote procedures a shard's server answers. *)
From Stdlib Require Import Strings.Ascii.
From S2P Require Import Prelude Bytes Order Float FloatRound Types Config Breaker Routing Text Decimal.
From S2P Require Import Analysis Posting Disk Inverted Column DocStore Segment Scorer Collector Wand.
From S2P Require Import Executor Multi Object Wal WriteBuffer SegmentList Proto Replication Shard.
From S2P Require Import Async ShardGrpc Suggest Ranker Cache Availability Client Router RouterSearch.
From S2P Require Import Meli Server HttpApp Startup ShardSpecs.

Local Open Scope Z_scope.

(** ** Remote procedure calls *)
Inductive RpcRequest :=
  | QSearch (request : ProtoSearchRequest)
  | QGetDocs (doc_ids : list Z)
  | QIndex (document : option DocumentProto)
  | QBulkIndex (documents : list DocumentProto)
  | QDelete (doc_id : Z)
  | QStats
  | QHealth
  | QFlush
  | QReindex
  | QReplicate (request : ReplicateRequest)
  | QReplicateCatchUp (from_seq : Z)
  | QFullSync
  | QSuggest (request : SuggestRequest).

Inductive RpcReply :=
  | PSearch (resp : ProtoSearchResponse)
  | PDocs (docs : list DocumentProto)
  | PSuccess (success : bool)
  | PCount (count : Z)
  | PStats (stats : StatsResponse)
  | PHealth (healthy : bool) (status : string)
  | PReindex (resp : ReindexResponse)
  | PReplicated (entries : list ReplicateRequest)
  | PSuggestions (entries : list SuggestEntry).

(** [ShardServiceServer::new(..)]. *)
Definition serve_rpc {W} (service : ShardService W) (request : RpcRequest) : Rpc W RpcReply :=
  match request with
  | QSearch r => PSearch <$> sv_search service r
  | QGetDocs ids => PDocs <$> sv_get_docs service ids
  | QIndex doc => PSuccess <$> sv_index service doc
  | QBulkIndex docs => PCount <$> sv_bulk_index service docs
  | QDelete id => PSuccess <$> sv_delete service id
  | QStats => PStats <$> sv_stats service
  | QHealth => (fun p => PHealth p.1 p.2) <$> sv_health service
  | QFlush => PCount <$> sv_flush service
  | QReindex => PReindex <$> sv_reindex service
  | QReplicate r => PSuccess <$> sv_replicate service r
  | QReplicateCatchUp seq => PReplicated <$> sv_replicate_catch_up service seq
  | QFullSync => PDocs <$> sv_full_sync service
  | QSuggest r => PSuggestions <$> sv_suggest service r
  end.

(** ** What happens while a server runs *)
Inductive Input := IHttp (request : HttpRequest) | IRpc (request : RpcRequest) | ITick.
Inductive Output := OHttp (answer : outcome HttpError Reply) | ORpc (answer : outcome Status RpcReply).

(** The inputs in the order they come, each with its effect and its answer; an
    input the process has no listener for is lost. *)
Fixpoint serve_all {W} (step : Input -> W -> W * option Output) (inputs : list Input) (w : W)
  : W * list Output :=
  match inputs with
  | [] => (w, [])
  | i :: inputs =>
      let '(w, o) := step i w in
      let '(w, outputs) := serve_all step inputs w in
      (w, match o with Some o => o :: outputs | None => outputs end)
  end.

Section Process.
Context `{IL : IndexLibs} `{SD : Serde WalRecord} `{TD : TempDirLib} `{ML : MathLib}
  `{UO : UnspecifiedOrder} `{MK : MokaLib} `{PF : ParseF64} `{FD : FloatDebug} `{IJ : ItemJson}
  `{HL : HttpLib} {W : Type} `{RT : Runtime W} `{SN : ShardNet W} `{RN : RankerNet W}
  `{SS : StockService W}.
Context (places : Places (W := W)) (load_wasm : string -> Result (outcome string WasmInstance))
  (connect_primary : string -> PrimaryClient).

(** The HTTP server of a router, with the ticker of its suggest engines. *)
Definition http_step (router : Router W) (engines : list (Lens W SuggestShardEngine)) (i : Input) (w : W)
  : W * option Output :=
  match i with
  | IHttp request => let '(w, r) := http_app router request w in (w, Some (OHttp r))
  | ITick => let '(w, _) := suggest_tick engines w in (w, None)
  | IRpc _ => (w, None)
  end.

(** The gRPC server of a shard or suggest engine. *)
Definition rpc_step (service : ShardService W) (tick : Task W unit) (i : Input) (w : W)
  : W * option Output :=
  match i with
  | IRpc request => let '(w, r) := serve_rpc service request w in (w, Some (ORpc r))
  | ITick => let '(w, _) := tick w in (w, None)
  | IHttp _ => (w, None)
  end.

(** The end of the router and standalone modes: an error is logged. *)
Definition serve_router (router : Router W) (engines : list (Lens W SuggestShardEngine))
    (inputs : list Input) : Task W (list Output) :=
  outputs ← call (serve_all (http_step router engines) inputs);
  _ ← attempt (E' := Error) (flush_all router);
  mret outputs.

Definition open_shard (config : ShardConfig) (place : Lens W (ShardEngine * Disk)) : Task W unit := fun w =>
  let '(s, d) := lget place w in
  match shard_open connect_primary config default_product_schema d with
  | (d, Ret s) => (lset place (s, d) w, Ret tt)
  | (d, _) => (lset place (s, d) w, Panic)
  end.

Definition shard_mode (config : Config) (inputs : list Input) : Task W (list Output) :=
  let place := shard_at places 0 in
  _ ← open_shard (cfg_shard config) place;
  outputs ← call (serve_all (rpc_step (ShardGrpcServer place) (mret tt)) inputs);
  _ ← attempt (E' := Error) (at_ place flush);
  mret outputs.

Definition suggest_mode (config : Config) (inputs : list Input) : Task W (list Output) :=
  let place := suggest_at places 0 in
  _ ← call (fun w => (lset place (sge_new (cfg_suggest_shard config)) w, tt));
  call (serve_all (rpc_step (SuggestGrpcServer place) (suggest_tick [place])) inputs).

(** [match config.mode]. *)
Definition run_mode (config : Config) (inputs : list Input) : Task W (list Output) :=
  match cfg_mode config with
  | MShard => shard_mode config inputs
  | MRouter => router ← router_mode places load_wasm config; serve_router router [] inputs
  | MStandalone =>
      router ← standalone_mode places load_wasm connect_primary config;
      serve_router router
        (suggest_at places <$> seq 0 (Z.to_nat (su_num_suggest_shards (cfg_suggest_shard config)))) inputs
  | MSuggest => suggest_mode config inputs
  end.

(** [main], given the command line, the host name and the files it starts on. *)
Definition main `{CR : ConfigReader} (cli : Cli) (hostname : option string) (d : Disk) (inputs : list Input)
  : Task W (list Output) :=
  file ← async_lift (load_file cli d);
  run_mode (process_config cli hostname file) inputs.
End Process.

(** ** The suggest process *)
Section SuggestProcess.
Context `{TL : TextLib} `{UOL : UnspecifiedOrderLaws} {W : Type} (l : Lens W SuggestShardEngine) `{!LensLaws l}.

Definition suggest_step : Input -> W -> W * option Output :=
  rpc_step (SuggestGrpcServer l) (suggest_tick [l]).

(** The documents an input adds; whether it promotes the builder. *)
Definition documents_of (i : Input) : list Document :=
  match i with
  | IRpc (QIndex (Some doc)) => [proto_to_doc doc]
  | IRpc (QBulkIndex docs) => proto_to_doc <$> docs
  | _ => []
  end.
Definition promotes (i : Input) : bool :=
  match i with ITick | IRpc QFlush => true | _ => false end.

Definition suggest_effect (e : SuggestShardEngine) (i : Input) : SuggestShardEngine :=
  let e := sge_bulk (documents_of i) e in if promotes i then (sge_flush e).1 else e.

Lemma sge_bulk_nil e : sge_bulk [] e = e.
Proof. by destruct e. Qed.

Lemma suggest_step_effect i w : (suggest_step i w).1 = lset l (suggest_effect (lget l w) i) w.
Proof.
  unfold suggest_step, rpc_step, suggest_effect.
  destruct i as [r|q|]; cbn [documents_of promotes]; rewrite ?sge_bulk_nil; [by rewrite lset_lget| |].
  - destruct q as [r|ids|[doc|]|docs|id| | | | |r|seq| |r]; cbn [documents_of promotes]; rewrite ?sge_bulk_nil; reflexivity.
  - unfold suggest_tick, mapM, mbind, Async_bind, at_, call. cbn. by destruct (sge_flush (lget l w)).
Qed.

Lemma serve_all_suggest inputs : forall w,
  (serve_all suggest_step inputs w).1 = lset l (foldl suggest_effect (lget l w) inputs) w.
Proof.
  induction inputs as [|i inputs IH]; intros w; cbn [serve_all foldl]; [by rewrite lset_lget|].
  pose proof (suggest_step_effect i w) as Hi. destruct (suggest_step i w) as [w1 o]. cbn [fst] in Hi. subst w1.
  pose proof (IH (lset l (suggest_effect (lget l w) i) w)) as H.
  destruct (serve_all _ _ _) as [w2 os]. cbn [fst] in *. by rewrite H, lget_lset, lset_lset.
Qed.

(** The builder counts every document, the configuration stays. *)
Lemma effects_builder inputs : forall e,
  let e' := foldl suggest_effect e inputs in
  sge_config e' = sge_config e /\ sge_builder e' = sge_builder (sge_bulk (inputs ≫= documents_of) e).
Proof.
  induction inputs as [|i inputs IH]; intros e; [done|]. cbn zeta. cbn [foldl].
  destruct (IH (suggest_effect e i)) as [H1 H2]. rewrite H1, H2.
  assert (sge_config (suggest_effect e i) = sge_config e /\
    sge_builder (suggest_effect e i) = sge_builder (sge_bulk (documents_of i) e)) as [Hc Hb]
    by (unfold suggest_effect; by destruct (promotes i)).
  split; [done|]. rewrite bind_cons. unfold sge_bulk, set_builder. cbn [sge_builder].
  rewrite Hc, Hb, foldl_app. done.
Qed.

Lemma effects_index inputs : forall e,
  Forall (fun i => promotes i = false) inputs -> sge_index (foldl suggest_effect e inputs) = sge_index e.
Proof.
  induction inputs as [|i inputs IH]; intros e Hp; [done|].
  apply Forall_cons in Hp as [Hi Hp]. cbn [foldl]. rewrite IH by done. unfold suggest_effect. by rewrite Hi.
Qed.

(** After a tick, the index is that of the documents that came before it. *)
Lemma index_of_tick config before after :
  Forall (fun i => promotes i = false) after ->
  sge_index (foldl suggest_effect (sge_new config) (before ++ ITick :: after))
    = sge_index (sge_flush (sge_bulk (before ≫= documents_of) (sge_new config))).1.
Proof.
  intros Hp. rewrite foldl_app. cbn [foldl]. rewrite effects_index by done.
  destruct (effects_builder before (sge_new config)) as [H1 H2].
  unfold suggest_effect at 1. cbn [documents_of promotes]. rewrite sge_bulk_nil.
  unfold sge_flush. cbn [fst sge_index]. by rewrite H1, H2.
Qed.

Lemma serve_all_app {A} (step : Input -> A -> A * option Output) xs : forall ys w,
  serve_all step (xs ++ ys) w =
    let '(w, o1) := serve_all step xs w in let '(w, o2) := serve_all step ys w in (w, o1 ++ o2).
Proof.
  induction xs as [|x xs IH]; intros ys w; cbn [serve_all app].
  - by destruct (serve_all step ys w).
  - destruct (step x w) as [w1 o]. rewrite IH. destruct (serve_all step xs w1) as [w2 o1].
    destruct (serve_all step ys w2) as [w3 o2]. by destruct o.
Qed.
End SuggestProcess.

(** ** What the suggest process answers *)
Section SuggestAnswers.
Context `{TL : TextLib} `{UOL : UnspecifiedOrderLaws}.

Definition entry_pair (e : SuggestEntry) : string * f32 := (sge_term e, sge_score e).

(** A query of an engine that flushed the documents. *)
Lemma flushed_answers config docs prefix limit :
  let freq := frequency docs (su_fields config) in
  (forall t, Z.of_nat (freq t) < 2 ^ 32) -> 0 < su_min_doc_frequency config -> prefix <> ""%string ->
  let engine := (sge_flush (sge_bulk docs (sge_new config))).1 in
  let found := term_pair <$> si_query (sge_index engine) prefix limit in
  (length found <= limit)%nat /\ StronglySorted (fun a b => f_cmp b.2 a.2 <> Gt) found /\
  (forall t s, (t, s) ∈ found -> starts_with t (to_lowercase prefix) = true /\
     su_min_doc_frequency config <= Z.of_nat (freq t)) /\
  (forall t, starts_with t (to_lowercase prefix) = true ->
     su_min_doc_frequency config <= Z.of_nat (freq t) -> t ∉ found.*1 ->
     length found = limit \/
     (0 < su_max_terms_per_shard config /\
      Z.of_nat (si_len (sge_index engine)) = su_max_terms_per_shard config)).
Proof.
  intros freq Hf Hmin Hne engine found.
  pose proof (suggest_flush_correct config docs Hf) as Hflush. fold freq in Hflush.
  destruct (sge_flush (sge_bulk docs (sge_new config))) as [e n] eqn:E. subst engine. cbn [fst] in *.
  destruct Hflush as (Hn & Hnd & (top & Hin) & Hmax & Hout).
  assert (exists terms, sge_index e = si_new terms) as [terms Hterms]
    by (injection E as <- _; by eexists).
  assert (si_terms (sge_index e) ≡ₚ terms) as Hp by (rewrite Hterms; apply sort_by_perm).
  assert (no_nan terms) as Hnan.
  { apply Forall_forall. intros [t s] Hts. rewrite <- Hp in Hts. cbn [snd].
    destruct (Hin t s Hts) as (Hpos & [Hlo Hhi] & -> & u & _ & Hu).
    specialize (Hf u) as Hfu. pose proof (Hf t).
    apply SFdiv_no_nan.
    - apply normalize_sign; lia.
    - apply f32_of_Z_finite. lia.
    - apply f32_of_Z_pos. lia. }
  destruct (suggest_query_correct terms prefix limit Hnan) as [_ Hq].
  destruct (Hq Hne) as (rest & Hperm & Hsort & Hbest & Hlen). rewrite <- Hterms in *. fold found in Hperm, Hsort, Hbest, Hlen.
  split_and!; [lia|done| |].
  - intros t s Hts. assert ((t, s) ∈ found ++ rest) as Hm by (apply elem_of_app; by left).
    rewrite Hperm in Hm. apply list_elem_of_filter in Hm as [Hpre Hm]. split; [done|].
    rewrite <- Hp in Hm. by destruct (Hin t s Hm) as (_ & [? _] & _).
  - intros t Hpre Hfreq Hnot. destruct (decide (t ∈ (si_terms (sge_index e)).*1)) as [Ht|Ht].
    + left. apply list_elem_of_fmap in Ht as ([t' s] & -> & Ht). cbn [fst] in *. rewrite Hp in Ht.
      assert ((t', s) ∈ found ++ rest) as Hm by (rewrite Hperm; by apply list_elem_of_filter).
      apply elem_of_app in Hm as [Hm|Hm].
      { destruct Hnot. apply list_elem_of_fmap. by exists (t', s). }
      pose proof (Permutation_length Hperm) as HL. rewrite length_app in HL.
      destruct rest; [by apply elem_of_nil in Hm|]. cbn in HL. lia.
    + right. destruct (Hout t ltac:(lia) Hfreq Ht) as (? & ? & _). unfold si_len. by rewrite <- Hn.
Qed.
End SuggestAnswers.


Section Witness.
Import TestLibs StableOrder Patient.
#[local] Existing Instance KeepAll.lib.

(** A world with a suggest engine; nothing else is used. *)
Definition unused {T} (t : T) : Lens SuggestShardEngine T := mkLens (fun _ => t) (fun _ w => w).
Definition suggest_places : Places (W := SuggestShardEngine) := {|
  next_at := fun _ => unused 0;
  breaker_at := fun _ _ => unused (breaker_new CircuitBreakerConfig_default);
  ranker_breaker_at := unused (breaker_new CircuitBreakerConfig_default);
  cache_at := unused (mkQueryCache []);
  shard_at := fun _ => unused (sample_shard, sample_disk);
  suggest_at := fun _ => mkLens id (fun e _ => e);
|}.
#[local] Instance suggest_place_laws : LensLaws (suggest_at suggest_places 0).
Proof. by split. Qed.

Definition suggest_process : Config := {|
  cfg_mode := MSuggest; cfg_router := RouterConfig_default; cfg_shard := ShardConfig_default;
  cfg_suggest_shard := sample_config; cfg_ranker := RankerConfig_default;
  cfg_telemetry := TelemetryConfig_default |}.

(** "wired" comes after the tick. *)
Definition indexed_titles : list Input := (fun d => IRpc (QIndex (Some (doc_to_proto d)))) <$> sample_titles.
Definition late_titles : list Input := [IRpc (QBulkIndex [doc_to_proto (titled 4 "wired mouse")])].

End Witness.
