(* ===== verification/ReadBack.v ===== *)
(** Reading documents back, from one shard and through the router: what
    [get_docs] of the engine ([crates/shard/src/shard.rs]) answers, also after
    writes, and the composition of the router, its in-process client and the
    engine ([crates/router/src/{router,client}.rs]). *)
From S2P Require Import Prelude Bytes Order Float Types Config Breaker Routing Text Decimal Analysis.
From S2P Require Import Posting Disk Inverted Column DocStore Segment Scorer Collector Wand Executor.
From S2P Require Import Multi Object Wal WriteBuffer SegmentList Proto Replication Shard ShardSpecs.
From S2P Require Import Async ShardGrpc Suggest Ranker Cache Availability Client Router.

Local Open Scope Z_scope.

(** ** One shard *)
Section ShardReads.
Context `{ILL : IndexLaws} `{SDL : SerdeLaws WalRecord} `{TDL : TempDirLaws} `{ML : MathLib}
  `{UOL : UnspecifiedOrderLaws}.

(** The first buffered document with this id, deleted or not. *)
Definition first_buffered (s : ShardEngine) (id : Z) : option Document :=
  find (fun d => doc_id d =? id) (wb_docs (sh_write_buffer s)).

(** What [get_docs] answers for one id. *)
Definition document_of (s : ShardEngine) (id : Z) : option Document :=
  match sl_get_doc (sh_segments s) id with
  | Ret (Some doc) => Some doc
  | _ => first_buffered s id
  end.

Definition located (s : ShardEngine) (id : Z) : Prop :=
  is_Some (sl_doc_id_map (sh_segments s) !! id).

Lemma first_buffered_spec s id :
  match first_buffered s id with
  | Some doc => doc_id doc = id /\ doc ∈ wb_docs (sh_write_buffer s)
  | None => forall doc, doc ∈ wb_docs (sh_write_buffer s) -> doc_id doc <> id
  end.
Proof.
  unfold first_buffered. destruct (find _ _) as [doc|] eqn:E.
  - apply List.find_some in E as [Hin Hid]. apply list_elem_of_In in Hin. split; [lia|done].
  - intros doc Hdoc. apply list_elem_of_In in Hdoc. apply (List.find_none _ _ E) in Hdoc. lia.
Qed.

Lemma document_of_spec s d recs cs stale id :
  shard_ok s d recs cs stale ->
  match document_of s id with
  | Some doc => doc_id doc = id /\ doc ∈ stored s cs
  | None => ~ located s id /\ forall doc, doc ∈ wb_docs (sh_write_buffer s) -> doc_id doc <> id
  end /\
  (~ located s id -> document_of s id = first_buffered s id).
Proof.
  intros Hs. destruct (sl_get_doc_spec _ _ _ _ _ id (so_list _ _ _ _ _ Hs)) as (o & Ho & Hcase).
  pose proof (first_buffered_spec s id) as Hb. unfold document_of, located. rewrite Ho.
  destruct (sl_doc_id_map (sh_segments s) !! id) as [loc|] eqn:Hm.
  - destruct Hcase as (doc & c & -> & Hid & Hc & Hlive). split.
    + split; [done|]. unfold stored, live_all. apply elem_of_app. left. apply list_elem_of_bind. by exists c.
    + intros []. by eexists.
  - subst o. split; [|done]. destruct (first_buffered s id) as [doc|].
    + destruct Hb as [Hid Hin]. split; [done|]. apply elem_of_app. by right.
    + split; [by intros []|done].
Qed.

Lemma shard_get_docs_spec s d recs cs stale ids :
  shard_ok s d recs cs stale -> shard_get_docs s ids = Ret (omap (document_of s) ids).
Proof.
  intros Hs. unfold shard_get_docs.
  enough (forall acc, try_fold (get_one s) acc ids = Ret (acc ++ omap (document_of s) ids)) as H
    by apply H.
  induction ids as [|id ids IH]; intros acc; cbn [try_fold omap list_omap]; [by rewrite app_nil_r|].
  assert (get_one s acc id = Ret (acc ++ option_list (document_of s id))) as ->.
  { destruct (sl_get_doc_spec _ _ _ _ _ id (so_list _ _ _ _ _ Hs)) as (o & Ho & _).
    unfold get_one, document_of, first_buffered. rewrite Ho. cbn [mbind outcome_bind].
    destruct o; [done|]. destruct (find _ _); [done|]. cbn. by rewrite app_nil_r. }
  cbn [mbind outcome_bind]. rewrite IH. destruct (document_of s id); cbn; by rewrite <- (assoc (++)).
Qed.

(** After a write of [doc] its id is found: [doc] itself unless the id was in
    use before. *)
Lemma index_document_of s d recs cs doc :
  shard_ok s d recs cs [] ->
  record_fits (mkWalRecord (wal_next_seq (sh_wal s)) (WalIndex doc)) ->
  all_fit (sh_schema s) (stored s cs ++ [doc]) ->
  sl_next_segment_seq (sh_segments s) + 2 < 2 ^ 64 ->
  exists s' d' recs' cs' x, shard_index doc (s, d) = ((s', d'), Ret tt) /\
    shard_ok s' d' recs' cs' [] /\ stored s' cs' ≡ₚ stored s cs ++ [doc] /\
    document_of s' (doc_id doc) = Some x /\ doc_id x = doc_id doc /\ x ∈ stored s cs ++ [doc] /\
    ((forall y, y ∈ stored s cs -> doc_id y <> doc_id doc) -> x = doc) /\
    sh_schema s' = sh_schema s /\
    (wb_deleted_ids (sh_write_buffer s) = ∅ -> wb_deleted_ids (sh_write_buffer s') = ∅).
Proof.
  intros Hs Hrec Hfit Hn.
  destruct (shard_index_spec s d recs cs doc Hs Hrec Hfit Hn)
    as (s' & d' & recs' & cs' & Hr & Hok & Hsch & Hst & Hcase).
  destruct (document_of_spec s' d' recs' cs' [] (doc_id doc) Hok) as [Hdoc _].
  exists s', d', recs', cs'. destruct (document_of s' (doc_id doc)) as [x|].
  - destruct Hdoc as [Hid Hx]. rewrite Hst in Hx. exists x. split_and!; [done..| |apply Hsch|].
    + intros Hnew. apply elem_of_app in Hx as [Hx|Hx%list_elem_of_singleton]; [|done].
      by destruct (Hnew x Hx).
    + destruct ((wb_add doc (sh_write_buffer s)).2).
      * by destruct Hcase as (_ & _ & ? & _).
      * by destruct Hcase as (_ & _ & _ & -> & _).
  - destruct Hdoc as [Hloc Hbuf]. exfalso. destruct ((wb_add doc (sh_write_buffer s)).2).
    + destruct Hcase as (_ & _ & _ & _ & Hreg). apply Hloc, Hreg. set_solver.
    + destruct Hcase as (_ & _ & Hdocs & _). apply (Hbuf doc); [|done]. rewrite Hdocs. set_solver.
Qed.

Lemma delete_document_of s d recs cs id :
  shard_ok s d recs cs [] -> record_fits (mkWalRecord (wal_next_seq (sh_wal s)) (WalDelete id)) ->
  exists s' d' cs', shard_delete id (s, d) = ((s', d'), Ret tt) /\
    shard_ok s' d' (recs ++ [mkWalRecord (wal_next_seq (sh_wal s)) (WalDelete id)]) cs' [] /\
    document_of s' id = first_buffered s id.
Proof.
  intros Hs Hrec. destruct (shard_delete_spec s d recs cs id Hs Hrec)
    as (s' & d' & cs' & Hr & Hok & Hdocs & _ & Hmap & _).
  exists s', d', cs'. split_and!; [done..|].
  destruct (document_of_spec s' d' _ cs' [] id Hok) as [_ ->].
  - unfold first_buffered. by rewrite Hdocs.
  - unfold located. rewrite Hmap, lookup_delete_eq. by intros [? ?].
Qed.
End ShardReads.

(** C22: reading documents by id.  The request never fails and answers each id on
    its own, in order, with a stored document of that id if one is found; an id
    goes without an answer only when neither the segments' map nor the buffer
    knows it.  A document just written is found: the one written, unless an
    older one has the id.  A deleted id is found as long as the buffer still
    holds a document with it, and then it is that document. *)
Theorem shard_get_docs_correct `{ILL : IndexLaws} `{SDL : SerdeLaws WalRecord} `{TDL : TempDirLaws}
    `{ML : MathLib} `{UOL : UnspecifiedOrderLaws} (s : ShardEngine) (d : Disk)
    (recs : list WalRecord) (cs : list Contents) :
  shard_ok s d recs cs [] ->
  (forall ids, shard_get_docs s ids = Ret (omap (document_of s) ids)) /\
  (forall id, match document_of s id with
    | Some doc => doc_id doc = id /\ doc ∈ stored s cs
    | None => sl_doc_id_map (sh_segments s) !! id = None /\
        forall doc, doc ∈ wb_docs (sh_write_buffer s) -> doc_id doc <> id
    end) /\
  (forall doc, record_fits (mkWalRecord (wal_next_seq (sh_wal s)) (WalIndex doc)) ->
     all_fit (sh_schema s) (stored s cs ++ [doc]) ->
     sl_next_segment_seq (sh_segments s) + 2 < 2 ^ 64 ->
     exists s' d' x, shard_index doc (s, d) = ((s', d'), Ret tt) /\
       shard_get_docs s' [doc_id doc] = Ret [x] /\ doc_id x = doc_id doc /\
       ((forall y, y ∈ stored s cs -> doc_id y <> doc_id doc) -> x = doc)) /\
  (forall id, record_fits (mkWalRecord (wal_next_seq (sh_wal s)) (WalDelete id)) ->
     exists s' d', shard_delete id (s, d) = ((s', d'), Ret tt) /\
       shard_get_docs s' [id] = Ret (option_list (first_buffered s id))).
Proof.
  intros Hs. split_and!.
  - intros ids. by eapply shard_get_docs_spec.
  - intros id. destruct (document_of_spec s d recs cs [] id Hs) as [H _].
    destruct (document_of s id); [done|]. unfold located in H. by rewrite eq_None_not_Some.
  - intros doc Hrec Hfit Hn. destruct (index_document_of s d recs cs doc Hs Hrec Hfit Hn)
      as (s' & d' & recs' & cs' & x & Hr & Hok & _ & Hx & Hid & _ & Hnew & _).
    exists s', d', x. split_and!; [done| |done|done].
    rewrite (shard_get_docs_spec _ _ _ _ _ _ Hok). cbn. by rewrite Hx.
  - intros id Hrec. destruct (delete_document_of s d recs cs id Hs Hrec) as (s' & d' & cs' & Hr & Hok & Hx).
    exists s', d'. split; [done|]. rewrite (shard_get_docs_spec _ _ _ _ _ _ Hok). cbn. rewrite Hx.
    by destruct (first_buffered s id).
Qed.

(** ** Through the router *)

Lemma filter_single {A} (P : A -> Prop) `{!forall a, Decision (P a)} (l : list A) k x :
  l !! k = Some x -> P x -> (forall i y, l !! i = Some y -> P y -> i = k) -> filter P l = [x].
Proof.
  revert k. induction l as [|a l IH]; intros [|k] Hk Hx Hone; [done..| |]; cbn in Hk.
  - injection Hk as ->. rewrite filter_cons_True by done. f_equal. apply filter_none.
    intros y Hy HP. apply list_elem_of_lookup in Hy as [i Hi]. by specialize (Hone (S i) y Hi HP).
  - rewrite filter_cons_False by (intros HP; by specialize (Hone 0%nat a eq_refl HP)).
    apply (IH k Hk Hx). intros i y Hi HP. specialize (Hone (S i) y Hi HP). lia.
Qed.

Section RouterReads.
Context `{ILL : IndexLaws} `{SDL : SerdeLaws WalRecord} `{TDL : TempDirLaws} `{ML : MathLib}
  `{UOL : UnspecifiedOrderLaws} `{MK : MokaLib} {W : Type} `{RT : Runtime W}.

(** In this router the id lives in the in-process shard at [place], which
    neither the group's counter nor writes to the suggest cluster touch. *)
Record lives_in (r : Router W) (id : Z) (place : Lens W (ShardEngine * Disk)) : Prop := {
  li_lens : LensLaws place;
  li_shards : shards_ok (ro_shards r);
  li_suggest : shards_ok (ro_suggest_shards r);
  li_fan_out : forall docs w, lget place (fan_out_suggest_write r docs w).1 = lget place w;
  li_group : exists next, ro_shards r !! Z.to_nat (shard_for r id)
      = Some (mkShardGroup (LocalShardClient place) [] next) /\
    forall n w, lget place (lset next n w) = lget place w;
}.

Lemma fetch_one r id place w s d recs cs :
  lives_in r id place -> lget place w = (s, d) -> shard_ok s d recs cs [] ->
  exists w', fetch_docs r [id] w = (w', Ret (option_list (document_of s id))) /\
    lget place w' = (s, d).
Proof.
  intros [Hlens Hok _ _ (next & Hg & Hnext)] Hw Hs. set (g := mkShardGroup _ _ _) in Hg.
  assert (0 < Z.of_nat (length (ro_shards r)) < 2 ^ 32) as Hn.
  { unfold shards_ok in Hok. apply lookup_lt_Some in Hg. lia. }
  pose proof (bucket_of_range id _ Hn) as Hb. fold (shard_for r id) in Hb.
  destruct (partition_ret (E := Error) (shard_for r) (length (ro_shards r)) [id])
    as (parts & Hp & Hlen & Hparts); [by apply Forall_singleton|].
  set (w1 := lset next (wrap 64 (lget next w + 1)) w).
  assert (read_target g w = (w1, LocalShardClient place)) as Ht.
  { pose proof (read_target_endpoint g w) as H. apply list_elem_of_singleton in H.
    unfold read_target in *. cbn [snd] in H. f_equal. exact H. }
  assert (attempt (E' := Error) (cl_get_docs (LocalShardClient place) [id]) w1
    = (lset place (s, d) w1, Ret (Ret (option_list (document_of s id))))) as Ha.
  { apply attempt_ret; [|done]. cbn [LocalShardClient cl_get_docs]. unfold at_, w1.
    rewrite Hnext, Hw. unfold mbind, Obj_bind, Async_bind, get_self, obj_lift. cbn [fst].
    rewrite (shard_get_docs_spec _ _ _ _ _ _ Hs). cbn. by destruct (document_of s id). }
  exists (lset place (s, d) w1). split; [|by rewrite lget_lset].
  unfold fetch_docs. rewrite bool_decide_false by done.
  rewrite (async_bind_ret _ _ w w parts) by (unfold async_lift; by rewrite Hp).
  rewrite (filter_single _ _ (Z.to_nat (shard_for r id)) (g, [id])).
  - rewrite (async_bind_ret _ _ w w1 [(LocalShardClient place, [id])]).
    2: { cbn [mapM fst snd]. unfold call, mbind, Async_bind. by rewrite Ht. }
    rewrite (async_bind_ret _ _ w1 (lset place (s, d) w1) [Ret (option_list (document_of s id))]).
    2: { cbn [fmap list_fmap join_all fst snd]. unfold mbind, Async_bind at 1. by rewrite Ha. }
    unfold mret, Async_ret. cbn. by rewrite app_nil_r.
  - apply lookup_zip_with_Some. exists g, [id]. split_and!; [done|done|].
    destruct (lookup_lt_is_Some_2 parts (Z.to_nat (shard_for r id))) as [part Hpart];
      [by rewrite Hlen; eapply lookup_lt_Some|].
    rewrite Hpart, (Hparts _ _ Hpart), filter_cons_True by (cbn; lia). done.
  - done.
  - intros i [g' ids] Hi Hne. cbn in Hne. apply lookup_zip_with_Some in Hi as (? & ? & [= <- <-] & _ & Hi).
    rewrite (Hparts _ _ Hi), filter_cons in Hne. case_decide; [lia|done].
Qed.

Lemma index_routed r doc place w s d :
  lives_in r (doc_id doc) place -> lget place w = (s, d) ->
  exists w0, fan_out_suggest_write r [doc] w = (w0, Ret tt) /\ index r doc w
    = (lset place (shard_index doc (s, d)).1 w0, (shard_index doc (s, d)).2).
Proof.
  intros [Hlens _ Hsug Hfan (next & Hg & _)] Hw.
  destruct (fan_out_ret r [doc] w Hsug) as [w0 Hf]. exists w0. split; [done|].
  assert (lget place w0 = (s, d)) as Hw0 by (specialize (Hfan [doc] w); rewrite Hf in Hfan; cbn in Hfan; congruence).
  unfold index. erewrite async_bind_ret by exact Hf.
  unfold group_for. rewrite Hg. erewrite async_bind_ret by reflexivity.
  cbn [write_target gr_primary LocalShardClient cl_index]. unfold at_. rewrite Hw0.
  by destruct (shard_index doc (s, d)).
Qed.

Lemma delete_routed r id place w s d :
  lives_in r id place -> lget place w = (s, d) ->
  delete_doc r id w = (lset place (shard_delete id (s, d)).1 w, (shard_delete id (s, d)).2).
Proof.
  intros [Hlens _ _ _ (next & Hg & _)] Hw. unfold delete_doc, group_for. rewrite Hg.
  erewrite async_bind_ret by reflexivity.
  cbn [write_target gr_primary LocalShardClient cl_delete]. unfold at_. rewrite Hw.
  by destruct (shard_delete id (s, d)).
Qed.
End RouterReads.

(** C17: a router of in-process shards reads its writes.  Indexing a document
    succeeds, adds it to what its shard stores, and fetching its id then gives
    one document: the one written, unless an older one has the id.  Deleting
    succeeds, and fetching then gives nothing but a document the shard still
    buffers.  Fetching leaves the shard as it is. *)
Theorem router_reads_writes `{ILL : IndexLaws} `{SDL : SerdeLaws WalRecord} `{TDL : TempDirLaws}
    `{ML : MathLib} `{UOL : UnspecifiedOrderLaws} `{MK : MokaLib} {W : Type} `{RT : Runtime W}
    (r : Router W) (place : Lens W (ShardEngine * Disk)) (w : W) (s : ShardEngine) (d : Disk)
    (recs : list WalRecord) (cs : list Contents) :
  lget place w = (s, d) -> shard_ok s d recs cs [] ->
  (forall doc, lives_in r (doc_id doc) place ->
     record_fits (mkWalRecord (wal_next_seq (sh_wal s)) (WalIndex doc)) ->
     all_fit (sh_schema s) (stored s cs ++ [doc]) ->
     sl_next_segment_seq (sh_segments s) + 2 < 2 ^ 64 ->
     exists w1 s1 d1 recs1 cs1 w2 x, index r doc w = (w1, Ret tt) /\
       lget place w1 = (s1, d1) /\ shard_ok s1 d1 recs1 cs1 [] /\
       stored s1 cs1 ≡ₚ stored s cs ++ [doc] /\
       fetch_docs r [doc_id doc] w1 = (w2, Ret [x]) /\ lget place w2 = (s1, d1) /\
       doc_id x = doc_id doc /\ x ∈ stored s1 cs1 /\
       ((forall y, y ∈ stored s cs -> doc_id y <> doc_id doc) -> x = doc)) /\
  (forall id, lives_in r id place ->
     record_fits (mkWalRecord (wal_next_seq (sh_wal s)) (WalDelete id)) ->
     exists w1 s1 d1 w2, delete_doc r id w = (w1, Ret tt) /\ lget place w1 = (s1, d1) /\
       fetch_docs r [id] w1 = (w2, Ret (option_list (first_buffered s id))) /\
       lget place w2 = (s1, d1)).
Proof.
  intros Hw Hs. split.
  - intros doc Hin Hrec Hfit Hn.
    destruct (index_document_of s d recs cs doc Hs Hrec Hfit Hn)
      as (s1 & d1 & recs1 & cs1 & x & Hr & Hok & Hst & Hx & Hid & Hx' & Hnew & _).
    destruct (index_routed r doc place w s d Hin Hw) as (w0 & _ & Hi). rewrite Hr in Hi. cbn in Hi.
    assert (lget place (lset place (s1, d1) w0) = (s1, d1)) as Hw1 by apply Hin.
    destruct (fetch_one r (doc_id doc) place _ s1 d1 recs1 cs1 Hin Hw1 Hok) as (w2 & Hf & Hw2).
    rewrite Hx in Hf. eexists _, s1, d1, recs1, cs1, w2, x. rewrite Hst. by split_and!.
  - intros id Hin Hrec. destruct (delete_document_of s d recs cs id Hs Hrec)
      as (s1 & d1 & cs1 & Hr & Hok & Hx).
    pose proof (delete_routed r id place w s d Hin Hw) as Hi. rewrite Hr in Hi. cbn in Hi.
    assert (lget place (lset place (s1, d1) w) = (s1, d1)) as Hw1 by apply Hin.
    destruct (fetch_one r id place _ s1 d1 _ cs1 Hin Hw1 Hok) as (w2 & Hf & Hw2).
    rewrite Hx in Hf. eexists _, s1, d1, w2. by split_and!.
Qed.

Section Witness.
Import TestLibs StableOrder CountableSerde WriteBuffer.FreshTemp.
#[local] Instance identity_ln : MathLib := {| f32_ln := fun x => x |}.

Lemma shard_get_docs_correct_witness :
  shard_get_docs sample_shard [8; 9; 7] = Ret [doc_b; doc_a] /\
  (forall ids, shard_get_docs sample_shard ids = Ret (omap (document_of sample_shard) ids)) /\
  exists s' d' x, shard_index doc_b (small_shard, sample_disk) = ((s', d'), Ret tt) /\
    shard_get_docs s' [8] = Ret [x] /\ x = doc_b.
Proof.
  split; [vm_compute; reflexivity|]. split.
  - apply (shard_get_docs_correct sample_shard sample_disk sample_records []). exact sample_shard_ok.
  - destruct (shard_get_docs_correct small_shard sample_disk sample_records []) as (_ & _ & H & _);
      [exact small_shard_ok|].
    destruct (H doc_b) as (s' & d' & x & H1 & H2 & _ & H3).
    + intros e [= <-]. vm_compute. reflexivity.
    + exact sample_all_fit.
    + reflexivity.
    + exists s', d', x. split; [exact H1|]. split; [exact H2|]. apply H3.
      intros y Hy. cbn in Hy. apply list_elem_of_singleton in Hy as ->. discriminate.
Defined.

(** A process with one shard, and a router of it alone. *)
Import Patient KeepAll.
#[local] Instance keep_all : MokaLib := KeepAll.lib.

Definition Process : Type := (ShardEngine * Disk) * Z.
Definition shard_place : Lens Process (ShardEngine * Disk) := mkLens fst (fun t w => (t, w.2)).
Definition counter_place : Lens Process Z := mkLens snd (fun n w => (w.1, n)).
Definition single : Router Process := {|
  ro_shards := [mkShardGroup (LocalShardClient shard_place) [] counter_place];
  ro_ranker := NoopRanker; ro_ranker_timeout := 30; ro_ranker_candidates := 10;
  ro_query_timeout := 5000; ro_availability := NoopStrategy; ro_cache := None;
  ro_suggest_shards := []; ro_suggest_write_timeout := 200; ro_suggest_query_timeout := 100 |}.

Lemma single_lives_in id : lives_in single id shard_place.
Proof.
  split.
  - split; [done| |done]. by intros [].
  - unfold shards_ok. cbn. lia.
  - unfold shards_ok. cbn. lia.
  - done.
  - exists counter_place. split; [|done]. unfold shard_for.
    pose proof (bucket_of_range id 1 ltac:(lia)) as H.
    change (Z.of_nat (length (ro_shards single))) with 1.
    by replace (bucket_of id 1) with 0 by lia.
Qed.

Lemma router_reads_writes_witness :
  exists w1 w2, index single doc_b ((small_shard, sample_disk), 0) = (w1, Ret tt) /\
    fetch_docs single [8] w1 = (w2, Ret [doc_b]).
Proof.
  destruct (router_reads_writes single shard_place ((small_shard, sample_disk), 0)
    small_shard sample_disk sample_records []) as [H _]; [reflexivity|exact small_shard_ok|].
  destruct (H doc_b) as (w1 & s1 & d1 & recs1 & cs1 & w2 & x & H1 & _ & _ & _ & H2 & _ & _ & _ & H3).
  - apply single_lives_in.
  - intros e [= <-]. vm_compute. reflexivity.
  - exact sample_all_fit.
  - reflexivity.
  - exists w1, w2. split; [exact H1|]. rewrite H3 in H2; [exact H2|].
    intros y Hy. cbn in Hy. apply list_elem_of_singleton in Hy as ->. discriminate.
Defined.
End Witness.
