(* ===== verification/MatchAll.v ===== *)
(** What a search without words answers: all documents that pass the filters,
    each once, from one segment ([crates/query/src/executor.rs]), over the
    segments of a shard ([crates/query/src/multi.rs]) and from the shard with
    its buffer ([crates/shard/src/shard.rs]). *)
From S2P Require Import Prelude Bytes Order Float Types Config Text Decimal Analysis Posting Disk.
From S2P Require Import Inverted Column DocStore Segment Scorer Collector Understanding Wand Executor.
From S2P Require Import Multi Object Wal WriteBuffer SegmentList Proto Replication Shard ShardSpecs Async.
From S2P Require Import ShardGrpc Suggest Ranker Cache Availability Client Router ReadBack.

Local Open Scope Z_scope.

(** ** What a request selects *)

#[local] Instance bound_dec {A} (o : option A) (P : A -> Prop) `{!forall a, Decision (P a)} :
  Decision (forall m, o = Some m -> P m).
Proof.
  destruct o as [a|]; [|by left]. destruct (decide (P a)) as [Ha|Ha].
  - left. by intros m [= <-].
  - right. intros Hall. by apply Ha, Hall.
Defined.

#[global] Instance doc_passes_dec schema doc field f : Decision (doc_passes schema doc field f).
Proof.
  destruct f as [v|gte lte|vs]; unfold doc_passes, keyword_field, numeric_field.
  - apply _.
  - apply and_dec; [apply _|]. destruct (numeric_value field doc) as [v|].
    + destruct (decide ((forall m, gte = Some m -> f_ge v m = true) /\
        (forall m, lte = Some m -> f_le v m = true))) as [H|H].
      * left. by exists v.
      * right. by intros (v' & [= <-] & ?).
    + right. by intros (v & ? & _).
  - apply and_dec; [apply _|]. destruct (keyword_value field doc) as [v|].
    + destruct (decide (v ∈ vs)) as [H|H]; [left; by exists v|right; by intros (v' & ? & [= <-])].
    + right. by intros (v & _ & ?).
Defined.

(** The document passes every filter of the request. *)
Definition matches (schema : IndexSchema) (request : SearchRequest) (doc : Document) : Prop :=
  map_Forall (doc_passes schema doc) (rq_filters request).
#[global] Instance matches_dec schema request doc : Decision (matches schema request doc).
Proof. unfold matches. apply _. Defined.

(** A hit of a search without words. *)
Definition plain_hit (doc : Document) : SearchHit :=
  {| hit_id := doc_id doc; hit_score := one; hit_document := Some doc |}.

(** ** Lists *)
Lemma omap_Forall2 {A B} (f : A -> option B) (l : list A) :
  Forall (fun x => is_Some (f x)) l -> Forall2 (fun x y => f x = Some y) l (omap f l).
Proof.
  induction 1 as [|x l [y Hy] _ IH]; [constructor|]. cbn. rewrite Hy. by constructor.
Qed.

Lemma omap_bind_perm {A B C D} (f : B -> option C) (g : A -> list B) (h : D -> list C) l k :
  Forall2 (fun a d => omap f (g a) ≡ₚ h d) l k -> omap f (l ≫= g) ≡ₚ k ≫= h.
Proof. induction 1 as [|a d l k H _ IH]; [done|]. cbn. by rewrite omap_app, H, IH. Qed.

Lemma omap_filter {A B} (f : A -> option B) (P : B -> Prop) `{!forall b, Decision (P b)}
    (Q : A -> Prop) `{!forall a, Decision (Q a)} (l : list A) :
  (forall a, a ∈ l -> Q a <-> exists b, f a = Some b /\ P b) -> omap f (filter Q l) = filter P (omap f l).
Proof.
  induction l as [|a l IH]; intros Hl; [done|]. rewrite filter_cons. cbn [omap list_omap].
  assert (omap f (filter Q l) = filter P (omap f l)) as IH' by (apply IH; intros; apply Hl; by right).
  pose proof (Hl a ltac:(by left)) as Ha. destruct (decide (Q a)) as [Hq|Hq].
  - destruct (proj1 Ha Hq) as (b & Hb & HP). cbn. rewrite Hb, filter_cons_True by done. by f_equal.
  - destruct (f a) as [b|] eqn:Hb; [|done]. rewrite filter_cons_False; [done|]. intros HP. apply Hq, Ha. by exists b.
Qed.

Lemma filter_bind {A B} (f : A -> list B) (P : B -> Prop) `{!forall b, Decision (P b)} (l : list A) :
  filter P (l ≫= f) = l ≫= (fun a => filter P (f a)).
Proof. induction l as [|a l IH]; [done|]. cbn. by rewrite filter_app, IH. Qed.

Lemma length_filter_omap {A B} (f : A -> option B) (P : B -> Prop) `{!forall b, Decision (P b)}
    (Q : A -> Prop) `{!forall a, Decision (Q a)} (l : list A) :
  (forall a, a ∈ l -> Q a <-> exists b, f a = Some b /\ P b) ->
  length (filter Q l) = length (filter P (omap f l)).
Proof.
  intros HQ. rewrite <- (omap_filter f P Q l HQ). symmetry.
  assert (Forall (fun a => is_Some (f a)) (filter Q l)) as Hsome.
  { apply Forall_forall. intros a [Ha Hin]%list_elem_of_filter.
    destruct (proj1 (HQ a Hin) Ha) as (b & Hb & _). by exists b. }
  symmetry. exact (Forall2_length _ _ _ (omap_Forall2 f _ Hsome)).
Qed.

Lemma NoDup_Z_lt (l : list Z) : StronglySorted Z.lt l -> NoDup l.
Proof.
  induction 1 as [|x l _ IH Hl]; [constructor|]. constructor; [|done].
  intros Hin. pose proof (proj1 (Forall_forall _ _) Hl _ Hin). lia.
Qed.

(** ** Counts of values *)

(** The documents with value [v] of the keyword field [f]. *)
Definition with_value (f v : string) (docs : list Document) : list Document :=
  filter (fun doc => keyword_value f doc = Some v) docs.

Lemma with_value_bind {A} f v (g : A -> list Document) l :
  with_value f v (l ≫= g) = l ≫= fun a => with_value f v (g a).
Proof. apply filter_bind. Qed.

(** A list of counts that names no value twice counts each value as it says. *)
Lemma count_of_absent v counts : v ∉ counts.*1 -> count_of v counts = 0.
Proof.
  induction counts as [|[v' c'] counts IH]; intros Hv; [done|].
  apply not_elem_of_cons in Hv as [Hne Hv]. unfold count_of in *. cbn [foldr fst snd].
  rewrite IH by done. by rewrite bool_decide_false.
Qed.

Lemma count_of_present v c counts : NoDup counts.*1 -> (v, c) ∈ counts -> count_of v counts = c.
Proof.
  induction counts as [|[v' c'] counts IH]; intros Hnd Hin; [by apply elem_of_nil in Hin|].
  apply NoDup_cons in Hnd as [Hv Hnd]. apply elem_of_cons in Hin as [[= <- <-]|Hin].
  - pose proof (count_of_absent v counts Hv) as Ha. unfold count_of in *. cbn [foldr fst snd].
    rewrite Ha, bool_decide_true by done. lia.
  - pose proof (IH Hnd Hin) as IH'. unfold count_of in *. cbn [foldr fst snd].
    rewrite IH', bool_decide_false; [done|]. intros ->. apply Hv. apply list_elem_of_fmap.
    by exists (v, c).
Qed.

Lemma count_of_exact v n counts :
  0 <= n -> NoDup counts.*1 -> (forall c, (v, c) ∈ counts <-> c = n /\ 0 < c) -> count_of v counts = n.
Proof.
  intros Hn Hnd Hc. destruct (decide (0 < n)) as [Hpos|Hpos].
  - apply count_of_present; [done|]. by apply Hc.
  - rewrite count_of_absent; [lia|]. intros ([v' c] & -> & Hin)%list_elem_of_fmap.
    apply Hc in Hin. lia.
Qed.

(** ** One segment *)
Section Segment.
Context `{ILL : IndexLaws} `{ML : MathLib} `{UOL : UnspecifiedOrderLaws}.
Context (schema : IndexSchema) (r : SegmentReader) (docs : list Document) (b : RoaringBitmap).
Context (Hr : segment_holds schema r docs b).
Context (stats : SegmentStatistics) (segment_ord : nat) (request : SearchRequest).

Lemma aggregations_lookup (g : string -> list (string * Z)) (fields : list string) :
  forall (m : gmap string (list (string * Z))) f, f ∈ fields ->
  foldl (fun m field => <[field := g field]> m) m fields !! f = Some (g f).
Proof.
  induction fields as [|x fields IH] using rev_ind; intros m f Hf; [by apply elem_of_nil in Hf|].
  rewrite foldl_snoc. destruct (decide (x = f)) as [->|Hne]; [by rewrite lookup_insert_eq|].
  rewrite lookup_insert_ne by done. apply IH. apply elem_of_app in Hf as [|Hf]; [done|].
  by apply list_elem_of_singleton in Hf.
Qed.

Lemma passing_matches d doc :
  passing schema docs b request d doc <->
    0 <= d /\ doc_at docs b d = Some doc /\ matches schema request doc.
Proof.
  unfold passing, matches, map_Forall, doc_at. destruct (rb_contains b d).
  - split; [by intros [? _]|by intros (_ & ? & _)].
  - naive_solver.
Qed.

(** The counts of a keyword field over found documents. *)
Lemma segment_facet sds f v :
  NoDup (sd_local_doc_id <$> sds) ->
  (forall sd, sd ∈ sds -> hit_ok schema docs b segment_ord request sd) ->
  keyword_field schema f ->
  count_of v (sr_aggregate_counts r f (rb_from (sd_local_doc_id <$> sds)))
    = Z.of_nat (length (with_value f v (omap (fun sd => docs !! Z.to_nat (sd_local_doc_id sd)) sds))).
Proof.
  intros Hnd Hok Hf. set (ids := sd_local_doc_id <$> sds) in *. set (m := rb_from ids).
  pose proof (sh_small _ _ _ _ Hr) as Hsmall.
  assert (rb_iter m ≡ₚ ids) as Hm.
  { apply NoDup_Permutation; [apply NoDup_Z_lt, rb_iter_sorted|done|].
    intros d. rewrite rb_elem_of_iter. apply rb_contains_from. }
  assert (forall d, d ∈ ids -> 0 <= d < Z.of_nat (length docs)) as Hrange.
  { intros d (sd & -> & Hsd)%list_elem_of_fmap. destruct (Hok sd Hsd) as (doc & (_ & Hd & Hdoc & _) & _).
    apply lookup_lt_Some in Hdoc. lia. }
  assert (Z.of_nat (rb_len m) < 2 ^ 64) as Hlen.
  { rewrite rb_len_iter, Hm. assert (ids ⊆+ ziota (Z.of_nat (length docs))) as Hsub.
    { apply NoDup_submseteq; [done|]. intros d Hd. by apply elem_of_ziota, Hrange. }
    apply submseteq_length in Hsub. rewrite length_ziota in Hsub. lia. }
  destruct (aggregate_counts_correct (sr_columns r) f (keyword_value f <$> docs) m) as [Hnd' Hc].
  { rewrite (sh_columns _ _ _ _ Hr), keyword_column_lookup by lia. by rewrite bool_decide_true. }
  { by rewrite length_fmap. }
  { done. }
  unfold sr_aggregate_counts.
  rewrite (count_of_exact v (Z.of_nat (length (docs_with (keyword_value f <$> docs) m v))));
    [|lia|done|intros c; apply Hc].
  f_equal. unfold docs_with. rewrite Hm. unfold with_value.
  rewrite (length_filter_omap (fun d => docs !! Z.to_nat d) (fun doc => keyword_value f doc = Some v)).
  - f_equal. f_equal. unfold ids. clear. induction sds as [|sd sds IH]; [done|]. cbn. by rewrite IH.
  - intros d _. rewrite list_lookup_fmap, fmap_Some. naive_solver.
Qed.

(** The documents behind the ids a segment without words selects. *)
Lemma selected_ids (ids : list Z) :
  NoDup ids -> (forall d, d ∈ ids <-> 0 <= d /\ exists doc, passing schema docs b request d doc) ->
  omap (doc_at docs b) ids ≡ₚ filter (matches schema request) (live_docs docs b).
Proof.
  intros Hnd Hd.
  set (selected := fun d => exists doc, doc_at docs b d = Some doc /\ matches schema request doc).
  assert (forall d, Decision (selected d)) as Hdec.
  { intros d. unfold selected. destruct (doc_at docs b d) as [doc|]; [|by right; intros (? & ? & _)].
    destruct (decide (matches schema request doc)); [left; by exists doc|].
    right. by intros (? & [= <-] & ?). }
  assert (ids ≡ₚ filter selected (ziota (Z.of_nat (length docs)))) as ->.
  { apply NoDup_Permutation; [done|apply NoDup_filter, NoDup_ziota|]. intros d.
    rewrite Hd, list_elem_of_filter, elem_of_ziota. unfold selected. setoid_rewrite passing_matches. split.
    - intros (H0 & doc & _ & Hdoc & Hm). split; [by exists doc|]. split; [done|].
      unfold doc_at in Hdoc. destruct (rb_contains b d); [done|]. apply lookup_lt_Some in Hdoc. lia.
    - intros ((doc & Hdoc & Hm) & H0 & _). split; [done|]. by exists doc. }
  unfold live_docs. by erewrite omap_filter.
Qed.

(** The documents behind the scored documents of a segment without words. *)
Lemma segment_match_all :
  rq_query request = "" ->
  exists res, execute (qe_new schema) r stats segment_ord request = Ret res /\
    ssr_retrieval_mode res = RmAnd /\
    ssr_total_hits res = Z.of_nat (length (ssr_scored_docs res)) /\
    Forall (fun sd => hit_ok schema docs b segment_ord request sd /\ sd_score sd = one)
      (ssr_scored_docs res) /\
    omap (fun sd => docs !! Z.to_nat (sd_local_doc_id sd)) (ssr_scored_docs res)
      ≡ₚ filter (matches schema request) (live_docs docs b) /\
    (forall f v, f ∈ rq_aggregations request -> keyword_field schema f -> seg_count f v res
      = Z.of_nat (length (with_value f v (filter (matches schema request) (live_docs docs b))))).
Proof.
  intros Hempty. destruct (run_query_spec schema r docs b Hr stats segment_ord request)
    as (sds & mode & Hq & Hok & Hall & _). destruct (Hall Hempty) as (-> & Hs & Hd & Hone).
  assert (omap (fun sd => docs !! Z.to_nat (sd_local_doc_id sd)) sds
    ≡ₚ filter (matches schema request) (live_docs docs b)) as Hdocs.
  { rewrite <- (selected_ids (sd_local_doc_id <$> sds)); [|by apply NoDup_Z_lt|done].
    assert (Forall (hit_ok schema docs b segment_ord request) sds) as HF by (apply Forall_forall; exact Hok).
    clear -HF. induction HF as [|sd sds (doc & (Hb & _ & Hdoc & _) & _) _ IH]; [done|]. cbn.
    unfold doc_at at 1. rewrite Hb, Hdoc. by f_equiv. }
  unfold execute. rewrite Hq. cbn [mbind outcome_bind]. eexists. split; [done|].
  cbn [ssr_retrieval_mode ssr_total_hits ssr_scored_docs]. split_and!; [done|done| |done|].
  - apply Forall_forall. intros sd Hsd. split; [by apply Hok|exact (proj1 (Forall_forall _ _) Hone _ Hsd)].
  - intros f v Hf Hkw. unfold seg_count. cbn [ssr_aggregations]. rewrite aggregations_lookup by done.
    rewrite segment_facet; [|by apply NoDup_Z_lt|done|done]. unfold with_value. by rewrite Hdocs.
Qed.
End Segment.

(** ** Over segments *)
Section Multi.
Context `{ILL : IndexLaws} `{ML : MathLib} `{UOL : UnspecifiedOrderLaws}.
Context (schema : IndexSchema) (request : SearchRequest).
Abbreviation Segments := (list (SegmentReader * SegmentStatistics)).
Abbreviation SegmentDocs := (list (list Document * RoaringBitmap)).

Definition scored_document (contents : SegmentDocs) (sd : ScoredDoc) : option Document :=
  p ← contents !! sd_segment_ord sd; p.1 !! Z.to_nat (sd_local_doc_id sd).

Definition live_matches (p : list Document * RoaringBitmap) : list Document :=
  filter (matches schema request) (live_docs p.1 p.2).

(** A scored document of the segments, and the hit it becomes. *)
Definition becomes (segments : Segments) (sd : ScoredDoc) (doc : Document) : Prop :=
  sd_score sd = one /\ make_hit segments sd = Ret (Some (plain_hit doc)).

Lemma hit_becomes segments contents ord seg p sd :
  Forall2 (seg_holds schema) segments contents -> segments !! ord = Some seg ->
  contents !! ord = Some p -> hit_ok schema p.1 p.2 ord request sd -> sd_score sd = one ->
  exists doc, scored_document contents sd = Some doc /\ becomes segments sd doc /\
    p.1 !! Z.to_nat (sd_local_doc_id sd) = Some doc.
Proof.
  intros HF Hseg Hp (doc & (Hb & Hd & Hdoc & _) & _ & Ho) Hone. exists doc.
  unfold scored_document. rewrite Ho, Hp. split_and!; [done| |done]. split; [done|].
  unfold make_hit. rewrite Ho, Hseg. destruct seg as [reader stats].
  destruct (Forall2_lookup_lr _ _ _ _ _ _ HF Hseg Hp).
  rewrite (proj2 (get_doc_some schema reader p.1 p.2 ltac:(by split) _ doc Hd)) by done.
  cbn. unfold plain_hit. by rewrite Hone.
Qed.

Lemma page_hits segments page docs :
  Forall2 (becomes segments) page docs ->
  mapM (make_hit segments) page = Ret (Some <$> (plain_hit <$> docs)).
Proof.
  induction 1 as [|sd doc page docs [_ Hh] _ IH]; [done|]. cbn [mapM]. rewrite Hh.
  cbn [mbind outcome_bind]. rewrite IH. done.
Qed.

Lemma omap_id_Some {A} (l : list A) : omap id (Some <$> l) = l.
Proof. induction l as [|x l IH]; [done|]. cbn. by rewrite IH. Qed.

(** The buckets of the requested keyword fields count the documents. *)
Definition counts_values (found : list Document)
    (aggregations : gmap string (list AggregationBucket)) : Prop :=
  exists merged, aggregations = make_buckets <$> merged /\
    forall f v, f ∈ rq_aggregations request -> keyword_field schema f ->
      merged_count merged f v = wrap 64 (Z.of_nat (length (with_value f v found))).

(** The result of one segment: its live documents that match, counted. *)
Record lists_live (segments : Segments) (contents : SegmentDocs) (res : SegmentSearchResult)
    (p : list Document * RoaringBitmap) : Prop := {
  ll_mode : ssr_retrieval_mode res = RmAnd;
  ll_total : ssr_total_hits res = Z.of_nat (length (ssr_scored_docs res));
  ll_becomes : Forall (fun sd => exists doc,
    scored_document contents sd = Some doc /\ becomes segments sd doc) (ssr_scored_docs res);
  ll_docs : omap (scored_document contents) (ssr_scored_docs res) ≡ₚ live_matches p;
  ll_counts f v : f ∈ rq_aggregations request -> keyword_field schema f ->
    seg_count f v res = Z.of_nat (length (with_value f v (live_matches p)));
}.

Lemma segment_lists segments contents ord seg p res :
  Forall2 (seg_holds schema) segments contents -> rq_query request = "" ->
  segments !! ord = Some seg -> contents !! ord = Some p ->
  execute (qe_new schema) seg.1 seg.2 ord request = Ret res -> lists_live segments contents res p.
Proof.
  intros Hf Hempty Hseg Hp Hex. pose proof (Forall2_lookup_lr _ _ _ _ _ _ Hf Hseg Hp) as Hholds.
  destruct (segment_match_all schema seg.1 p.1 p.2 Hholds seg.2 ord request Hempty)
    as (res' & Hex' & Hm & Ht & Hall & Hdocs & Hfacets).
  rewrite Hex in Hex'. injection Hex' as <-.
  assert (Forall (fun sd => scored_document contents sd = p.1 !! Z.to_nat (sd_local_doc_id sd) /\
    exists doc, scored_document contents sd = Some doc /\ becomes segments sd doc)
    (ssr_scored_docs res)) as Hb.
  { eapply Forall_impl; [exact Hall|]. intros sd [Hok Hone].
    destruct (hit_becomes segments contents ord seg p sd Hf Hseg Hp Hok Hone)
      as (doc & Hd & Hbec & Hl). rewrite Hl. split; [done|]. by exists doc. }
  split; [done|done| | |exact Hfacets].
  - eapply Forall_impl; [exact Hb|]. by intros sd [_ ?].
  - unfold live_matches. rewrite <- Hdocs. apply Permutation_refl'. clear -Hb.
    induction Hb as [|sd sds [E _] _ IH]; [done|]. cbn. by rewrite E, IH.
Qed.

(** Sums over segments that list their documents. *)
Lemma lists_live_totals segments contents rs ps :
  Forall2 (lists_live segments contents) rs ps ->
  sum_by ssr_total_hits rs = Z.of_nat (length (rs ≫= ssr_scored_docs)) /\
  existsb is_fallback rs = false /\
  forall f v, f ∈ rq_aggregations request -> keyword_field schema f ->
    sum_by (seg_count f v) rs = Z.of_nat (length (with_value f v (ps ≫= live_matches))).
Proof.
  induction 1 as [|res p rs ps [Hm Ht _ _ Hc] _ (IH1 & IH2 & IH3)]; [done|].
  split_and!.
  - change (ssr_total_hits res + sum_by ssr_total_hits rs
      = Z.of_nat (length (ssr_scored_docs res ++ (rs ≫= ssr_scored_docs)))).
    rewrite length_app, Ht, IH1. lia.
  - cbn. unfold is_fallback at 1. by rewrite Hm, IH2.
  - intros f v Hagg Hkw. change (seg_count f v res + sum_by (seg_count f v) rs = Z.of_nat (length
      (with_value f v (live_matches p ++ (ps ≫= live_matches))))).
    unfold with_value. rewrite filter_app, length_app, Hc, IH3 by done. unfold with_value. lia.
Qed.

Lemma multi_match_all segments contents elapsed_ms :
  Forall2 (seg_holds schema) segments contents -> rq_query request = "" ->
  exists resp found, multi_search (ms_new schema) segments request elapsed_ms = Ret resp /\
    found ≡ₚ contents ≫= live_matches /\
    rs_hits resp = plain_hit <$>
      take (Z.to_nat (rq_limit request)) (drop (Z.to_nat (rq_offset request)) found) /\
    rs_total_hits resp = wrap 64 (Z.of_nat (length found)) /\
    rs_retrieval_mode resp = RmAnd /\
    counts_values found (rs_aggregations resp).
Proof.
  intros Hf Hempty. destruct (search_segments_spec schema request segments contents Hf)
    as (rs & Hlen & Hres & Hfold).
  destruct (state_of_spec rs) as (H1 & H2 & H3 & H4).
  assert (Forall2 (lists_live segments contents) rs contents) as HF.
  { apply Forall2_same_length_lookup_2; [rewrite Hlen; by eapply Forall2_length|].
    intros ord res p Hr Hp. destruct (Forall2_lookup_r _ _ _ _ _ Hf Hp) as (seg & Hseg & _).
    eapply segment_lists; [done..|]. by apply (Hres ord seg res Hseg Hr). }
  destruct (lists_live_totals _ _ _ _ HF) as (Htotals & Hmode & Hcounts).
  set (all := rs ≫= ssr_scored_docs) in *.
  set (sorted := sort_unstable_by (collector_cmp (rq_sort request)) all).
  assert (sorted ≡ₚ all) as Hperm by apply sort_unstable_perm.
  set (found := omap (scored_document contents) sorted).
  assert (Forall2 (becomes segments) sorted found) as Hbec.
  { assert (Forall (fun sd => exists doc, scored_document contents sd = Some doc /\ becomes segments sd doc)
      sorted) as Hall.
    { rewrite Hperm. apply Forall_forall. intros sd (res & Hsd & Hin)%list_elem_of_bind.
      apply list_elem_of_lookup in Hin as [i Hi].
      destruct (Forall2_lookup_l _ _ _ _ _ HF Hi) as (p & _ & [_ _ Hs _ _]).
      exact (proj1 (Forall_forall _ _) Hs sd Hsd). }
    clear -Hall. unfold found. induction Hall as [|sd sds (doc & Hd & Hb) _ IH]; [constructor|].
    cbn. rewrite Hd. by constructor. }
  assert (found ≡ₚ contents ≫= live_matches) as Hfound.
  { unfold found. rewrite Hperm. apply omap_bind_perm. eapply Forall2_impl; [exact HF|].
    by intros res p [_ _ _ ? _]. }
  unfold multi_search. rewrite Hfold. cbn [mbind outcome_bind]. unfold collect. rewrite H1. fold all sorted.
  rewrite (page_hits segments _ (take (Z.to_nat (rq_limit request)) (drop (Z.to_nat (rq_offset request)) found)))
    by by apply Forall2_take, Forall2_drop.
  cbn [mbind outcome_bind]. eexists _, found. split; [done|].
  cbn [rs_hits rs_total_hits rs_retrieval_mode rs_aggregations]. split_and!; [done|..].
  - by rewrite omap_id_Some.
  - by rewrite H2, Htotals, <- (Forall2_length _ _ _ Hbec), Hperm.
  - by rewrite H4, Hmode.
  - exists (mst_merged_aggs (state_of rs)). split; [done|]. intros f v Hagg Hkw.
    rewrite H3, Hcounts by done. unfold with_value. by rewrite Hfound.
Qed.
End Multi.

(** ** The shard *)
Section Shard.
Context `{ILL : IndexLaws} `{SDL : SerdeLaws WalRecord} `{TDL : TempDirLaws} `{ML : MathLib}
  `{UOL : UnspecifiedOrderLaws}.

Lemma search_contents_matches s cs request :
  search_contents s cs ≫= live_matches (sh_schema s) request
    = filter (matches (sh_schema s) request) (searchable s cs).
Proof.
  unfold search_contents, searchable, live_all. rewrite bind_app, filter_app, filter_bind.
  f_equal.
  - induction cs as [|c cs IH]; [done|]. cbn. by rewrite IH.
  - destruct (wb_all_docs (sh_write_buffer s)) as [|x l]; [done|]. cbn [mbind list_bind].
    unfold live_matches. cbn [fst snd]. rewrite app_nil_r, live_docs_all; [done|].
    intros. apply rb_contains_new.
Qed.

Lemma same_contents_document_of s b' id :
  same_contents (sh_write_buffer s) b' ->
  searchable (set_buffer b' s) = searchable s /\
  document_of (set_buffer b' s) id = document_of s id.
Proof. intros (? & ? & ? & ? & ->). done. Qed.

(** The documents a search without words goes through. *)
Definition selected (s : ShardEngine) (cs : list Contents) (request : SearchRequest) : list Document :=
  filter (matches (sh_schema s) request) (searchable s cs).

Lemma shard_match_all_spec s d recs cs {stale} request elapsed_ms :
  shard_ok s d recs cs stale ->
  (wb_all_docs (sh_write_buffer s) <> [] ->
   segment_fits (sh_schema s) (wb_all_docs (sh_write_buffer s))) ->
  rq_query request = "" ->
  exists b' d' resp found,
    shard_search request elapsed_ms (s, d) = ((set_buffer b' s, d'), Ret resp) /\
    shard_ok (set_buffer b' s) d' recs cs stale /\ same_contents (sh_write_buffer s) b' /\
    found ≡ₚ selected s cs request /\
    rs_hits resp = plain_hit <$>
      take (Z.to_nat (rq_limit request)) (drop (Z.to_nat (rq_offset request)) found) /\
    rs_total_hits resp = wrap 64 (Z.of_nat (length found)) /\
    rs_retrieval_mode resp = RmAnd /\
    counts_values (sh_schema s) request found (rs_aggregations resp).
Proof.
  intros Hs Hfit Hempty. destruct (shard_search_spec s d recs cs request elapsed_ms Hs Hfit)
    as (b' & d' & segments & resp & Hr & Hok & Hsame & HF & Hm).
  destruct (multi_match_all (sh_schema s) request segments _ elapsed_ms HF Hempty)
    as (resp' & found & Hm' & Hfound & Hrest).
  rewrite Hm in Hm'. injection Hm' as <-. rewrite search_contents_matches in Hfound.
  by exists b', d', resp, found.
Qed.
End Shard.

(** A bucket of merged counts holds the count. *)
Lemma bucket_merged `{UOL : UnspecifiedOrderLaws} (merged : Counts) f v c :
  mkAggregationBucket v c ∈ default [] ((make_buckets <$> merged) !! f) <->
    (merged !! f ≫= fun counts => counts !! v) = Some c.
Proof.
  rewrite lookup_fmap. destruct (merged !! f) as [counts|]; cbn.
  - unfold make_buckets. rewrite elem_of_sort_by, list_elem_of_fmap. split.
    + intros ([v' c'] & [= -> ->] & Hin). by apply elem_of_hm_iter.
    + intros E. exists (v, c). split; [done|]. by apply elem_of_hm_iter.
  - split; [by intros ?%elem_of_nil|done].
Qed.

(** The buckets of a field, as a client reads them, are the counts: a value has
    the count [n], and is listed when [n] is not zero. *)
Definition bucket_is (aggregations : gmap string (list AggregationBucket)) (f v : string) (n : Z) : Prop :=
  (forall c, mkAggregationBucket v c ∈ default [] (aggregations !! f) -> c = n) /\
  (n <> 0 -> mkAggregationBucket v n ∈ default [] (aggregations !! f)).

Lemma merged_bucket_is `{UOL : UnspecifiedOrderLaws} (merged : Counts) f v n :
  merged_count merged f v = n -> bucket_is (make_buckets <$> merged) f v n.
Proof.
  unfold merged_count. intros Hn. split.
  - intros c Hc%bucket_merged. by rewrite Hc in Hn.
  - intros Hne. apply bucket_merged. destruct (_ ≫= _); [by cbn in Hn; subst|by cbn in Hn; subst].
Qed.

(** C12: a search without words finds everything.  On a well-formed shard it
    succeeds, leaves the documents as they are, and its hits are the requested
    page of a list that has each document of the readers and the buffer that
    passes the filters exactly once, each with the score 1; the total is their
    number, and each bucket of a requested keyword field is the number of them
    with its value. *)
Theorem shard_match_all `{ILL : IndexLaws} `{SDL : SerdeLaws WalRecord} `{TDL : TempDirLaws}
    `{ML : MathLib} `{UOL : UnspecifiedOrderLaws} (s : ShardEngine) (d : Disk)
    (recs : list WalRecord) (cs : list Contents) (request : SearchRequest) (elapsed_ms : Z) :
  shard_ok s d recs cs [] ->
  (wb_all_docs (sh_write_buffer s) <> [] ->
   segment_fits (sh_schema s) (wb_all_docs (sh_write_buffer s))) ->
  rq_query request = "" ->
  exists s' d' resp found,
    shard_search request elapsed_ms (s, d) = ((s', d'), Ret resp) /\
    shard_ok s' d' recs cs [] /\ searchable s' cs = searchable s cs /\
    found ≡ₚ selected s cs request /\
    rs_hits resp = plain_hit <$>
      take (Z.to_nat (rq_limit request)) (drop (Z.to_nat (rq_offset request)) found) /\
    rs_total_hits resp = wrap 64 (Z.of_nat (length found)) /\
    rs_retrieval_mode resp = RmAnd /\
    forall f v, f ∈ rq_aggregations request -> keyword_field (sh_schema s) f ->
      bucket_is (rs_aggregations resp) f v (wrap 64 (Z.of_nat (length (with_value f v found)))).
Proof.
  intros Hs Hfit Hempty. destruct (shard_match_all_spec s d recs cs request elapsed_ms Hs Hfit Hempty)
    as (b' & d' & resp & found & Hr & Hok & Hsame & Hfound & Hhits & Htotal & Hmode & merged & Hagg & Hc).
  exists (set_buffer b' s), d', resp, found. split_and!; [done|done| |done..|].
  - by destruct (same_contents_document_of s b' 0 Hsame) as [-> _].
  - intros f v Hf Hkw. rewrite Hagg. by apply merged_bucket_is, Hc.
Qed.

Section Witness.
Import TestLibs StableOrder CountableSerde FreshTemp.
#[local] Instance no_ln : MathLib := {| f32_ln := fun x => x |}.

(** Everything in the category, from the second document on. *)
Definition browse : SearchRequest :=
  mkSearchRequest "" {["category" := FEquality "c"]} ["category"] None 1 10 true None None false.

Lemma shard_match_all_witness :
  exists s' d' resp found,
    shard_search browse 0 (sample_shard, sample_disk) = ((s', d'), Ret resp) /\
    found ≡ₚ [doc_a; doc_b] /\ rs_hits resp = plain_hit <$> take 10 (drop 1 found) /\
    rs_total_hits resp = 2 /\ bucket_is (rs_aggregations resp) "category" "c" 2.
Proof.
  destruct (shard_match_all sample_shard sample_disk sample_records [] browse 0)
    as (s' & d' & resp & found & H1 & _ & _ & H2 & H3 & H4 & _ & H5).
  - exact sample_shard_ok.
  - intros _. exact (sample_all_fit _ (reflexivity _)).
  - reflexivity.
  - assert (found ≡ₚ [doc_a; doc_b]) as Hf by (rewrite H2; vm_compute; reflexivity).
    exists s', d', resp, found. split; [exact H1|]. split; [exact Hf|]. split; [exact H3|]. split.
    + rewrite H4, Hf. reflexivity.
    + pose proof (H5 "category" "c") as Hb. unfold with_value in Hb. rewrite Hf in Hb.
      apply Hb; [by left|]. unfold keyword_field. vm_decide.
Defined.
End Witness.
