(* ===== verification/EndToEnd.v ===== *)
(** A cluster as one collection of documents: the router
    ([crates/router/src/router.rs]), its in-process clients
    ([crates/router/src/client.rs]), the engines behind them
    ([crates/shard/src/shard.rs]) and the query path of each
    ([crates/query/src/{multi,executor}.rs]), composed.  A shard is abstracted to a
    [View]: the documents a search goes through and the answers to reads by id. *)
From S2P Require Import Prelude Bytes Order Float Types Config Breaker Routing Text Decimal Analysis.
From S2P Require Import Posting Disk Inverted Column DocStore Segment Scorer Collector Wand Executor.
From S2P Require Import Multi Object Wal WriteBuffer SegmentList Proto Replication Shard ShardSpecs.
From S2P Require Import Async ShardGrpc Suggest Ranker Cache Availability Client Router RouterSearch.
From S2P Require Import ReadBack MatchAll.

Local Open Scope Z_scope.

Lemma filter_ext_in {A} (P Q : A -> Prop) `{!forall a, Decision (P a), !forall a, Decision (Q a)} (l : list A) :
  (forall a, a ∈ l -> P a <-> Q a) -> filter P l = filter Q l.
Proof.
  induction l as [|a l IH]; intros HPQ; [done|]. rewrite !filter_cons.
  rewrite (IH ltac:(intros; apply HPQ; by right)). pose proof (HPQ a ltac:(by left)).
  repeat case_decide; tauto.
Qed.

Lemma elem_of_window {A} (l : list A) n k x : x ∈ take n (drop k l) -> x ∈ l.
Proof.
  intros Hx. rewrite <- (take_drop k l), elem_of_app. right.
  rewrite <- (take_drop n (drop k l)), elem_of_app. by left.
Qed.

Lemma mapM_join_all {E W A B} (f : A -> Async E W B) (l : list A) w :
  mapM f l w = join_all (f <$> l) w.
Proof.
  revert w. induction l as [|a l IH]; intros w; [done|]. cbn [mapM fmap list_fmap join_all].
  unfold mbind, Async_bind. destruct (f a w) as [w1 [b|e|]]; [|done..]. by rewrite IH.
Qed.

(** ** A shard as a view *)
Section Views.
Context `{ILL : IndexLaws} `{SDL : SerdeLaws WalRecord} `{TDL : TempDirLaws} `{ML : MathLib}
  `{UOL : UnspecifiedOrderLaws}.

Record View := mkView {
  vw_schema : IndexSchema;
  vw_docs : list Document;             (* what a search goes through *)
  vw_get : Z -> option Document;       (* what reads by id answer *)
}.

(** The engine, on its disk, presents the view. *)
Definition presents (v : View) (t : ShardEngine * Disk) : Prop :=
  exists recs cs, shard_ok t.1 t.2 recs cs [] /\
    (wb_all_docs (sh_write_buffer t.1) <> [] ->
     segment_fits (sh_schema t.1) (wb_all_docs (sh_write_buffer t.1))) /\
    sh_schema t.1 = vw_schema v /\ searchable t.1 cs = vw_docs v /\
    forall id, document_of t.1 id = vw_get v id.

Definition view_of (s : ShardEngine) (cs : list Contents) : View :=
  {| vw_schema := sh_schema s; vw_docs := searchable s cs; vw_get := document_of s |}.

(** The documents of a view that a request selects. *)
Definition view_matches (request : SearchRequest) (v : View) : list Document :=
  filter (matches (vw_schema v) request) (vw_docs v).

Lemma presents_get v t id doc : presents v t -> vw_get v id = Some doc -> doc_id doc = id.
Proof.
  intros (recs & cs & Hok & _ & _ & _ & Hget) Hd. rewrite <- Hget in Hd.
  destruct (document_of_spec _ _ _ _ _ id Hok) as [H _]. rewrite Hd in H. by destruct H.
Qed.

Lemma presents_get_docs v s d ids :
  presents v (s, d) -> shard_get_docs s ids = Ret (omap (vw_get v) ids).
Proof.
  intros (recs & cs & Hok & _ & _ & _ & Hget). cbn [fst snd] in *.
  rewrite (shard_get_docs_spec _ _ _ _ _ ids Hok). f_equal.
  induction ids as [|id ids IH]; [done|]. cbn [omap list_omap]. by rewrite Hget, IH.
Qed.

(** What a shard answers to a query without words. *)
Record lists_matches (request : SearchRequest) (v : View) (res : ShardSearchResult) : Prop := {
  lm_hits : exists found, found ≡ₚ view_matches request v /\
    shr_hits res = (fun doc => (doc_id doc, one)) <$>
      take (Z.to_nat (rq_limit request)) (drop (Z.to_nat (rq_offset request)) found);
  lm_total : shr_total_hits res = wrap 64 (Z.of_nat (length (view_matches request v)));
  lm_mode : shr_used_or_fallback res = false;
  lm_counts f x : f ∈ rq_aggregations request -> keyword_field (vw_schema v) f ->
    shard_count f x res = wrap 64 (Z.of_nat (length (with_value f x (view_matches request v))));
}.

Lemma count_of_buckets (counts : gmap string Z) v :
  count_of v ((fun b => (ab_value b, ab_count b)) <$> make_buckets counts) = default 0 (counts !! v).
Proof.
  set (l := (fun b => (ab_value b, ab_count b)) <$> make_buckets counts).
  assert (l ≡ₚ hm_iter counts) as Hl.
  { unfold l, make_buckets. rewrite sort_by_perm, <- list_fmap_compose.
    rewrite (list_fmap_ext _ id); [by rewrite list_fmap_id|]. by intros _ [] _. }
  assert (NoDup l.*1) as Hnd by (rewrite Hl; apply NoDup_fst_hm_iter).
  destruct (counts !! v) as [c|] eqn:E; cbn.
  - apply count_of_present; [done|]. by rewrite Hl, elem_of_hm_iter.
  - apply count_of_absent. rewrite Hl. intros ([v' c] & -> & Hin)%list_elem_of_fmap.
    apply elem_of_hm_iter in Hin. cbn in E. congruence.
Qed.

Lemma local_count merged f v resp :
  rs_aggregations resp = make_buckets <$> merged ->
  shard_count f v (local_result resp) = merged_count merged f v.
Proof.
  intros E. unfold shard_count, local_result, merged_count. cbn [shr_aggregations]. rewrite E, !lookup_fmap.
  destruct (merged !! f) as [counts|]; [|done]. cbn [fmap option_fmap option_map mbind option_bind].
  apply count_of_buckets.
Qed.

Lemma presents_search v s d request elapsed_ms :
  presents v (s, d) -> rq_query request = "" ->
  exists t resp, shard_search request elapsed_ms (s, d) = (t, Ret resp) /\ presents v t /\
    lists_matches request v (local_result resp).
Proof.
  intros (recs & cs & Hok & Hfit & Hsch & Hdocs & Hget) Hempty. cbn [fst snd] in *.
  destruct (shard_match_all_spec s d recs cs request elapsed_ms Hok Hfit Hempty)
    as (b' & d' & resp & found & Hr & Hok' & Hsame & Hfound & Hhits & Htotal & Hmode & Hcounts).
  destruct (same_contents_document_of s b' 0 Hsame) as [Hsearch _].
  assert (selected s cs request = view_matches request v) as Hsel
    by (unfold selected, view_matches; by rewrite Hsch, Hdocs).
  rewrite Hsel in Hfound. exists (set_buffer b' s, d'), resp. split_and!; [done| |split].
  - exists recs, cs. cbn [fst snd]. rewrite Hsearch. split_and!; [done| |done|done|].
    + destruct Hsame as (? & ? & ? & ? & ->). exact Hfit.
    + intros id. destruct (same_contents_document_of s b' id Hsame) as [_ ->]. apply Hget.
  - exists found. split; [done|]. unfold local_result. cbn [shr_hits]. rewrite Hhits.
    rewrite <- list_fmap_compose. done.
  - cbn. by rewrite Htotal, Hfound.
  - cbn. by rewrite Hmode.
  - destruct Hcounts as (merged & Hagg & Hc). intros f x Hf Hkw. rewrite <- Hsch in Hkw.
    rewrite (local_count merged) by done. rewrite Hc by done. unfold with_value. by rewrite Hfound.
Qed.
End Views.

(** ** The cluster *)
Section Cluster.
Context `{ILL : IndexLaws} `{SDL : SerdeLaws WalRecord} `{TDL : TempDirLaws} `{ML : MathLib}
  `{UOL : UnspecifiedOrderLaws} `{MK : MokaLib} {W : Type} `{RT : Runtime W}.
Abbreviation Place := (Lens W (ShardEngine * Disk)).

(** The router's groups are in-process shards at [places], which nothing else
    the router writes touches; no call times out. *)
Record in_process (r : Router W) (places : list Place) : Prop := {
  ip_groups : Forall2 (fun g place => exists next,
    g = mkShardGroup (LocalShardClient place) [] next /\
    forall n p w, p ∈ places -> lget p (lset next n w) = lget p w) (ro_shards r) places;
  ip_some : places <> [];
  ip_few : shards_ok (ro_shards r);
  ip_lens p : p ∈ places -> LensLaws p;
  ip_apart i j p q t w : places !! i = Some p -> places !! j = Some q -> i <> j ->
    lget q (lset p t w) = lget q w;
  ip_suggest : shards_ok (ro_suggest_shards r);
  ip_fan_out docs p w : p ∈ places -> lget p (fan_out_suggest_write r docs w).1 = lget p w;
  ip_patient (A : Type) ms (m : Task W A) w : timeout ms m w = (m ≫= fun a => mret (Some a)) w;
}.

Definition cluster (places : list Place) (views : list View) (w : W) : Prop :=
  Forall2 (fun place v => presents v (lget place w)) places views.

(** What the cluster answers for one id. *)
Definition fetched (r : Router W) (views : list View) (id : Z) : option Document :=
  v ← views !! Z.to_nat (shard_for r id); vw_get v id.

Context (r : Router W) (places : list Place) (Hip : in_process r places).

Lemma cluster_frame views w w' :
  (forall p, p ∈ places -> lget p w' = lget p w) -> cluster places views w -> cluster places views w'.
Proof.
  intros Hf Hc. unfold cluster in *. clear Hip.
  induction Hc as [|p v ps vs H _ IH]; [constructor|]. constructor.
  - rewrite Hf; [done|by left].
  - apply IH. intros q Hq. apply Hf. by right.
Qed.

(** Only the shard at [place] changes, to what presents another view. *)
Lemma cluster_update views i place v t w :
  places !! i = Some place -> presents v t -> cluster places views w ->
  cluster places (<[i := v]> views) (lset place t w).
Proof.
  intros Hi Hv Hc. pose proof (Forall2_length _ _ _ Hc) as Hlen.
  apply Forall2_same_length_lookup_2; [by rewrite length_insert|].
  intros j q v' Hj Hv'. destruct (decide (i = j)) as [<-|Hne].
  - rewrite Hi in Hj. injection Hj as <-. rewrite list_lookup_insert_eq in Hv' by (apply lookup_lt_Some in Hi; lia).
    injection Hv' as <-. rewrite (lget_lset (LensLaws := ip_lens _ _ Hip place
      (list_elem_of_lookup_2 _ _ _ Hi))). done.
  - rewrite list_lookup_insert_ne in Hv' by done. rewrite (ip_apart _ _ Hip i j place q) by done.
    exact (Forall2_lookup_lr _ _ _ _ _ _ Hc Hj Hv').
Qed.

Lemma cluster_same views i place v t w :
  places !! i = Some place -> views !! i = Some v -> presents v t -> cluster places views w ->
  cluster places views (lset place t w).
Proof.
  intros Hi Hv Ht Hc. rewrite <- (list_insert_id views i v Hv). by apply cluster_update.
Qed.

Lemma local_target g place next w :
  g = mkShardGroup (LocalShardClient place) [] next ->
  read_target g w = (lset next (wrap 64 (lget next w + 1)) w, LocalShardClient place).
Proof.
  intros ->. set (g := mkShardGroup _ _ _).
  pose proof (read_target_endpoint g w) as H. apply list_elem_of_singleton in H.
  unfold read_target in *. cbn [snd] in H. f_equal. exact H.
Qed.

(** Choosing the endpoint of a group. *)
Lemma target_spec views i g w :
  ro_shards r !! i = Some g -> cluster places views w ->
  exists w' place, read_target g w = (w', LocalShardClient place) /\ places !! i = Some place /\
    cluster places views w'.
Proof.
  intros Hg Hc. destruct (Forall2_lookup_l _ _ _ _ _ (ip_groups _ _ Hip) Hg)
    as (place & Hp & next & Eg & Hnext).
  eexists _, place. split; [by apply local_target|]. split; [done|].
  eapply cluster_frame; [|exact Hc]. intros p Hin. by apply Hnext.
Qed.

(** One shard's answer to the query. *)
Lemma query_spec views i place v request w :
  places !! i = Some place -> views !! i = Some v -> rq_query request = "" ->
  cluster places views w ->
  exists w' res, query_shard r request (LocalShardClient place) w = (w', Ret (Ret res)) /\
    cluster places views w' /\ lists_matches request v res.
Proof.
  intros Hp Hv Hempty Hc. pose proof (Forall2_lookup_lr _ _ _ _ _ _ Hc Hp Hv : presents v (lget place w)) as Hpres.
  destruct (lget place w) as [s d] eqn:Hw.
  destruct (presents_search v s d request (elapsed_ms w) Hpres Hempty) as (t & resp & Hr & Ht & Hl).
  exists (lset place t w), (local_result resp). split_and!; [|by eapply cluster_same|done].
  assert (cl_search (LocalShardClient place) request w = (lset place t w, Ret (local_result resp))) as Hs.
  { cbn [LocalShardClient cl_search]. unfold at_, mbind, Async_bind. by rewrite Hw, Hr. }
  unfold query_shard, timed. rewrite (async_bind_ret _ _ w (lset place t w) (Some (Ret (local_result resp)))); [done|].
  rewrite (async_bind_ret _ _ w (lset place t w) (Ret (Some (local_result resp)))); [done|].
  apply attempt_ret; [|done]. rewrite (ip_patient _ _ Hip). erewrite async_bind_ret by exact Hs. reflexivity.
Qed.

Lemma ip_length views w : cluster places views w ->
  length (ro_shards r) = length places /\ length views = length places.
Proof.
  intros Hc. split; [by eapply Forall2_length; exact (ip_groups _ _ Hip)|].
  symmetry. by eapply Forall2_length.
Qed.

(** All shards answer. *)
Lemma scatter_all views request w :
  rq_query request = "" -> cluster places views w ->
  exists w' answers, scatter r request w = (w', Ret (Ret <$> answers)) /\ cluster places views w' /\
    Forall2 (lists_matches (scatter_request r request)) views answers.
Proof.
  intros Hempty Hc. destruct (ip_length views w Hc) as [Hlen Hlv]. unfold scatter.
  destruct (join_all_ret (cluster places views)
      ((fun g => call (E := Error) (read_target g)) <$> ro_shards r)
      (fun i c => exists place, places !! i = Some place /\ c = LocalShardClient place)) with (w := w)
    as (w1 & targets & Ht & Hc1 & Hlt & HP); [|done|].
  { intros i m w0 Hi Hc0. apply list_lookup_fmap_Some in Hi as (g & -> & Hg).
    destruct (target_spec views i g w0 Hg Hc0) as (w' & place & Er & Hp & Hc').
    exists w', (LocalShardClient place). split_and!; [|done|by exists place].
    unfold call. by rewrite Er. }
  rewrite <- mapM_join_all in Ht. rewrite length_fmap in Hlt. erewrite async_bind_ret by exact Ht.
  destruct (join_all_ret (cluster places views)
      (query_shard r (scatter_request r request) <$> targets)
      (fun i a => exists v res, views !! i = Some v /\ a = Ret res /\
         lists_matches (scatter_request r request) v res)) with (w := w1)
    as (w2 & results & Hj & Hc2 & Hlr & HR); [|done|].
  { intros i m w0 Hi Hc0. apply list_lookup_fmap_Some in Hi as (c & -> & Hcl).
    destruct (HP _ _ Hcl) as (place & Hp & ->).
    destruct (lookup_lt_is_Some_2 views i) as [v Hv]; [apply lookup_lt_Some in Hp; lia|].
    destruct (query_spec views i place v (scatter_request r request) w0 Hp Hv) as (w' & res & Hq & Hc' & Hl);
      [done..|]. exists w', (Ret res). split_and!; [done|done|by exists v, res]. }
  rewrite length_fmap in Hlr. exists w2, (oks results). rewrite Hj. split_and!; [|done|].
  - f_equal. f_equal. clear -HR. assert (forall a, a ∈ results -> exists x, a = Ret x) as H.
    { intros a [i Hi]%list_elem_of_lookup. destruct (HR _ _ Hi) as (? & x & _ & -> & _). by exists x. }
    clear HR. induction results as [|a l IH]; [done|]. destruct (H a ltac:(by left)) as [x ->].
    cbn. f_equal. apply IH. intros b Hb. apply H. by right.
  - assert (Forall2 (fun v a => exists res, a = Ret res /\ lists_matches (scatter_request r request) v res)
      views results) as HF.
    { apply Forall2_same_length_lookup_2; [lia|]. intros i v a Hv Ha.
      destruct (HR _ _ Ha) as (v' & res & Hv' & -> & Hl). exists res. by simplify_eq. }
    clear -HF. induction HF as [|v a l k (res & -> & Hl) _ IH]; [constructor|]. cbn. by constructor.
Qed.

(** *** Reads by id *)
Lemma place_get_docs views i place v ids w :
  places !! i = Some place -> views !! i = Some v -> cluster places views w ->
  attempt (E' := Error) (cl_get_docs (LocalShardClient place) ids) w = (w, Ret (Ret (omap (vw_get v) ids))).
Proof.
  intros Hp Hv Hc. pose proof (Forall2_lookup_lr _ _ _ _ _ _ Hc Hp Hv : presents v (lget place w)) as Hpres.
  pose proof (ip_lens _ _ Hip place (list_elem_of_lookup_2 _ _ _ Hp)) as Hl.
  apply attempt_ret; [|done]. cbn [LocalShardClient cl_get_docs]. unfold at_.
  pose proof (lset_lget w) as Hw. destruct (lget place w) as [s d].
  unfold mbind, Obj_bind, Async_bind, get_self, obj_lift. cbn [fst snd].
  rewrite (presents_get_docs v s d ids Hpres). by rewrite Hw.
Qed.

Lemma fetched_id views w id doc :
  cluster places views w -> fetched r views id = Some doc -> doc_id doc = id.
Proof.
  intros Hc Hf. unfold fetched in Hf. apply bind_Some in Hf as (v & Hv & Hget).
  destruct (Forall2_lookup_r _ _ _ _ _ Hc Hv) as (place & _ & Hp). by eapply presents_get.
Qed.

Lemma groups_range : 0 < Z.of_nat (length (ro_shards r)) < 2 ^ 32.
Proof.
  pose proof (ip_few _ _ Hip). unfold shards_ok in *.
  pose proof (Forall2_length _ _ _ (ip_groups _ _ Hip)). pose proof (ip_some _ _ Hip).
  destruct places; [done|]. cbn in *. lia.
Qed.

Lemma shard_for_range id : 0 <= shard_for r id < Z.of_nat (length (ro_shards r)).
Proof. apply bucket_of_range, groups_range. Qed.

(** The groups that own some of the ids, with them. *)
Definition asked_groups (parts : list (list Z)) : list (ShardGroup W * list Z) :=
  filter (fun p => p.2 <> []) (zip (ro_shards r) parts).
Definition get_from (p : ShardClient W * list Z) : Task W (Result (list Document)) :=
  attempt (cl_get_docs p.1 p.2).

(** The answers of the groups, of which number [k] is that of shard [i]. *)
Definition answers_part (views : list View) (parts : list (list Z)) (k : nat)
    (a : Result (list Document)) : Prop :=
  exists p i v, asked_groups parts !! k = Some p /\ parts !! i = Some p.2 /\ views !! i = Some v /\
    a = Ret (omap (vw_get v) p.2).

Lemma ask_groups views parts w :
  cluster places views w ->
  exists w1 targets w2 results,
    mapM (fun p : ShardGroup W * list Z => shard ← call (E := Error) (read_target p.1); mret (shard, p.2))
      (asked_groups parts) w = (w1, Ret targets) /\
    join_all (get_from <$> targets) w1 = (w2, Ret results) /\ cluster places views w2 /\
    length results = length (asked_groups parts) /\
    forall k a, results !! k = Some a -> answers_part views parts k a.
Proof.
  intros Hc. destruct (ip_length views w Hc) as [Hlen Hlv].
  destruct (join_all_ret (cluster places views)
      ((fun p : ShardGroup W * list Z => shard ← call (E := Error) (read_target p.1); mret (shard, p.2))
        <$> asked_groups parts)
      (fun k q => exists p i place, asked_groups parts !! k = Some p /\ parts !! i = Some p.2 /\
         places !! i = Some place /\ q = (LocalShardClient place, p.2))) with (w := w)
    as (w1 & targets & Ht & Hc1 & Hlt & HP); [|done|].
  { intros k m w0 Hk Hc0. apply list_lookup_fmap_Some in Hk as (p & -> & Hk).
    assert (exists i, ro_shards r !! i = Some p.1 /\ parts !! i = Some p.2) as (i & Hg & Hpart).
    { apply list_elem_of_lookup_2, list_elem_of_filter in Hk as [_ Hin].
      apply list_elem_of_lookup in Hin as [i Hi]. exists i.
      by apply lookup_zip_with_Some in Hi as (? & ? & -> & ? & ?). }
    destruct (target_spec views i p.1 w0 Hg Hc0) as (w' & place & Er & Hpl & Hc').
    exists w', (LocalShardClient place, p.2). split_and!; [|done|by exists p, i, place].
    erewrite async_bind_ret; [reflexivity|]. unfold call. by rewrite Er. }
  destruct (join_all_ret (A := Result (list Document)) (cluster places views) (get_from <$> targets)
      (answers_part views parts)) with (w := w1)
    as (w2 & results & Hj & Hc2 & Hlr & HR); [|done|].
  { intros k m w0 Hk Hc0. apply list_lookup_fmap_Some in Hk as (q & -> & Hq).
    destruct (HP _ _ Hq) as (p & i & place & Hk & Hpart & Hpl & ->).
    destruct (lookup_lt_is_Some_2 views i) as [v Hv]; [apply lookup_lt_Some in Hpl; lia|].
    exists w0, (Ret (omap (vw_get v) p.2)). split_and!; [|done|by exists p, i, v].
    by apply (place_get_docs views i). }
  assert (length results = length targets) by (rewrite Hlr; apply length_fmap).
  rewrite length_fmap in Hlt. exists w1, targets, w2, results.
  rewrite mapM_join_all. split_and!; [done|done|done|lia|done].
Qed.

(** Together the answers are the documents of the ids. *)
Lemma answers_fetched views ids parts results :
  length parts = length (ro_shards r) ->
  (forall i part, parts !! i = Some part -> part = filter (fun id => shard_for r id = Z.of_nat i) ids) ->
  length results = length (asked_groups parts) ->
  (forall k a, results !! k = Some a -> answers_part views parts k a) ->
  forall doc, doc ∈ concat (oks results) <-> exists id, id ∈ ids /\ fetched r views id = Some doc.
Proof.
  intros Hlp Hparts Hlr HR doc. rewrite list_elem_of_In, in_concat. split.
  - intros (l & Hl & Hdoc). apply list_elem_of_In in Hl, Hdoc. unfold oks in Hl.
    apply list_elem_of_omap in Hl as (a & Ha & Hal). apply list_elem_of_lookup in Ha as [k Hk].
    destruct (HR _ _ Hk) as (p & i & v & _ & Hpart & Hv & ->). injection Hal as <-.
    apply list_elem_of_omap in Hdoc as (id & Hid & Hget). rewrite (Hparts _ _ Hpart) in Hid.
    apply list_elem_of_filter in Hid as [Hsh Hid]. exists id. split; [done|].
    unfold fetched. by rewrite Hsh, Nat2Z.id, Hv.
  - intros (id & Hid & Hf). pose proof (shard_for_range id) as Hrange.
    set (i := Z.to_nat (shard_for r id)). unfold fetched in Hf. fold i in Hf.
    apply bind_Some in Hf as (v & Hv & Hget).
    destruct (lookup_lt_is_Some_2 parts i) as [part Hpart]; [lia|].
    destruct (lookup_lt_is_Some_2 (ro_shards r) i) as [g Hg]; [lia|].
    assert (id ∈ part) as Hin
      by (rewrite (Hparts _ _ Hpart); apply list_elem_of_filter; split; [lia|done]).
    assert ((g, part) ∈ asked_groups parts) as Hask.
    { apply list_elem_of_filter. split; [cbn; intros E; rewrite E in Hin; by apply elem_of_nil in Hin|].
      apply list_elem_of_lookup. exists i. apply lookup_zip_with_Some. by exists g, part. }
    apply list_elem_of_lookup in Hask as [k Hk].
    destruct (lookup_lt_is_Some_2 results k) as [a Ha]; [apply lookup_lt_Some in Hk; lia|].
    destruct (HR _ _ Ha) as (p & i' & v' & Hk' & Hpart' & Hv' & ->). rewrite Hk in Hk'. injection Hk' as <-.
    cbn [snd] in *. assert (i' = i) as ->.
    { pose proof Hin as Hin'. rewrite (Hparts _ _ Hpart') in Hin'.
      apply list_elem_of_filter in Hin' as [Hsh _]. unfold i. lia. }
    simplify_eq. exists (omap (vw_get v) part). rewrite <- !list_elem_of_In. split.
    + unfold oks. apply list_elem_of_omap. exists (Ret (omap (vw_get v) part)).
      split; [by eapply list_elem_of_lookup_2|done].
    + apply list_elem_of_omap. by exists id.
Qed.

Lemma fetch_all views ids w :
  cluster places views w ->
  exists w' docs, fetch_docs r ids w = (w', Ret docs) /\ cluster places views w' /\
    forall doc, doc ∈ docs <-> exists id, id ∈ ids /\ fetched r views id = Some doc.
Proof.
  intros Hc. unfold fetch_docs. case_bool_decide as Hne.
  { exists w, []. split_and!; [done..|]. subst ids. intros doc.
    split; [by intros ?%elem_of_nil|by intros (id & ?%elem_of_nil & _)]. }
  destruct (partition_ret (E := Error) (shard_for r) (length (ro_shards r)) ids)
    as (parts & Hp & Hlp & Hparts); [apply Forall_true; intros; apply shard_for_range|].
  rewrite (async_bind_ret _ _ w w parts) by (unfold async_lift; by rewrite Hp).
  destruct (ask_groups views parts w Hc) as (w1 & targets & w2 & results & Ht & Hj & Hc2 & Hlr & HR).
  erewrite async_bind_ret by exact Ht. erewrite async_bind_ret by exact Hj.
  exists w2, (concat (oks results)). split_and!; [done..|]. by eapply answers_fetched.
Qed.

Lemma doc_map_mem docs i : is_Some (doc_map docs !! i) <-> exists d, d ∈ docs /\ doc_id d = i.
Proof.
  unfold doc_map. induction docs as [|x docs IH] using rev_ind.
  { cbn. rewrite lookup_empty. split; [by intros []|by intros (d & ?%elem_of_nil & _)]. }
  rewrite foldl_snoc, lookup_insert_is_Some', IH. set_solver.
Qed.

Lemma doc_map_elem docs i d : doc_map docs !! i = Some d -> d ∈ docs.
Proof.
  unfold doc_map. induction docs as [|x docs IH] using rev_ind; [by cbn; rewrite lookup_empty|].
  rewrite foldl_snoc, lookup_insert_Some. intros [[_ <-]|[_ H]]; set_solver.
Qed.

Lemma doc_map_fetched views (ids : list Z) docs w :
  cluster places views w ->
  (forall doc, doc ∈ docs <-> exists id, id ∈ ids /\ fetched r views id = Some doc) ->
  forall id, id ∈ ids -> doc_map docs !! id = fetched r views id.
Proof.
  intros Hc Hdocs id Hid. destruct (doc_map docs !! id) as [d|] eqn:Em.
  - pose proof (doc_map_id _ _ _ Em) as Hi. apply doc_map_elem, Hdocs in Em as (id' & _ & Hd).
    rewrite <- Hi, (fetched_id _ _ _ _ Hc Hd). done.
  - symmetry. destruct (fetched r views id) as [d|] eqn:Ef; [|done]. exfalso.
    assert (is_Some (doc_map docs !! id)) as [? E]; [|congruence]. apply doc_map_mem. exists d.
    split; [apply Hdocs; by exists id|by eapply fetched_id].
Qed.

(** The documents the router has at hand after fetching [ids]. *)
Lemma fetch_map views ids w :
  cluster places views w ->
  exists w' docs, fetch_docs r ids w = (w', Ret docs) /\ cluster places views w' /\
    forall id, id ∈ ids -> doc_map docs !! id = fetched r views id.
Proof.
  intros Hc. destruct (fetch_all views ids w Hc) as (w' & docs & Hf & Hc' & Hdocs).
  exists w', docs. split_and!; [done..|]. by eapply doc_map_fetched.
Qed.

(** *** The search *)

(** The documents of the cluster that a request selects. *)
Definition cluster_matches (views : list View) (request : SearchRequest) : list Document :=
  views ≫= view_matches request.

(** Every shard's matches fit in what the router asks of a shard. *)
Definition within_limit (views : list View) (request : SearchRequest) : Prop :=
  Forall (fun v => length (view_matches request v) <= Z.to_nat (rq_limit (scatter_request r request)))%nat
    views.

Definition room_for_one (views : list View) (request : SearchRequest) : Prop :=
  Forall (fun v => length (view_matches request v) < Z.to_nat (rq_limit (scatter_request r request)))%nat
    views.

Definition hit_of (doc : Document) : Z * f32 := (doc_id doc, one).

Lemma oks_all {A} (l : list A) : oks (Ret <$> l) = l.
Proof. unfold oks. induction l as [|x l IH]; [done|]. cbn. by rewrite IH. Qed.

Lemma zsum_bind {A B} (f : B -> Z) (g : A -> list Document) (P : Document -> Prop)
    `{!forall d, Decision (P d)} (l : list A) (k : list B) :
  Forall2 (fun a b => f b = wrap 64 (Z.of_nat (length (filter P (g a))))) l k ->
  wrap 64 (zsum f k) = wrap 64 (Z.of_nat (length (filter P (l ≫= g)))).
Proof.
  induction 1 as [|a b l k Hb _ IH]; [done|]. cbn [mbind list_bind].
  rewrite filter_app, length_app, Nat2Z.inj_add. unfold wrap in *.
  change (zsum f (b :: k)) with (f b + zsum f k). rewrite Hb.
  rewrite Zplus_mod_idemp_l, <- Zplus_mod_idemp_r, IH, Zplus_mod_idemp_r. done.
Qed.

(** Gathering the answers of all shards. *)
Lemma gather_all views request answers :
  within_limit views request ->
  Forall2 (lists_matches (scatter_request r request)) views answers ->
  let g := gather (Ret <$> answers) in
  ga_all_hits g ≡ₚ hit_of <$> cluster_matches views request /\
  ga_total_hits g = wrap 64 (Z.of_nat (length (cluster_matches views request))) /\
  ga_healthy_shards g = length views /\ ga_any_or_fallback g = false /\
  forall f x, f ∈ rq_aggregations request -> (forall v, v ∈ views -> keyword_field (vw_schema v) f) ->
    merged_count (ga_merged_aggs g) f x
      = wrap 64 (Z.of_nat (length (with_value f x (cluster_matches views request)))).
Proof.
  intros Hlim HF g. destruct (gather_spec (Ret <$> answers)) as [Hh Ht Hn Hf Hc]. fold g in Hh, Ht, Hn, Hf, Hc.
  rewrite oks_all in Hh, Ht, Hn, Hf, Hc. split_and!.
  - rewrite Hh. clear -Hlim HF. unfold cluster_matches.
    induction HF as [|v res vs l [(found & Hfound & Hhits) _ _ _] _ IH]; [done|].
    apply Forall_cons in Hlim as [Hv Hlim]. cbn [mbind list_bind]. rewrite fmap_app, (IH Hlim).
    f_equiv. rewrite Hhits. cbn [rq_offset scatter_request Z.to_nat drop].
    change (view_matches (scatter_request r request) v) with (view_matches request v) in Hfound.
    rewrite firstn_all2 by (rewrite Hfound; exact Hv). by apply fmap_Permutation.
  - rewrite Ht. unfold cluster_matches.
    pose proof (zsum_bind shr_total_hits (view_matches request) (fun _ => True) views answers) as H.
    rewrite !(filter_all (fun _ : Document => True)) in H by done. apply H.
    eapply Forall2_impl; [exact HF|]. intros v res [_ Htot _ _]. rewrite filter_all by done. exact Htot.
  - rewrite Hn. symmetry. by eapply Forall2_length.
  - destruct (ga_any_or_fallback g); [|done]. destruct (proj1 Hf eq_refl) as (res & Hin & Hres).
    apply list_elem_of_lookup in Hin as [i Hi].
    destruct (Forall2_lookup_r _ _ _ _ _ HF Hi) as (v & _ & [_ _ Hm _]). congruence.
  - intros f x Hagg Hkw. rewrite Hc. unfold cluster_matches, with_value. apply zsum_bind.
    apply Forall2_same_length_lookup_2; [by eapply Forall2_length|]. intros i v res Hv Hres.
    apply (lm_counts _ _ _ (Forall2_lookup_lr _ _ _ _ _ _ HF Hv Hres) f x Hagg).
    by eapply Hkw, list_elem_of_lookup_2.
Qed.

(** Without a ranker and a zone the order of the shards' scores stays. *)
Lemma rank_plain request docs hits w :
  ro_ranker r = NoopRanker ->
  exists did, rank_hits r request docs hits w
    = (w, Ret (filter (fun h => is_Some (docs !! h.1)) hits, did)).
Proof.
  intros Hn. unfold rank_hits. case_bool_decide as Hh; [subst hits; by exists false|].
  exists true. set (candidates := omap (rank_candidate docs) hits).
  rewrite (async_bind_ret _ _ w w (bm25_results candidates, true)).
  - cbv beta iota. unfold candidates. by rewrite bm25_candidates.
  - unfold rerank_with_fallback. rewrite Hn.
    rewrite (async_bind_ret _ _ w w (Ret (Some (bm25_results candidates)))); [done|].
    apply attempt_ret; [|done]. by rewrite (ip_patient _ _ Hip).
Qed.

Lemma available_plain request docs hits w :
  default "" (rq_destination_zone request) = ""%string -> filter_available r request docs hits w = (w, Ret hits).
Proof.
  unfold filter_available. destruct (rq_destination_zone request) as [zone|]; [|done].
  cbn. intros ->. done.
Qed.

(** The ids a request selects and reads can answer. *)
Definition answered_ids (views : list View) (request : SearchRequest) : list Z :=
  filter (fun id => is_Some (fetched r views id)) (doc_id <$> cluster_matches views request).

Lemma compute_all views request w :
  ro_ranker r = NoopRanker -> default "" (rq_destination_zone request) = ""%string ->
  rq_query request = "" -> within_limit views request -> cluster places views w ->
  exists w' cd docs ids, RouterSearch.compute r request w = (w', Ret (cd, docs)) /\
    cluster places views w' /\ ids ≡ₚ answered_ids views request /\
    cd_hits cd = (fun id => (id, one)) <$> ids /\
    (forall id, id ∈ ids -> docs !! id = fetched r views id) /\
    cd_total_hits cd = wrap 64 (Z.of_nat (length (cluster_matches views request))) /\
    cd_retrieval_mode cd = RmAnd /\
    exists merged, cd_aggregations cd = make_buckets <$> merged /\
      forall f x, f ∈ rq_aggregations request -> (forall v, v ∈ views -> keyword_field (vw_schema v) f) ->
        merged_count merged f x
          = wrap 64 (Z.of_nat (length (with_value f x (cluster_matches views request)))).
Proof.
  intros Hn Hz Hempty Hlim Hc.
  destruct (scatter_all views request w Hempty Hc) as (w1 & answers & Hs & Hc1 & HF).
  destruct (gather_all views request answers Hlim HF) as (Hh & Ht & Hk & Hf & Hagg).
  set (g := gather (Ret <$> answers)) in *. unfold RouterSearch.compute.
  erewrite async_bind_ret by exact Hs. fold g. cbv zeta.
  rewrite bool_decide_false.
  2: { rewrite Hk. destruct (ip_length views w Hc) as [_ Hlv]. pose proof (ip_some _ _ Hip).
       destruct places; [done|]. cbn in Hlv. lia. }
  set (sorted := sort_unstable_by score_desc (ga_all_hits g)).
  destruct (fetch_map views sorted.*1 w1 Hc1) as (w2 & fetched_docs & Hfe & Hc2 & Hmap).
  erewrite async_bind_ret by exact Hfe.
  destruct (rank_plain request (doc_map fetched_docs) sorted w2 Hn) as [did Hr].
  erewrite async_bind_ret by exact Hr. cbv beta iota.
  erewrite async_bind_ret by (by apply available_plain).
  set (final := filter _ sorted).
  assert (sorted ≡ₚ hit_of <$> cluster_matches views request) as Hsorted
    by (unfold sorted; by rewrite sort_unstable_perm).
  assert (final = filter (fun h => is_Some (fetched r views h.1)) sorted) as Hfinal.
  { apply filter_ext_in. intros h Hin. rewrite Hmap; [done|]. apply list_elem_of_fmap. by exists h. }
  exists w2, {| cd_hits := final; cd_total_hits := ga_total_hits g;
    cd_aggregations := make_buckets <$> ga_merged_aggs g; cd_reranked := did;
    cd_retrieval_mode := if ga_any_or_fallback g then RmOrFallback else RmAnd |},
    (doc_map fetched_docs), final.*1.
  cbn [cd_hits cd_total_hits cd_aggregations cd_retrieval_mode]. split_and!; [done|done| | | |done| |].
  - rewrite Hfinal, Hsorted. unfold answered_ids. generalize (cluster_matches views request) as l. clear.
    induction l as [|doc l IH]; [done|]. cbn [fmap list_fmap]. rewrite !filter_cons. cbn [hit_of fst].
    case_decide; [|done]. cbn. by rewrite IH.
  - assert (Forall (fun h => h.2 = one) final) as Hone.
    { apply Forall_forall. intros h Hin. rewrite Hfinal, Hsorted in Hin.
      apply list_elem_of_filter in Hin as [_ Hin]. by apply list_elem_of_fmap in Hin as (doc & -> & _). }
    clear -Hone. induction Hone as [|[i x] l Hx _ IH]; [done|]. cbn in *. by rewrite Hx, <- IH.
  - intros id ([i x] & -> & Hin)%list_elem_of_fmap. apply Hmap. apply list_elem_of_fmap.
    exists (i, x). split; [done|]. by apply list_elem_of_filter in Hin as [_ ?].
  - by rewrite Hf.
  - by exists (ga_merged_aggs g).
Qed.

(** The documents of a page: those at hand, or fetched again. *)
Lemma build_page views ids docs include_docs w :
  (forall id, id ∈ ids -> docs !! id = fetched r views id) -> cluster places views w ->
  exists w', build_hits r ((fun id => (id, one)) <$> ids) docs include_docs w
    = (w', Ret ((fun id => {| hit_id := id; hit_score := one;
                              hit_document := if include_docs then fetched r views id else None |})
                  <$> ids)) /\ cluster places views w'.
Proof.
  intros Hdocs Hc. unfold build_hits. destruct include_docs; cbn [negb].
  2: { exists w. split; [|done]. unfold mret, Async_ret. by rewrite <- list_fmap_compose. }
  assert (((fun id : Z => (id, one)) <$> ids).*1 = ids) as Hfst
    by (rewrite <- list_fmap_compose; apply list_fmap_id).
  rewrite Hfst. set (from_cache := omap _ ids).
  assert (exists w' page_docs, (if bool_decide (length from_cache = length ids) then mret from_cache
      else fetch_docs r ids) w = (w', Ret page_docs) /\ cluster places views w' /\
    forall id, id ∈ ids -> doc_map page_docs !! id = fetched r views id) as (w' & page_docs & Hp & Hc' & Hm).
  { case_bool_decide; [|by apply fetch_map]. exists w, from_cache. split_and!; [done|done|].
    apply (doc_map_fetched _ _ _ w Hc). intros doc. unfold from_cache. rewrite list_elem_of_omap.
    split; intros (id & Hid & Hd); exists id; split; try done; by rewrite Hdocs in *. }
  erewrite async_bind_ret by exact Hp. exists w'. split; [|done].
  unfold mret, Async_ret. rewrite <- list_fmap_compose. f_equal. f_equal.
  apply list_fmap_ext. intros i id Hi. cbn. rewrite Hm; [done|]. by eapply list_elem_of_lookup_2.
Qed.
(** All steps of the search. *)
Lemma cluster_search `{FD : FloatDebug} views request w :
  cluster places views w ->
  ro_ranker r = NoopRanker -> ro_cache r = None ->
  default "" (rq_destination_zone request) = ""%string -> rq_query request = "" ->
  within_limit views request ->
  exists w' resp ids, router_search r request w = (w', Ret resp) /\ cluster places views w' /\
    ids ≡ₚ answered_ids views request /\
    rs_hits resp = (fun id => {| hit_id := id; hit_score := one;
        hit_document := if rq_include_docs request then fetched r views id else None |})
      <$> page request ids /\
    rs_total_hits resp = wrap 64 (Z.of_nat (length (cluster_matches views request))) /\
    rs_retrieval_mode resp = RmAnd /\ rs_cache_hit resp = false /\
    forall f x, f ∈ rq_aggregations request -> (forall v, v ∈ views -> keyword_field (vw_schema v) f) ->
      bucket_is (rs_aggregations resp) f x
        (wrap 64 (Z.of_nat (length (with_value f x (cluster_matches views request))))).
Proof.
  intros Hc Hn Hcache Hz Hempty Hlim.
  destruct (compute_all views request w Hn Hz Hempty Hlim Hc)
    as (w1 & cd & docs & ids & Hcomp & Hc1 & Hids & Hhits & Hdocs & Htotal & Hmode & merged & Hagg & Hcounts).
  destruct (build_page views (page request ids) docs (rq_include_docs request) w1)
    as (w2 & Hb & Hc2); [|done|].
  { intros id Hid. apply Hdocs. unfold page in Hid.
    by eapply elem_of_window. }
  unfold router_search, cache_lookup, cache_store. rewrite Hcache.
  erewrite async_bind_ret by reflexivity. cbv beta iota.
  erewrite async_bind_ret by exact Hcomp. cbv beta iota.
  erewrite async_bind_ret by reflexivity.
  assert (page request (cd_hits cd) = (fun id => (id, one)) <$> page request ids) as ->
    by (rewrite Hhits; unfold page; by rewrite fmap_take, fmap_drop).
  erewrite async_bind_ret by exact Hb. unfold reads. erewrite async_bind_ret by reflexivity.
  eexists w2, _, ids. split; [reflexivity|]. cbn. split_and!; [done|done|done|done|done|done|].
  intros f x Hf Hkw. rewrite Hagg. by apply merged_bucket_is, Hcounts.
Qed.

(** *** Writes *)
Lemma in_process_lives_in id place :
  places !! Z.to_nat (shard_for r id) = Some place -> lives_in r id place.
Proof.
  intros Hp. pose proof (list_elem_of_lookup_2 _ _ _ Hp) as Hin. split.
  - by apply Hip. - apply Hip. - apply Hip. - intros docs w. by apply Hip.
  - destruct (Forall2_lookup_r _ _ _ _ _ (ip_groups _ _ Hip) Hp) as (g & Hg & next & -> & Hnext).
    exists next. split; [done|]. intros n w. by apply Hnext.
Qed.

(** Writing a document changes the view of its shard: the document is among the
    searched ones, and a read of its id answers. *)
Lemma index_view views place w s d recs cs doc :
  cluster places views w -> places !! Z.to_nat (shard_for r (doc_id doc)) = Some place ->
  lget place w = (s, d) -> shard_ok s d recs cs [] -> wb_deleted_ids (sh_write_buffer s) = ∅ ->
  record_fits (mkWalRecord (wal_next_seq (sh_wal s)) (WalIndex doc)) ->
  all_fit (sh_schema s) (stored s cs ++ [doc]) ->
  sl_next_segment_seq (sh_segments s) + 2 < 2 ^ 64 ->
  exists w1 v1 x, index r doc w = (w1, Ret tt) /\
    cluster places (<[Z.to_nat (shard_for r (doc_id doc)) := v1]> views) w1 /\
    vw_schema v1 = sh_schema s /\ vw_docs v1 ≡ₚ searchable s cs ++ [doc] /\
    vw_get v1 (doc_id doc) = Some x /\ doc_id x = doc_id doc /\
    ((forall y, y ∈ searchable s cs -> doc_id y <> doc_id doc) -> x = doc).
Proof.
  intros Hc Hp Hw Hs Hdel Hrec Hfit Hn.
  destruct (index_document_of s d recs cs doc Hs Hrec Hfit Hn)
    as (s1 & d1 & recs1 & cs1 & x & Hr & Hok & Hst & Hx & Hid & _ & Hnew & Hsch & Hdel1).
  specialize (Hdel1 Hdel).
  assert (forall s cs, wb_deleted_ids (sh_write_buffer s) = ∅ -> searchable s cs = stored s cs) as Hall.
  { intros s' cs' E. unfold searchable, stored, wb_all_docs. rewrite E, filter_all; [done|].
    intros y _. apply not_elem_of_empty. }
  destruct (index_routed r doc place w s d (in_process_lives_in _ _ Hp) Hw) as (w0 & Hf & Hi).
  rewrite Hr in Hi. cbn [fst snd] in Hi.
  exists (lset place (s1, d1) w0), (view_of s1 cs1), x. cbn [view_of vw_schema vw_docs vw_get].
  rewrite !Hall by done. split_and!; [done| |done..].
  apply (cluster_update views _ place); [done| |].
  - exists recs1, cs1. split_and!; [done| |done..]. cbn [fst snd]. intros _. rewrite Hsch.
    apply (all_fit_perm _ _ _ (symmetry Hst)) in Hfit. apply Hfit.
    pose proof (Hall s1 cs1 Hdel1) as E. unfold searchable, stored in E. apply app_inv_head in E. rewrite E.
    unfold stored. apply submseteq_inserts_l. done.
  - eapply cluster_frame; [|exact Hc]. intros q Hq.
    pose proof (ip_fan_out _ _ Hip [doc] q w Hq) as E. by rewrite Hf in E.
Qed.
End Cluster.

(** ** The properties *)

(** C9: without words to look for, a cluster is one collection of documents.
    On a router of in-process shards (no ranker, cache, zone or time-out; what a
    shard selects fits in what the router asks of it), the search succeeds,
    leaves what the shards present, and its hits are the requested page of a
    list of the ids, with repetitions, of the documents of any shard that pass
    the filters and whose ids can be read; with a hit comes the document a read
    of its id gives, if asked for.  The total and the buckets of the keyword
    fields count all documents that pass, also those whose id cannot be read. *)
Theorem cluster_search_correct `{FD : FloatDebug} `{ILL : IndexLaws} `{SDL : SerdeLaws WalRecord} `{TDL : TempDirLaws}
    `{ML : MathLib} `{UOL : UnspecifiedOrderLaws} `{MK : MokaLib} {W : Type} `{RT : Runtime W}
    (r : Router W) (places : list (Lens W (ShardEngine * Disk))) (views : list View)
    (request : SearchRequest) (w : W) :
  in_process r places -> cluster places views w ->
  ro_ranker r = NoopRanker -> ro_cache r = None ->
  default "" (rq_destination_zone request) = ""%string -> rq_query request = "" ->
  within_limit r views request ->
  exists w' resp ids, router_search r request w = (w', Ret resp) /\ cluster places views w' /\
    ids ≡ₚ answered_ids r views request /\
    rs_hits resp = (fun id => {| hit_id := id; hit_score := one;
        hit_document := if rq_include_docs request then fetched r views id else None |})
      <$> page request ids /\
    rs_total_hits resp = wrap 64 (Z.of_nat (length (cluster_matches views request))) /\
    rs_retrieval_mode resp = RmAnd /\ rs_cache_hit resp = false /\
    forall f x, f ∈ rq_aggregations request -> (forall v, v ∈ views -> keyword_field (vw_schema v) f) ->
      bucket_is (rs_aggregations resp) f x
        (wrap 64 (Z.of_nat (length (with_value f x (cluster_matches views request))))).
Proof. intros Hip. by apply (cluster_search r places Hip). Qed.

(** C8: what is written is found.  On the same kind of router, when the shard the
    document belongs to has seen no deletion since its last flush, writing it
    succeeds and adds it to what a search of the cluster goes through; every
    search without words whose filters it passes and whose page starts at the
    first id and has room for all then has a hit with its id, with the document a read of the id gives (the
    one written, unless the shard had an older one), and one more in the total. *)
Theorem written_document_found `{FD : FloatDebug} `{ILL : IndexLaws} `{SDL : SerdeLaws WalRecord}
    `{TDL : TempDirLaws} `{ML : MathLib} `{UOL : UnspecifiedOrderLaws} `{MK : MokaLib} {W : Type}
    `{RT : Runtime W} (r : Router W) (places : list (Lens W (ShardEngine * Disk)))
    (views : list View) (place : Lens W (ShardEngine * Disk)) (w : W) (s : ShardEngine) (d : Disk)
    (recs : list WalRecord) (cs : list Contents) (doc : Document) :
  in_process r places -> ro_ranker r = NoopRanker -> ro_cache r = None ->
  cluster places views w -> places !! Z.to_nat (shard_for r (doc_id doc)) = Some place ->
  views !! Z.to_nat (shard_for r (doc_id doc)) = Some (view_of s cs) ->
  lget place w = (s, d) -> shard_ok s d recs cs [] -> wb_deleted_ids (sh_write_buffer s) = ∅ ->
  record_fits (mkWalRecord (wal_next_seq (sh_wal s)) (WalIndex doc)) ->
  all_fit (sh_schema s) (stored s cs ++ [doc]) ->
  sl_next_segment_seq (sh_segments s) + 2 < 2 ^ 64 ->
  exists w1 views1 x, index r doc w = (w1, Ret tt) /\ cluster places views1 w1 /\
    doc_id x = doc_id doc /\ ((forall y, y ∈ searchable s cs -> doc_id y <> doc_id doc) -> x = doc) /\
    forall request,
      default "" (rq_destination_zone request) = ""%string -> rq_query request = "" ->
      matches (sh_schema s) request doc -> room_for_one r views request -> rq_offset request = 0 ->
      Z.of_nat (length (cluster_matches views request)) < rq_limit request ->
      exists w2 resp h, router_search r request w1 = (w2, Ret resp) /\ cluster places views1 w2 /\
        h ∈ rs_hits resp /\ hit_id h = doc_id doc /\
        hit_document h = (if rq_include_docs request then Some x else None) /\
        rs_total_hits resp = wrap 64 (Z.of_nat (length (cluster_matches views request)) + 1).
Proof.
  intros Hip Hn Hcache Hc Hp Hv Hw Hs Hdel Hrec Hfit Hseq. set (i := Z.to_nat (shard_for r (doc_id doc))) in *.
  destruct (index_view r places Hip views place w s d recs cs doc Hc Hp Hw Hs Hdel Hrec Hfit Hseq)
    as (w1 & v1 & x & Hi & Hc1 & Hsch & Hdocs & Hget & Hid & Hnew). fold i in Hc1.
  set (views1 := <[i := v1]> views) in *. exists w1, views1, x. split_and!; [done..|].
  intros request Hz Hempty Hm Hroom Hoff Hpage.
  assert (views1 !! i = Some v1) as Hv1 by (apply list_lookup_insert_eq; by eapply lookup_lt_Some).
  assert (fetched r views1 (doc_id doc) = Some x) as Hf by (unfold fetched; fold i; by rewrite Hv1).
  assert (view_matches request v1 ≡ₚ view_matches request (view_of s cs) ++ [doc]) as Hvm.
  { unfold view_matches. rewrite Hsch, Hdocs, filter_app. cbn [view_of vw_schema vw_docs].
    by rewrite (filter_cons_True _ doc []). }
  assert (cluster_matches views1 request ≡ₚ cluster_matches views request ++ [doc]) as Hcm.
  { unfold cluster_matches, views1. rewrite <- (list_insert_id views i _ Hv) at 2.
    pose proof (lookup_lt_Some _ _ _ Hv) as Hlt. rewrite !insert_take_drop by done.
    rewrite !bind_app. cbn [mbind list_bind]. rewrite Hvm. solve_Permutation. }
  assert (within_limit r views1 request) as Hlim.
  { apply Forall_insert; [eapply Forall_impl; [exact Hroom|]; cbn; intros; lia|].
    pose proof (Forall_lookup_1 _ _ _ _ Hroom Hv). rewrite Hvm, length_app. cbn in *. lia. }
  destruct (cluster_search r places Hip views1 request w1 Hc1 Hn Hcache Hz Hempty Hlim)
    as (w2 & resp & ids & Hr & Hc2 & Hids & Hhits & Htotal & _).
  assert (length ids <= Z.to_nat (rq_limit request))%nat as Hlen.
  { rewrite Hids. unfold answered_ids. etransitivity; [apply length_filter|].
    rewrite length_fmap, Hcm, length_app. cbn. lia. }
  exists w2, resp, {| hit_id := doc_id doc; hit_score := one;
    hit_document := if rq_include_docs request then Some x else None |}.
  split_and!; [done|done| |done|done|].
  - rewrite Hhits. apply list_elem_of_fmap. exists (doc_id doc). rewrite Hf. split; [done|].
    unfold page. rewrite Hoff. change (drop (Z.to_nat 0) ids) with ids.
    rewrite firstn_all2 by exact Hlen.
    rewrite Hids. apply list_elem_of_filter. rewrite Hf. split; [by eexists|].
    apply list_elem_of_fmap. exists doc. split; [done|]. rewrite Hcm. set_solver.
  - rewrite Htotal, Hcm, length_app. cbn. f_equal. lia.
Qed.

Section Witness.
Import TestLibs StableOrder CountableSerde WriteBuffer.FreshTemp Patient KeepAll BitsDebug.
#[local] Instance no_log : MathLib := {| f32_ln := fun x => x |}.
#[local] Instance keep : MokaLib := KeepAll.lib.

Lemma single_in_process : in_process single [shard_place].
Proof.
  split.
  - constructor; [|constructor]. exists counter_place. split; [done|]. intros n p w Hp.
    by apply list_elem_of_singleton in Hp as ->.
  - done.
  - unfold shards_ok. cbn. lia.
  - intros p Hp. apply list_elem_of_singleton in Hp as ->. split; [done| |done]. by intros [].
  - intros i j p q t w Hi%list_lookup_singleton_Some Hj%list_lookup_singleton_Some Hne. lia.
  - unfold shards_ok. cbn. lia.
  - done.
  - done.
Qed.

Lemma single_shard id : shard_for single id = 0.
Proof.
  pose proof (bucket_of_range id 1 ltac:(lia)). unfold shard_for.
  change (Z.of_nat (length (ro_shards single))) with 1. lia.
Qed.

Definition small_process : Process := ((small_shard, sample_disk), 0).

Lemma small_cluster : cluster [shard_place] [view_of small_shard []] small_process.
Proof.
  constructor; [|constructor]. exists sample_records, []. split_and!; [exact small_shard_ok| |done..].
  intros _. apply sample_all_fit. change (wb_all_docs _) with [doc_a].
  apply singleton_submseteq_l. by left.
Qed.

Definition all_docs : SearchRequest :=
  mkSearchRequest "" {["category" := FEquality "c"]} ["category"] None 0 10 true None None true.

Lemma cluster_search_correct_witness :
  exists w' resp ids, router_search single all_docs small_process = (w', Ret resp) /\
    ids ≡ₚ [7] /\ rs_total_hits resp = 1 /\ bucket_is (rs_aggregations resp) "category" "c" 1.
Proof.
  destruct (cluster_search_correct single [shard_place] [view_of small_shard []] all_docs small_process)
    as (w' & resp & ids & H1 & _ & H2 & _ & H3 & _ & _ & H4).
  - exact single_in_process.
  - exact small_cluster.
  - reflexivity.
  - reflexivity.
  - reflexivity.
  - reflexivity.
  - constructor; [vm_compute; lia|constructor].
  - exists w', resp, ids. split; [exact H1|]. split; [rewrite H2; vm_compute; reflexivity|].
    split; [rewrite H3; vm_compute; reflexivity|].
    pose proof (H4 "category" "c") as Hb. unfold bucket_is in *.
    replace (wrap 64 _) with 1 in Hb by (vm_compute; reflexivity). apply Hb; [by left|].
    intros v Hv. apply list_elem_of_singleton in Hv as ->. unfold keyword_field. vm_decide.
Defined.

Lemma written_document_found_witness :
  exists w1 w2 resp h, index single doc_b small_process = (w1, Ret tt) /\
    router_search single all_docs w1 = (w2, Ret resp) /\ h ∈ rs_hits resp /\ hit_id h = 8 /\
    hit_document h = Some doc_b /\ rs_total_hits resp = 2.
Proof.
  destruct (written_document_found single [shard_place] [view_of small_shard []] shard_place small_process
    small_shard sample_disk sample_records [] doc_b) as (w1 & views1 & x & H1 & _ & _ & H2 & H3).
  - exact single_in_process.
  - reflexivity.
  - reflexivity.
  - exact small_cluster.
  - rewrite single_shard. reflexivity.
  - rewrite single_shard. reflexivity.
  - reflexivity.
  - exact small_shard_ok.
  - reflexivity.
  - intros e [= <-]. vm_compute. reflexivity.
  - exact sample_all_fit.
  - reflexivity.
  - destruct (H3 all_docs) as (w2 & resp & h & H4 & _ & H5 & H6 & H7 & H8).
    + reflexivity.
    + reflexivity.
    + vm_decide.
    + constructor; [vm_compute; lia|constructor].
    + reflexivity.
    + vm_compute. reflexivity.
    + exists w1, w2, resp, h. split; [exact H1|]. split; [exact H4|]. split; [exact H5|].
      split; [exact H6|]. split.
      * rewrite H7, H2; [reflexivity|]. intros y Hy. apply list_elem_of_singleton in Hy as ->. discriminate.
      * rewrite H8. vm_compute. reflexivity.
Defined.
End Witness.
