(* ===== verification/Sections.v ===== *)
(** The methods of the shard engine cut at its locks ([crates/shard/src/shard.rs]).
    A running call is the section it executes next, with the local variables
    the later sections use.  A section is what the source does under one guard
    (or, between guards, on files no other call uses).  [exec] runs one section;
    running all sections of a call without interference is the method of
    [Shard]. *)
From Stdlib Require Import Strings.Byte.
From S2P Require Import Prelude Bytes Order Float Types Config Text Decimal Analysis Posting.
From S2P Require Import Disk Inverted Column DocStore Segment Scorer Collector Understanding.
From S2P Require Import Wand Executor Multi Object Wal WriteBuffer SegmentList Proto.
From S2P Require Import Replication Shard.

Local Open Scope Z_scope.

Section Sections.
Context `{IL : IndexLibs} `{SD : Serde WalRecord} `{TD : TempDirLib} `{ML : MathLib}
  `{UO : UnspecifiedOrder}.

(** What a call returns. *)
Inductive Answer :=
  | AUnit
  | AResponse (resp : SearchResponse)
  | ADocs (docs : list Document)
  | AShardStats (st : ShardStats)
  | AReindex (st : ReindexStats).

(** What a call does once its flush is over: return, or go on reindexing. *)
Inductive After := Return | Reindex (elapsed_ms : Z).

(** The next section of a running call. *)
Inductive Pc :=
  (* index, and the insertion of apply_replicated from IndexAdd on *)
  | IndexAppend (doc : Document)
  | IndexEnqueue (doc : Document) (seq : Z)
  | IndexAdd (doc : Document)
  (* index_batch *)
  | BatchAppend (docs : list Document)
  | BatchEnqueue (docs : list Document) (seqs : list Z)
  | BatchAdd (docs : list Document)
  (* delete, and the deletion of apply_replicated from MarkBuffer on *)
  | DeleteAppend (id : Z)
  | DeleteEnqueue (id : Z) (seq : Z)
  | MarkBuffer (id : Z)
  | MarkSegments (id : Z)
  (* search, get_docs, stats *)
  | Searching (request : SearchRequest) (elapsed_ms : Z)
  | Getting (ids : list Z)
  | Stats
  (* flush *)
  | Drain (k : After)
  | FlushName (docs : list Document) (k : After)
  | FlushWrite (docs : list Document) (id : string) (k : After)
  | FlushAdd (docs : list Document) (entry : SegmentEntry) (k : After)
  | FlushTruncate (k : After)
  (* maybe_merge, run_merge *)
  | FindMerges (k : After)
  | MergeName (group : list string) (groups : list (list string)) (k : After)
  | MergeWrite (group : list string) (id : string) (groups : list (list string)) (k : After)
  | MergeReplace (group : list string) (entry : SegmentEntry) (groups : list (list string)) (k : After)
  | MergeClean (group : list string) (groups : list (list string)) (k : After)
  (* reindex_self after its flush *)
  | Collect (elapsed_ms : Z)
  | ReindexName (docs : list Document) (elapsed_ms : Z)
  | ReindexWrite (docs : list Document) (id : string) (elapsed_ms : Z)
  | ReindexIds (docs : list Document) (entry : SegmentEntry) (elapsed_ms : Z)
  | ReindexReplace (docs : list Document) (ids : list string) (entry : SegmentEntry) (elapsed_ms : Z)
  | ReindexClean (docs : list Document) (ids : list string) (elapsed_ms : Z)
  | ReindexTruncate (docs : list Document) (elapsed_ms : Z).

(** Where a call goes next. *)
Definition after_flush (k : After) : Pc + Answer :=
  match k with Return => inr AUnit | Reindex ms => inl (Collect ms) end.
Definition next_merge (groups : list (list string)) (k : After) : Pc + Answer :=
  match groups with
  | [] => after_flush k
  | group :: groups => inl (MergeName group groups k)
  end.
Definition flush_if (full : bool) : Pc + Answer := if full then inl (Drain Return) else inr AUnit.

Definition reindex_answer (s : ShardEngine) (docs : list Document) (elapsed_ms : Z) : Answer :=
  AReindex {| rx_shard_id := sc_shard_id (sh_config s);
              rx_docs_reindexed := Z.of_nat (length docs); rx_elapsed_ms := elapsed_ms |}.

(** The new segment of [docs], written and opened. *)
Definition write_entry (docs : list Document) (id : string) : Obj ShardEngine SegmentEntry :=
  s ← get_self;
  let dir := join (segments_dir s) id in
  '(reader, stats) ← obj_io (write_segment (sh_schema s) id docs dir);
  mret {| se_segment_id := id; se_dir := dir; se_reader := reader; se_stats := stats |}.

(** The merge of the segments [group], as they are when it runs. *)
Definition merge_entry (group : list string) (id : string) : Obj ShardEngine SegmentEntry :=
  s ← get_self;
  let sources := filter (fun e => se_segment_id e ∈ group) (sl_segments (sh_segments s)) in
  obj_io (execute_merge (sh_schema s) sources id (join (segments_dir s) id)).

(** One section. *)
Definition exec (p : Pc) : Obj ShardEngine (Pc + Answer) :=
  match p with
  | IndexAppend doc => seq ← on_wal (append (WalIndex doc)); mret (inl (IndexEnqueue doc seq))
  | IndexEnqueue doc seq => _ ← enqueue seq (WalIndex doc); mret (inl (IndexAdd doc))
  | IndexAdd doc => full ← on_buffer (call_self (wb_add doc)); mret (flush_if full)
  | BatchAppend docs =>
      seqs ← on_wal (append_batch (WalIndex <$> docs)); mret (inl (BatchEnqueue docs seqs))
  | BatchEnqueue docs seqs =>
      _ ← obj_for (fun es : WalEntry * Z => enqueue es.2 es.1) (zip (WalIndex <$> docs) seqs);
      mret (inl (BatchAdd docs))
  | BatchAdd docs => needs_flush ← add_docs docs false; mret (flush_if needs_flush)
  | DeleteAppend id => seq ← on_wal (append (WalDelete id)); mret (inl (DeleteEnqueue id seq))
  | DeleteEnqueue id seq => _ ← enqueue seq (WalDelete id); mret (inl (MarkBuffer id))
  | MarkBuffer id => _ ← on_buffer (modify_self (wb_mark_deleted id)); mret (inl (MarkSegments id))
  | MarkSegments id => _ ← on_segments (sl_mark_deleted id); mret (inr AUnit)
  | Searching request ms => resp ← shard_search request ms; mret (inr (AResponse resp))
  | Getting ids =>
      s ← get_self; docs ← obj_lift (shard_get_docs s ids); mret (inr (ADocs docs))
  | Stats => s ← get_self; mret (inr (AShardStats (shard_stats s)))
  | Drain k =>
      '(docs, _deleted_ids) ← on_buffer drain;
      mret (if bool_decide (docs = []) then after_flush k else inl (FlushName docs k))
  | FlushName docs k =>
      id ← on_segments (call_self next_segment_id); mret (inl (FlushWrite docs id k))
  | FlushWrite docs id k => entry ← write_entry docs id; mret (inl (FlushAdd docs entry k))
  | FlushAdd docs entry k => _ ← on_segments (add_segment entry); mret (inl (FlushTruncate k))
  | FlushTruncate k => _ ← on_wal truncate; mret (inl (FindMerges k))
  | FindMerges k =>
      s ← get_self;
      groups ← obj_lift (find_merges (sh_merge_policy s) (sl_segments (sh_segments s)));
      mret (next_merge groups k)
  | MergeName group groups k =>
      id ← on_segments (call_self next_segment_id); mret (inl (MergeWrite group id groups k))
  | MergeWrite group id groups k =>
      entry ← merge_entry group id; mret (inl (MergeReplace group entry groups k))
  | MergeReplace group entry groups k =>
      _ ← on_segments (replace_segments group entry); mret (inl (MergeClean group groups k))
  | MergeClean group groups k => _ ← remove_segment_dirs group; mret (next_merge groups k)
  | Collect ms =>
      s ← get_self;
      docs ← obj_lift (try_fold (collect_docs live_ids) []
                         (se_reader <$> sl_segments (sh_segments s)));
      mret (if bool_decide (docs = []) then inr (reindex_answer s [] ms) else inl (ReindexName docs ms))
  | ReindexName docs ms =>
      id ← on_segments (call_self next_segment_id); mret (inl (ReindexWrite docs id ms))
  | ReindexWrite docs id ms => entry ← write_entry docs id; mret (inl (ReindexIds docs entry ms))
  | ReindexIds docs entry ms =>
      s ← get_self;
      mret (inl (ReindexReplace docs (se_segment_id <$> sl_segments (sh_segments s)) entry ms))
  | ReindexReplace docs ids entry ms =>
      _ ← on_segments (replace_segments ids entry); mret (inl (ReindexClean docs ids ms))
  | ReindexClean docs ids ms => _ ← remove_segment_dirs ids; mret (inl (ReindexTruncate docs ms))
  | ReindexTruncate docs ms =>
      _ ← on_wal truncate; s ← get_self; mret (inr (reindex_answer s docs ms))
  end.

(** A call running alone: all its sections, one after the other. *)
Fixpoint run_alone (fuel : nat) (next : Pc + Answer) (s : ShardEngine * Disk)
  : option ((ShardEngine * Disk) * Result Answer) :=
  match next, fuel with
  | inr a, _ => Some (s, Ret a)
  | inl _, O => None
  | inl p, S fuel =>
      match exec p s with
      | (s, Ret next) => run_alone fuel next s
      | (s, Fail e) => Some (s, Fail e)
      | (s, Panic) => Some (s, Panic)
      end
  end.

Definition settles (next : Pc + Answer) (s : ShardEngine * Disk)
    (out : (ShardEngine * Disk) * Result Answer) : Prop :=
  exists fuel, run_alone fuel next s = Some out.

Lemma settles_answer a s : settles (inr a) s (s, Ret a).
Proof. by exists 0%nat. Qed.

(** A section [m], then [f]: what the rest does after it. *)
Lemma settles_at {A} p (m : Obj ShardEngine A) (f : A -> Pc + Answer)
    (g : A -> Obj ShardEngine Answer) s :
  exec p s = (a ← m; mret (f a)) s ->
  (forall a s', m s = (s', Ret a) -> settles (f a) s' (g a s')) ->
  settles (inl p) s ((m ≫= g) s).
Proof.
  unfold mbind, Obj_bind. intros He Hf. destruct (m s) as [s' [a|e|]].
  - destruct (Hf a s' eq_refl) as [fuel Hr]. exists (S fuel). cbn [run_alone]. rewrite He. exact Hr.
  - exists 1%nat. cbn [run_alone]. by rewrite He.
  - exists 1%nat. cbn [run_alone]. by rewrite He.
Qed.

Lemma settles_section {A} p (m : Obj ShardEngine A) (f : A -> Pc + Answer)
    (g : A -> Obj ShardEngine Answer) s :
  (forall s, exec p s = (a ← m; mret (f a)) s) ->
  (forall a s, settles (f a) s (g a s)) -> settles (inl p) s ((m ≫= g) s).
Proof. intros He Hf. apply (settles_at p m f); [done|]. intros a s' _. apply Hf. Qed.

Lemma settles_assoc {A B} next (m : Obj ShardEngine A) (f : A -> Obj ShardEngine B) g s :
  settles next s ((m ≫= fun a => f a ≫= g) s) -> settles next s (((m ≫= f) ≫= g) s).
Proof. unfold mbind, Obj_bind. by destruct (m s) as [s' []]. Qed.

Lemma zoom_state {T A} (get : ShardEngine -> T) set (m : Obj T A) s s' a :
  zoom get set m s = (s', Ret a) -> exists t d, s' = (set t s.1, d).
Proof.
  unfold zoom. destruct (m (get s.1, s.2)) as [[t d] r]. intros [= <- _]. by exists t, d.
Qed.

(** Removing directories leaves the engine alone. *)
Lemma remove_dirs_self ids : forall s s' a, remove_segment_dirs ids s = (s', Ret a) -> s'.1 = s.1.
Proof.
  unfold remove_segment_dirs. induction ids as [|id ids IH]; intros s s' a; [by intros [= <- _]|].
  cbn [obj_for]. intros (s1 & [] & H1 & H2%IH)%obj_bind_ret_inv. rewrite H2. clear H2 IH.
  unfold mbind, Obj_bind, get_self, ignore, obj_io in H1.
  destruct (remove_dir_all _ _) as [d [| |]]; naive_solver.
Qed.

(** *** The cut of each method *)
Ltac section m f :=
  apply (settles_section _ m f);
  [let s := fresh "s" in intros s; try reflexivity;
   cbn [exec]; unfold mbind, Obj_bind; by destruct (m s) as [? [[]| |]]|].

(** The parts of writing an entry are one section. *)
Lemma settles_write {A} next docs id (s0 : ShardEngine) (h : SegmentEntry -> Obj ShardEngine A) g s :
  segments_dir s0 = segments_dir s.1 -> sh_schema s0 = sh_schema s.1 ->
  settles next s ((write_entry docs id ≫= fun e => h e ≫= g) s) ->
  settles next s (((x ← obj_io (write_segment (sh_schema s0) id docs (join (segments_dir s0) id));
    let '(reader, stats) := x in
    h {| se_segment_id := id; se_dir := join (segments_dir s0) id;
         se_reader := reader; se_stats := stats |}) ≫= g) s).
Proof.
  intros -> ->. unfold write_entry, mbind, Obj_bind, get_self, obj_io. cbn [fst snd].
  by destruct (write_segment _ _ _ _ _) as [? [[]| |]].
Qed.

(** Reading the engine first, then two bound parts. *)
Lemma settles_self {A B} next (m : ShardEngine -> Obj ShardEngine A) (f : A -> Obj ShardEngine B) g s :
  settles next s (((x ← get_self; m x) ≫= fun a => f a ≫= g) s) ->
  settles next s (((x ← get_self; a ← m x; f a) ≫= g) s).
Proof. unfold mbind, Obj_bind, get_self. by destruct (m s.1 s) as [s' []]. Qed.

Lemma settles_merges k (f : Obj ShardEngine Answer) groups : forall s,
  (forall s, settles (after_flush k) s (f s)) ->
  settles (next_merge groups k) s ((obj_for run_merge groups ≫= fun _ => f) s).
Proof.
  induction groups as [|group groups IH]; intros s Hf; [apply Hf|].
  cbn [next_merge obj_for]. apply settles_assoc. unfold run_merge. apply settles_assoc.
  section (on_segments (call_self next_segment_id)) (fun id => @inl Pc Answer (MergeWrite group id groups k)).
  intros id s1.
  apply (settles_self _ (fun s => obj_io (execute_merge (sh_schema s)
    (filter (fun e => se_segment_id e ∈ group) (sl_segments (sh_segments s))) id
    (join (segments_dir s) id)))).
  section (merge_entry group id) (fun entry => @inl Pc Answer (MergeReplace group entry groups k)).
  intros entry s2. apply settles_assoc.
  section (on_segments (replace_segments group entry)) (fun _ : unit => @inl Pc Answer (MergeClean group groups k)).
  intros _ s3.
  section (remove_segment_dirs group) (fun _ : unit => next_merge groups k).
  intros _ s4. by apply IH.
Qed.

Lemma settles_self_only {A} next (m : ShardEngine -> Obj ShardEngine A) g s :
  settles next s ((m s.1 ≫= g) s) -> settles next s (((x ← get_self; m x) ≫= g) s).
Proof. done. Qed.

(** A pair read by a section. *)
Lemma settles_pair {A B C} next (m : Obj ShardEngine (A * B)) (f : A -> B -> Obj ShardEngine C) g s :
  settles next s ((m ≫= fun p => f p.1 p.2 ≫= g) s) ->
  settles next s (((x ← m; let '(a, b) := x in f a b) ≫= g) s).
Proof. unfold mbind, Obj_bind. by destruct (m s) as [s' [[]| |]]. Qed.

Lemma settles_flush k (f : Obj ShardEngine Answer) s :
  (forall s, settles (after_flush k) s (f s)) ->
  settles (inl (Drain k)) s ((flush ≫= fun _ => f) s).
Proof.
  intros Hf. unfold flush. apply settles_pair.
  section (on_buffer drain) (fun p : list Document * gset Z =>
    if bool_decide (p.1 = []) then after_flush k else @inl Pc Answer (FlushName p.1 k)).
  intros [docs deleted] s1. cbn [fst snd]. case_bool_decide; [apply Hf|]. apply settles_assoc.
  section (on_segments (call_self next_segment_id)) (fun id => @inl Pc Answer (FlushWrite docs id k)).
  intros id s2.
  apply settles_self_only, (settles_write _ docs id s2.1 (fun entry =>
    _ ← on_segments (add_segment entry); _ ← on_wal truncate; maybe_merge)); [done..|].
  section (write_entry docs id) (fun entry => @inl Pc Answer (FlushAdd docs entry k)).
  intros entry s3. apply settles_assoc.
  section (on_segments (add_segment entry)) (fun _ : unit => @inl Pc Answer (FlushTruncate k)).
  intros _ s4. apply settles_assoc.
  section (on_wal truncate) (fun _ : unit => @inl Pc Answer (FindMerges k)).
  intros _ s5. unfold maybe_merge. apply (settles_self _ (fun s => obj_lift
    (find_merges (sh_merge_policy s) (sl_segments (sh_segments s))))).
  section (s ← get_self; obj_lift (find_merges (sh_merge_policy s) (sl_segments (sh_segments s))))
    (fun groups => next_merge groups k).
  intros groups s6. by apply settles_merges.
Qed.

(** The calls of the engine's methods, as the client makes them. *)
Definition answer {A} (f : A -> Answer) (m : Obj ShardEngine A) : Obj ShardEngine Answer :=
  a ← m; mret (f a).

Lemma settles_full (full : bool) s :
  settles (flush_if full) s (answer (fun _ => AUnit) (if full then flush else mret tt) s).
Proof.
  unfold answer. destruct full; [apply (settles_flush Return (mret AUnit))|]; intros;
    apply settles_answer.
Qed.

Lemma settles_index_add doc s :
  settles (inl (IndexAdd doc)) s (answer (fun _ => AUnit)
    (full ← on_buffer (call_self (wb_add doc)); if (full : bool) then flush else mret tt) s).
Proof.
  unfold answer. apply settles_assoc.
  section (on_buffer (call_self (wb_add doc))) (fun full => @flush_if full).
  intros full s1. apply settles_full.
Qed.

Lemma settles_mark id s :
  settles (inl (MarkBuffer id)) s (answer (fun _ => AUnit)
    (_ ← on_buffer (modify_self (wb_mark_deleted id)); _ ← on_segments (sl_mark_deleted id); mret tt) s).
Proof.
  unfold answer. apply settles_assoc.
  section (on_buffer (modify_self (wb_mark_deleted id))) (fun _ : unit => @inl Pc Answer (MarkSegments id)).
  intros _ s1. apply settles_assoc.
  section (on_segments (sl_mark_deleted id)) (fun _ : bool => @inr Pc Answer AUnit).
  intros _ s2. apply settles_answer.
Qed.

Lemma settles_index doc s :
  settles (inl (IndexAppend doc)) s (answer (fun _ => AUnit) (shard_index doc) s).
Proof.
  unfold answer, shard_index. apply settles_assoc.
  section (on_wal (append (WalIndex doc))) (fun seq => @inl Pc Answer (IndexEnqueue doc seq)).
  intros seq s1. apply settles_assoc.
  section (enqueue seq (WalIndex doc)) (fun _ : unit => @inl Pc Answer (IndexAdd doc)).
  intros _ s2. apply settles_index_add.
Qed.

Lemma settles_batch docs s :
  settles (inl (BatchAppend docs)) s (answer (fun _ => AUnit) (index_batch docs) s).
Proof.
  unfold answer, index_batch. apply settles_assoc.
  section (on_wal (append_batch (WalIndex <$> docs))) (fun seqs => @inl Pc Answer (BatchEnqueue docs seqs)).
  intros seqs s1. apply settles_assoc.
  section (obj_for (fun es : WalEntry * Z => enqueue es.2 es.1) (zip (WalIndex <$> docs) seqs))
    (fun _ : unit => @inl Pc Answer (BatchAdd docs)).
  intros _ s2. apply settles_assoc.
  section (add_docs docs false) (fun full => @flush_if full).
  intros full s3. apply settles_full.
Qed.

Lemma settles_delete id s :
  settles (inl (DeleteAppend id)) s (answer (fun _ => AUnit) (shard_delete id) s).
Proof.
  unfold answer, shard_delete. apply settles_assoc.
  section (on_wal (append (WalDelete id))) (fun seq => @inl Pc Answer (DeleteEnqueue id seq)).
  intros seq s1. apply settles_assoc.
  section (enqueue seq (WalDelete id)) (fun _ : unit => @inl Pc Answer (MarkBuffer id)).
  intros _ s2. apply settles_mark.
Qed.

Lemma settles_reindex ms s :
  settles (inl (Drain (Reindex ms))) s (answer AReindex (reindex_self ms) s).
Proof.
  unfold answer, reindex_self. apply settles_assoc, settles_flush. clear s. intros s.
  cbn [after_flush]. apply settles_self_only, settles_assoc.
  apply (settles_at _ _ (fun docs : list Document => if bool_decide (docs = [])
    then @inr Pc Answer (reindex_answer s.1 [] ms) else @inl Pc Answer (ReindexName docs ms)));
    [reflexivity|].
  intros docs s1 H1. case_bool_decide as Hd; [|].
  { unfold obj_lift in H1. injection H1 as <- _. apply settles_answer. }
  injection H1 as <- _. apply settles_assoc.
  apply (settles_at _ _ (fun id => @inl Pc Answer (ReindexWrite docs id ms))); [reflexivity|].
  intros id s2 H2. apply zoom_state in H2 as (l & d & ->).
  apply (settles_write _ docs id s.1 (fun entry =>
    s ← get_self;
    let old_ids := se_segment_id <$> sl_segments (sh_segments s) in
    _ ← on_segments (replace_segments old_ids entry);
    _ ← remove_segment_dirs old_ids;
    _ ← on_wal truncate;
    mret {| rx_shard_id := sc_shard_id (sh_config s); rx_docs_reindexed := Z.of_nat (length docs);
            rx_elapsed_ms := ms |})); [done..|].
  section (write_entry docs id) (fun entry => @inl Pc Answer (ReindexIds docs entry ms)).
  intros entry s3. apply settles_assoc.
  apply (settles_at _ _ (fun s : ShardEngine => @inl Pc Answer
    (ReindexReplace docs (se_segment_id <$> sl_segments (sh_segments s)) entry ms))); [reflexivity|].
  intros s4 s5 [= <- <-]. cbn zeta. set (ids := se_segment_id <$> _). apply settles_assoc.
  apply (settles_at _ _ (fun _ : unit => @inl Pc Answer (ReindexClean docs ids ms))); [reflexivity|].
  intros u6 s6 H6. apply zoom_state in H6 as (l6 & d6 & ->). apply settles_assoc.
  apply (settles_at _ _ (fun _ : unit => @inl Pc Answer (ReindexTruncate docs ms))); [reflexivity|].
  intros u7 s7 H7. apply remove_dirs_self in H7. apply settles_assoc.
  apply (settles_at _ _ (fun _ : unit => @inr Pc Answer (reindex_answer s7.1 docs ms))).
  { cbn [exec]. unfold mbind, Obj_bind. destruct (on_wal truncate s7) as [s8 [[]| |]] eqn:H8; [|done..].
    apply zoom_state in H8 as (w & d8 & ->). done. }
  intros u8 s8 _. unfold reindex_answer. rewrite H7. apply settles_answer.
Qed.

(** Searching, [get_docs] and [stats] are one section. *)
Lemma settles_search request ms s :
  settles (inl (Searching request ms)) s (answer AResponse (shard_search request ms) s).
Proof.
  unfold answer. section (shard_search request ms) (fun resp => @inr Pc Answer (AResponse resp)).
  intros resp s1. apply settles_answer.
Qed.
Lemma settles_reading ids s :
  settles (inl (Getting ids)) s (s, docs ← shard_get_docs s.1 ids; Ret (ADocs docs)) /\
  settles (inl Stats) s (s, Ret (AShardStats (shard_stats s.1))).
Proof.
  split; [|by exists 1%nat]. exists 1%nat. cbn [run_alone exec].
  unfold mbind, Obj_bind, get_self, obj_lift. cbn [fst snd]. by destruct (shard_get_docs _ _).
Qed.
End Sections.

