(* ===== verification/Interleaving.v ===== *)
(** Calls of the shard engine running at the same time
    ([crates/shard/src/shard.rs]): any interleaving of the sections of
    [Sections].  The invariant says what each running call may rely on between
    its sections; indexing, deleting, searching, flushing and merging keep it
    whatever the others do, and no document gets lost. *)
From Stdlib Require Import Strings.Byte.
From S2P Require Import Prelude Bytes Order Float Types Config Text Decimal Analysis Posting.
From S2P Require Import Disk Inverted Column DocStore Segment Scorer Collector Understanding.
From S2P Require Import Wand Executor Multi Object Wal WriteBuffer SegmentList Proto.
From S2P Require Import Replication Shard ShardSpecs Sections.

Local Open Scope Z_scope.

(** ** Worlds and schedules *)
Section Worlds.
Context `{IL : IndexLibs} `{SD : Serde WalRecord} `{TD : TempDirLib} `{ML : MathLib}
  `{UO : UnspecifiedOrder}.

(** A call: its next section, or its result. *)
Definition Thread : Type := Pc + Result Answer.
Record World := mkWorld {
  wo_self : ShardEngine;
  wo_disk : Disk;
  wo_threads : list Thread;
}.

(** The call has returned. *)
Definition ended (t : Thread) : bool := match t with inl _ => false | inr _ => true end.

Definition resume (r : Result (Pc + Answer)) : Thread :=
  match r with
  | Ret (inl p) => inl p
  | Ret (inr a) => inr (Ret a)
  | Fail e => inr (Fail e)
  | Panic => inr Panic
  end.

(** The scheduler picks the call [i]. *)
Definition run_section (i : nat) (w : World) : World :=
  match wo_threads w !! i with
  | Some (inl p) =>
      let '((s, d), r) := exec p (wo_self w, wo_disk w) in
      mkWorld s d (<[i := resume r]> (wo_threads w))
  | _ => w
  end.
Definition run_schedule (schedule : list nat) (w : World) : World :=
  foldl (fun w i => run_section i w) w schedule.

(** What the next section writes fits the widths of the formats. *)
Definition within_widths (s : ShardEngine) (p : Pc) : Prop :=
  match p with
  | IndexAppend doc => record_fits (mkWalRecord (wal_next_seq (sh_wal s)) (WalIndex doc))
  | BatchAppend docs => batch_fits (wal_next_seq (sh_wal s)) (WalIndex <$> docs)
  | DeleteAppend id => record_fits (mkWalRecord (wal_next_seq (sh_wal s)) (WalDelete id))
  | Searching _ _ =>
      wb_all_docs (sh_write_buffer s) <> [] ->
      segment_fits (sh_schema s) (wb_all_docs (sh_write_buffer s))
  | FlushName _ _ | MergeName _ _ _ | ReindexName _ _ =>
      sl_next_segment_seq (sh_segments s) + 1 < 2 ^ 64
  | FlushWrite docs _ _ | ReindexWrite docs _ _ => segment_fits (sh_schema s) docs
  | MergeWrite group _ _ _ => forall docs,
      try_fold (collect_docs all_ids) [] (se_reader <$> filter (fun e => se_segment_id e ∈ group)
        (sl_segments (sh_segments s))) = Ret docs ->
      segment_fits (sh_schema s) docs
  | _ => True
  end.

Inductive interleaved : World -> World -> Prop :=
  | il_refl w : interleaved w w
  | il_step w w1 i p :
      interleaved w w1 -> wo_threads w1 !! i = Some (inl p) -> within_widths (wo_self w1) p ->
      interleaved w (run_section i w1).

(** ** What a call holds between its sections *)

(** Documents on their way to the buffer, or from it to a segment. *)
Definition carried (p : Pc) : list Document :=
  match p with
  | IndexAppend doc | IndexEnqueue doc _ | IndexAdd doc => [doc]
  | BatchAppend docs | BatchEnqueue docs _ | BatchAdd docs => docs
  | FlushName docs _ | FlushWrite docs _ _ | FlushAdd docs _ _ => docs
  | _ => []
  end.
Definition carried_by (t : Thread) : list Document :=
  match t with inl p => carried p | inr _ => [] end.

(** The segment name it has taken and not yet registered. *)
Definition owned (p : Pc) : option string :=
  match p with
  | FlushWrite _ id _ | MergeWrite _ id _ _ => Some id
  | FlushAdd _ entry _ | MergeReplace _ entry _ _ => Some (se_segment_id entry)
  | _ => None
  end.

(** The segments it has picked for merging. *)
Definition refs (p : Pc) : list string :=
  match p with
  | MergeName group groups _ | MergeWrite group _ groups _ | MergeReplace group _ groups _
  | MergeClean group groups _ => group ++ concat groups
  | _ => []
  end.

(** Not a reindex, nor the flush of one. *)
Definition no_reindex (p : Pc) : Prop :=
  match p with
  | Drain k | FlushName _ k | FlushWrite _ _ k | FlushAdd _ _ k | FlushTruncate k | FindMerges k
  | MergeName _ _ k | MergeWrite _ _ _ k | MergeReplace _ _ _ k | MergeClean _ _ k => k = Return
  | Collect _ | ReindexName _ _ | ReindexWrite _ _ _ | ReindexIds _ _ _ | ReindexReplace _ _ _ _
  | ReindexClean _ _ _ | ReindexTruncate _ _ => False
  | _ => True
  end.

(** The first section of a call other than a reindex. *)
Definition starting (p : Pc) : Prop :=
  match p with
  | IndexAppend _ | BatchAppend _ | DeleteAppend _ | IndexAdd _ | MarkBuffer _
  | Searching _ _ | Getting _ | Stats | Drain Return => True
  | _ => False
  end.
End Worlds.

(** ** What a running call relies on *)
Section Claims.
Context `{ILL : IndexLaws} `{SDL : SerdeLaws WalRecord} `{TDL : TempDirLaws} `{ML : MathLib}
  `{UOL : UnspecifiedOrderLaws}.

Definition ids_of (s : ShardEngine) : list string := se_segment_id <$> sl_segments (sh_segments s).
Definition next_of (s : ShardEngine) : Z := sl_next_segment_seq (sh_segments s).
Definition listed (s : ShardEngine) (cs : list Contents) : list (SegmentEntry * Contents) :=
  zip (sl_segments (sh_segments s)) cs.

(** A name that is taken, but has no files and no segment. *)
Record unwritten (s : ShardEngine) (d : Disk) (id : string) : Prop := {
  uw_named : named_below (next_of s) id;
  uw_ids : id ∉ ids_of s;
  uw_files : forall file, dk_files d !! join (join (segments_dir s) id) file = None;
}.
(** An entry that is written, but not in the list. *)
Record written (s : ShardEngine) (d : Disk) (e : SegmentEntry) (docs : list Document) : Prop := {
  wr_named : named_below (next_of s) (se_segment_id e);
  wr_ids : se_segment_id e ∉ ids_of s;
  wr_entry_ok : entry_ok (sh_schema s) (segments_dir s) d e (fresh_contents docs);
}.

Definition local_ok (s : ShardEngine) (d : Disk) (cs : list Contents) (p : Pc) : Prop :=
  match p with
  | FlushWrite _ id _ | MergeWrite _ id _ _ => unwritten s d id
  | FlushAdd docs e _ => written s d e docs
  | MergeReplace group e _ _ => exists docs, written s d e docs /\
      (forall e0 c doc, (e0, c) ∈ listed s cs -> se_segment_id e0 ∈ group ->
         doc ∈ live_mem c -> doc ∈ docs) /\
      (forall doc, doc ∈ docs -> doc ∈ live_all cs)
  | MergeClean group _ _ => Forall (fun id => id ∉ ids_of s) group
  | _ => True
  end.

Record thread_ok (s : ShardEngine) (d : Disk) (cs : list Contents) (p : Pc) : Prop := {
  to_calm : no_reindex p;
  to_local : local_ok s d cs p;
  to_refs : forall id, id ∈ refs p -> named_below (next_of s) id;
}.

(** The names of two calls do not get in each other's way. *)
Definition apart (p q : Pc) : Prop :=
  forall id, owned p = Some id -> owned q <> Some id /\ id ∉ refs q.

(** What a section of [p] may change, seen by the others. *)
Record evolves (p : Pc) (s : ShardEngine) (d : Disk) (cs : list Contents)
    (s' : ShardEngine) (d' : Disk) (cs' : list Contents) : Prop := {
  ev_schema : sh_schema s' = sh_schema s;
  ev_dir : segments_dir s' = segments_dir s;
  ev_next : next_of s <= next_of s';
  ev_ids : forall id, id ∈ ids_of s' -> id ∈ ids_of s \/ owned p = Some id;
  ev_listed : forall e c', (e, c') ∈ listed s' cs' ->
    owned p = Some (se_segment_id e) \/ exists c, (e, c) ∈ listed s cs /\ live_mem c' = live_mem c;
  ev_files : forall id file, starts_with id "seg-" = true -> id ∉ ids_of s ->
    owned p <> Some id -> id ∉ refs p ->
    dk_files d' !! join (join (segments_dir s) id) file = dk_files d !! join (join (segments_dir s) id) file;
  ev_dirs : forall id, starts_with id "seg-" = true -> id ∉ ids_of s ->
    owned p <> Some id -> id ∉ refs p ->
    join (segments_dir s) id ∈ dk_dirs d -> join (segments_dir s) id ∈ dk_dirs d';
  ev_live : forall doc, doc ∈ live_all cs -> doc ∈ live_all cs';
}.

(** The claims of a call survive the sections of the others. *)
Lemma others_ok p q s d cs s' d' cs' :
  thread_ok s d cs q -> apart p q -> apart q p -> evolves p s d cs s' d' cs' ->
  thread_ok s' d' cs' q.
Proof.
  intros [Hcalm Hlocal Hrefs] Hpq Hqp [E1 E2 E3 E4 E5 E6 E7 E8].
  assert (forall id, named_below (next_of s) id -> named_below (next_of s') id) as Hmono
    by (intros id; by apply named_below_mono).
  assert (forall id, owned q = Some id -> owned p <> Some id) as Hown by (intros id H; by apply (Hqp id H)).
  assert (forall id, owned q = Some id -> id ∉ ids_of s -> id ∉ ids_of s') as Hids.
  { intros id Hq Hid [?|?]%E4; [done|]. by eapply Hown. }
  assert (forall id, owned q = Some id -> unwritten s d id -> unwritten s' d' id) as Hun.
  { intros id Hq [H1 H2 H3]. split; [by apply Hmono|by apply Hids|]. intros file. rewrite E2, E6; [done|..].
    - by eapply named_seg. - done. - by apply Hown. - by apply (Hqp id Hq). }
  assert (forall e docs, owned q = Some (se_segment_id e) -> written s d e docs -> written s' d' e docs) as Hwr.
  { intros e docs Hq [H1 H2 [G1 G2 G3 G4 G5]]. destruct (Hqp _ Hq) as [Hne Href].
    pose proof (named_seg _ _ H1) as Hseg. split; [by apply Hmono|by apply Hids|]. rewrite E1, E2.
    split; [done| |done|done|].
    - eapply segment_on_disk_frame; [|exact G2]. intros n. rewrite G4. by apply E6.
    - rewrite G4 in *. by apply E7. }
  split; [done| |by intros id Hid; apply Hmono, Hrefs].
  destruct q; cbn [local_ok owned] in *; try done.
  - by apply Hun.
  - by apply Hwr.
  - by apply Hun.
  - destruct Hlocal as (docs & Hw & Hsup & Hsub). exists docs. split_and!; [by apply Hwr| |auto].
    intros e0 c' doc Hz Hg Hdoc. destruct (E5 _ _ Hz) as [Ho|(c & Hc & Hlive)].
    + exfalso. destruct (Hpq _ Ho) as [_ Hnot]. apply Hnot. cbn [refs]. set_solver.
    + rewrite Hlive in Hdoc. by eapply Hsup.
  - eapply Forall_impl; [apply Forall_forall; intros id Hid; exact (conj Hid (proj1 (Forall_forall _ _) Hlocal id Hid))|].
    intros id [Hin Hid] [?|Ho]%E4; [done|]. destruct (Hpq _ Ho) as [_ Hnot]. apply Hnot.
    cbn [refs]. set_solver.
Qed.

(** ** One section *)
Definition carried_next (r : Pc + Answer) : list Document :=
  match r with inl p => carried p | inr _ => [] end.

(** What a section of [p] achieves, [r] being next. *)
Record advances (p : Pc) (s : ShardEngine) (d : Disk) (cs : list Contents) (r : Pc + Answer)
    (s' : ShardEngine) (d' : Disk) (cs' : list Contents) : Prop := {
  ad_evolves : evolves p s d cs s' d' cs';
  ad_next : forall q, r = inl q -> thread_ok s' d' cs' q;
  ad_owned : forall q id, r = inl q -> owned q = Some id ->
    owned p = Some id \/ id = segment_name (next_of s);
  ad_refs : forall q id, r = inl q -> id ∈ refs q -> id ∈ refs p \/ id ∈ ids_of s;
  ad_docs : forall doc, doc ∈ stored s cs ++ carried p <-> doc ∈ stored s' cs' ++ carried_next r;
}.

(** The directories on disk that no segment of the list has: a new segment's
    before it is registered, replaced ones' before they are removed. *)
Definition unlisted (p : Pc) : list string :=
  match p with
  | FlushAdd _ e _ | MergeReplace _ e _ _ => [se_segment_id e]
  | MergeClean group _ _ => group
  | _ => []
  end.
Definition unlisted_by (t : Thread) : list string :=
  match t with inl p => unlisted p | inr _ => [] end.
Definition unlisted_next (r : Pc + Answer) : list string :=
  match r with inl p => unlisted p | inr _ => [] end.

(** The ids a call still deletes; the documents a deletion mark on disk hides
    from the next process. *)
Definition deletes (p : Pc) : list Z :=
  match p with
  | DeleteAppend id | DeleteEnqueue id _ | MarkBuffer id | MarkSegments id => [id]
  | _ => []
  end.
Definition hidden (cs : list Contents) (doc : Document) : Prop :=
  exists c, c ∈ cs /\ doc ∈ live_mem c /\ doc ∉ live_disk c.

Definition section_ok (p : Pc) (s : ShardEngine) (d : Disk) (cs : list Contents)
    (stale : list string) : Prop :=
  exists s' d' r recs' cs' stale', exec p (s, d) = ((s', d'), Ret r) /\
    shard_ok s' d' recs' cs' stale' /\ advances p s d cs r s' d' cs' /\
    (forall id, id ∈ stale' -> (id ∈ stale /\ id ∉ unlisted p) \/ id ∈ unlisted_next r) /\
    forall doc, hidden cs' doc -> hidden cs doc \/ doc_id doc ∈ deletes p.

(** A call that claims nothing. *)
Definition simple (r : Pc + Answer) : Prop :=
  match r with
  | inl p => no_reindex p /\ owned p = None /\ refs p = [] /\ forall s d cs, local_ok s d cs p
  | inr _ => True
  end.

Lemma evolves_quiet p s d cs s' d' :
  sh_schema s' = sh_schema s -> sh_config s' = sh_config s -> sh_segments s' = sh_segments s ->
  seg_frame (segments_dir s) d d' -> evolves p s d cs s' d' cs.
Proof.
  intros Hsc Hcf Hsg [Hf Hd _].
  split; unfold next_of, ids_of, listed, segments_dir, data_path; rewrite ?Hsg, ?Hcf; try done.
  - by left.
  - intros e c He. right. by exists c.
  - intros id file Hid _ _ _. by apply Hf.
  - intros id Hid _ _ _. by apply Hd.
Qed.

Lemma same_stale p (stale : list string) r id : unlisted p = [] ->
  id ∈ stale -> (id ∈ stale /\ id ∉ unlisted p) \/ id ∈ unlisted_next r.
Proof. intros -> Hid. left. split; [done|apply not_elem_of_nil]. Qed.

(** A section that leaves the segments alone. *)
Lemma quiet_section p s d cs s' d' r recs' stale :
  exec p (s, d) = ((s', d'), Ret r) -> shard_ok s' d' recs' cs stale -> unlisted p = [] ->
  sh_schema s' = sh_schema s -> sh_config s' = sh_config s -> sh_segments s' = sh_segments s ->
  seg_frame (segments_dir s) d d' -> simple r ->
  (forall doc, doc ∈ wb_docs (sh_write_buffer s) ++ carried p <->
               doc ∈ wb_docs (sh_write_buffer s') ++ carried_next r) ->
  section_ok p s d cs stale.
Proof.
  intros Hr Hok Hp Hsc Hcf Hsg Hfr Hsimple Hdocs. exists s', d', r, recs', cs, stale.
  split_and!; [done|done| |by intros id; apply same_stale|by left]. split.
  - by apply evolves_quiet.
  - intros q ->. destruct Hsimple as (H1 & H2 & H3 & H4). split; [done|done|].
    intros id. rewrite H3. by intros ?%elem_of_nil.
  - intros q id ->. destruct Hsimple as (_ & -> & _). done.
  - intros q id ->. destruct Hsimple as (_ & _ & -> & _). by intros ?%elem_of_nil.
  - intros doc. unfold stored. specialize (Hdocs doc). set_solver.
Qed.

Lemma seg_frame_refl sdir d : seg_frame sdir d d.
Proof. by split. Qed.

Lemma flush_if_simple full : simple (flush_if full) /\ carried_next (flush_if full) = [].
Proof. by destruct full. Qed.

(** *** Appending to the log *)
Lemma append_section p s d recs cs stale entries s' d' r :
  shard_ok s d recs cs stale ->
  exec p (s, d) = ((s', d'), Ret r) ->
  s' = set_wal (set_next_seq (seq_after (wal_next_seq (sh_wal s)) entries) (sh_wal s)) s ->
  wal_holds (sh_wal s) d' (recs ++ numbered (wal_next_seq (sh_wal s)) entries) ->
  only_wal (sh_wal s) d d' -> simple r -> carried p = carried_next r -> unlisted p = [] ->
  section_ok p s d cs stale.
Proof.
  intros Hs Hr -> [Hw Hfits] Ho Hsimple Hc Hu. eapply quiet_section; [exact Hr| |exact Hu|done..| |done|].
  - eapply shard_ok_wal; [exact Hs|done|by split|exact Ho].
  - by eapply wal_seg_frame.
  - intros doc. by rewrite <- Hc.
Qed.

Lemma append_one_section p entry f s d recs cs stale :
  shard_ok s d recs cs stale -> record_fits (mkWalRecord (wal_next_seq (sh_wal s)) entry) ->
  (forall s, exec p s = (seq ← on_wal (append entry); mret (f seq)) s) ->
  (forall seq, simple (f seq) /\ carried p = carried_next (f seq)) -> unlisted p = [] ->
  section_ok p s d cs stale.
Proof.
  intros Hs Hrec He Hf Hu.
  destruct (append_batch_spec [entry] _ _ _ (so_wal _ _ _ _ _ Hs)) as (d' & Hr & Hw & Ho);
    [by repeat constructor|].
  eapply (append_section p _ _ _ _ _ [entry]); [exact Hs| |reflexivity|exact Hw|exact Ho|apply Hf..|exact Hu].
  rewrite He. erewrite obj_bind_ret; [reflexivity|].
  apply zoom_ret. unfold append. erewrite obj_bind_ret by exact Hr. reflexivity.
Qed.

Lemma append_batch_section docs s d recs cs stale :
  shard_ok s d recs cs stale -> batch_fits (wal_next_seq (sh_wal s)) (WalIndex <$> docs) ->
  section_ok (BatchAppend docs) s d cs stale.
Proof.
  intros Hs Hfit. destruct (append_batch_spec _ _ _ _ (so_wal _ _ _ _ _ Hs) Hfit) as (d' & Hr & Hw & Ho).
  eapply append_section; [exact Hs| |reflexivity|exact Hw|exact Ho| | |done].
  - cbn [exec]. erewrite obj_bind_ret by (apply zoom_ret; exact Hr). reflexivity.
  - done.
  - done.
Qed.

(** *** The replication queues *)
Lemma enqueue_section p s d recs cs stale r :
  shard_ok s d recs cs stale ->
  (exists rep, exec p (s, d) = ((set_replication rep s, d), Ret r)) ->
  simple r -> carried p = carried_next r -> unlisted p = [] ->
  section_ok p s d cs stale.
Proof.
  intros Hs [rep Hr] Hsimple Hc Hu. eapply quiet_section; [exact Hr|by apply shard_ok_replication|exact Hu|done..| |done|].
  - apply seg_frame_refl.
  - intros doc. by rewrite <- Hc.
Qed.

Lemma set_replication_id s : set_replication (sh_replication s) s = s.
Proof. by destruct s. Qed.

Lemma enqueue_all (l : list (WalEntry * Z)) : forall s d,
  exists rep, obj_for (fun es : WalEntry * Z => enqueue es.2 es.1) l (s, d)
    = ((set_replication rep s, d), Ret tt).
Proof.
  induction l as [|[entry seq] l IH]; intros s d.
  { exists (sh_replication s). by rewrite set_replication_id. }
  destruct (IH (set_replication (rm_enqueue seq entry <$> sh_replication s) s) d) as [rep Hr].
  exists rep. cbn [obj_for]. erewrite obj_bind_ret by reflexivity. exact Hr.
Qed.

(** *** The buffer *)
Lemma add_docs_spec docs : forall needs s d recs cs stale,
  shard_ok s d recs cs stale ->
  exists b' full, add_docs docs needs (s, d) = ((set_buffer b' s, d), Ret full) /\
    shard_ok (set_buffer b' s) d recs cs stale /\ wb_docs b' = wb_docs (sh_write_buffer s) ++ docs.
Proof.
  induction docs as [|doc docs IH]; intros needs s d recs cs stale Hs.
  { exists (sh_write_buffer s), needs. replace (set_buffer (sh_write_buffer s) s) with s by by destruct s.
    by rewrite app_nil_r. }
  pose proof (shard_ok_add _ _ _ _ doc Hs) as Hs1.
  destruct (IH (if (wb_add doc (sh_write_buffer s)).2 then true else needs) _ _ _ _ _ Hs1)
    as (b' & full & Hr & Hok & Hdocs).
  exists b', full. split_and!; [|exact Hok|].
  - cbn [add_docs]. erewrite obj_bind_ret by (apply zoom_ret; reflexivity). exact Hr.
  - rewrite Hdocs. cbn [sh_write_buffer set_buffer wb_add fst wb_docs]. by rewrite <- app_assoc.
Qed.

Lemma add_section s d recs cs stale doc :
  shard_ok s d recs cs stale -> section_ok (IndexAdd doc) s d cs stale.
Proof.
  intros Hs. eapply quiet_section; [|exact (shard_ok_add _ _ _ _ doc Hs)|done..| | |].
  - cbn [exec]. erewrite obj_bind_ret by (apply zoom_ret; reflexivity). reflexivity.
  - apply seg_frame_refl.
  - apply flush_if_simple.
  - intros x. rewrite (proj2 (flush_if_simple _)), app_nil_r. done.
Qed.

Lemma add_docs_section s d recs cs stale docs :
  shard_ok s d recs cs stale -> section_ok (BatchAdd docs) s d cs stale.
Proof.
  intros Hs. destruct (add_docs_spec docs false _ _ _ _ _ Hs) as (b' & full & Hr & Hok & Hdocs).
  eapply quiet_section; [|exact Hok|done..| | |].
  - cbn [exec]. by erewrite obj_bind_ret by exact Hr.
  - apply seg_frame_refl.
  - apply flush_if_simple.
  - intros x. rewrite (proj2 (flush_if_simple _)), app_nil_r. cbn. by rewrite Hdocs.
Qed.

Lemma mark_section s d recs cs stale id :
  shard_ok s d recs cs stale -> section_ok (MarkBuffer id) s d cs stale.
Proof.
  intros Hs. eapply quiet_section; [|exact (shard_ok_mark _ _ _ _ id Hs)|done..| | |].
  - cbn [exec]. erewrite obj_bind_ret by (apply zoom_ret; reflexivity). reflexivity.
  - apply seg_frame_refl.
  - done.
  - done.
Qed.

Lemma drain_section s d recs cs stale :
  shard_ok s d recs cs stale -> section_ok (Drain Return) s d cs stale.
Proof.
  intros Hs. destruct (drain_spec (sh_write_buffer s) d) as (b' & d' & Hr & Hb & Hfr).
  rewrite (so_schema _ _ _ _ _ Hs) in Hb. fold (empty_buffer s) in Hb. subst b'.
  eapply (quiet_section _ _ _ _ (set_buffer (empty_buffer s) s)); [| |done..| | |].
  - cbn [exec]. erewrite obj_bind_ret by (apply zoom_ret; exact Hr). reflexivity.
  - eapply shard_ok_buffer; [exact Hs| |done|exact Hfr]. apply buffer_ok_new.
  - eapply buffer_seg_frame; [exact Hs| |exact Hfr]. apply buffer_ok_new.
  - by case_bool_decide.
  - intros doc. rewrite app_nil_r. cbn. by case_bool_decide as E; [rewrite E|].
Qed.

Lemma search_section s d recs cs stale request ms :
  shard_ok s d recs cs stale -> within_widths s (Searching request ms) ->
  section_ok (Searching request ms) s d cs stale.
Proof.
  intros Hs Hfit.
  destruct (shard_search_spec s d recs cs request ms Hs Hfit) as (b' & d' & segs & resp & Hr & Hok & Hsame & _).
  destruct (reader_and_stats_spec (sh_write_buffer s) d (so_buffer _ _ _ _ _ Hs))
    as (b1 & d1 & o & Hb & _ & _ & Hb1 & Hfr).
  { by rewrite (so_schema _ _ _ _ _ Hs). }
  assert (set_buffer b' s = set_buffer b1 s /\ d' = d1) as [Eb ->].
  { unfold shard_search in Hr. unfold mbind, Obj_bind, get_self, on_buffer, zoom, obj_lift in Hr.
    cbn [fst snd] in Hr. rewrite Hb in Hr. by injection Hr as <- <- _. }
  eapply quiet_section; [|exact Hok|done..| | |].
  - cbn [exec]. by erewrite obj_bind_ret by exact Hr.
  - by eapply buffer_seg_frame.
  - done.
  - intros doc. cbn. destruct Hsame as (? & ? & ? & ? & ->). done.
Qed.

Lemma getting_section s d recs cs stale ids :
  shard_ok s d recs cs stale -> section_ok (Getting ids) s d cs stale.
Proof.
  intros Hs. assert (exists docs, shard_get_docs s ids = Ret docs) as [docs Hr].
  { unfold shard_get_docs. generalize (@nil Document). induction ids as [|id ids IH]; intros acc; [by eexists|].
    cbn [try_fold]. destruct (sl_get_doc_spec _ _ _ _ _ id (so_list _ _ _ _ _ Hs)) as (o & Ho & _).
    assert (exists acc', get_one s acc id = Ret acc') as [acc' ->]
      by (unfold get_one; rewrite Ho; by eexists).
    apply IH. }
  eapply quiet_section; [|exact Hs|done..| | |].
  - cbn [exec]. erewrite obj_bind_ret by reflexivity. unfold obj_lift. cbn [fst]. rewrite Hr.
    by erewrite obj_bind_ret by reflexivity.
  - apply seg_frame_refl.
  - done.
  - done.
Qed.

Lemma stats_section s d recs cs stale : shard_ok s d recs cs stale -> section_ok Stats s d cs stale.
Proof.
  intros Hs. eapply (quiet_section _ _ _ _ s d); [reflexivity|exact Hs|done..|apply seg_frame_refl|done|done].
Qed.

Lemma truncate_section s d recs cs stale :
  shard_ok s d recs cs stale -> section_ok (FlushTruncate Return) s d cs stale.
Proof.
  intros Hs. destruct (truncate_spec _ _ _ (so_wal _ _ _ _ _ Hs)) as (d' & Hr & Hwal & Ho).
  assert (set_wal (sh_wal s) s = s) as Es by by destruct s.
  eapply quiet_section; [| |done..| | |].
  - cbn [exec]. erewrite obj_bind_ret by (apply zoom_ret; exact Hr). by rewrite Es.
  - rewrite <- Es. by eapply shard_ok_wal.
  - by eapply wal_seg_frame.
  - done.
  - done.
Qed.

(** *** The segment list *)
Lemma mark_list_frame s d recs cs stale id s' d' found :
  shard_ok s d recs cs stale -> on_segments (sl_mark_deleted id) (s, d) = ((s', d'), Ret found) ->
  sl_segments (sh_segments s') = sl_segments (sh_segments s) /\ dk_dirs d' = dk_dirs d /\
  forall name file, name ∉ ids_of s ->
    dk_files d' !! join (join (segments_dir s) name) file
      = dk_files d !! join (join (segments_dir s) name) file.
Proof.
  intros Hs Hr. pose proof (so_list _ _ _ _ _ Hs) as Hl.
  unfold on_segments, zoom, sl_mark_deleted, mbind, Obj_bind, get_self in Hr. cbn [fst snd] in Hr.
  destruct (sl_doc_id_map (sh_segments s) !! id) as [loc|] eqn:Hm; cbn in Hr.
  2: { by injection Hr as <- <- _. }
  destruct (located _ _ _ _ _ _ _ Hl Hm) as (i & e & c & doc & Hi & Hc & He & Hfind & _).
  destruct (segment_mark_deleted _ _ _ _ _ _ (dl_local_doc_id loc) (eo_disk _ _ _ _ _ He)
    (eo_exists _ _ _ _ _ He)) as (d1 & b' & Hmark & _ & Hdirs & _ & Hfiles).
  rewrite Hfind in Hr. unfold obj_io in Hr. cbn [fst snd] in Hr. rewrite Hmark in Hr.
  cbn in Hr. injection Hr as <- <- _. split_and!; [done|done|].
  intros name file Hname. apply Hfiles. rewrite (eo_dir _ _ _ _ _ He).
  intros [[_ ->]%join_inj _]%join_inj. apply Hname, list_elem_of_fmap_2. by eapply list_elem_of_lookup_2.
Qed.

Lemma listed_marked segs cs cs' id e c' :
  marked id cs cs' -> (e, c') ∈ zip segs cs' ->
  exists c, (e, c) ∈ zip (segs : list SegmentEntry) cs /\ live_mem c' = live_mem c.
Proof.
  intros (i & c & k & doc & b' & Hc & -> & _) Hz.
  apply list_elem_of_lookup in Hz as [j Hj]. apply lookup_zip_with_Some in Hj as (? & ? & [= <- <-] & He & Hc').
  destruct (decide (j = i)) as [->|Hne].
  - rewrite list_lookup_insert_eq in Hc' by by eapply lookup_lt_Some. injection Hc' as <-.
    exists c. split; [|done]. eapply list_elem_of_lookup_2, lookup_zip_with_Some. eauto.
  - rewrite list_lookup_insert_ne in Hc' by done. exists c'. split; [|done].
    eapply list_elem_of_lookup_2, lookup_zip_with_Some. eauto.
Qed.

Lemma hidden_marked id cs cs' doc :
  marked id cs cs' -> hidden cs' doc -> hidden cs doc \/ doc_id doc = id.
Proof.
  intros (i & c & k & x & b' & Hc & -> & Hx & Hid & Hk & Hb') (c' & Hc' & Hmem & Hdisk).
  apply list_elem_of_lookup in Hc' as [j Hj]. apply list_lookup_insert_Some in Hj as [(_ & <- & _)|[_ Hj]].
  2: { left. exists c'. split_and!; [by eapply list_elem_of_lookup_2|done|done]. }
  destruct (decide (doc ∈ live_disk c)) as [Hin|Hno].
  2: { left. exists c. split_and!; [by eapply list_elem_of_lookup_2|done|done]. }
  right. unfold live_disk in *. apply elem_of_live_docs in Hin as (n & Hn & Hdoc & Hfree).
  cbn [cn_docs with_disk] in Hdisk. destruct (decide (k = n)) as [<-|Hne].
  - unfold doc_at in Hx. destruct (rb_contains _ _); [done|]. congruence.
  - destruct Hdisk. apply elem_of_live_docs. exists n. split_and!; [done|done|]. cbn [cn_disk].
    rewrite Hb', Hfree, orb_false_r. by apply Z.eqb_neq.
Qed.

Lemma mark_segments_section s d recs cs stale id :
  shard_ok s d recs cs stale -> section_ok (MarkSegments id) s d cs stale.
Proof.
  intros Hs. destruct (mark_list_spec s d recs cs id Hs) as (l' & d' & cs' & found & Hr & Hok & _ & Hn & Hcase).
  destruct (mark_list_frame _ _ _ _ _ _ _ _ _ Hs Hr) as (Hsegs & Hdirs & Hfiles).
  assert (live_all cs' = live_all cs) as Hlive
    by (destruct found; [eapply marked_live_all; apply Hcase|by destruct Hcase as [_ ->]]).
  cbn [sh_segments set_list] in Hsegs.
  eexists _, d', _, recs, cs', stale. split_and!; [|exact Hok| |by intros x; apply same_stale|].
  { cbn [exec]. by erewrite obj_bind_ret by exact Hr. }
  split; [|done..|].
  - split; unfold next_of, ids_of, listed; cbn [sh_segments set_list]; rewrite ?Hsegs, ?Hn; try done.
    + by left.
    + intros e c' Hz. right. destruct found; [eapply listed_marked; [apply Hcase|done]|].
      destruct Hcase as [_ ->]. by exists c'.
    + intros x file _ Hx _ _. by apply Hfiles.
    + intros x _ _ _ _. by rewrite Hdirs.
    + intros doc. by rewrite Hlive.
  - intros doc. unfold stored. cbn. by rewrite Hlive.
  - intros doc Hd. cbn [deletes]. rewrite list_elem_of_singleton.
    destruct found; [by eapply hidden_marked; [apply Hcase|]|]. destruct Hcase as [_ ->]. by left.
Qed.

(** *** Names *)
Lemma shard_ok_bumped s d recs cs stale :
  shard_ok s d recs cs stale -> next_of s + 1 < 2 ^ 64 ->
  shard_ok (set_list (bumped (sh_segments s)) s) d recs cs stale.
Proof.
  intros Hs Hn. eapply shard_ok_list; [exact Hs| |done|done|apply Hs].
  apply bumped_ok; [apply Hs|done].
Qed.

Lemma name_section p f s d recs cs stale :
  shard_ok s d recs cs stale -> next_of s + 1 < 2 ^ 64 ->
  (forall s, exec p s = (id ← on_segments (call_self next_segment_id); mret (inl (f id))) s) ->
  (forall id, no_reindex (f id) /\ owned (f id) = Some id /\ refs (f id) = refs p /\
     carried (f id) = carried p /\ forall s d cs, unwritten s d id -> local_ok s d cs (f id)) ->
  (forall id, id ∈ refs p -> named_below (next_of s) id) -> unlisted p = [] ->
  section_ok p s d cs stale.
Proof.
  intros Hs Hn He Hf Hrefs Hu. pose proof (so_list _ _ _ _ _ Hs) as Hl.
  set (id := segment_name (next_of s)). destruct (Hf id) as (Hcalm & Hown & Hr & Hc & Hlocal).
  pose proof (shard_ok_bumped _ _ _ _ _ Hs Hn) as Hok.
  destruct (next_name_unused _ _ _ _ _ Hl) as [Hfresh _].
  exists (set_list (bumped (sh_segments s)) s), d, (inl (f id)), recs, cs, stale.
  split_and!; [|done| |by intros x; apply same_stale|by left].
  { rewrite He. by erewrite obj_bind_ret by by eapply bumped_call. }
  split.
  - split; try done; [unfold next_of; cbn; lia|by left|by intros e c; right; exists c].
  - intros q [= <-]. split; [done| |].
    + apply Hlocal. split; [|done|].
      * exists (next_of s). split; [done|]. pose proof (lo_next _ _ _ _ _ Hl) as [? _]. unfold next_of. cbn. lia.
      * intros file. change (dk_files d !! join (join (segments_dir s) id) file = None).
        rewrite <- (so_dir _ _ _ _ _ Hs). exact (next_segment_dir _ _ _ _ _ file Hl).
    + intros x. rewrite Hr. intros Hx%Hrefs. eapply named_below_mono; [|exact Hx]. unfold next_of. cbn. lia.
  - intros q x [= <-]. rewrite Hown. intros [= <-]. by right.
  - intros q x [= <-]. rewrite Hr. by left.
  - intros doc. cbn [carried_next]. by rewrite Hc.
Qed.

(** *** Files *)
Lemma join_dir_ne dir id : join dir id <> [].
Proof. unfold join. by destruct dir. Qed.

Lemma write_files_spec s d recs cs stale docs id :
  shard_ok s d recs cs stale -> unwritten s d id -> segment_fits (sh_schema s) docs ->
  let dir := join (segments_dir s) id in
  exists d' r st, write_segment (sh_schema s) id docs dir d = (d', Ret (r, st)) /\
    let e := {| se_segment_id := id; se_dir := dir; se_reader := r; se_stats := st |} in
    shard_ok s d' recs cs (stale ++ [id]) /\ written s d' e docs /\
    (forall p, parent p <> dir -> dk_files d' !! p = dk_files d !! p) /\
    (forall p, p ∈ dk_dirs d -> p ∈ dk_dirs d').
Proof.
  intros Hs [H1 H2 H3] Hfit dir.
  destruct (write_segment_spec _ id docs dir d Hfit (join_dir_ne _ _) (H3 _))
    as (d' & r & st & Hw & Hr & _ & Hdisk & _ & Hd & Hf).
  assert (forall p, p ∈ dk_dirs d -> p ∈ dk_dirs d') as Hdirs by (intros p Hp; rewrite Hd; set_solver).
  assert (dir ∈ dk_dirs d') as Hdir
    by (rewrite Hd; pose proof (elem_of_prefixes_self dir (join_dir_ne _ _)); set_solver).
  exists d', r, st. cbn zeta. split_and!; [done| | |done|done].
  - rewrite <- (set_list_id s). eapply shard_ok_list; [exact Hs| |done| |by apply Hdirs, Hs].
    + apply written_ok with (d := d); rewrite ?(so_dir _ _ _ _ _ Hs); try done; apply Hs.
    + intros p Hp. apply Hf. intros E. apply Hp. destruct (decide (p = [])) as [->|Hne].
      { cbn in E. by destruct (join_dir_ne (segments_dir s) id). }
      destruct (exists_last Hne) as (q & n & ->). fold (join q n) in *.
      rewrite parent_join in E. subst q. apply under_join. right. apply under_join. right.
      apply under_refl.
  - split; [done|done|]. by split.
Qed.

(** The section that writes an entry under the name its call owns. *)
Lemma write_section p f s d recs cs stale docs id :
  shard_ok s d recs cs stale -> unwritten s d id -> segment_fits (sh_schema s) docs ->
  (forall r st d', let dir := join (segments_dir s) id in
     write_segment (sh_schema s) id docs dir d = (d', Ret (r, st)) ->
     exec p (s, d) = ((s, d'), Ret (inl (f {| se_segment_id := id; se_dir := dir; se_reader := r;
                                             se_stats := st |})))) ->
  owned p = Some id ->
  (forall e, no_reindex (f e) /\ owned (f e) = Some (se_segment_id e) /\ refs (f e) = refs p /\
     carried (f e) = carried p /\ unlisted (f e) = [se_segment_id e]) ->
  (forall d' e, written s d' e docs -> local_ok s d' cs (f e)) ->
  (forall id, id ∈ refs p -> named_below (next_of s) id) -> unlisted p = [] ->
  section_ok p s d cs stale.
Proof.
  intros Hs Hun Hfit He Hown Hf Hlocal Hrefs Hu.
  destruct (write_files_spec _ _ _ _ _ docs id Hs Hun Hfit) as (d' & r & st & Hw & Hok & Hwr & Hfiles & Hdirs).
  set (e := {| se_segment_id := id |}) in *. destruct (Hf e) as (Hcalm & Ho & Hr & Hc & Hl).
  exists s, d', (inl (f e)), recs, cs, (stale ++ [id]). split_and!; [by apply He|done| | |by left].
  2: { intros x [Hx|Hx]%elem_of_app; [by apply same_stale|]. right. cbn [unlisted_next]. by rewrite Hl. }
  split.
  - split; try done; [by left|by intros ? c; right; exists c| |].
    + intros x file _ _ Hx _. apply Hfiles. rewrite parent_join. intros [_ ->]%join_inj. by apply Hx.
    + intros x _ _ _ _. apply Hdirs.
  - intros q [= <-]. split; [done|by apply Hlocal|]. intros x. rewrite Hr. apply Hrefs.
  - intros q x [= <-]. rewrite Ho. intros [= <-]. by left.
  - intros q x [= <-]. rewrite Hr. by left.
  - intros doc. cbn [carried_next]. by rewrite Hc.
Qed.

Lemma flush_write_section s d recs cs stale docs id :
  shard_ok s d recs cs stale -> unwritten s d id -> segment_fits (sh_schema s) docs ->
  section_ok (FlushWrite docs id Return) s d cs stale.
Proof.
  intros Hs Hun Hfit. eapply (write_section _ (fun e => FlushAdd docs e Return)); [exact Hs|exact Hun|exact Hfit|..];
    try done.
  - intros r st d' dir Hw. cbn [exec]. unfold write_entry, mbind, Obj_bind, get_self, obj_io.
    cbn [fst snd]. fold dir. by rewrite Hw.
  - by intros x ?%elem_of_nil.
Qed.

(** The documents of the picked segments. *)
Lemma picked_docs s d recs cs stale group :
  shard_ok s d recs cs stale ->
  try_fold (collect_docs all_ids) [] (se_reader <$> filter (fun e => se_segment_id e ∈ group)
    (sl_segments (sh_segments s))) = Ret (live_all (picked group (sl_segments (sh_segments s)) cs)).
Proof.
  intros Hs. erewrite (collect_sources _ _ _ all_ids).
  - reflexivity.
  - intros. by apply collect_all with (schema := sh_schema s).
  - apply (picked_Forall2 _ group). apply (so_list _ _ _ _ _ Hs).
Qed.

Lemma picked_live s d recs cs stale group doc :
  shard_ok s d recs cs stale ->
  doc ∈ live_all (picked group (sl_segments (sh_segments s)) cs) -> doc ∈ live_all cs.
Proof.
  intros Hs Hdoc.
  assert (length (sl_segments (sh_segments s)) = length cs) as Hlen
    by by eapply Forall2_length, (so_list _ _ _ _ _ Hs).
  unfold live_all in *. rewrite <- (picked_kept group _ _ Hlen), bind_app. set_solver.
Qed.

Lemma merge_write_section s d recs cs stale group id groups :
  shard_ok s d recs cs stale -> thread_ok s d cs (MergeWrite group id groups Return) ->
  within_widths s (MergeWrite group id groups Return) ->
  section_ok (MergeWrite group id groups Return) s d cs stale.
Proof.
  intros Hs [_ Hun Hrefs] Hfit. pose proof (picked_docs _ _ _ _ _ group Hs) as Hp.
  eapply (write_section _ (fun e => MergeReplace group e groups Return));
    [exact Hs|exact Hun|apply Hfit; exact Hp|..]; try done.
  - intros r st d' dir Hw. cbn [exec]. erewrite obj_bind_ret; [reflexivity|].
    unfold merge_entry. erewrite obj_bind_ret by reflexivity. cbn zeta. cbn [fst]. apply obj_io_ret.
    unfold execute_merge. erewrite io_bind_ret by (unfold lift; rewrite Hp; reflexivity).
    fold dir. rewrite (io_bind_ret _ _ _ d' (r, st)) by exact Hw. reflexivity.
  - intros d' e Hw. exists (live_all (picked group (sl_segments (sh_segments s)) cs)). split_and!; [done| |].
    + intros e0 c doc. apply elem_of_picked_live.
    + intros doc. by eapply picked_live.
Qed.

(** *** Registering *)
Lemma ids_registered s old e docs :
  ids_of (set_list (registered (sh_segments s) old e docs) s)
    = filter (fun id : string => id ∉ old) (ids_of s) ++ [se_segment_id e].
Proof. unfold ids_of. cbn. by rewrite fmap_app, fmap_filter_ids. Qed.

Lemma elem_of_live_all (segs : list SegmentEntry) cs doc :
  length segs = length cs ->
  doc ∈ live_all cs <-> exists e c, (e, c) ∈ zip segs cs /\ doc ∈ live_mem c.
Proof.
  intros Hlen. unfold live_all. rewrite list_elem_of_bind. split.
  - intros (c & Hdoc & Hc). apply list_elem_of_lookup in Hc as [i Hi].
    destruct (lookup_lt_is_Some_2 segs i) as [e He]; [rewrite Hlen; by eapply lookup_lt_Some|].
    exists e, c. split; [|done]. eapply list_elem_of_lookup_2, lookup_zip_with_Some. eauto.
  - intros (e & c & Hz & Hdoc). exists c. split; [done|]. by eapply elem_of_zip_r.
Qed.

Lemma register_section p q m s d recs cs stale docs old e :
  shard_ok s d recs cs stale -> written s d e docs ->
  exec p (s, d) = (a ← on_segments m; mret (inl q)) (s, d) ->
  m (sh_segments s, d) = ((registered (sh_segments s) old e docs, d), Ret tt) ->
  owned p = Some (se_segment_id e) ->
  (forall e0 c doc, (e0, c) ∈ listed s cs -> se_segment_id e0 ∈ old -> doc ∈ live_mem c -> doc ∈ docs) ->
  (forall doc, doc ∈ docs -> doc ∈ live_all cs \/ doc ∈ carried p) ->
  (forall doc, doc ∈ carried p -> doc ∈ docs) ->
  no_reindex q -> owned q = None -> (forall id, id ∈ refs q -> id ∈ refs p /\ named_below (next_of s) id) ->
  carried q = [] ->
  (forall s' d' cs', (forall id, id ∈ ids_of s' -> id ∉ old \/ id = se_segment_id e) -> local_ok s' d' cs' q) ->
  unlisted p = [se_segment_id e] -> unlisted q = old ->
  section_ok p s d cs stale.
Proof.
  intros Hs [Hb Hids He] Hr Hm Hown Hsup Hsub Hcar Hcalm Ho Href Hc Hlocal Hup Huq.
  pose proof (so_list _ _ _ _ _ Hs) as Hl. pose proof (so_dir _ _ _ _ _ Hs) as Hdir.
  rewrite <- Hdir in He.
  pose proof (registered_ok _ _ _ _ _ docs old e Hl He Hb Hids) as Hreg.
  set (s' := set_list (registered (sh_segments s) old e docs) s).
  assert (length (sl_segments (sh_segments s)) = length cs) as Hlen by by eapply Forall2_length, Hl.
  set (cs' := kept old (sl_segments (sh_segments s)) cs ++ [fresh_contents docs]) in *.
  assert (listed s' cs' = filter (fun x => se_segment_id x.1 ∉ old) (listed s cs)
    ++ [(e, fresh_contents docs)]) as Hz.
  { unfold listed, s', cs', registered. cbn [sh_segments set_list sl_segments].
    rewrite zip_with_app, kept_zip; [done|done|]. eapply (Forall2_length (fun _ _ => True)).
    apply kept_Forall2. apply Forall2_same_length_lookup_2; done. }
  assert (length (sl_segments (sh_segments s')) = length cs') as Hlen'
    by by eapply Forall2_length, Hreg.
  assert (forall doc, doc ∈ live_all cs' <->
    doc ∈ docs \/ exists e0 c, (e0, c) ∈ listed s cs /\ se_segment_id e0 ∉ old /\ doc ∈ live_mem c) as Hlive.
  { intros doc. rewrite (elem_of_live_all _ _ _ Hlen'). fold (listed s' cs'). rewrite Hz. split.
    - intros (e0 & c & Hin & Hdoc). apply elem_of_app in Hin as [Hin|Hin].
      + apply list_elem_of_filter in Hin as [Hno Hin]. right. by exists e0, c.
      + apply list_elem_of_singleton in Hin as [= -> ->]. left. by rewrite live_fresh in Hdoc.
    - intros [Hdoc|(e0 & c & Hin & Hno & Hdoc)].
      + exists e, (fresh_contents docs). rewrite live_fresh. split; [|done].
        apply elem_of_app. right. by apply list_elem_of_singleton.
      + exists e0, c. split; [|done]. apply elem_of_app. left. by apply list_elem_of_filter. }
  assert (forall doc, doc ∈ live_all cs -> doc ∈ live_all cs') as Hgrow.
  { intros doc. rewrite (elem_of_live_all _ _ _ Hlen). intros (e0 & c & Hin & Hdoc). apply Hlive.
    destruct (decide (se_segment_id e0 ∈ old)); [left; by eapply Hsup|right; by exists e0, c]. }
  assert (forall doc, doc ∈ live_all cs' -> doc ∈ live_all cs \/ doc ∈ carried p) as Hshrink.
  { intros doc [Hdoc|(e0 & c & Hin & _ & Hdoc)]%Hlive; [by apply Hsub|]. left.
    rewrite (elem_of_live_all _ _ _ Hlen). by exists e0, c. }
  exists s', d, (inl q), recs, cs'. eexists. split_and!.
  - rewrite Hr. erewrite obj_bind_ret by (apply zoom_ret; exact Hm). reflexivity.
  - eapply shard_ok_list; [exact Hs|exact Hreg|done|done|apply Hs].
  - split.
    + split; try done.
      * intros id. unfold s'. rewrite ids_registered, elem_of_app, list_elem_of_filter, list_elem_of_singleton.
        intros [[_ ?]| ->]; [by left|by right].
      * intros e0 c'. rewrite Hz, elem_of_app, list_elem_of_filter, list_elem_of_singleton.
        intros [[_ ?]|[= -> ->]]; [right; by exists c'|by left].
    + intros x [= <-]. split; [done| |].
      * apply Hlocal. intros id. unfold s'. rewrite ids_registered, elem_of_app, list_elem_of_filter, list_elem_of_singleton.
        intros [[? _]| ->]; [by left|by right].
      * intros id Hid. by apply Href.
    + intros x id [= <-]. by rewrite Ho.
    + intros x id [= <-] Hid. left. by apply Href.
    + intros doc. cbn [carried_next]. rewrite Hc, app_nil_r. unfold stored. cbn [sh_write_buffer s' set_list].
      rewrite !elem_of_app. pose proof (Hgrow doc). pose proof (Hshrink doc).
      pose proof (Hcar doc). pose proof (proj2 (Hlive doc)). tauto.
  - rewrite Hup. cbn [unlisted_next]. rewrite Huq.
    intros x [[Hx ?]%list_elem_of_filter|[Hx ?]%list_elem_of_filter]%elem_of_app; [|by right].
    left. split; [done|]. by intros ?%list_elem_of_singleton.
  - intros doc (c & Hin & Hmem & Hdisk). left. apply elem_of_app in Hin as [Hin|Hin].
    + exists c. split_and!; [|done|done].
      apply list_elem_of_fmap in Hin as ([e0 c0] & -> & [_ Hin]%list_elem_of_filter). by eapply elem_of_zip_r.
    + apply list_elem_of_singleton in Hin as ->. by destruct Hdisk.
Qed.

Lemma flush_add_section s d recs cs stale docs e :
  shard_ok s d recs cs stale -> written s d e docs -> section_ok (FlushAdd docs e Return) s d cs stale.
Proof.
  intros Hs Hw. eapply (register_section _ (FlushTruncate Return) (add_segment e) _ _ _ _ _ docs [] e);
    [exact Hs|exact Hw|reflexivity| |done|..]; try done.
  - apply (add_segment_registers (sh_schema s)), Hw.
  - intros e0 c doc _ ?%elem_of_nil. done.
  - intros doc ?. by right.
  - by intros id ?%elem_of_nil.
Qed.

Lemma merge_replace_section s d recs cs stale group e groups :
  shard_ok s d recs cs stale -> thread_ok s d cs (MergeReplace group e groups Return) ->
  se_segment_id e ∉ group ->
  section_ok (MergeReplace group e groups Return) s d cs stale.
Proof.
  intros Hs [_ (docs & Hw & Hsup & Hsub) Hrefs] Hne.
  eapply (register_section _ (MergeClean group groups Return) (replace_segments group e) _ _ _ _ _ docs group e);
    [exact Hs|exact Hw|reflexivity| |done|exact Hsup|..]; try done.
  - apply (replace_segments_registers (sh_schema s)), Hw.
  - intros doc Hdoc. left. by apply Hsub.
  - by intros doc ?%elem_of_nil.
  - intros id Hid. split; [done|by apply Hrefs].
  - intros s' d' cs' Hids. cbn [local_ok]. apply Forall_forall. intros id Hid [?| ->]%Hids; done.
Qed.

(** *** Choosing and cleaning up *)
Lemma remove_segment_dirs_frame ids : forall s d s' d' u,
  remove_segment_dirs ids (s, d) = ((s', d'), Ret u) ->
  forall p, (forall id, id ∈ ids -> ~ under (join (segments_dir s) id) p) ->
    dk_files d' !! p = dk_files d !! p /\ (p ∈ dk_dirs d -> p ∈ dk_dirs d').
Proof.
  unfold remove_segment_dirs. induction ids as [|id ids IH]; intros s d s' d' u; [by intros [= <- <- _]|].
  cbn [obj_for]. intros ([s1 d1] & [] & H1 & H2)%obj_bind_ret_inv p Hp.
  unfold mbind, Obj_bind, get_self, ignore, obj_io, remove_dir_all in H1. cbn [fst snd] in H1.
  assert (s1 = s /\ (dk_files d1 !! p = dk_files d !! p /\ (p ∈ dk_dirs d -> p ∈ dk_dirs d1))) as [-> [Hf Hd]].
  { pose proof (Hp id ltac:(by left)) as Hnot. case_bool_decide; injection H1 as <- <-; [|done].
    split; [done|]. cbn. split.
    - apply option_eq. intros v. rewrite map_lookup_filter_Some. cbn. tauto.
    - intros Hin. by apply elem_of_filter. }
  destruct (IH _ _ _ _ _ H2 p) as [Hf' Hd'].
  { intros x Hx. apply Hp. by right. }
  split; [congruence|auto].
Qed.

Lemma not_under_other dir a b file : a <> b -> ~ under (join dir a) (join (join dir b) file).
Proof.
  intros Hne [E|Hu]%under_join; [|by eapply not_under_sibling].
  apply (f_equal length) in E. unfold join in E. rewrite !length_app in E. cbn in E. lia.
Qed.

(** The next merge of a list of groups, or the end. *)
Lemma next_merge_cases groups p' :
  next_merge groups Return = inl p' ->
  exists group rest, groups = group :: rest /\ p' = MergeName group rest Return.
Proof. destruct groups as [|group rest]; [done|]. intros [= <-]. by exists group, rest. Qed.

Lemma carried_next_merge groups : carried_next (next_merge groups Return) = [].
Proof. by destruct groups. Qed.

Lemma merge_clean_section s d recs cs stale group groups :
  shard_ok s d recs cs stale -> thread_ok s d cs (MergeClean group groups Return) ->
  section_ok (MergeClean group groups Return) s d cs stale.
Proof.
  intros Hs [_ Hlocal Hrefs]. cbn [local_ok refs] in Hlocal, Hrefs.
  destruct (remove_segment_dirs_spec group s d recs cs stale Hs Hlocal) as (d' & Hr & Hok).
  pose proof (remove_segment_dirs_frame _ _ _ _ _ _ Hr) as Hfr.
  eexists s, d', _, recs, cs, _. split_and!; [|exact Hok| | |by left].
  { cbn [exec]. by erewrite obj_bind_ret by exact Hr. }
  2: { intros x [Hx ?]%list_elem_of_filter. by left. }
  split.
  - split; try done; [by left|by intros ? c; right; exists c| |].
    + intros x file _ _ _ Hx. apply Hfr. intros id Hid. apply not_under_other. cbn [refs] in Hx. set_solver.
    + intros x _ _ _ Hx Hin. apply Hfr; [|done]. intros id Hid. apply not_under_sibling.
      cbn [refs] in Hx. set_solver.
  - intros q (g & rest & -> & ->)%next_merge_cases. split; [done|done|].
    intros id Hid. apply Hrefs. cbn [refs concat] in *. set_solver.
  - by intros q id (g & rest & -> & ->)%next_merge_cases.
  - intros q id (g & rest & -> & ->)%next_merge_cases Hid. left. cbn [refs concat] in *. set_solver.
  - intros doc. by rewrite carried_next_merge.
Qed.

Lemma find_merges_section s d recs cs stale :
  shard_ok s d recs cs stale -> section_ok (FindMerges Return) s d cs stale.
Proof.
  intros Hs. pose proof (so_list _ _ _ _ _ Hs) as Hl.
  destruct (find_merges_spec (sh_merge_policy s) (sl_segments (sh_segments s))) as (gs & Hgs & Hcase & _).
  assert (forall id, id ∈ concat gs -> id ∈ ids_of s) as Hin.
  { destruct Hcase as [->|(g & order & -> & _ & _ & HF & _)]; [by intros id ?%elem_of_nil|].
    cbn [concat]. rewrite app_nil_r. intros id Hid. apply list_elem_of_lookup in Hid as [i Hi].
    destruct (Forall2_lookup_r _ _ _ _ _ HF Hi) as (ic & _ & e & He & <-).
    apply list_elem_of_fmap_2. by eapply list_elem_of_lookup_2. }
  eexists s, d, _, recs, cs, stale. split_and!; [|done| |by intros x; apply same_stale|by left].
  { cbn [exec]. erewrite obj_bind_ret by reflexivity. unfold obj_lift. cbn [fst]. rewrite Hgs.
    by erewrite obj_bind_ret by reflexivity. }
  split.
  - by apply evolves_quiet.
  - intros q (g & rest & -> & ->)%next_merge_cases. split; [done|done|].
    intros id Hid%Hin. apply (proj1 (Forall_forall _ _) (lo_named _ _ _ _ _ Hl) _ Hid).
  - by intros q id (g & rest & -> & ->)%next_merge_cases.
  - intros q id (g & rest & -> & ->)%next_merge_cases Hid. right. by apply Hin.
  - intros doc. by rewrite carried_next_merge.
Qed.

(** *** Every section *)
Lemma every_section p s d recs cs stale :
  shard_ok s d recs cs stale -> thread_ok s d cs p -> within_widths s p ->
  (forall id, owned p = Some id -> id ∉ refs p) -> section_ok p s d cs stale.
Proof.
  intros Hs Hp Hw Hself. pose proof (to_calm _ _ _ _ Hp) as Hcalm. pose proof (to_local _ _ _ _ Hp) as Hlocal.
  destruct p; cbn [no_reindex local_ok within_widths] in *; try done; subst.
  - by eapply (append_one_section _ _ (fun seq => inl (IndexEnqueue doc seq))).
  - eapply enqueue_section; [exact Hs|by eexists|done..].
  - by eapply add_section.
  - by eapply append_batch_section.
  - destruct (enqueue_all (zip (WalIndex <$> docs) seqs) s d) as [rep Hr].
    eapply (enqueue_section _ _ _ _ _ _ (inl (BatchAdd docs))); [exact Hs| |done..].
    exists rep. cbn [exec]. by erewrite obj_bind_ret by exact Hr.
  - by eapply add_docs_section.
  - by eapply (append_one_section _ _ (fun seq => inl (DeleteEnqueue id seq))).
  - eapply enqueue_section; [exact Hs|by eexists|done..].
  - by eapply mark_section.
  - by eapply mark_segments_section.
  - by eapply search_section.
  - by eapply getting_section.
  - by eapply stats_section.
  - by eapply drain_section.
  - eapply (name_section _ (fun id => FlushWrite docs id Return)); [exact Hs|done|done|done|apply Hp|done].
  - by eapply flush_write_section.
  - by eapply flush_add_section.
  - by eapply truncate_section.
  - by eapply find_merges_section.
  - eapply (name_section _ (fun id => MergeWrite group id groups Return)); [exact Hs|done|done|done|apply Hp|done].
  - by eapply merge_write_section.
  - eapply merge_replace_section; [exact Hs|done|]. specialize (Hself _ eq_refl). cbn [refs] in Hself. set_solver.
  - by eapply merge_clean_section.
Qed.

(** ** All calls together *)
Record pool_ok (w : World) (recs : list WalRecord) (cs : list Contents) (stale : list string)
    : Prop := {
  pk_shard : shard_ok (wo_self w) (wo_disk w) recs cs stale;
  pk_thread : forall i p, wo_threads w !! i = Some (inl p) ->
    thread_ok (wo_self w) (wo_disk w) cs p /\ (forall id, owned p = Some id -> id ∉ refs p);
  pk_apart : forall i j p q, i <> j -> wo_threads w !! i = Some (inl p) ->
    wo_threads w !! j = Some (inl q) -> apart p q;
  pk_ended : forall i r, wo_threads w !! i = Some (inr r) -> exists a, r = Ret a;
  pk_stale : forall id, id ∈ stale -> exists i t, wo_threads w !! i = Some t /\ id ∈ unlisted_by t;
}.

(** Everything the shard and the running calls hold. *)
Definition held (w : World) (cs : list Contents) : list Document :=
  stored (wo_self w) cs ++ (wo_threads w ≫= carried_by).

Lemma elem_of_carried (threads : list Thread) doc :
  doc ∈ threads ≫= carried_by <-> exists i t, threads !! i = Some t /\ doc ∈ carried_by t.
Proof.
  rewrite list_elem_of_bind. split.
  - intros (t & Hd & [i Hi]%list_elem_of_lookup). eauto.
  - intros (i & t & Hi & Hd). exists t. split; [done|]. by eapply list_elem_of_lookup_2.
Qed.

Lemma elem_of_carried_insert (threads : list Thread) i t t' doc :
  threads !! i = Some t ->
  doc ∈ <[i := t']> threads ≫= carried_by <->
  doc ∈ carried_by t' \/ exists j u, j <> i /\ threads !! j = Some u /\ doc ∈ carried_by u.
Proof.
  intros Hi. rewrite elem_of_carried. split.
  - intros (j & u & Hj & Hd). apply list_lookup_insert_Some in Hj as [(-> & -> & _)|[Hne Hj]]; [by left|].
    right. by exists j, u.
  - intros [Hd|(j & u & Hne & Hj & Hd)].
    + exists i, t'. by rewrite list_lookup_insert_eq by by eapply lookup_lt_Some.
    + exists j, u. by rewrite list_lookup_insert_ne.
Qed.

Lemma elem_of_carried_split (threads : list Thread) i t doc :
  threads !! i = Some t ->
  doc ∈ threads ≫= carried_by <->
  doc ∈ carried_by t \/ exists j u, j <> i /\ threads !! j = Some u /\ doc ∈ carried_by u.
Proof. intros Hi. rewrite <- (list_insert_id threads i t Hi) at 1. by eapply elem_of_carried_insert. Qed.

(** A name that is not below the counter is nobody's. *)
Lemma owned_named s d cs q id : thread_ok s d cs q -> owned q = Some id ->
  named_below (next_of s) id /\ id ∉ ids_of s.
Proof.
  intros [_ Hl _]. destruct q; try done; cbn [owned local_ok] in *; intros [= <-].
  - by destruct Hl.
  - by destruct Hl.
  - by destruct Hl.
  - by destruct Hl as (docs & [] & _).
Qed.

Lemma next_not_named s d recs cs stale id :
  shard_ok s d recs cs stale -> named_below (next_of s) id -> id <> segment_name (next_of s).
Proof.
  intros Hs Hb. pose proof (lo_next _ _ _ _ _ (so_list _ _ _ _ _ Hs)) as Hn.
  eapply named_below_fresh; [exact Hn|reflexivity|exact Hn|exact Hb].
Qed.

Lemma pool_step w recs cs stale i p :
  pool_ok w recs cs stale -> wo_threads w !! i = Some (inl p) -> within_widths (wo_self w) p ->
  exists recs' cs' stale', pool_ok (run_section i w) recs' cs' stale' /\
    (forall doc, doc ∈ held w cs <-> doc ∈ held (run_section i w) cs') /\
    (forall doc, hidden cs' doc -> hidden cs doc \/ doc_id doc ∈ deletes p).
Proof.
  intros [Hs Hth Hap Hend Hst] Hi Hw. destruct (Hth _ _ Hi) as [Hp Hself].
  destruct (every_section p _ _ _ _ _ Hs Hp Hw Hself)
    as (s' & d' & r & recs' & cs' & stale' & Hr & Hs' & [Hev Hnext Hown Href Hdocs] & Hleft & Hhid).
  exists recs', cs', stale'. unfold run_section. rewrite Hi, Hr.
  assert (forall j q, j <> i -> wo_threads w !! j = Some (inl q) -> apart p q /\ apart q p) as Hpq
    by (intros j q Hne Hj; split; [apply (Hap i j)|apply (Hap j i)]; done).
  assert (forall q', r = inl q' -> forall id, owned q' = Some id -> id ∉ refs q') as Hself'.
  { intros q' -> id Ho Hid. destruct (Hown q' id eq_refl Ho) as [Ho'| ->].
    - destruct (Href q' id eq_refl Hid) as [?|Hin]; [by apply (Hself id)|].
      by apply (owned_named _ _ _ _ _ Hp Ho').
    - destruct (Href q' _ eq_refl Hid) as [Hin|Hin].
      + by apply (next_not_named _ _ _ _ _ _ Hs (to_refs _ _ _ _ Hp _ Hin)).
      + by apply (proj1 (next_name_unused _ _ _ _ _ (so_list _ _ _ _ _ Hs))). }
  assert (forall q' j q, r = inl q' -> j <> i -> wo_threads w !! j = Some (inl q) ->
    apart q' q /\ apart q q') as Hpq'.
  { intros q' j q -> Hne Hj. destruct (Hpq _ _ Hne Hj) as [H1 H2]. destruct (Hth _ _ Hj) as [Hq _]. split.
    - intros id Ho. destruct (Hown q' id eq_refl Ho) as [Ho'| ->]; [by apply H1|]. split.
      + intros Ho'. apply owned_named with (1 := Hq) in Ho' as [Hb _].
        by apply (next_not_named _ _ _ _ _ _ Hs Hb).
      + intros Hin. by apply (next_not_named _ _ _ _ _ _ Hs (to_refs _ _ _ _ Hq _ Hin)).
    - intros id Ho. destruct (owned_named _ _ _ _ _ Hq Ho) as [Hb Hids]. split.
      + intros Ho'. destruct (Hown q' id eq_refl Ho') as [Ho2| ->].
        * by apply (proj1 (H2 id Ho)).
        * by apply (next_not_named _ _ _ _ _ _ Hs Hb).
      + intros Hid. destruct (Href q' id eq_refl Hid) as [?|?]; [by apply (proj2 (H2 id Ho))|done]. }
  assert (forall q', resume (Ret r) = inl q' -> r = inl q') as Hresume
    by (intros q'; destruct r; cbn; congruence).
  split_and!; [split; cbn [wo_self wo_disk wo_threads]| |exact Hhid].
  - exact Hs'.
  - intros j q Hj. apply list_lookup_insert_Some in Hj as [(_ & Hq%Hresume & _)|[Hne Hj]].
    + split; [by apply Hnext|by apply Hself'].
    + destruct (Hth _ _ Hj) as [Hq Hselfq]. destruct (Hpq _ _ (not_eq_sym Hne) Hj). split; [|done].
      by eapply others_ok.
  - intros j k x y Hne Hj Hk.
    apply list_lookup_insert_Some in Hj as [(-> & Hx%Hresume & _)|[Hnj Hj]];
      apply list_lookup_insert_Some in Hk as [(-> & Hy%Hresume & _)|[Hnk Hk]]; [done|..].
    + by apply (Hpq' x k y Hx).
    + by apply (Hpq' y j x Hy).
    + by apply (Hap j k).
  - intros j x Hj. apply list_lookup_insert_Some in Hj as [(_ & Hx & _)|[_ Hj]]; [|by apply (Hend j)].
    destruct r; cbn in Hx; [done|]. injection Hx as <-. by eexists.
  - intros id [[Hid Hno]|Hid]%Hleft.
    + destruct (Hst id Hid) as (j & t & Hj & Ht). exists j, t. split; [|done].
      destruct (decide (i = j)) as [<-|Hne]; [|by rewrite list_lookup_insert_ne].
      exfalso. pose proof (eq_trans (eq_sym Hi) Hj) as [= <-]. by apply Hno.
    + exists i, (resume (Ret r)). rewrite list_lookup_insert_eq by by eapply lookup_lt_Some.
      split; [done|]. by destruct r.
  - intros doc. unfold held. cbn [wo_self wo_threads]. rewrite !elem_of_app.
    rewrite (elem_of_carried_split _ _ _ doc Hi), (elem_of_carried_insert _ _ _ _ doc Hi).
    specialize (Hdocs doc). rewrite !elem_of_app in Hdocs.
    assert (carried_by (resume (Ret r)) = carried_next r) as -> by by destruct r.
    cbn [carried_by]. tauto.
Qed.

Lemma starting_ok s d cs p : starting p -> thread_ok s d cs p /\ owned p = None /\ refs p = [].
Proof.
  intros Hp. destruct p as [| | | | | | | | | | | | |[]| | | | | | | | | | | | | | | |]; try done;
    (split; [split; [done|done|by intros x ?%elem_of_nil]|done]).
Qed.

(** The ids calls delete: no section adds one. *)
Definition deleted_by (threads : list Thread) : list Z :=
  threads ≫= fun t => match t with inl p => deletes p | inr _ => [] end.

Lemma exec_deletes p s s' q : exec p s = (s', Ret (inl q)) -> deletes q ⊆ deletes p.
Proof.
  destruct p; cbn [exec deletes]; intros H;
    repeat (let s1 := fresh "s1" in let a := fresh "a" in let H1 := fresh "H1" in
            apply obj_bind_ret_inv in H as (s1 & a & H1 & H));
    try destruct a as [? ?]; repeat case_bool_decide; try (by injection H as _ <-).
  all: injection H as _ H; unfold flush_if, next_merge, after_flush in H;
    repeat case_match; by simplify_eq.
Qed.

Lemma run_section_deletes i w : deleted_by (wo_threads (run_section i w)) ⊆ deleted_by (wo_threads w).
Proof.
  unfold run_section. destruct (wo_threads w !! i) as [[p|r]|] eqn:Hi; [|done..].
  destruct (exec p _) as [[s' d'] r] eqn:Hr. cbn [wo_threads]. intros id.
  unfold deleted_by. rewrite !list_elem_of_bind. intros (t & Hid & [j Hj]%list_elem_of_lookup).
  apply list_lookup_insert_Some in Hj as [(_ & <- & _)|[_ Hj]].
  - exists (inl p). split; [|by eapply list_elem_of_lookup_2].
    destruct r as [[q|a]| |]; cbn [resume] in Hid; try by apply elem_of_nil in Hid.
    by apply (exec_deletes _ _ _ _ Hr).
  - exists t. split; [done|]. by eapply list_elem_of_lookup_2.
Qed.

Lemma interleaved_ok w w' recs cs stale :
  interleaved w w' -> pool_ok w recs cs stale ->
  exists recs' cs' stale', pool_ok w' recs' cs' stale' /\
    (forall doc, doc ∈ held w cs <-> doc ∈ held w' cs') /\
    (deleted_by (wo_threads w') ⊆ deleted_by (wo_threads w)) /\
    (forall doc, hidden cs' doc -> hidden cs doc \/ doc_id doc ∈ deleted_by (wo_threads w)).
Proof.
  intros Hrun Hw. induction Hrun as [w|w w1 i p Hrun IH Hi Hfit].
  { exists recs, cs, stale. split_and!; [done|done|done|by left]. }
  destruct (IH Hw) as (recs1 & cs1 & stale1 & Hok1 & Hd1 & Hdel1 & Hh1).
  destruct (pool_step _ _ _ _ _ _ Hok1 Hi Hfit) as (recs2 & cs2 & stale2 & Hok2 & Hd2 & Hh2).
  exists recs2, cs2, stale2. split_and!; [done| | |].
  - intros doc. by rewrite Hd1.
  - by rewrite run_section_deletes.
  - intros doc [Hd|Hid]%Hh2; [by apply Hh1|]. right. apply Hdel1.
    apply list_elem_of_bind. exists (inl p). split; [done|]. by eapply list_elem_of_lookup_2.
Qed.

Lemma not_ended (threads : list Thread) i p :
  forallb ended threads = true -> threads !! i <> Some (inl p).
Proof.
  intros Hdone Hi. apply Is_true_true, forallb_True, Forall_lookup_1 with (2 := Hi) in Hdone. done.
Qed.

(** What calls that start together on a well-formed shard come to. *)
Lemma concurrent_calls_ok s d recs cs calls w :
  shard_ok s d recs cs [] -> Forall starting calls ->
  interleaved (mkWorld s d (inl <$> calls)) w ->
  (forall i r, wo_threads w !! i = Some (inr r) -> exists a, r = Ret a) /\
  exists recs' cs' stale', shard_ok (wo_self w) (wo_disk w) recs' cs' stale' /\
    (forall doc, doc ∈ held w cs' <-> doc ∈ stored s cs \/ doc ∈ calls ≫= carried) /\
    (forall doc, hidden cs' doc -> hidden cs doc \/ doc_id doc ∈ calls ≫= deletes) /\
    (forallb ended (wo_threads w) = true -> stale' = [] /\
     forall doc, doc ∈ stored (wo_self w) cs' <-> doc ∈ stored s cs \/ doc ∈ calls ≫= carried).
Proof.
  intros Hs Hcalls Hrun.
  assert (forall i p, (inl <$> calls : list Thread) !! i = Some (inl p) -> starting p) as Hstart.
  { intros i p Hi. apply list_lookup_fmap_Some in Hi as (q & [= ->] & Hi).
    by apply (Forall_lookup_1 _ _ _ _ Hcalls Hi). }
  destruct (interleaved_ok _ _ recs cs [] Hrun) as (recs' & cs' & stale' & [Hok Hth Hap Hend Hst] & Hdocs & _ & Hhid).
  { split; cbn [wo_self wo_disk wo_threads].
    - done.
    - intros i p Hi. destruct (starting_ok s d cs p (Hstart _ _ Hi)) as (H1 & H2 & H3).
      split; [done|]. by rewrite H2.
    - intros i j p q _ Hi _ id. by destruct (starting_ok s d cs p (Hstart _ _ Hi)) as (_ & -> & _).
    - intros i r Hi. by apply list_lookup_fmap_Some in Hi as (q & ? & _).
    - by intros id ?%elem_of_nil. }
  assert (forall doc, doc ∈ held w cs' <-> doc ∈ stored s cs \/ doc ∈ calls ≫= carried) as Hheld.
  { intros doc. rewrite <- Hdocs. unfold held. cbn [wo_self wo_threads].
    rewrite elem_of_app. assert (((inl <$> calls : list Thread) ≫= carried_by) = calls ≫= carried) as ->; [|done].
    clear. induction calls as [|p calls IH]; [done|]. cbn [fmap list_fmap]. rewrite !bind_cons. by f_equal. }
  assert (deleted_by (inl <$> calls) = calls ≫= deletes) as Hdel.
  { clear. unfold deleted_by. induction calls as [|p calls IH]; [done|]. cbn [fmap list_fmap]. rewrite !bind_cons. by f_equal. }
  cbn [wo_threads] in Hhid. rewrite Hdel in Hhid.
  split; [done|]. exists recs', cs', stale'. split_and!; [done|done|done|]. intros Hdone. split.
  - destruct stale' as [|id stale']; [done|]. exfalso.
    destruct (Hst id) as (i & [p|r] & Hi & Hid); [by left| |by apply elem_of_nil in Hid].
    by eapply not_ended.
  - intros doc. rewrite <- Hheld. unfold held. rewrite elem_of_app, elem_of_carried. split; [by left|].
    intros [?|(i & [p|r] & Hi & Hd)]; [done| |by apply elem_of_nil in Hd].
    exfalso. by eapply not_ended.
Qed.
(** A step of a schedule, its widths checked by evaluation. *)
Lemma il_next w w1 i :
  interleaved w w1 ->
  match wo_threads w1 !! i with Some (inl p) => within_widths (wo_self w1) p | _ => True end ->
  interleaved w (run_section i w1).
Proof.
  intros Hrun Hw. destruct (wo_threads w1 !! i) as [[p|r]|] eqn:E.
  - by eapply il_step.
  - unfold run_section. by rewrite E.
  - unfold run_section. by rewrite E.
Qed.

End Claims.

Ltac run_sections :=
  lazymatch goal with
  | |- interleaved _ (run_section _ _) => apply il_next; [run_sections|]
  | |- _ => apply il_refl
  end.


Section Witness.
Import TestLibs StableOrder CountableSerde FreshTemp.
#[local] Instance test_math : MathLib := {| f32_ln := fun x => x |}.

(** A flush of the two buffered documents, with a third one indexed meanwhile. *)
Definition doc_c : Document := sample_doc 9 "wool scarf".
Definition sample_calls : list Pc := [Drain Return; IndexAppend doc_c].
Definition sample_world : World := mkWorld sample_shard sample_disk (inl <$> sample_calls).

Definition sample_schedule : list nat := [0; 0; 1; 0; 1; 1; 0; 0; 0]%nat.

Lemma sample_run : interleaved sample_world (run_schedule sample_schedule sample_world).
Proof.
  unfold run_schedule, sample_schedule. cbn [foldl].
  run_sections.
  - vm_compute. exact I.
  - vm_compute. reflexivity.
  - intros e [= <-]. vm_compute. reflexivity.
  - change (segment_fits default_product_schema [doc_a; doc_b]). apply sample_all_fit. reflexivity.
  - vm_compute. exact I.
  - vm_compute. exact I.
  - vm_compute. exact I.
  - vm_compute. exact I.
  - vm_compute. exact I.
Qed.

End Witness.
