(* ===== verification/Restart.v ===== *)
(** A shard process stopped and started again ([Mode::Shard] of
    [crates/server/src/main.rs] over [crates/shard/src/shard.rs]): the server
    waits for the running calls, the buffer is flushed, the process ends, and
    the next one opens the same directory. *)
From Stdlib Require Import Strings.Byte.
From S2P Require Import Prelude Bytes Order Float Types Config Text Decimal Analysis Posting.
From S2P Require Import Disk Inverted Column DocStore Segment Scorer Collector Understanding.
From S2P Require Import Wand Executor Multi Object Wal WriteBuffer SegmentList Proto.
From S2P Require Import Replication Shard ShardSpecs Sections Interleaving.

Local Open Scope Z_scope.

(** ** What no section changes *)
Section Keeps.
Context `{IL : IndexLibs} `{SD : Serde WalRecord} `{TD : TempDirLib} `{ML : MathLib}
  `{UO : UnspecifiedOrder}.
Context {T : Type} (get : ShardEngine -> T).

Definition keeps {A} (m : Obj ShardEngine A) : Prop :=
  forall s s' r, m s = (s', r) -> get s'.1 = get s.1.

Lemma keeps_ret {A} (a : A) : keeps (mret a).
Proof. by intros s s' r [= <- _]. Qed.
Lemma keeps_self : keeps get_self.
Proof. by intros s s' r [= <- _]. Qed.
Lemma keeps_lift {A} (x : Result A) : keeps (obj_lift x).
Proof. by intros s s' r [= <- _]. Qed.
Lemma keeps_io {A} (m : IO A) : keeps (obj_io m).
Proof. intros s s' r. unfold obj_io. destruct (m s.2). by intros [= <- _]. Qed.
Lemma keeps_bind {A B} (m : Obj ShardEngine A) (f : A -> Obj ShardEngine B) :
  keeps m -> (forall a, keeps (f a)) -> keeps (m ≫= f).
Proof.
  intros Hm Hf s s' r. unfold mbind, Obj_bind. destruct (m s) as [s1 [a|e|]] eqn:E; intros H.
  - rewrite (Hf _ _ _ _ H). by eapply Hm.
  - injection H as <- _. by eapply Hm.
  - injection H as <- _. by eapply Hm.
Qed.
Lemma keeps_zoom {U A} (field : ShardEngine -> U) set (m : Obj U A) :
  (forall u s, get (set u s) = get s) -> keeps (zoom field set m).
Proof. intros Hset s s' r. unfold zoom. destruct (m _) as [[u d] x]. intros [= <- _]. apply Hset. Qed.
Lemma keeps_modify f : (forall s, get (f s) = get s) -> keeps (modify_self f).
Proof. intros Hf s s' r [= <- _]. apply Hf. Qed.
Lemma keeps_for {A} (f : A -> Obj ShardEngine unit) l : (forall a, keeps (f a)) -> keeps (obj_for f l).
Proof. intros Hf. induction l; [apply keeps_ret|]. by apply keeps_bind. Qed.
Lemma keeps_ignore {A} (m : Obj ShardEngine A) : keeps m -> keeps (ignore m).
Proof.
  intros Hm s s' r. unfold ignore. destruct (m s) as [s1 x] eqn:E.
  intros H. apply (Hm _ _ _) in E. destruct x; by injection H as <- _.
Qed.
End Keeps.

Ltac keeping :=
  repeat first
    [ apply keeps_ret | apply keeps_self | apply keeps_lift | apply keeps_io
    | apply keeps_zoom; reflexivity | apply keeps_modify; reflexivity
    | apply keeps_for; intros | apply keeps_bind; [|intros]
    | apply keeps_ignore | case_match ].

Section KeptParts.
Context `{IL : IndexLibs} `{SD : Serde WalRecord} `{TD : TempDirLib} `{ML : MathLib}
  `{UO : UnspecifiedOrder}.

(** A shard's configuration and schema never change. *)
Lemma exec_keeps {T} (get : ShardEngine -> T) p :
  (forall w s, get (set_wal w s) = get s) -> (forall b s, get (set_buffer b s) = get s) ->
  (forall l s, get (set_list l s) = get s) -> (forall r s, get (set_replication r s) = get s) ->
  keeps get (exec p).
Proof.
  intros Hw Hb Hl Hr.
  assert (forall docs needs, keeps get (add_docs docs needs)) as Hadd.
  { induction docs as [|doc docs IH]; intros needs; [apply keeps_ret|].
    apply keeps_bind; [by apply keeps_zoom|]. intros. apply IH. }
  destruct p; cbn [exec]; unfold on_wal, on_buffer, on_segments, enqueue, write_entry, merge_entry,
    remove_segment_dirs, shard_search;
    repeat first [ apply Hadd | apply keeps_zoom; assumption | apply keeps_modify; intros; apply Hr
      | progress keeping ].
Qed.

(** The sections of a flush after it drained the buffer do not touch it. *)
Definition flushing (p : Pc) : Prop :=
  match p with
  | FlushName _ k | FlushWrite _ _ k | FlushAdd _ _ k | FlushTruncate k | FindMerges k
  | MergeName _ _ k | MergeWrite _ _ _ k | MergeReplace _ _ _ k | MergeClean _ _ k => k = Return
  | _ => False
  end.

Lemma flushing_keeps p : flushing p -> keeps sh_write_buffer (exec p).
Proof.
  destruct p; try done; intros _; cbn [exec]; unfold on_wal, on_segments, write_entry, merge_entry,
    remove_segment_dirs; keeping.
Qed.

Lemma flushing_next p s s' q : flushing p -> exec p s = (s', Ret (inl q)) -> flushing q.
Proof.
  destruct p; try done; cbn [exec flushing]; intros -> H;
    repeat (let s1 := fresh "s1" in let a := fresh "a" in let H1 := fresh "H1" in
            apply obj_bind_ret_inv in H as (s1 & a & H1 & H)); injection H as _ H;
    try (by subst q); unfold next_merge, after_flush in H; case_match; by simplify_eq.
Qed.
End KeptParts.

(** ** A run of the process *)
Section Runs.
Context `{IL : IndexLibs} `{SD : Serde WalRecord} `{TD : TempDirLib} `{ML : MathLib}
  `{UO : UnspecifiedOrder}.

(** From the open shard [s] on [d]: the calls it serves run to their end, in
    any interleaving; at shutdown the buffer is flushed, and the disk is [d']. *)
Inductive shard_run (s : ShardEngine) (d : Disk) (calls : list Pc) : ShardEngine -> Disk -> Prop :=
  | sr_stopped w w' :
      interleaved (mkWorld s d (inl <$> calls)) w -> forallb ended (wo_threads w) = true ->
      interleaved (mkWorld (wo_self w) (wo_disk w) [inl (Drain Return)]) w' ->
      forallb ended (wo_threads w') = true ->
      shard_run s d calls (wo_self w') (wo_disk w').

Lemma interleaved_keeps {T} (get : ShardEngine -> T) w w' :
  (forall p, keeps get (exec p)) -> interleaved w w' -> get (wo_self w') = get (wo_self w).
Proof.
  intros Hk Hrun. induction Hrun as [w|w w1 i p Hrun IH Hi _]; [done|]. rewrite <- IH.
  unfold run_section. rewrite Hi. destruct (exec p _) as [[s' d'] r] eqn:E. apply (Hk _ _ _ _ E).
Qed.

Lemma drain_empties s s' r : exec (Drain Return) s = (s', Ret r) ->
  wb_docs (sh_write_buffer s'.1) = [] /\ forall q, r = inl q -> flushing q.
Proof.
  cbn [exec]. intros (s1 & [docs deleted] & H1 & H2)%obj_bind_ret_inv. injection H2 as <- <-. split.
  - unfold on_buffer, zoom in H1. destruct (drain _) as [[b d] x] eqn:E. injection H1 as <- ->.
    unfold drain in E. cbn [fst set_buffer sh_write_buffer].
    apply obj_bind_ret_inv in E as (? & ? & _ & E). apply obj_bind_ret_inv in E as (? & ? & _ & E).
    apply obj_bind_ret_inv in E as (? & ? & E1 & E2). injection E1 as <- _. by injection E2 as <- _.
  - intros q. case_bool_decide; [done|]. by intros [= <-].
Qed.

(** Once the flush at shutdown is over, nothing is buffered. *)
Lemma flush_alone s d w :
  interleaved (mkWorld s d [inl (Drain Return)]) w ->
  exists t, wo_threads w = [t] /\
    (t = inl (Drain Return) \/
     (wb_docs (sh_write_buffer (wo_self w)) = [] /\ (forall q, t = inl q -> flushing q)) \/
     exists r, t = inr r /\ forall a, r <> Ret a).
Proof.
  intros Hrun. remember (mkWorld s d [inl (Drain Return)]) as w0 eqn:E0.
  induction Hrun as [w|w w1 i p Hrun IH Hi _]; subst.
  { exists (inl (Drain Return)). split; [done|by left]. }
  destruct (IH eq_refl) as (t & Ht & Hcase). rewrite Ht in Hi.
  destruct i as [|i]; [|done]. injection Hi as ->. unfold run_section. rewrite Ht. cbn [lookup list_lookup].
  destruct (exec p _) as [[s' d'] r] eqn:E. exists (resume r). split; [done|]. cbn [wo_self].
  destruct r as [r|e|]; [|by right; right; eexists..]. right. left.
  assert (forall q, resume (Ret r) = inl q -> r = inl q) as Hq by (intros q; destruct r; cbn; congruence).
  destruct Hcase as [[= ->]|[[Hb Hf]|(r' & ? & _)]]; [| |done].
  - apply drain_empties in E as [Hb Hn]. split; [exact Hb|]. intros q ?%Hq. by apply Hn.
  - specialize (Hf p eq_refl). split.
    + rewrite <- Hb. apply (f_equal wb_docs), (flushing_keeps p Hf _ _ _ E).
    + intros q ->%Hq. by apply (flushing_next p _ _ _ Hf E).
Qed.
End Runs.


Section Witness.
Import TestLibs StableOrder CountableSerde FreshTemp.
#[local] Instance test_math : MathLib := {| f32_ln := fun x => x |}.

(** A deletion served by the process, then the flush at shutdown. *)
Definition stop_calls : list Pc := [DeleteAppend 7].
Definition served_world : World :=
  run_schedule [0; 0; 0; 0]%nat (mkWorld sample_shard sample_disk (inl <$> stop_calls)).
Definition stopped_world : World :=
  run_schedule [0; 0; 0; 0; 0; 0]%nat
    (mkWorld (wo_self served_world) (wo_disk served_world) [inl (Drain Return)]).

Lemma served_run : interleaved (mkWorld sample_shard sample_disk (inl <$> stop_calls)) served_world.
Proof.
  unfold served_world, run_schedule. cbn [foldl]. run_sections.
  - intros e [= <-]. vm_compute. reflexivity.
  - vm_compute. exact I.
  - vm_compute. exact I.
  - vm_compute. exact I.
Qed.

Lemma stopped_run : interleaved (mkWorld (wo_self served_world) (wo_disk served_world) [inl (Drain Return)])
  stopped_world.
Proof.
  unfold stopped_world, run_schedule. cbn [foldl]. run_sections.
  - vm_compute. exact I.
  - vm_compute. reflexivity.
  - change (segment_fits default_product_schema [doc_a; doc_b]). apply sample_all_fit. reflexivity.
  - vm_compute. exact I.
  - vm_compute. exact I.
  - vm_compute. exact I.
Qed.

End Witness.
