(* ===== verification/Effects.v ===== *)
(** What the methods of the engine ([crates/shard/src/shard.rs]) do to the documents
    it stores, its log and the queues of its replicas, each as one relation. *)
From S2P Require Import Prelude Bytes Order Float Types Config Text Decimal Analysis Posting.
From S2P Require Import Disk Inverted Column DocStore Segment Scorer Collector Wand Executor.
From S2P Require Import Multi Object Wal WriteBuffer SegmentList Proto Replication Shard ShardSpecs.
From S2P Require Import Sections Interleaving.

Local Open Scope Z_scope.

Section Effects.
Context `{ILL : IndexLaws} `{SDL : SerdeLaws WalRecord} `{TDL : TempDirLaws} `{ML : MathLib}
  `{UOL : UnspecifiedOrderLaws}.

(** What a method that logs [entries] and is given [docs] may do. *)
Record grows (entries : list WalEntry) (docs : list Document)
    (s : ShardEngine) (recs : list WalRecord) (cs : list Contents)
    (s' : ShardEngine) (d' : Disk) (recs' : list WalRecord) (cs' : list Contents) : Prop := {
  gr_ok : shard_ok s' d' recs' cs' [];
  gr_logs : logs entries s s';
  gr_records : recs' ⊆ recs ++ numbered (wal_next_seq (sh_wal s)) entries;
  gr_docs : stored s' cs' ≡ₚ stored s cs ++ docs;
}.

(** Nothing logged, nothing given. *)
Lemma grows_nil s recs cs s' d' recs' cs' :
  shard_ok s' d' recs' cs' [] -> logs [] s s' -> recs' ⊆ recs -> stored s' cs' ≡ₚ stored s cs ->
  grows [] [] s recs cs s' d' recs' cs'.
Proof. intros. split; [done|done|by rewrite app_nil_r..]. Qed.

Lemma index_grows s d recs cs doc :
  shard_ok s d recs cs [] -> record_fits (mkWalRecord (wal_next_seq (sh_wal s)) (WalIndex doc)) ->
  all_fit (sh_schema s) (stored s cs ++ [doc]) -> sl_next_segment_seq (sh_segments s) + 2 < 2 ^ 64 ->
  exists s' d' recs' cs', shard_index doc (s, d) = ((s', d'), Ret tt) /\
    grows [WalIndex doc] [doc] s recs cs s' d' recs' cs'.
Proof.
  intros Hs Hrec Hfit Hn. destruct (shard_index_spec s d recs cs doc Hs Hrec Hfit Hn)
    as (s' & d' & recs' & cs' & Hr & Hok & Hlogs & Hst & Hcase).
  exists s', d', recs', cs'. split; [done|]. split; [done..| |done].
  destruct ((wb_add doc (sh_write_buffer s)).2); destruct Hcase as [-> _]; set_solver.
Qed.

(** The entries of a batch go to the queues one by one. *)
Lemma enqueue_numbered entries : forall seq s d,
  obj_for (fun es : WalEntry * Z => enqueue es.2 es.1) (zip entries (wr_seq <$> numbered seq entries)) (s, d)
    = ((set_replication (enqueued (numbered seq entries) <$> sh_replication s) s, d), Ret tt).
Proof.
  induction entries as [|e entries IH]; intros seq s d.
  { cbn [zip zip_with numbered fmap list_fmap obj_for]. destruct s as [? ? ? ? ? ? ? rep]. by destruct rep. }
  cbn [numbered fmap list_fmap zip zip_with obj_for fst snd].
  erewrite obj_bind_ret by reflexivity. etransitivity; [apply IH|]. cbn. by destruct (sh_replication s).
Qed.

(** A batch goes to the log, the queues and the buffer, which may be flushed. *)
Lemma batch_grows s d recs cs docs :
  shard_ok s d recs cs [] -> batch_fits (wal_next_seq (sh_wal s)) (WalIndex <$> docs) ->
  all_fit (sh_schema s) (stored s cs ++ docs) -> sl_next_segment_seq (sh_segments s) + 2 < 2 ^ 64 ->
  exists s' d' recs' cs', index_batch docs (s, d) = ((s', d'), Ret tt) /\
    grows (WalIndex <$> docs) docs s recs cs s' d' recs' cs'.
Proof.
  intros Hs Hrec Hfit Hn. set (entries := WalIndex <$> docs) in *.
  destruct (append_batch_spec entries _ _ _ (so_wal _ _ _ _ _ Hs) Hrec) as (d1 & Ha & Hw & Ho).
  set (s1 := set_wal (set_next_seq (seq_after (wal_next_seq (sh_wal s)) entries) (sh_wal s)) s).
  set (seqs := wr_seq <$> numbered (wal_next_seq (sh_wal s)) entries) in *.
  set (recs1 := recs ++ numbered (wal_next_seq (sh_wal s)) entries) in *.
  assert (shard_ok s1 d1 recs1 cs []) as Hs1.
  { eapply shard_ok_wal; [exact Hs|done| |exact Ho]. by destruct Hw as [? ?]; split. }
  pose proof (enqueue_numbered entries (wal_next_seq (sh_wal s)) s1 d1) as Hq. fold seqs in Hq.
  set (rep := enqueued _ <$> sh_replication s1) in Hq.
  destruct (add_docs_spec docs false (set_replication rep s1) d1 recs1 cs []) as (b' & full & Hb & Hs3 & Hdocs);
    [by apply shard_ok_replication|].
  set (s3 := set_buffer b' (set_replication rep s1)) in *.
  assert (forall m, (if full then flush else mret tt) (s3, d1) = m -> index_batch docs (s, d) = m) as Hrun.
  { intros m Hm. unfold index_batch. fold entries.
    erewrite obj_bind_ret by (apply zoom_ret; exact Ha). erewrite obj_bind_ret by exact Hq.
    erewrite obj_bind_ret by exact Hb. exact Hm. }
  assert (logs entries s s3) as Hlogs by by split.
  assert (stored s3 cs = stored s cs ++ docs) as Hst.
  { unfold stored. cbn [sh_write_buffer s3 set_buffer]. rewrite Hdocs. by rewrite <- app_assoc. }
  destruct full.
  - destruct (flush_spec s3 d1 recs1 cs Hs3) as (l' & d' & cs' & Hf & Hok & Hlive & _).
    { change (all_fit (sh_schema s) (stored s3 cs)). by rewrite Hst. }
    { exact Hn. }
    eexists _, d', _, cs'. split; [by apply Hrun|]. split; [exact Hok| | |].
    + eapply logs_trans_nil; [exact Hlogs|apply logs_nil].
    + destruct (wb_docs (sh_write_buffer s3)); set_solver.
    + rewrite <- Hst. unfold stored at 1. cbn. rewrite app_nil_r. exact Hlive.
  - exists s3, d1, recs1, cs. split; [by apply Hrun|]. split; [done|done|done|by rewrite Hst].
Qed.

Lemma delete_grows s d recs cs id :
  shard_ok s d recs cs [] -> record_fits (mkWalRecord (wal_next_seq (sh_wal s)) (WalDelete id)) ->
  exists s' d' recs' cs', shard_delete id (s, d) = ((s', d'), Ret tt) /\
    grows [WalDelete id] [] s recs cs s' d' recs' cs'.
Proof.
  intros Hs Hrec. destruct (shard_delete_spec s d recs cs id Hs Hrec)
    as (s' & d' & cs' & Hr & Hok & Hdocs & _ & _ & Hcase & Hlogs).
  eexists s', d', _, cs'. split; [done|]. split; [exact Hok|done|done|]. rewrite app_nil_r.
  unfold stored. rewrite Hdocs. destruct Hcase as [[_ ->]|[_ Hm]]; [done|]. by rewrite (marked_live_all _ _ _ Hm).
Qed.

Lemma flush_grows s d recs cs :
  shard_ok s d recs cs [] -> all_fit (sh_schema s) (stored s cs) ->
  sl_next_segment_seq (sh_segments s) + 2 < 2 ^ 64 ->
  exists s' d' recs' cs', flush (s, d) = ((s', d'), Ret tt) /\ grows [] [] s recs cs s' d' recs' cs'.
Proof.
  intros Hs Hfit Hn. destruct (flush_spec s d recs cs Hs Hfit Hn) as (l' & d' & cs' & Hf & Hok & Hlive & _).
  eexists _, d', _, cs'. split; [exact Hf|]. apply grows_nil; [exact Hok|apply logs_nil| |].
  - destruct (wb_docs (sh_write_buffer s)); set_solver.
  - unfold stored at 1. cbn. rewrite app_nil_r. exact Hlive.
Qed.

Lemma reindex_grows s d recs cs ms :
  shard_ok s d recs cs [] -> all_fit (sh_schema s) (stored s cs) ->
  sl_next_segment_seq (sh_segments s) + 3 < 2 ^ 64 ->
  exists s' d' recs' cs' st, reindex_self ms (s, d) = ((s', d'), Ret st) /\
    grows [] [] s recs cs s' d' recs' cs' /\ rx_docs_reindexed st = Z.of_nat (length (stored s cs)) /\
    rx_shard_id st = sc_shard_id (sh_config s) /\ rx_elapsed_ms st = ms.
Proof.
  intros Hs Hfit Hn. destruct (reindex_spec s d recs cs ms Hs Hfit Hn)
    as (s' & d' & recs' & cs' & st & Hr & Hok & Hlive & Hbuf & Hcount & _ & Hlogs & Hrecs & Hid & Hms).
  exists s', d', recs', cs', st. split_and!; [done| |done..]. apply grows_nil; [done|done| |].
  - destruct Hrecs as [->| ->]; set_solver.
  - unfold stored at 1. by rewrite Hbuf, app_nil_r.
Qed.

(** An entry of the primary, on a replica. *)
Lemma replicated_grows s d recs cs entry :
  shard_ok s d recs cs [] ->
  (forall doc, entry = WalIndex doc -> all_fit (sh_schema s) (stored s cs ++ [doc]) /\
     sl_next_segment_seq (sh_segments s) + 2 < 2 ^ 64) ->
  exists s' d' recs' cs', apply_replicated entry (s, d) = ((s', d'), Ret tt) /\
    grows [] (index_docs [entry]) s recs cs s' d' recs' cs'.
Proof.
  intros Hs Hfit. destruct entry as [doc|id]; cbn [index_docs omap list_omap].
  - destruct (Hfit doc eq_refl) as [Hall Hn]. pose proof (shard_ok_add _ _ _ _ doc Hs) as Hs1.
    set (s1 := set_buffer (wb_add doc (sh_write_buffer s)).1 s) in *.
    assert (stored s1 cs = stored s cs ++ [doc]) as Hst by (unfold stored; cbn; by rewrite app_assoc).
    assert (forall m, (if (wb_add doc (sh_write_buffer s)).2 then flush else mret tt) (s1, d) = m ->
      apply_replicated (WalIndex doc) (s, d) = m) as Hrun.
    { intros m Hm. unfold apply_replicated.
      erewrite obj_bind_ret by (apply zoom_ret; reflexivity). exact Hm. }
    assert (logs [] s s1) as Hlogs by (rewrite <- (set_list_id s1); apply logs_nil).
    destruct ((wb_add doc (sh_write_buffer s)).2).
    + destruct (flush_grows s1 d recs cs Hs1) as (s' & d' & recs' & cs' & Hf & [Hok Hlogs' Hrecs Hdocs]).
      { by rewrite Hst. } { exact Hn. }
      exists s', d', recs', cs'. split; [by apply Hrun|]. split; [done| |done|].
      * by eapply logs_trans_nil.
      * rewrite app_nil_r, Hst in Hdocs. done.
    + exists s1, d, recs, cs. split; [by apply Hrun|]. split; [done|done|set_solver|by rewrite Hst].
  - pose proof (shard_ok_mark _ _ _ _ id Hs) as Hs1. set (s1 := set_buffer _ s) in *.
    destruct (mark_list_spec s1 d recs cs id Hs1) as (l' & d' & cs' & found & Hm & Hok & _ & _ & Hcase).
    exists (set_list l' s1), d', recs, cs'. split.
    + unfold apply_replicated. erewrite obj_bind_ret by (apply zoom_ret; reflexivity).
      erewrite obj_bind_ret by exact Hm. reflexivity.
    + apply grows_nil; [done|apply logs_nil|done|]. unfold stored. cbn.
      destruct found; [|by destruct Hcase as [_ ->]]. by rewrite (marked_live_all _ _ _ (proj2 Hcase)).
Qed.
End Effects.
