(* ===== verification/Typed.v ===== *)
(** The widths of the messages of a shard server ([crates/shard/src/grpc_server.rs]
    over [crates/shard/src/shard.rs], proto/shard.proto): a shard whose ids, sequence
    numbers and shard id fit their integer types keeps them so under every remote
    procedure, and what it answers fits the types of the reply. *)
From S2P Require Import Prelude Bytes Order Float Types Config Text Decimal Analysis Posting.
From S2P Require Import Disk Inverted Column DocStore Segment Scorer Collector Wand Executor.
From S2P Require Import Multi Object Wal WriteBuffer SegmentList Proto Replication Shard ShardSpecs.
From S2P Require Import Async ShardGrpc Suggest Ranker Cache Availability Client Router RouterSearch.
From S2P Require Import Meli Server HttpApp Startup Process ReadBack Effects.

Local Open Scope Z_scope.

(** ** Types of the data *)
Definition typed_document (doc : Document) : Prop := in_width 64 (doc_id doc).
Definition typed_entry (e : WalEntry) : Prop :=
  match e with WalIndex doc => typed_document doc | WalDelete id => in_width 64 id end.
Definition typed_record (r : WalRecord) : Prop := in_width 64 (wr_seq r) /\ typed_entry (wr_entry r).

(** ** Types of the messages *)
Definition typed_proto (p : DocumentProto) : Prop := in_width 64 (dp_id p).
Definition typed_operation (op : ReplicateOperation) : Prop :=
  match op with
  | OpIndexDoc p => typed_proto p
  | OpDeleteDocId id => in_width 64 id
  | OpFlush _ => True
  end.
Definition typed_replicate (r : ReplicateRequest) : Prop :=
  in_width 64 (rp_wal_seq r) /\
  match rp_operation r with Some op => typed_operation op | None => True end.

Definition typed_request (q : RpcRequest) : Prop :=
  match q with
  | QSearch r => in_width 64 (pq_offset r) /\ in_width 64 (pq_limit r)
  | QGetDocs ids => Forall (in_width 64) ids
  | QIndex doc => match doc with Some p => typed_proto p | None => True end
  | QBulkIndex docs => Forall typed_proto docs
  | QDelete id => in_width 64 id
  | QReplicate r => typed_replicate r
  | QReplicateCatchUp seq => in_width 64 seq
  | QSuggest r => in_width 32 (sgr_limit r)
  | QStats | QHealth | QFlush | QReindex | QFullSync => True
  end.

Definition typed_search (r : ProtoSearchResponse) : Prop :=
  Forall (fun h => in_width 64 (psd_doc_id h)) (pr_hits r) /\ in_width 64 (pr_total_hits r) /\
  map_Forall (fun _ buckets => Forall (fun b => in_width 64 (pb_count b)) buckets) (pr_aggregations r).

Definition typed_reply (p : RpcReply) : Prop :=
  match p with
  | PSearch r => typed_search r
  | PDocs docs => Forall typed_proto docs
  | PCount n => in_width 32 n
  | PStats st => in_width 64 (sr_doc_count st) /\ in_width 32 (sr_segment_count st) /\
      in_width 64 (sr_index_size_bytes st) /\ in_width 32 (sr_shard_id st)
  | PReindex r => in_width 32 (rir_shard_id r) /\ in_width 64 (rir_docs_reindexed r) /\
      in_width 64 (rir_elapsed_ms r)
  | PReplicated entries => Forall typed_replicate entries
  | PSuccess _ | PHealth _ _ | PSuggestions _ => True
  end.

Lemma typed_doc_to_proto doc : typed_document doc -> typed_proto (doc_to_proto doc).
Proof. done. Qed.
Lemma typed_proto_to_doc p : typed_proto p -> typed_document (proto_to_doc p).
Proof. done. Qed.

(** ** The shard *)
Section Shards.
Context `{ILL : IndexLaws} `{SDL : SerdeLaws WalRecord} `{TDL : TempDirLaws} `{ML : MathLib}
  `{UOL : UnspecifiedOrderLaws}.

Record typed_shard (s : ShardEngine) (d : Disk) (recs : list WalRecord) (cs : list Contents) : Prop := {
  ty_ok : shard_ok s d recs cs [];
  ty_docs : Forall typed_document (stored s cs);
  ty_records : Forall typed_record recs;
  ty_seq : in_width 64 (wal_next_seq (sh_wal s));
  ty_id : in_width 32 (sc_shard_id (sh_config s));
}.

Lemma numbered_typed entries : forall seq,
  in_width 64 seq -> Forall typed_entry entries -> Forall typed_record (numbered seq entries).
Proof.
  induction entries as [|e entries IH]; intros seq Hseq He; [constructor|].
  apply Forall_cons in He as [He Hes]. constructor; [done|]. apply IH; [|done].
  apply wrap_in_width. lia.
Qed.

Lemma seq_after_typed entries : forall seq, in_width 64 seq -> in_width 64 (seq_after seq entries).
Proof.
  induction entries as [|e entries IH]; intros seq Hseq; [done|]. apply (IH (wrap 64 (seq + 1))).
  apply wrap_in_width. lia.
Qed.

Lemma Forall_subseteq {A} (P : A -> Prop) (l k : list A) : l ⊆ k -> Forall P k -> Forall P l.
Proof. rewrite !Forall_forall. intros Hlk Hk x Hx. by apply Hk, Hlk. Qed.

(** A method that is given typed data keeps the shard typed. *)
Lemma grows_typed entries docs s d recs cs s' d' recs' cs' :
  typed_shard s d recs cs -> Forall typed_entry entries -> Forall typed_document docs ->
  grows entries docs s recs cs s' d' recs' cs' -> typed_shard s' d' recs' cs'.
Proof.
  intros [_ Hd Hr Hseq Hid] He Hdocs [Hok [_ Hcf Hwal _] Hrecs Hst]. split.
  - done.
  - rewrite Hst. by apply Forall_app.
  - eapply Forall_subseteq; [exact Hrecs|]. apply Forall_app. split; [done|by apply numbered_typed].
  - rewrite Hwal. by apply seq_after_typed.
  - by rewrite Hcf.
Qed.
End Shards.

(** ** The handlers *)
Section Handlers.
Context `{ILL : IndexLaws} `{SDL : SerdeLaws WalRecord} `{TDL : TempDirLaws} `{ML : MathLib}
  `{UOL : UnspecifiedOrderLaws}.
Abbreviation Engine := (ShardEngine * Disk)%type.

(** What is written fits the formats of the log and the segments, and the names
    of segments do not run out. *)
Definition writes_fit (s : ShardEngine) (cs : list Contents) (docs : list Document) : Prop :=
  batch_fits (wal_next_seq (sh_wal s)) (WalIndex <$> docs) /\
  all_fit (sh_schema s) (stored s cs ++ docs) /\ sl_next_segment_seq (sh_segments s) + 2 < 2 ^ 64.
Definition flush_fits (s : ShardEngine) (cs : list Contents) : Prop :=
  all_fit (sh_schema s) (stored s cs) /\ sl_next_segment_seq (sh_segments s) + 3 < 2 ^ 64.

Definition request_fits (s : ShardEngine) (cs : list Contents) (q : RpcRequest) : Prop :=
  match q with
  | QSearch _ => wb_all_docs (sh_write_buffer s) <> [] ->
      segment_fits (sh_schema s) (wb_all_docs (sh_write_buffer s))
  | QIndex (Some p) => writes_fit s cs [proto_to_doc p]
  | QBulkIndex docs => writes_fit s cs (proto_to_doc <$> docs)
  | QDelete id => record_fits (mkWalRecord (wal_next_seq (sh_wal s)) (WalDelete id))
  | QFlush | QReindex => flush_fits s cs
  | QReplicate r =>
      match rp_operation r with
      | Some (OpIndexDoc p) => writes_fit s cs [proto_to_doc p]
      | Some (OpFlush _) => flush_fits s cs
      | _ => True
      end
  | _ => True
  end.

(** The requests a search shard refuses. *)
Definition refuses (s : ShardEngine) (q : RpcRequest) : Prop :=
  match q with
  | QIndex doc => doc = None
  | QReplicate _ => is_replica s = false
  | QSuggest _ => True
  | _ => False
  end.

(** The handler keeps the shard typed and gives a typed reply, or refuses. *)
Definition keeps_types {A} (m : Rpc Engine A) (reply : A -> RpcReply) (s : ShardEngine) (d : Disk)
    (refused : Prop) : Prop :=
  exists s' d' recs' cs' r, m (s, d) = ((s', d'), r) /\ typed_shard s' d' recs' cs' /\
    match r with Ret a => typed_reply (reply a) | Fail _ => refused | Panic => False end.

Lemma engine_ret {A} (m : Obj ShardEngine A) (w w' : Engine) a : m w = (w', Ret a) -> engine m w = (w', Ret a).
Proof. unfold engine, async_map_err. by intros ->. Qed.

Lemma keeps_same {A} (m : Rpc Engine A) reply s d recs cs refused a :
  typed_shard s d recs cs -> m (s, d) = ((s, d), Ret a) -> typed_reply (reply a) ->
  keeps_types m reply s d refused.
Proof. intros Ht Hm Ha. by exists s, d, recs, cs, (Ret a). Qed.

Lemma keeps_grows {A B} (m : Obj ShardEngine A) (f : A -> Rpc Engine B) reply s d recs cs refused
    entries docs s' d' recs' cs' a b :
  typed_shard s d recs cs -> Forall typed_entry entries -> Forall typed_document docs ->
  m (s, d) = ((s', d'), Ret a) -> grows entries docs s recs cs s' d' recs' cs' ->
  f a (s', d') = ((s', d'), Ret b) -> typed_reply (reply b) ->
  keeps_types (x ← engine m; f x) reply s d refused.
Proof.
  intros Ht He Hd Hm Hg Hf Hb. exists s', d', recs', cs', (Ret b). split_and!; [|by eapply grows_typed|done].
  rewrite (async_bind_ret _ _ _ (s', d') a) by by apply engine_ret. exact Hf.
Qed.

Lemma searchable_typed s d recs cs : typed_shard s d recs cs -> Forall typed_document (searchable s cs).
Proof.
  intros Ht. eapply Forall_subseteq; [|exact (ty_docs _ _ _ _ Ht)]. unfold searchable, stored.
  intros x. rewrite !elem_of_app. intros [?|Hx]; [by left|right]. by apply list_elem_of_filter in Hx as [_ ?].
Qed.

Lemma typed_search_reply s d recs cs elapsed r :
  typed_shard s d recs cs -> request_fits s cs (QSearch r) ->
  keeps_types (grpc_search elapsed r) PSearch s d False.
Proof.
  intros Ht Hfit. pose proof (ty_ok _ _ _ _ Ht) as Hs. cbn in Hfit.
  destruct (shard_search_spec s d recs cs (proto_to_search_request r) elapsed Hs Hfit)
    as (b' & d' & segments & resp & Hr & Hok & Hsame & HF & Hm).
  destruct (multi_search_spec (sh_schema s) (proto_to_search_request r) segments _ elapsed HF)
    as (resp' & rs & Hm' & _ & _ & Hhits & _ & Htotal & Hagg & _).
  rewrite Hm in Hm'. injection Hm' as <-.
  eapply (keeps_grows _ _ PSearch s d recs cs _ [] [] (set_buffer b' s) d' recs cs);
    [done|done|done|exact Hr| |reflexivity|].
  - apply grows_nil; [done| |done|by destruct Hsame as (? & ? & ? & ? & ->)].
    rewrite <- (set_list_id (set_buffer b' s)). apply logs_nil.
  - split_and!; cbn.
    + apply Forall_fmap, Forall_forall. intros h Hh. cbn.
      destruct (Hhits h Hh) as (ord & p & i & doc & Hp & Hpass & -> & _).
      destruct (passing_searchable s cs (proto_to_search_request r) p i doc) as [Hdoc _];
        [by eapply list_elem_of_lookup_2|done|].
      exact (proj1 (Forall_forall _ _) (searchable_typed _ _ _ _ Ht) doc Hdoc).
    + rewrite Htotal. apply wrap_in_width. lia.
    + intros f bs Hbs. apply lookup_fmap_Some in Hbs as (bs0 & <- & Hbs0). apply Forall_fmap, Forall_forall.
      intros [v c] Hin. cbn. rewrite (Hagg f bs0 v c Hbs0 Hin). apply wrap_in_width. lia.
Qed.

Lemma typed_docs_reply (docs : list Document) :
  Forall typed_document docs -> typed_reply (PDocs (doc_to_proto <$> docs)).
Proof. intros Hd. by apply Forall_fmap. Qed.

Lemma typed_get_docs s d recs cs ids :
  typed_shard s d recs cs -> keeps_types (grpc_get_docs ids) PDocs s d False.
Proof.
  intros Ht. pose proof (ty_ok _ _ _ _ Ht) as Hs.
  eapply keeps_same; [exact Ht| |].
  - unfold grpc_get_docs. rewrite (async_bind_ret _ _ _ (s, d) (omap (document_of s) ids)); [reflexivity|].
    apply engine_ret. unfold mbind, Obj_bind, Async_bind, get_self, obj_lift. cbn [fst snd].
    by rewrite (shard_get_docs_spec _ _ _ _ _ ids Hs).
  - apply typed_docs_reply, Forall_forall. intros doc (id & _ & Hdoc)%list_elem_of_omap.
    destruct (document_of_spec s d recs cs [] id Hs) as [H _]. rewrite Hdoc in H.
    exact (proj1 (Forall_forall _ _) (ty_docs _ _ _ _ Ht) doc (proj2 H)).
Qed.

Lemma typed_full_sync s d recs cs :
  typed_shard s d recs cs -> keeps_types grpc_full_sync PDocs s d False.
Proof.
  intros Ht. eapply keeps_same; [exact Ht| |].
  - unfold grpc_full_sync. rewrite (async_bind_ret _ _ _ (s, d) (searchable s cs)); [reflexivity|].
    apply engine_ret. unfold mbind, Obj_bind, Async_bind, get_self, obj_lift. cbn [fst snd].
    by rewrite (get_all_live_docs_spec _ _ _ _ _ (ty_ok _ _ _ _ Ht)).
  - apply typed_docs_reply. by eapply searchable_typed.
Qed.

Lemma typed_catch_up s d recs cs seq :
  typed_shard s d recs cs -> keeps_types (grpc_replicate_catch_up seq) PReplicated s d False.
Proof.
  intros Ht. eapply keeps_same; [exact Ht| |].
  - unfold grpc_replicate_catch_up.
    rewrite (async_bind_ret _ _ _ (s, d) (filter (fun r => seq <= wr_seq r) recs)); [reflexivity|].
    apply engine_ret. unfold wal_records_since, on_wal, zoom, read_since. cbn [fst snd].
    erewrite obj_bind_ret by (eapply read_records_spec, so_wal; exact (ty_ok _ _ _ _ Ht)).
    cbn. by destruct s.
  - cbn. apply Forall_fmap, Forall_forall. intros r [_ Hin]%list_elem_of_filter.
    destruct (proj1 (Forall_forall _ _) (ty_records _ _ _ _ Ht) r Hin) as [Hseq He].
    split; [done|]. cbn. by destruct (wr_entry r).
Qed.

Lemma stats_typed s :
  in_width 64 (ss_doc_count (shard_stats s)) /\ in_width 32 (ss_segment_count (shard_stats s)).
Proof. split; apply wrap_in_width; lia. Qed.

Lemma typed_stats s d recs cs : typed_shard s d recs cs -> keeps_types grpc_stats PStats s d False.
Proof.
  intros Ht. eapply keeps_same; [exact Ht|reflexivity|]. destruct (stats_typed s).
  split_and!; [done|done|vm_compute; split; congruence|exact (ty_id _ _ _ _ Ht)].
Qed.

Lemma typed_index s d recs cs doc :
  typed_shard s d recs cs -> typed_request (QIndex doc) -> request_fits s cs (QIndex doc) ->
  keeps_types (grpc_index doc) PSuccess s d (doc = None).
Proof.
  intros Ht Hq Hfit. destruct doc as [p|].
  - destruct Hfit as (Hrec & Hall & Hn).
    destruct (index_grows s d recs cs (proto_to_doc p) (ty_ok _ _ _ _ Ht)) as (s' & d' & recs' & cs' & Hr & Hg);
      [by apply Forall_inv in Hrec|done|done|].
    eapply (keeps_grows _ _ PSuccess s d recs cs _ [WalIndex (proto_to_doc p)] [proto_to_doc p] s' d' recs' cs' tt true);
      [done|by constructor|by constructor|exact Hr|exact Hg|reflexivity|done].
  - exists s, d, recs, cs, (Fail (mkStatus CInvalidArgument "missing document")). by split_and!.
Qed.

Lemma typed_bulk s d recs cs docs :
  typed_shard s d recs cs -> typed_request (QBulkIndex docs) -> request_fits s cs (QBulkIndex docs) ->
  keeps_types (grpc_bulk_index docs) PCount s d False.
Proof.
  intros Ht Hq (Hrec & Hall & Hn).
  destruct (batch_grows s d recs cs (proto_to_doc <$> docs) (ty_ok _ _ _ _ Ht) Hrec Hall Hn)
    as (s' & d' & recs' & cs' & Hr & Hg).
  assert (Forall typed_document (proto_to_doc <$> docs)) as Hdocs by by apply Forall_fmap.
  eapply (keeps_grows _ _ PCount s d recs cs _ _ _ s' d' recs' cs');
    [done| |exact Hdocs|exact Hr|exact Hg|reflexivity|apply wrap_in_width; lia].
  by apply Forall_fmap.
Qed.

Lemma typed_delete s d recs cs id :
  typed_shard s d recs cs -> typed_request (QDelete id) -> request_fits s cs (QDelete id) ->
  keeps_types (grpc_delete id) PSuccess s d False.
Proof.
  intros Ht Hq Hrec. destruct (delete_grows s d recs cs id (ty_ok _ _ _ _ Ht) Hrec)
    as (s' & d' & recs' & cs' & Hr & Hg).
  eapply (keeps_grows _ _ PSuccess s d recs cs _ [WalDelete id] [] s' d' recs' cs' tt true);
    [done|by constructor|done|exact Hr|exact Hg|reflexivity|done].
Qed.

Lemma typed_flush s d recs cs :
  typed_shard s d recs cs -> flush_fits s cs -> keeps_types grpc_flush PCount s d False.
Proof.
  intros Ht [Hall Hn]. destruct (flush_grows s d recs cs (ty_ok _ _ _ _ Ht) Hall) as (s' & d' & recs' & cs' & Hr & Hg);
    [lia|].
  unfold grpc_flush. unfold keeps_types. erewrite async_bind_ret by reflexivity.
  eapply (keeps_grows _ _ PCount s d recs cs _ [] [] s' d' recs' cs' tt);
    [done|done|done|exact Hr|exact Hg|reflexivity|].
  destruct (stats_typed s) as [_ H1], (stats_typed s') as [_ H2]. cbn [typed_reply]. cbn in H1, H2.
  unfold in_width, sat_sub in *. cbn. lia.
Qed.

Lemma typed_reindex s d recs cs ms :
  typed_shard s d recs cs -> flush_fits s cs -> in_width 64 ms ->
  keeps_types (grpc_reindex ms) PReindex s d False.
Proof.
  intros Ht [Hall Hn] Hms. destruct (reindex_grows s d recs cs ms (ty_ok _ _ _ _ Ht) Hall Hn)
    as (s' & d' & recs' & cs' & st & Hr & Hg & Hcount & Hid & Hel).
  eapply (keeps_grows _ _ PReindex s d recs cs _ [] [] s' d' recs' cs' st);
    [done|done|done|exact Hr|exact Hg|reflexivity|].
  cbn. rewrite Hid, Hcount, Hel. split_and!; [exact (ty_id _ _ _ _ Ht)| |done].
  destruct (Hall (stored s cs) (reflexivity _)) as (_ & encs & He & Hf & _).
  rewrite (Forall2_length _ _ _ He). unfold in_width in *. lia.
Qed.

Lemma typed_replication s d recs cs r :
  typed_shard s d recs cs -> typed_request (QReplicate r) -> request_fits s cs (QReplicate r) ->
  keeps_types (grpc_replicate r) PSuccess s d (is_replica s = false).
Proof.
  intros Ht [_ Hop] Hfit. cbn in Hfit. unfold grpc_replicate, keeps_types.
  erewrite async_bind_ret by reflexivity. cbn [fst].
  destruct (is_replica s) eqn:Erep; cbn [negb].
  2: { exists s, d, recs, cs. eexists. split; [reflexivity|]. by split. }
  destruct (rp_operation r) as [[p|id|b]|]; cbn in Hop.
  - destruct Hfit as (_ & Hall & Hn).
    destruct (replicated_grows s d recs cs (WalIndex (proto_to_doc p)) (ty_ok _ _ _ _ Ht))
      as (s' & d' & recs' & cs' & Hr & Hg); [by intros doc [= <-]|].
    eapply (keeps_grows _ _ PSuccess s d recs cs _ [] [proto_to_doc p] s' d' recs' cs' tt true);
      [done|done|by constructor|exact Hr|exact Hg|reflexivity|done].
  - destruct (replicated_grows s d recs cs (WalDelete id) (ty_ok _ _ _ _ Ht))
      as (s' & d' & recs' & cs' & Hr & Hg); [done|].
    eapply (keeps_grows _ _ PSuccess s d recs cs _ [] [] s' d' recs' cs' tt true);
      [done|done|done|exact Hr|exact Hg|reflexivity|done].
  - destruct Hfit as [Hall Hn].
    destruct (flush_grows s d recs cs (ty_ok _ _ _ _ Ht) Hall) as (s' & d' & recs' & cs' & Hr & Hg); [lia|].
    eapply (keeps_grows _ _ PSuccess s d recs cs _ [] [] s' d' recs' cs' tt true);
      [done|done|done|exact Hr|exact Hg|reflexivity|done].
  - eapply (keeps_same _ PSuccess); [exact Ht|reflexivity|done].
Qed.
End Handlers.


Section Witness.
Import TestLibs StableOrder CountableSerde WriteBuffer.FreshTemp Patient.
#[local] Instance linear_ln : MathLib := {| f32_ln := fun x => x |}.

Lemma small_typed : typed_shard small_shard sample_disk sample_records [].
Proof.
  split; [exact small_shard_ok| | | |].
  - change (stored small_shard []) with [doc_a]. constructor; [vm_decide|constructor].
  - repeat constructor; vm_decide.
  - vm_decide.
  - vm_decide.
Qed.

End Witness.
