(* ===== verification/Follow.v ===== *)
(** A replica follows its primary: the writes of a primary
    ([crates/shard/src/shard.rs]), the queue to a replica
    ([crates/shard/src/replication.rs]) and the handler that applies its entries
    ([crates/shard/src/grpc_server.rs]), composed.  At any moment the replica
    stores what the primary stores but for the entries still under way. *)
From S2P Require Import Prelude Bytes Order Float Types Config Text Decimal Analysis Posting.
From S2P Require Import Disk Inverted Column DocStore Segment Scorer Collector Wand Executor.
From S2P Require Import Multi Object Wal WriteBuffer SegmentList Proto Replication Shard ShardSpecs.
From S2P Require Import Async ShardGrpc ReadBack Effects.

Local Open Scope Z_scope.

(** ** The queues *)

(** The entries the primary ever handed to replica number [k]. *)
Definition queue_of `{IL : IndexLibs} `{TD : TempDirLib} (k : nat) (s : ShardEngine)
  : option (list ReplicaEntry) :=
  rm ← sh_replication s; rm_senders rm !! k.

Definition replica_entry (r : WalRecord) : ReplicaEntry := mkReplicaEntry (wr_seq r) (wr_entry r).

Lemma rm_enqueue_lookup seq e rm k :
  rm_senders (rm_enqueue seq e rm) !! k = (fun q => q ++ [mkReplicaEntry seq e]) <$> rm_senders rm !! k.
Proof.
  unfold rm_enqueue. case_bool_decide as Hs; [by rewrite Hs|]. apply list_lookup_fmap.
Qed.

Lemma enqueued_lookup records : forall rm k,
  rm_senders (enqueued records rm) !! k
    = (fun q => q ++ (replica_entry <$> records)) <$> rm_senders rm !! k.
Proof.
  induction records as [|r records IH]; intros rm k.
  { cbn. destruct (rm_senders rm !! k); cbn; [by rewrite app_nil_r|done]. }
  change (enqueued (r :: records) rm) with (enqueued records (rm_enqueue (wr_seq r) (wr_entry r) rm)).
  rewrite IH, rm_enqueue_lookup. destruct (rm_senders rm !! k); cbn; [|done].
  by rewrite <- app_assoc.
Qed.

Section Follow.
Context `{ILL : IndexLaws} `{SDL : SerdeLaws WalRecord} `{TDL : TempDirLaws} `{ML : MathLib}
  `{UOL : UnspecifiedOrderLaws}.

Lemma logs_queue entries s s' k q : logs entries s s' -> queue_of k s = Some q ->
  queue_of k s' = Some (q ++ (replica_entry <$> numbered (wal_next_seq (sh_wal s)) entries)).
Proof.
  intros [_ _ _ Hrep] Hq. unfold queue_of in *. rewrite Hrep.
  destruct (sh_replication s) as [rm|]; [|done]. cbn in *. by rewrite enqueued_lookup, Hq.
Qed.

Lemma index_docs_app a b : index_docs (a ++ b) = index_docs a ++ index_docs b.
Proof. apply omap_app. Qed.
Lemma index_docs_batch docs : index_docs (WalIndex <$> docs) = docs.
Proof. induction docs as [|doc docs IH]; [done|]. cbn. f_equal. exact IH. Qed.
Lemma entries_numbered seq entries : re_entry <$> (replica_entry <$> numbered seq entries) = entries.
Proof. rewrite <- list_fmap_compose. apply numbered_entries. Qed.

(** ** Writes *)
Inductive Write :=
  | WriteIndex (doc : Document)
  | WriteBatch (docs : list Document)
  | WriteDelete (id : Z)
  | WriteFlush
  | WriteReindex (elapsed_ms : Z).

Definition perform (x : Write) : Obj ShardEngine unit :=
  match x with
  | WriteIndex doc => shard_index doc
  | WriteBatch docs => index_batch docs
  | WriteDelete id => shard_delete id
  | WriteFlush => flush
  | WriteReindex ms => _ ← reindex_self ms; mret tt
  end.

Definition logged (x : Write) : list WalEntry :=
  match x with
  | WriteIndex doc => [WalIndex doc]
  | WriteBatch docs => WalIndex <$> docs
  | WriteDelete id => [WalDelete id]
  | WriteFlush | WriteReindex _ => []
  end.

(** The write fits the formats on disk, and the names of segments do not run
    out. *)
Definition write_fits (s : ShardEngine) (cs : list Contents) (x : Write) : Prop :=
  batch_fits (wal_next_seq (sh_wal s)) (logged x) /\
  all_fit (sh_schema s) (stored s cs ++ index_docs (logged x)) /\
  sl_next_segment_seq (sh_segments s) + 3 < 2 ^ 64.

Lemma perform_grows s d recs cs x :
  shard_ok s d recs cs [] -> write_fits s cs x ->
  exists s' d' recs' cs', perform x (s, d) = ((s', d'), Ret tt) /\
    grows (logged x) (index_docs (logged x)) s recs cs s' d' recs' cs'.
Proof.
  intros Hs (Hrec & Hall & Hn). destruct x as [doc|docs|id| |ms]; cbn [perform logged] in *.
  - apply index_grows; [done|by apply Forall_inv in Hrec|done|lia].
  - rewrite index_docs_batch in *. apply batch_grows; [done..|lia].
  - apply delete_grows; [done|by apply Forall_inv in Hrec].
  - rewrite app_nil_r in Hall. apply flush_grows; [done..|lia].
  - rewrite app_nil_r in Hall. destruct (reindex_grows s d recs cs ms Hs Hall Hn)
      as (s' & d' & recs' & cs' & st & Hr & Hg & _).
    exists s', d', recs', cs'. split; [|done].
    unfold mbind, Obj_bind, Async_bind. by rewrite Hr.
Qed.

(** ** Following *)

(** Of the entries handed to replica [k], the first [n] have arrived: with those
    under way the replica stores what the primary stores, as far as documents
    survive the messages. *)
Definition in_step (k n : nat) (p : ShardEngine) (csp : list Contents) (r : ShardEngine)
    (csr : list Contents) : Prop :=
  exists q, queue_of k p = Some q /\ (n <= length q)%nat /\
    strip_attributes <$> stored p csp
      ≡ₚ stored r csr ++ (strip_attributes <$> index_docs (re_entry <$> drop n q)).

Lemma primary_writes k n p csp r csr recs x p' d' recs' cs' :
  in_step k n p csp r csr ->
  grows (logged x) (index_docs (logged x)) p recs csp p' d' recs' cs' ->
  in_step k n p' cs' r csr.
Proof.
  intros (q & Hq & Hn & Hst) [_ Hlogs _ Hdocs].
  eexists. split; [exact (logs_queue _ _ _ _ _ Hlogs Hq)|]. split; [rewrite length_app; lia|].
  rewrite drop_app_le, fmap_app, entries_numbered, index_docs_app, Hdocs, !fmap_app, Hst by done.
  by rewrite <- app_assoc.
Qed.

Lemma replica_tidies k n p csp r recs csr r' d' recs' cs' :
  in_step k n p csp r csr -> grows [] [] r recs csr r' d' recs' cs' -> in_step k n p csp r' cs'.
Proof.
  intros (q & Hq & Hn & Hst) [_ _ _ Hdocs]. exists q. split_and!; [done..|].
  by rewrite Hdocs, app_nil_r.
Qed.

(** What the handler of the replica is given. *)
Definition arrives (e : WalEntry) : WalEntry :=
  match e with WalIndex doc => WalIndex (strip_attributes doc) | WalDelete id => WalDelete id end.

Definition arrival_fits (s : ShardEngine) (cs : list Contents) (e : WalEntry) : Prop :=
  forall doc, arrives e = WalIndex doc -> all_fit (sh_schema s) (stored s cs ++ [doc]) /\
    sl_next_segment_seq (sh_segments s) + 2 < 2 ^ 64.

Lemma replicate_grows s d recs cs e :
  shard_ok s d recs cs [] -> is_replica s = true -> arrival_fits s cs (re_entry e) ->
  exists s' d' recs' cs', grpc_replicate (entry_to_proto e) (s, d) = ((s', d'), Ret true) /\
    grows [] (index_docs [arrives (re_entry e)]) s recs cs s' d' recs' cs'.
Proof.
  intros Hs Hrep Hfit. destruct (replicated_grows s d recs cs (arrives (re_entry e)) Hs Hfit)
    as (s' & d' & recs' & cs' & Hr & Hg).
  exists s', d', recs', cs'. split; [|done]. unfold grpc_replicate.
  erewrite async_bind_ret by reflexivity. cbn [fst]. rewrite Hrep. cbn [negb].
  destruct e as [seq [doc|id]]; cbn [entry_to_proto entry_to_operation rp_operation re_entry arrives] in *;
    rewrite ?proto_to_doc_to_proto;
    erewrite async_bind_ret by (unfold engine, async_map_err; rewrite Hr; reflexivity); reflexivity.
Qed.

Lemma entry_arrives k n p csp r recs csr e r' d' recs' cs' :
  in_step k n p csp r csr -> (q ← queue_of k p; q !! n) = Some e ->
  grows [] (index_docs [arrives (re_entry e)]) r recs csr r' d' recs' cs' ->
  in_step k (S n) p csp r' cs'.
Proof.
  intros (q & Hq & Hn & Hst) He [_ _ _ Hdocs]. rewrite Hq in He. cbn in He.
  exists q. split_and!; [done|by eapply lookup_lt_Some|].
  rewrite Hst, Hdocs, (drop_S q e n He). destruct e as [seq [doc|id]]; cbn.
  - by rewrite <- app_assoc.
  - by rewrite app_nil_r.
Qed.
End Follow.


Section Witness.
Import TestLibs StableOrder CountableSerde WriteBuffer.FreshTemp.
#[local] Instance same_ln : MathLib := {| f32_ln := fun x => x |}.

(** A primary with one replica; the replica has the primary's first document. *)
Definition primary : ShardEngine := set_replication (Some (rm_start ["replica:50051"])) small_shard.
Definition replica_config : ShardConfig :=
  let c := ShardConfig_default in
  mkShardConfig (sc_grpc_port c) (sc_shard_id c) (sc_data_dir c) (sc_num_shards c)
    (sc_write_buffer_size c) (sc_merge_threads c) Replica [] None (Some "primary:50051") None.
Definition replica : ShardEngine :=
  mkShardEngine replica_config (sh_schema small_shard) (sh_wal small_shard)
    (sh_write_buffer small_shard) (sh_segments small_shard) (sh_searcher small_shard)
    (sh_merge_policy small_shard) None.

Lemma replica_ok : shard_ok replica sample_disk sample_records [] [].
Proof. destruct small_shard_ok. by split. Qed.

Lemma sample_in_step : in_step 0 0 primary [] replica [].
Proof. exists []. split_and!; [reflexivity|cbn; lia|vm_compute; reflexivity]. Qed.

End Witness.
