(* ===== verification/Races.v ===== *)
(** What interleaving the calls of the shard engine can break
    ([crates/shard/src/shard.rs]): a flush that empties the log under an
    acknowledged write, a reindex that replaces a segment it did not read, and
    a replication queue in another order than the log. *)
From Stdlib Require Import Strings.Byte.
From S2P Require Import Prelude Bytes Order Float Types Config Text Decimal Analysis Posting.
From S2P Require Import Disk Inverted Column DocStore Segment Scorer Collector Understanding.
From S2P Require Import Wand Executor Multi Object Wal WriteBuffer SegmentList Proto.
From S2P Require Import Replication Shard ShardSpecs Sections Interleaving.

Local Open Scope Z_scope.

Section Races.
Context `{ILL : IndexLaws} `{SDL : SerdeLaws WalRecord} `{TDL : TempDirLaws} `{ML : MathLib}
  `{UOL : UnspecifiedOrderLaws}.

Lemma set_wal_id s : set_wal (sh_wal s) s = s.
Proof. by destruct s. Qed.

(** ** Running given sections *)
Lemma run_section_at i s d threads p s' d' r :
  threads !! i = Some (inl p) -> exec p (s, d) = ((s', d'), Ret r) ->
  run_section i (mkWorld s d threads) = mkWorld s' d' (<[i := resume (Ret r)]> threads).
Proof. intros Hi He. unfold run_section. cbn [wo_self wo_disk wo_threads]. by rewrite Hi, He. Qed.

(** Naming, writing and registering a segment, nothing in between. *)
Lemma flush_sections s d recs cs docs k :
  shard_ok s d recs cs [] -> segment_fits (sh_schema s) docs -> next_of s + 1 < 2 ^ 64 ->
  exists e d', 
    exec (FlushName docs k) (s, d)
      = ((set_list (bumped (sh_segments s)) s, d), Ret (inl (FlushWrite docs (se_segment_id e) k))) /\
    exec (FlushWrite docs (se_segment_id e) k) (set_list (bumped (sh_segments s)) s, d)
      = ((set_list (bumped (sh_segments s)) s, d'), Ret (inl (FlushAdd docs e k))) /\
    let s' := set_list (installed (sh_segments s) [] e docs) s in
    exec (FlushAdd docs e k) (set_list (bumped (sh_segments s)) s, d')
      = ((s', d'), Ret (inl (FlushTruncate k))) /\
    shard_ok s' d' recs (cs ++ [fresh_contents docs]) [].
Proof.
  intros Hs Hfit Hn.
  destruct (install_spec s d recs cs [] [] docs Hs Hfit Hn) as (d' & r & st & Hw & Hr & Hok).
  cbn zeta in *. set (e := {| se_segment_id := _ |}) in *. cbn [app] in Hok.
  rewrite filter_none in Hok by (intros; apply not_elem_of_nil).
  rewrite kept_nil in Hok by by eapply Forall2_length, (so_list _ _ _ _ _ Hs).
  exists e, d'. split_and!; [| | |exact Hok].
  - cbn [exec]. by erewrite obj_bind_ret by by eapply bumped_call.
  - cbn [exec]. unfold write_entry, mbind, Obj_bind, get_self, obj_io. cbn [fst snd].
    change (write_segment (sh_schema s) (se_segment_id e) docs (join (segments_dir s) (se_segment_id e)) d
      = (d', Ret (r, st))) in Hw.
    change (segments_dir (set_list (bumped (sh_segments s)) s)) with (segments_dir s).
    cbn [sh_schema set_list]. by rewrite Hw.
  - cbn [exec]. erewrite obj_bind_ret by (apply zoom_ret, (add_segment_spec (sh_schema s)); exact Hr).
    reflexivity.
Qed.

(** ** A flush and a write *)
Definition lost_write_calls (doc : Document) : list Pc := [Drain Return; IndexAppend doc].
(** The flush registers its segment; the write is logged, buffered and
    acknowledged; the flush empties the log. *)
Definition lost_write_schedule : list nat := [0; 0; 0; 0; 1; 1; 1; 0]%nat.

Lemma live_disk_sub (c : Contents) doc :
  (forall x, rb_contains (cn_mem c) x = true -> rb_contains (cn_disk c) x = true) ->
  doc ∈ live_disk c -> doc ∈ live_mem c.
Proof.
  intros Hsub. unfold live_disk, live_mem. rewrite !elem_of_live_docs. intros (i & Hpos & Hi & Hb).
  exists i. split_and!; [done|done|]. destruct (rb_contains (cn_mem c) i) eqn:E; [|done].
  by rewrite (Hsub _ E) in Hb.
Qed.

Lemma live_disk_all s d recs cs stale doc :
  shard_ok s d recs cs stale -> doc ∈ cs ≫= live_disk -> doc ∈ live_all cs.
Proof.
  intros Hs. unfold live_all. rewrite !list_elem_of_bind. intros (c & Hd & Hc). exists c. split; [|done].
  apply list_elem_of_lookup in Hc as [i Hi].
  destruct (Forall2_lookup_r _ _ _ _ _ (lo_entries _ _ _ _ _ (so_list _ _ _ _ _ Hs)) Hi) as (e & _ & He).
  by apply (live_disk_sub c doc (eo_mem _ _ _ _ _ He)).
Qed.

Lemma lost_write_run s d recs cs doc :
  shard_ok s d recs cs [] -> wb_docs (sh_write_buffer s) <> [] ->
  segment_fits (sh_schema s) (wb_docs (sh_write_buffer s)) -> next_of s + 1 < 2 ^ 64 ->
  record_fits (mkWalRecord (wal_next_seq (sh_wal s)) (WalIndex doc)) ->
  (wb_add doc (empty_buffer s)).2 = false ->
  exists s' d', run_schedule lost_write_schedule (mkWorld s d (inl <$> lost_write_calls doc))
      = mkWorld s' d' [inl (FindMerges Return); inr (Ret AUnit)] /\
    shard_ok s' d' [] (cs ++ [fresh_contents (wb_docs (sh_write_buffer s))]) [] /\
    sh_config s' = sh_config s /\ sh_schema s' = sh_schema s /\
    wb_docs (sh_write_buffer s') = [doc].
Proof.
  intros Hs Hne Hfit Hn Hrec Hfull. set (docs := wb_docs (sh_write_buffer s)) in *.
  destruct (drain_call s d recs cs [] Hs) as (d1 & Hdrain & Hs1).
  set (s1 := set_buffer (empty_buffer s) s) in *.
  destruct (flush_sections s1 d1 recs cs docs Return Hs1 Hfit Hn) as (e & d2 & E1 & E2 & E3 & Hs2).
  cbn zeta in *. set (s2 := set_list (installed _ _ _ _) s1) in *.
  destruct (append_call s2 d2 recs _ (WalIndex doc) Hs2 Hrec) as (d3 & Ha & Hs3).
  set (s3 := set_wal _ s2) in *.
  set (rep := rm_enqueue (wal_next_seq (sh_wal s2)) (WalIndex doc) <$> sh_replication s3).
  pose proof (shard_ok_add _ _ _ _ doc (shard_ok_replication _ _ _ _ _ rep Hs3)) as Hs4.
  set (s4 := set_buffer _ (set_replication rep s3)) in *.
  destruct (truncate_spec _ _ _ (so_wal _ _ _ _ _ Hs4)) as (d4 & Ht & Hwal & Ho).
  exists s4, d4. split_and!; [|by rewrite <- (set_wal_id s4); eapply shard_ok_wal|done|done|done].
  unfold run_schedule, lost_write_schedule. cbn [foldl fmap list_fmap lost_write_calls].
  erewrite (run_section_at 0 s d); [|reflexivity|].
  2: { cbn [exec]. erewrite obj_bind_ret by exact Hdrain. fold docs. cbn beta iota. by rewrite bool_decide_false. }
  cbn [list_insert resume]. erewrite (run_section_at 0); [|reflexivity|exact E1].
  erewrite (run_section_at 0); [|reflexivity|exact E2]. erewrite (run_section_at 0); [|reflexivity|exact E3].
  cbn [insert list_insert resume]. erewrite (run_section_at 1 s2 d2); [|reflexivity|].
  2: { cbn [exec]. by erewrite obj_bind_ret by exact Ha. }
  cbn [insert list_insert resume]. erewrite (run_section_at 1 s3 d3); [|reflexivity|].
  2: { cbn [exec]. by erewrite obj_bind_ret by reflexivity. }
  cbn [insert list_insert resume]. fold rep.
  assert (exec (IndexAdd doc) (set_replication rep s3, d3)
    = ((s4, d3), Ret (flush_if (wb_add doc (empty_buffer s)).2))) as E7
    by (cbn [exec]; by erewrite obj_bind_ret by (apply zoom_ret; reflexivity)).
  rewrite Hfull in E7. erewrite (run_section_at 1 (set_replication rep s3)); [|reflexivity|exact E7].
  cbn [flush_if insert list_insert resume].
  erewrite (run_section_at 0 s4 d3); [|reflexivity|].
  2: { cbn [exec]. by erewrite obj_bind_ret by (apply zoom_ret; exact Ht). }
  cbn [insert list_insert resume]. by rewrite set_wal_id.
Qed.

(** ** A flush and a reindex *)
Definition lost_flush_calls (ms : Z) : list Pc := [Drain Return; Drain (Reindex ms)].
(** The reindex finds the buffer drained and reads the segments; the flush
    registers its segment; the reindex replaces all segments by what it read. *)
Definition lost_flush_schedule : list nat := [0; 1; 1; 0; 0; 0; 1; 1; 1; 1; 1; 1]%nat.

Lemma collect_live_docs s d recs cs stale :
  shard_ok s d recs cs stale ->
  try_fold (collect_docs live_ids) [] (se_reader <$> sl_segments (sh_segments s)) = Ret (live_all cs).
Proof.
  intros Hs. erewrite (collect_sources _ _ _ live_ids); [reflexivity| |apply (so_list _ _ _ _ _ Hs)].
  intros. by apply collect_live with (schema := sh_schema s).
Qed.

(** The sections of a reindex after its collection, nothing in between. *)
Lemma reindex_sections s d recs cs docs ms :
  shard_ok s d recs cs [] -> segment_fits (sh_schema s) docs -> next_of s + 1 < 2 ^ 64 ->
  exists e d1 d2 d3, let old := ids_of s in
    let sb := set_list (bumped (sh_segments s)) s in
    let s' := set_list (installed (sh_segments s) old e docs) s in
    exec (ReindexName docs ms) (s, d) = ((sb, d), Ret (inl (ReindexWrite docs (se_segment_id e) ms))) /\
    exec (ReindexWrite docs (se_segment_id e) ms) (sb, d) = ((sb, d1), Ret (inl (ReindexIds docs e ms))) /\
    exec (ReindexIds docs e ms) (sb, d1) = ((sb, d1), Ret (inl (ReindexReplace docs old e ms))) /\
    exec (ReindexReplace docs old e ms) (sb, d1) = ((s', d1), Ret (inl (ReindexClean docs old ms))) /\
    exec (ReindexClean docs old ms) (s', d1) = ((s', d2), Ret (inl (ReindexTruncate docs ms))) /\
    exec (ReindexTruncate docs ms) (s', d2) = ((s', d3), Ret (inr (reindex_answer s' docs ms))) /\
    shard_ok s' d3 [] [fresh_contents docs] [].
Proof.
  intros Hs Hfit Hn. set (old := ids_of s).
  destruct (install_spec s d recs cs [] old docs Hs Hfit Hn) as (d1 & r & st & Hw & Hr & Hok).
  cbn zeta in *. set (e := {| se_segment_id := _ |}) in *. cbn [app] in Hok.
  assert (kept old (sl_segments (sh_segments s)) cs = []) as Hkept.
  { unfold kept. rewrite filter_none; [done|]. intros [e0 c0] Hin Hno. apply Hno. cbn.
    apply list_elem_of_fmap_2. by apply elem_of_zip_l in Hin. }
  rewrite Hkept in Hok. cbn [app] in Hok.
  set (s' := set_list (installed _ _ _ _) s) in *.
  assert (ids_of s' = [se_segment_id e]) as Hids.
  { unfold s', installed. etransitivity; [apply (ids_registered (set_list (bumped (sh_segments s)) s))|].
    rewrite filter_none; [done|]. intros x Hx Hno. by apply Hno. }
  destruct (remove_segment_dirs_spec old s' d1 recs _ _ Hok) as (d2 & Hrm & Hok2).
  { apply Forall_forall. intros id Hid. fold (ids_of s'). rewrite Hids, list_elem_of_singleton. intros ->.
    by apply (new_name_unused s d recs cs [] Hs). }
  rewrite all_ids_gone in Hok2 by (by intros x [? _]%list_elem_of_filter).
  destruct (truncate_spec _ _ _ (so_wal _ _ _ _ _ Hok2)) as (d3 & Ht & Hwal & Ho).
  exists e, d1, d2, d3. split_and!.
  - cbn [exec]. by erewrite obj_bind_ret by by eapply bumped_call.
  - cbn [exec]. unfold write_entry, mbind, Obj_bind, get_self, obj_io. cbn [fst snd].
    change (write_segment (sh_schema s) (se_segment_id e) docs (join (segments_dir s) (se_segment_id e)) d
      = (d1, Ret (r, st))) in Hw.
    change (segments_dir (set_list (bumped (sh_segments s)) s)) with (segments_dir s).
    cbn [sh_schema set_list]. by rewrite Hw.
  - done.
  - cbn [exec]. erewrite obj_bind_ret by (apply zoom_ret, (replace_segments_spec (sh_schema s)); exact Hr).
    reflexivity.
  - cbn [exec]. by erewrite obj_bind_ret by exact Hrm.
  - cbn [exec]. erewrite obj_bind_ret by (apply zoom_ret; exact Ht).
    erewrite obj_bind_ret by reflexivity. cbn [fst]. by rewrite set_wal_id.
  - change (shard_ok s' d3 [] [fresh_contents docs] []). rewrite <- (set_wal_id s').
    by eapply shard_ok_wal.
Qed.

Lemma lost_flush_run s d recs cs ms :
  shard_ok s d recs cs [] -> wb_docs (sh_write_buffer s) <> [] -> live_all cs <> [] ->
  segment_fits (sh_schema s) (wb_docs (sh_write_buffer s)) ->
  segment_fits (sh_schema s) (live_all cs) -> next_of s + 2 < 2 ^ 64 ->
  exists s' d', run_schedule lost_flush_schedule (mkWorld s d (inl <$> lost_flush_calls ms))
      = mkWorld s' d' [inl (FlushTruncate Return); inr (Ret (reindex_answer s' (live_all cs) ms))] /\
    shard_ok s' d' [] [fresh_contents (live_all cs)] [] /\ wb_docs (sh_write_buffer s') = [].
Proof.
  intros Hs Hne Hlive Hfit1 Hfit2 Hn. set (docs := wb_docs (sh_write_buffer s)) in *.
  destruct (drain_call s d recs cs [] Hs) as (d1 & Hdrain & Hs1).
  set (s1 := set_buffer (empty_buffer s) s) in *.
  destruct (drain_call s1 d1 recs cs [] Hs1) as (d2 & Hdrain2 & Hs2).
  set (s2 := set_buffer (empty_buffer s1) s1) in *.
  pose proof (collect_live_docs _ _ _ _ _ Hs2) as Hcollect.
  destruct (flush_sections s2 d2 recs cs docs Return Hs2 Hfit1) as (e & d3 & E1 & E2 & E3 & Hs3).
  { unfold next_of in *. cbn. lia. }
  cbn zeta in *. set (s3 := set_list (installed _ _ _ _) s2) in *.
  destruct (reindex_sections s3 d3 recs _ (live_all cs) ms Hs3 Hfit2)
    as (e' & d4 & d5 & d6 & F1 & F2 & F3 & F4 & F5 & F6 & Hs4).
  { unfold next_of in *. cbn. lia. }
  cbn zeta in *. set (s4 := set_list (installed _ _ _ _) s3) in *.
  exists s4, d6. split_and!; [|exact Hs4|done].
  unfold run_schedule, lost_flush_schedule. cbn [foldl fmap list_fmap lost_flush_calls].
  erewrite (run_section_at 0 s d); [|reflexivity|].
  2: { cbn [exec]. erewrite obj_bind_ret by exact Hdrain. fold docs. cbn beta iota. by rewrite bool_decide_false. }
  cbn [insert list_insert resume]. erewrite (run_section_at 1 s1 d1); [|reflexivity|].
  2: { cbn [exec]. by erewrite obj_bind_ret by exact Hdrain2. }
  cbn [insert list_insert resume after_flush]. erewrite (run_section_at 1 s2 d2); [|reflexivity|].
  2: { cbn [exec]. erewrite obj_bind_ret by reflexivity. unfold obj_lift. cbn [fst]. rewrite Hcollect.
       erewrite obj_bind_ret by reflexivity. by rewrite bool_decide_false. }
  cbn [insert list_insert resume].
  erewrite (run_section_at 0); [|reflexivity|exact E1]. cbn [insert list_insert resume].
  erewrite (run_section_at 0); [|reflexivity|exact E2]. cbn [insert list_insert resume].
  erewrite (run_section_at 0); [|reflexivity|exact E3]. cbn [insert list_insert resume].
  erewrite (run_section_at 1); [|reflexivity|exact F1]. cbn [insert list_insert resume].
  erewrite (run_section_at 1); [|reflexivity|exact F2]. cbn [insert list_insert resume].
  erewrite (run_section_at 1); [|reflexivity|exact F3]. cbn [insert list_insert resume].
  erewrite (run_section_at 1); [|reflexivity|exact F4]. cbn [insert list_insert resume].
  erewrite (run_section_at 1); [|reflexivity|exact F5]. cbn [insert list_insert resume].
  by erewrite (run_section_at 1); [|reflexivity|exact F6].
Qed.
End Races.

(** C25: a flush can drop an acknowledged write.  For every well-formed shard
    with something to flush: if a document is indexed between the flush's
    registration of its segment and its truncation of the log, the call
    succeeds and the document is in the buffer, but no longer in the log; a
    crash before the next flush loses it, reopening the shard does not bring it
    back. *)
Theorem flush_drops_acknowledged_write `{ILL : IndexLaws} `{SDL : SerdeLaws WalRecord}
    `{TDL : TempDirLaws} `{ML : MathLib} `{UOL : UnspecifiedOrderLaws}
    (s : ShardEngine) (d : Disk) (recs : list WalRecord) (cs : list Contents) (doc : Document) :
  shard_ok s d recs cs [] -> wb_docs (sh_write_buffer s) <> [] ->
  segment_fits (sh_schema s) (wb_docs (sh_write_buffer s)) -> next_of s + 1 < 2 ^ 64 ->
  record_fits (mkWalRecord (wal_next_seq (sh_wal s)) (WalIndex doc)) ->
  (wb_add doc (empty_buffer s)).2 = false -> doc ∉ stored s cs -> no_catch_up (sh_config s) ->
  let w := run_schedule lost_write_schedule (mkWorld s d (inl <$> lost_write_calls doc)) in
  wo_threads w !! 1%nat = Some (inr (Ret AUnit)) /\
  doc ∈ wb_docs (sh_write_buffer (wo_self w)) /\
  forall connect, seqs_left (segments_dir s) (wo_disk w) ->
    exists s' d' cs', shard_open connect (sh_config s) (sh_schema s) (wo_disk w) = (d', Ret s') /\
      shard_ok s' d' [] cs' [] /\ doc ∉ stored s' cs'.
Proof.
  intros Hs Hne Hfit Hn Hrec Hfull Hdoc Hrole.
  destruct (lost_write_run s d recs cs doc Hs Hne Hfit Hn Hrec Hfull) as (s1 & d1 & Hrun & Hok & Hcfg & Hsch & Hbuf).
  cbn zeta. rewrite Hrun. cbn [wo_threads wo_self wo_disk]. split_and!;
    [done|by rewrite Hbuf, list_elem_of_singleton|].
  intros connect Hseq.
  assert (segments_dir s1 = segments_dir s) as Hdir by (unfold segments_dir, data_path; by rewrite Hcfg).
  destruct (shard_open_spec connect s1 d1 [] _ Hok) as (s' & d' & cs' & Ho & Hok' & _ & _ & Hlive & Hdocs & _);
    [by rewrite Hdir|by rewrite Hcfg|].
  rewrite Hcfg, Hsch in Ho. exists s', d', cs'. split_and!; [done|done|].
  unfold stored. rewrite Hdocs, app_nil_r, Hlive. intros Hin%(live_disk_all _ _ _ _ _ _ Hok).
  rewrite live_all_app, live_all_fresh in Hin. by apply Hdoc.
Qed.

(** C26: a flush running next to a reindex can lose what it flushes.  For every
    well-formed shard with documents in the buffer and in segments: if the
    flush registers its segment after the reindex has read the segments and
    before it lists the ids to replace, the reindex replaces the new segment
    too, removes its directory and empties the log: every buffered document
    that no segment held is gone from the engine and from the disk. *)
Theorem reindex_drops_concurrent_flush `{ILL : IndexLaws} `{SDL : SerdeLaws WalRecord}
    `{TDL : TempDirLaws} `{ML : MathLib} `{UOL : UnspecifiedOrderLaws}
    (s : ShardEngine) (d : Disk) (recs : list WalRecord) (cs : list Contents) (elapsed_ms : Z) :
  shard_ok s d recs cs [] -> wb_docs (sh_write_buffer s) <> [] -> live_all cs <> [] ->
  segment_fits (sh_schema s) (wb_docs (sh_write_buffer s)) ->
  segment_fits (sh_schema s) (live_all cs) -> next_of s + 2 < 2 ^ 64 ->
  let w := run_schedule lost_flush_schedule (mkWorld s d (inl <$> lost_flush_calls elapsed_ms)) in
  exists st cs', wo_threads w !! 1%nat = Some (inr (Ret (AReindex st))) /\
    rx_docs_reindexed st = Z.of_nat (length (live_all cs)) /\
    shard_ok (wo_self w) (wo_disk w) [] cs' [] /\ stored (wo_self w) cs' = live_all cs.
Proof.
  intros Hs Hne Hlive Hfit1 Hfit2 Hn.
  destruct (lost_flush_run s d recs cs elapsed_ms Hs Hne Hlive Hfit1 Hfit2 Hn) as (s' & d' & Hrun & Hok & Hbuf).
  cbn zeta. rewrite Hrun. eexists _, [fresh_contents (live_all cs)].
  split_and!; [reflexivity|reflexivity|exact Hok|].
  unfold stored. cbn [wo_self]. by rewrite Hbuf, live_all_fresh, app_nil_r.
Qed.

(** While a flush writes its segment, the documents it drained are neither in
    the buffer nor in a segment: a search in between does not see them. *)
Theorem flush_hides_documents `{ILL : IndexLaws} `{SDL : SerdeLaws WalRecord}
    `{TDL : TempDirLaws} `{ML : MathLib} `{UOL : UnspecifiedOrderLaws}
    (s : ShardEngine) (d : Disk) (recs : list WalRecord) (cs : list Contents) (k : After) :
  shard_ok s d recs cs [] -> wb_docs (sh_write_buffer s) <> [] ->
  let w := run_section 0 (mkWorld s d [inl (Drain k)]) in
  wo_threads w = [inl (FlushName (wb_docs (sh_write_buffer s)) k)] /\
  shard_ok (wo_self w) (wo_disk w) recs cs [] /\ searchable (wo_self w) cs = live_all cs.
Proof.
  intros Hs Hne. destruct (drain_call s d recs cs [] Hs) as (d1 & Hdrain & Hs1).
  erewrite (run_section_at 0 s d); [|reflexivity|].
  2: { cbn [exec]. erewrite obj_bind_ret by exact Hdrain. cbn beta iota. by rewrite bool_decide_false. }
  cbn zeta. split_and!; [done|exact Hs1|]. unfold searchable. cbn. by rewrite app_nil_r.
Qed.

(** Two writes: the log has them in the order of their appends, the queues of
    the replicas in the order of their enqueueing, which can be the opposite. *)
Definition reordered_schedule : list nat := [0; 1; 1; 0]%nat.

Theorem queues_can_reorder_the_log `{ILL : IndexLaws} `{SDL : SerdeLaws WalRecord}
    `{TDL : TempDirLaws} `{ML : MathLib} `{UOL : UnspecifiedOrderLaws}
    (s : ShardEngine) (d : Disk) (recs : list WalRecord) (cs : list Contents) (doc doc' : Document) :
  let seq := wal_next_seq (sh_wal s) in let seq' := wrap 64 (seq + 1) in
  shard_ok s d recs cs [] -> record_fits (mkWalRecord seq (WalIndex doc)) ->
  record_fits (mkWalRecord seq' (WalIndex doc')) ->
  let w := run_schedule reordered_schedule
    (mkWorld s d [inl (IndexAppend doc); inl (IndexAppend doc')]) in
  shard_ok (wo_self w) (wo_disk w)
    (recs ++ [mkWalRecord seq (WalIndex doc); mkWalRecord seq' (WalIndex doc')]) cs [] /\
  sh_replication (wo_self w)
    = (rm_enqueue seq (WalIndex doc) ∘ rm_enqueue seq' (WalIndex doc')) <$> sh_replication s.
Proof.
  intros seq seq' Hs H1 H2.
  destruct (append_call s d recs cs (WalIndex doc) Hs H1) as (d1 & Ha1 & Hs1).
  set (s1 := set_wal _ s) in *.
  destruct (append_call s1 d1 _ cs (WalIndex doc') Hs1 H2) as (d2 & Ha2 & Hs2).
  set (s2 := set_wal _ s1) in *. rewrite <- app_assoc in Hs2.
  unfold run_schedule, reordered_schedule. cbn [foldl].
  erewrite (run_section_at 0 s d); [|reflexivity|].
  2: { cbn [exec]. by erewrite obj_bind_ret by exact Ha1. }
  cbn [insert list_insert resume]. erewrite (run_section_at 1 s1 d1); [|reflexivity|].
  2: { cbn [exec]. by erewrite obj_bind_ret by exact Ha2. }
  cbn [insert list_insert resume]. erewrite (run_section_at 1 s2 d2); [|reflexivity|].
  2: { cbn [exec]. by erewrite obj_bind_ret by reflexivity. }
  cbn [insert list_insert resume]. erewrite (run_section_at 0); [|reflexivity|].
  2: { cbn [exec]. by erewrite obj_bind_ret by reflexivity. }
  cbn [wo_self wo_disk]. split; [by do 2 apply shard_ok_replication|].
  unfold s2, s1. cbn. by destruct (sh_replication s).
Qed.

Lemma one_segment_left dir d :
  segment_dirs dir d = ["seg-000001"] -> seqs_left dir d.
Proof.
  unfold seqs_left. intros ->. apply Forall_cons. split; [|apply Forall_nil_2].
  assert ("seg-000001" = segment_name 1) as -> by (vm_compute; reflexivity).
  rewrite seq_of_segment_name by (unfold in_width; lia). intros n [= <-]. unfold u64_max. lia.
Qed.

Section Witness.
Import TestLibs StableOrder CountableSerde FreshTemp.
#[local] Instance test_math : MathLib := {| f32_ln := fun x => x |}.

(** The third document is acknowledged and gone after a crash. *)
Lemma flush_drops_acknowledged_write_witness :
  let w := run_schedule lost_write_schedule
    (mkWorld sample_shard sample_disk (inl <$> lost_write_calls doc_c)) in
  doc_c ∈ wb_docs (sh_write_buffer (wo_self w)) /\
  exists s' d' cs', shard_open no_primary (sh_config sample_shard) (sh_schema sample_shard)
      (wo_disk w) = (d', Ret s') /\ shard_ok s' d' [] cs' [] /\ doc_c ∉ stored s' cs'.
Proof.
  destruct (flush_drops_acknowledged_write sample_shard sample_disk sample_records [] doc_c)
    as (_ & H1 & H2).
  - exact sample_shard_ok.
  - intros [=].
  - exact (sample_all_fit _ (reflexivity _)).
  - reflexivity.
  - intros e [= <-]. vm_compute. reflexivity.
  - vm_compute. reflexivity.
  - intros Hin. apply (list_elem_of_fmap_2 doc_id) in Hin. revert Hin. vm_decide.
  - left. reflexivity.
  - cbn zeta in *. split; [exact H1|]. apply (H2 no_primary), one_segment_left.
    vm_compute. reflexivity.
Defined.

Lemma first_of_two : [doc_a] ⊆+ [doc_a; doc_b].
Proof. apply submseteq_skip, submseteq_nil_l. Qed.

(** A shard with one document in a segment and one in the buffer. *)
Lemma reindex_drops_concurrent_flush_witness :
  exists s d recs cs w cs', shard_ok s d recs cs [] /\ doc_b ∈ stored s cs /\
    w = run_schedule lost_flush_schedule (mkWorld s d (inl <$> lost_flush_calls 0)) /\
    shard_ok (wo_self w) (wo_disk w) [] cs' [] /\ stored (wo_self w) cs' = live_all cs /\
    live_all cs ≡ₚ [doc_a].
Proof.
  destruct (flush_spec small_shard sample_disk sample_records [] small_shard_ok)
    as (l & d & cs & _ & Hok & Hlive & Hnext & _).
  { intros l Hl. apply sample_all_fit. rewrite Hl. exact first_of_two. }
  { reflexivity. }
  set (s := set_list l _) in *. pose proof (shard_ok_add s d _ cs doc_b Hok) as Hok'.
  cbn [small_shard sh_write_buffer set_buffer wb_add fst wb_docs wb_new app live_all mbind list_bind] in Hlive.
  destruct (reindex_drops_concurrent_flush _ d _ cs 0 Hok') as (st & cs' & _ & _ & Hend & Hst).
  - intros [=].
  - intros E. rewrite E in Hlive. by apply Permutation_nil_cons in Hlive.
  - apply sample_all_fit. apply (submseteq_cons doc_a). reflexivity.
  - apply sample_all_fit. rewrite Hlive. exact first_of_two.
  - unfold next_of. cbn [sh_segments set_buffer s set_list]. cbn in Hnext. lia.
  - eexists _, d, _, cs, _, cs'. split_and!; [exact Hok'| |reflexivity|exact Hend|exact Hst|exact Hlive].
    unfold stored. apply elem_of_app. right. cbn. apply list_elem_of_singleton. reflexivity.
Defined.
End Witness.
