(* ===== verification/Locks.v ===== *)
(** The locks of the shard engine ([crates/shard/src/shard.rs]: the mutex of the
    log, the read-write locks of the segments and of the buffer).  Calls take
    the locks of their section one after the other, run the section holding
    them and release them at its end.  No two sections that exclude each other
    overlap, no set of calls deadlocks, every call returns; and what they do is
    an interleaving of whole sections. *)
From Stdlib Require Import Strings.Byte.
From S2P Require Import Prelude Bytes Order Float Types Config Text Decimal Analysis Posting.
From S2P Require Import Disk Inverted Column DocStore Segment Scorer Collector Understanding.
From S2P Require Import Wand Executor Multi Object Wal WriteBuffer SegmentList Proto.
From S2P Require Import Replication Shard ShardSpecs Sections Interleaving.

Local Open Scope Z_scope.

Section Locks.
Context `{IL : IndexLibs} `{SD : Serde WalRecord} `{TD : TempDirLib} `{ML : MathLib}
  `{UO : UnspecifiedOrder}.

Inductive Lock := WalLock | SegmentsLock | BufferLock.
Inductive Mode := Shared | Exclusive.   (* read() / write(), lock() *)
#[local] Instance Lock_eq_dec : EqDecision Lock.
Proof. solve_decision. Defined.
#[local] Instance Mode_eq_dec : EqDecision Mode.
Proof. solve_decision. Defined.

(** The guards of a section, in the order it takes them. *)
Definition locks (p : Pc) : list (Lock * Mode) :=
  match p with
  | IndexAppend _ | BatchAppend _ | DeleteAppend _ | FlushTruncate _ | ReindexTruncate _ _ =>
      [(WalLock, Exclusive)]
  | IndexAdd _ | BatchAdd _ | MarkBuffer _ | Drain _ => [(BufferLock, Exclusive)]
  | MarkSegments _ | FlushName _ _ | FlushAdd _ _ _ | MergeName _ _ _ | MergeReplace _ _ _ _
  | ReindexName _ _ | ReindexReplace _ _ _ _ => [(SegmentsLock, Exclusive)]
  | FindMerges _ | MergeWrite _ _ _ _ | Collect _ | ReindexIds _ _ _ => [(SegmentsLock, Shared)]
  | Searching _ _ => [(SegmentsLock, Shared); (BufferLock, Exclusive)]
  | Getting _ | Stats => [(SegmentsLock, Shared); (BufferLock, Shared)]
  | IndexEnqueue _ _ | BatchEnqueue _ _ | DeleteEnqueue _ _ | FlushWrite _ _ _ | MergeClean _ _ _
  | ReindexWrite _ _ _ | ReindexClean _ _ _ => []
  end.

(** A call with the number of guards it holds. *)
Record Locker := mkLocker { lk_thread : Thread; lk_held : nat }.
Record LockWorld := mkLockWorld {
  lw_self : ShardEngine;
  lw_disk : Disk;
  lw_lockers : list Locker;
}.

Definition holds (t : Locker) : list (Lock * Mode) :=
  match lk_thread t with inl p => take (lk_held t) (locks p) | inr _ => [] end.

(** Two guards that cannot be held at the same time. *)
Definition conflict (a b : Lock * Mode) : Prop :=
  a.1 = b.1 /\ (a.2 = Exclusive \/ b.2 = Exclusive).

Inductive lock_step : LockWorld -> LockWorld -> Prop :=
  | ls_acquire s d ts i p k g :
      ts !! i = Some (mkLocker (inl p) k) -> locks p !! k = Some g ->
      (forall j t h, j <> i -> ts !! j = Some t -> h ∈ holds t -> ~ conflict g h) ->
      lock_step (mkLockWorld s d ts) (mkLockWorld s d (<[i := mkLocker (inl p) (S k)]> ts))
  | ls_section s d ts i p s' d' r :
      ts !! i = Some (mkLocker (inl p) (length (locks p))) ->
      exec p (s, d) = ((s', d'), r) ->
      lock_step (mkLockWorld s d ts) (mkLockWorld s' d' (<[i := mkLocker (resume r) 0]> ts)).

(** [n] steps. *)
Inductive lock_steps : nat -> LockWorld -> LockWorld -> Prop :=
  | lss_refl w : lock_steps 0 w w
  | lss_step n w w1 w2 : lock_steps n w w1 -> lock_step w1 w2 -> lock_steps (S n) w w2.

Definition fresh_world (s : ShardEngine) (d : Disk) (calls : list Pc) : LockWorld :=
  mkLockWorld s d ((fun p => mkLocker (inl p) 0) <$> calls).

(** Without the guards. *)
Definition unlocked (w : LockWorld) : World :=
  mkWorld (lw_self w) (lw_disk w) (lk_thread <$> lw_lockers w).

(** ** The sections left of a call *)
Definition after_rank (k : After) : nat := match k with Return => 0 | Reindex _ => 7 end.
Definition rank (p : Pc) : nat :=
  match p with
  | IndexAppend _ | BatchAppend _ => 14
  | IndexEnqueue _ _ | BatchEnqueue _ _ => 13
  | IndexAdd _ | BatchAdd _ => 12
  | DeleteAppend _ => 4 | DeleteEnqueue _ _ => 3 | MarkBuffer _ => 2 | MarkSegments _ => 1
  | Searching _ _ | Getting _ | Stats => 1
  | Drain k => 11 + after_rank k
  | FlushName _ k => 10 + after_rank k
  | FlushWrite _ _ k => 9 + after_rank k
  | FlushAdd _ _ k => 8 + after_rank k
  | FlushTruncate k => 7 + after_rank k
  | FindMerges k => 6 + after_rank k
  | MergeName _ groups k => 4 + 4 * length groups + after_rank k
  | MergeWrite _ _ groups k => 3 + 4 * length groups + after_rank k
  | MergeReplace _ _ groups k => 2 + 4 * length groups + after_rank k
  | MergeClean _ groups k => 1 + 4 * length groups + after_rank k
  | Collect _ => 7
  | ReindexName _ _ => 6
  | ReindexWrite _ _ _ => 5
  | ReindexIds _ _ _ => 4
  | ReindexReplace _ _ _ _ => 3
  | ReindexClean _ _ _ => 2
  | ReindexTruncate _ _ => 1
  end.

(** At most two guards and the section itself. *)
Definition weight (t : Locker) : nat :=
  match lk_thread t with inl p => 3 * rank p - lk_held t | inr _ => 0 end.
Definition total_weight (ts : list Locker) : nat := sum_list (weight <$> ts).

Lemma locks_short p : (length (locks p) <= 2)%nat.
Proof. destruct p; cbn; lia. Qed.
Lemma rank_pos p : (1 <= rank p)%nat.
Proof. destruct p; cbn; lia. Qed.

Lemma next_merge_rank groups k q :
  next_merge groups k = inl q -> (rank q <= 4 * length groups + after_rank k)%nat.
Proof.
  destruct groups as [|g groups]; cbn; [|intros [= <-]; cbn; lia].
  destruct k; cbn; [done|]. intros [= <-]. cbn. lia.
Qed.

Lemma find_merges_one pol (segs : list SegmentEntry) gs :
  find_merges pol segs = Ret gs -> (length gs <= 1)%nat.
Proof.
  destruct (find_merges_spec pol segs) as (gs' & -> & Hcase & _). intros [= <-].
  destruct Hcase as [->|(g & order & -> & _)]; cbn; lia.
Qed.

(** A section leads to one with fewer sections left. *)
Lemma exec_rank p s s' q : exec p s = (s', Ret (inl q)) -> (rank q < rank p)%nat.
Proof.
  destruct p; cbn [exec]; intros He.
  all: apply obj_bind_ret_inv in He as (s1 & a & H1 & He).
  all: try (injection He as _ <-; cbn; lia).
  all: try done.
  - destruct a; [|done]. injection He as _ <-. cbn. lia.
  - destruct a; [|done]. injection He as _ <-. cbn. lia.
  - by apply obj_bind_ret_inv in He as (s2 & docs & _ & [=]).
  - destruct a as [docs deleted]. injection He as _ He. revert He. case_bool_decide.
    + destruct k; [done|]. intros [= <-]. cbn. lia.
    + intros [= <-]. cbn. lia.
  - apply obj_bind_ret_inv in He as (s2 & groups & H2 & He). injection He as _ He%next_merge_rank.
    unfold obj_lift in H2. injection H2 as _ Hg%find_merges_one. cbn. lia.
  - injection He as _ He%next_merge_rank. cbn. lia.
  - apply obj_bind_ret_inv in He as (s2 & docs & _ & He). injection He as _ He. revert He.
    case_bool_decide; [done|]. intros [= <-]. cbn. lia.
Qed.

(** ** Every step does some of the work left *)
Lemma sum_list_insert (l : list nat) i a b :
  l !! i = Some a -> (sum_list (<[i := b]> l) + a = sum_list l + b)%nat.
Proof.
  revert i. induction l as [|x l IH]; intros [|i]; [done..| |].
  - intros [= ->]. cbn. lia.
  - intros Hi%IH. change (<[S i := b]> (x :: l)) with (x :: <[i := b]> l).
    change (sum_list (x :: <[i := b]> l)) with (x + sum_list (<[i := b]> l))%nat.
    change (sum_list (x :: l)) with (x + sum_list l)%nat. lia.
Qed.

Lemma total_weight_insert ts i t t' :
  ts !! i = Some t -> (weight t' < weight t)%nat ->
  (total_weight (<[i := t']> ts) < total_weight ts)%nat.
Proof.
  intros Hi Hw. unfold total_weight. rewrite list_fmap_insert.
  pose proof (sum_list_insert (weight <$> ts) i (weight t) (weight t')) as H.
  rewrite list_lookup_fmap, Hi in H. specialize (H eq_refl). lia.
Qed.

(** The guards a call holds are those of its section. *)
Definition lockers_ok (ts : list Locker) : Prop :=
  forall i p k, ts !! i = Some (mkLocker (inl p) k) -> (k <= length (locks p))%nat.

Lemma lock_step_ok w w' : lock_step w w' -> lockers_ok (lw_lockers w) ->
  lockers_ok (lw_lockers w') /\ (total_weight (lw_lockers w') < total_weight (lw_lockers w))%nat.
Proof.
  intros Hstep Hok. destruct Hstep as [s d ts i p k g Hi Hg _|s d ts i p s' d' r Hi He]; cbn in *; split.
  - intros j q n Hj. apply list_lookup_insert_Some in Hj as [(-> & [= <- <-] & _)|[_ Hj]]; [|by eapply Hok].
    apply lookup_lt_Some in Hg. lia.
  - eapply total_weight_insert; [exact Hi|]. unfold weight. cbn [lk_thread lk_held].
    apply lookup_lt_Some in Hg. pose proof (locks_short p). pose proof (rank_pos p). lia.
  - intros j q n Hj. apply list_lookup_insert_Some in Hj as [(-> & [= _ <-] & _)|[_ Hj]]; [lia|by eapply Hok].
  - eapply total_weight_insert; [exact Hi|]. unfold weight. cbn [lk_thread lk_held].
    pose proof (locks_short p). pose proof (rank_pos p).
    destruct r as [[q|a]|e|]; cbn [resume]; [apply exec_rank in He|..]; lia.
Qed.

Lemma lock_steps_ok n w w' : lock_steps n w w' -> lockers_ok (lw_lockers w) ->
  lockers_ok (lw_lockers w') /\ (n + total_weight (lw_lockers w') <= total_weight (lw_lockers w))%nat.
Proof.
  induction 1 as [w|n w w1 w2 _ IH Hstep]; intros Hw; [split; [done|lia]|].
  destruct (IH Hw) as [H1 H2]. destruct (lock_step_ok _ _ Hstep H1). split; [done|lia].
Qed.

(** ** Guards exclude each other *)
Definition exclusive (ts : list Locker) : Prop :=
  forall i j t u g h, i <> j -> ts !! i = Some t -> ts !! j = Some u ->
    g ∈ holds t -> h ∈ holds u -> ~ conflict g h.

Lemma conflict_sym a b : conflict a b -> conflict b a.
Proof. unfold conflict. intuition. Qed.

Lemma exclusive_insert ts i t :
  exclusive ts ->
  (forall j u g h, j <> i -> ts !! j = Some u -> g ∈ holds t -> h ∈ holds u -> ~ conflict g h) ->
  exclusive (<[i := t]> ts).
Proof.
  intros Hex Ht j k u v g h Hne Hj Hk Hg Hh Hc.
  apply list_lookup_insert_Some in Hj as [(-> & -> & _)|[Hnj Hj]];
    apply list_lookup_insert_Some in Hk as [(-> & -> & _)|[Hnk Hk]]; [done|..].
  - by apply (Ht k v g h).
  - by apply (Ht j u h g); [..|apply conflict_sym].
  - by apply (Hex j k u v g h).
Qed.

Lemma lock_step_exclusive w w' :
  lock_step w w' -> exclusive (lw_lockers w) -> exclusive (lw_lockers w').
Proof.
  intros Hstep Hex. destruct Hstep as [s d ts i p k g Hi Hg Hfree|s d ts i p s' d' r Hi He]; cbn in *.
  - apply exclusive_insert; [done|]. intros j u g' h Hne Hj Hin Hh. cbn [holds lk_thread lk_held] in Hin.
    rewrite (take_S_r _ _ _ Hg) in Hin. apply elem_of_app in Hin as [Hin|Hin].
    + intros Hc. eapply (Hex i j); [done|exact Hi|exact Hj|exact Hin|exact Hh|exact Hc].
    + apply list_elem_of_singleton in Hin as ->. by eapply Hfree.
  - apply exclusive_insert; [done|]. intros j u g' h _ _ Hin. exfalso.
    destruct r as [[q|a]|e|]; cbn in Hin; by apply elem_of_nil in Hin.
Qed.

(** ** Somebody can always go on *)

(** A call that misses a guard holds nothing, or the segments for reading. *)
Lemma missing_guard p k :
  (k < length (locks p))%nat ->
  (k = 0%nat /\ take k (locks p) = []) \/
  (take k (locks p) = [(SegmentsLock, Shared)] /\ exists m, locks p !! k = Some (BufferLock, m)).
Proof. destruct p; cbn; destruct k as [|[|k]]; cbn; intros; try lia; eauto. Qed.

(** It has all the guards of its section. *)
Definition guarded (t : Locker) : bool :=
  match lk_thread t with inl p => (lk_held t =? length (locks p))%nat | inr _ => false end.
Definition running (t : Locker) : Prop := exists p, lk_thread t = inl p.

Lemma some_step s d ts :
  lockers_ok ts -> (exists i t, ts !! i = Some t /\ running t) ->
  exists w, lock_step (mkLockWorld s d ts) w.
Proof.
  intros Hok (i & [th k] & Hi & p & Hp). cbn in Hp. subst th.
  (* a call that has all its guards runs its section *)
  destruct (decide (Exists (fun t => guarded t = true) ts)) as [Hfull|Hnone].
  { apply Exists_exists in Hfull as ([[q|r] n] & [j Hj]%list_elem_of_lookup & Hn); [|done].
    apply Nat.eqb_eq in Hn. cbn in Hn. subst n. destruct (exec q (s, d)) as [[s' d'] r] eqn:He.
    eexists. by eapply ls_section. }
  assert (forall j q n, ts !! j = Some (mkLocker (inl q) n) -> (n < length (locks q))%nat) as Hmiss.
  { intros j q n Hj. pose proof (Hok j q n Hj). destruct (decide (n = length (locks q))) as [E|]; [|lia].
    destruct Hnone. apply Exists_exists. eexists. split; [by eapply list_elem_of_lookup_2|].
    by apply Nat.eqb_eq. }
  assert (forall j t h, ts !! j = Some t -> h ∈ holds t -> h = (SegmentsLock, Shared)) as Hheld.
  { intros j [[q|r] n] h Hj Hin; [|by apply elem_of_nil in Hin]. cbn in Hin.
    destruct (missing_guard q n (Hmiss _ _ _ Hj)) as [[_ E]|[E _]]; rewrite E in Hin.
    - by apply elem_of_nil in Hin.
    - by apply list_elem_of_singleton in Hin. }
  destruct (decide (Exists (fun t => holds t <> []) ts)) as [Hsome|Hnothing].
  - (* one that reads the segments gets the buffer *)
    apply Exists_exists in Hsome as ([[q|r] n] & [j Hj]%list_elem_of_lookup & Hn); [|done]. cbn in Hn.
    destruct (missing_guard q n (Hmiss _ _ _ Hj)) as [[_ E]|[_ [m Hm]]]; [done|].
    eexists. eapply ls_acquire; [exact Hj|exact Hm|].
    intros j' t h _ Hj' Hin [Hc _]. by rewrite (Hheld _ _ _ Hj' Hin) in Hc.
  - (* nobody holds anything *)
    destruct (lookup_lt_is_Some_2 (locks p) k) as [g Hg]; [by eapply Hmiss|].
    eexists. eapply ls_acquire; [exact Hi|exact Hg|].
    intros j t h _ Hj Hin. exfalso. apply Hnothing, Exists_exists. exists t.
    split; [by eapply list_elem_of_lookup_2|]. intros E. rewrite E in Hin. by apply elem_of_nil in Hin.
Qed.

(** ** Whole sections *)
Lemma lock_steps_schedule n w w' :
  lock_steps n w w' -> exists schedule, unlocked w' = run_schedule schedule (unlocked w).
Proof.
  induction 1 as [w|n w w1 w2 _ [schedule IH] Hstep]; [by exists []|].
  destruct Hstep as [s d ts i p k g Hi Hg _|s d ts i p s' d' r Hi He].
  - exists schedule. rewrite <- IH. unfold unlocked. cbn. f_equal. rewrite list_fmap_insert. cbn.
    apply list_insert_id. by rewrite list_lookup_fmap, Hi.
  - exists (schedule ++ [i]). unfold run_schedule in *. rewrite foldl_app, <- IH. cbn [foldl].
    unfold unlocked, run_section. cbn. rewrite list_lookup_fmap, Hi. cbn. rewrite He.
    by rewrite list_fmap_insert.
Qed.

Lemma fresh_lockers s d calls :
  lockers_ok (lw_lockers (fresh_world s d calls)) /\ exclusive (lw_lockers (fresh_world s d calls)).
Proof.
  split.
  - intros i p k Hi. apply list_lookup_fmap_Some in Hi as (q & [= _ ->] & _). lia.
  - intros i j t u g h _ Hi _ Hg. apply list_lookup_fmap_Some in Hi as (q & -> & _).
    by apply elem_of_nil in Hg.
Qed.

(** A bound on the steps of the calls: guards and sections. *)
Definition step_bound (calls : list Pc) : nat := sum_list ((fun p => 3 * rank p)%nat <$> calls).

Lemma fresh_weight s d calls :
  total_weight (lw_lockers (fresh_world s d calls)) = step_bound calls.
Proof.
  unfold total_weight, step_bound. cbn. rewrite <- list_fmap_compose.
  f_equal. apply list_fmap_ext. intros i p _. unfold weight. cbn. lia.
Qed.
End Locks.


Section Witness.
Import TestLibs StableOrder CountableSerde FreshTemp.
#[local] Instance test_math : MathLib := {| f32_ln := fun x => x |}.

End Witness.
