(* ===== verification/BreakerRaces.v ===== *)
(** The circuit breaker shared by concurrent calls ([crates/core/src/breaker.rs]):
    every load, store, [fetch_add], [compare_exchange] and reading of the clock
    is a step of its own, and calls interleave between them.  The circuit still
    opens only after [threshold] failures without a success in between being
    counted, failures never prolong an open circuit, and calls that do not
    overlap are the operations of [Breaker]. *)
From S2P Require Import Prelude Config Breaker.

Local Open Scope Z_scope.

(** ** The steps of a call *)
Inductive BreakerCall :=
  (* is_open: load opened_at_ms; read the clock *)
  | OpenLoad
  | OpenClock (opened_at : Z)
  (* record_success: store failures; store opened_at_ms *)
  | SuccessCount
  | SuccessOpened
  (* record_failure: fetch_add; read the clock; compare_exchange *)
  | FailureAdd
  | FailureClock
  | FailureExchange (now : Z).

(** What a step does to the atomics. *)
Inductive Effect := Counted | CountReset | Opened (at_ms : Z) | Closed | Nothing.

Definition set_failures (n : Z) (b : CircuitBreaker) : CircuitBreaker :=
  {| br_failures := n; br_opened_at_ms := br_opened_at_ms b; br_threshold := br_threshold b;
     br_recovery_ms := br_recovery_ms b |}.
Definition set_opened (t : Z) (b : CircuitBreaker) : CircuitBreaker :=
  {| br_failures := br_failures b; br_opened_at_ms := t; br_threshold := br_threshold b;
     br_recovery_ms := br_recovery_ms b |}.

(** A call that is over has the answer of [is_open], if it was one. *)
Definition BreakerThread : Type := BreakerCall + option bool.

Definition call_step (now : Z) (c : BreakerCall) (b : CircuitBreaker)
  : CircuitBreaker * BreakerThread * Effect :=
  match c with
  | OpenLoad =>
      let opened_at := br_opened_at_ms b in
      (b, if opened_at =? 0 then inr (Some false) else inl (OpenClock opened_at), Nothing)
  | OpenClock opened_at =>
      let elapsed := sat_sub now opened_at in (b, inr (Some (elapsed <? br_recovery_ms b)), Nothing)
  | SuccessCount => (set_failures 0 b, inl SuccessOpened, CountReset)
  | SuccessOpened => (set_opened 0 b, inr None, Closed)
  | FailureAdd =>
      let count := wrap 32 (br_failures b + 1) in
      (set_failures count b, if br_threshold b <=? count then inl FailureClock else inr None, Counted)
  | FailureClock => (b, inl (FailureExchange now), Nothing)
  | FailureExchange t =>
      if br_opened_at_ms b =? 0 then (set_opened t b, inr None, Opened t) else (b, inr None, Nothing)
  end.

(** ** Interleavings, with the effects so far, latest first *)
Record BreakerWorld := mkBreakerWorld {
  bw_breaker : CircuitBreaker;
  bw_now : Z;
  bw_calls : list BreakerThread;
}.

Inductive breaker_steps : list Effect -> BreakerWorld -> BreakerWorld -> Prop :=
  | bs_refl w : breaker_steps [] w w
  | bs_time h w b now calls now' :
      breaker_steps h w (mkBreakerWorld b now calls) -> now <= now' ->
      breaker_steps h w (mkBreakerWorld b now' calls)
  | bs_call h w b now calls i c b' t ev :
      breaker_steps h w (mkBreakerWorld b now calls) -> calls !! i = Some (inl c) ->
      call_step now c b = (b', t, ev) ->
      breaker_steps (ev :: h) w (mkBreakerWorld b' now (<[i := t]> calls)).

(** A call running alone. *)
Fixpoint call_alone (fuel : nat) (now : Z) (t : BreakerThread) (b : CircuitBreaker)
  : CircuitBreaker * BreakerThread :=
  match fuel, t with
  | S fuel, inl c => let '(b, t, _) := call_step now c b in call_alone fuel now t b
  | _, _ => (b, t)
  end.

Lemma calls_alone now b :
  call_alone 3 now (inl OpenLoad) b = (b, inr (Some (is_open now b))) /\
  call_alone 3 now (inl SuccessCount) b = (record_success b, inr None) /\
  call_alone 3 now (inl FailureAdd) b = (record_failure now b, inr None).
Proof.
  split_and!; [|done|].
  - unfold is_open. cbn. by destruct (_ =? 0).
  - unfold record_failure. cbn. destruct (br_threshold b <=? _); cbn; [|done].
    by destruct (br_opened_at_ms b =? 0).
Qed.

(** ** The invariant *)

(** Failures counted since the last reset. *)
Fixpoint counted (h : list Effect) : Z :=
  match h with
  | [] => 0
  | Counted :: h => counted h + 1
  | CountReset :: _ => 0
  | _ :: h => counted h
  end.

(** At some point [threshold] failures had been counted since a reset. *)
Definition reached (threshold : Z) (h : list Effect) : Prop :=
  exists later earlier, h = later ++ Counted :: earlier /\ threshold <= counted earlier + 1.

(** The circuit was opened at [t], after the threshold had been reached. *)
Definition opened_at (threshold t : Z) (h : list Effect) : Prop :=
  exists later earlier, h = later ++ Opened t :: earlier /\ reached threshold earlier.

Lemma reached_cons threshold ev h : reached threshold h -> reached threshold (ev :: h).
Proof. intros (l & e & -> & He). exists (ev :: l), e. done. Qed.
Lemma opened_at_cons threshold t ev h : opened_at threshold t h -> opened_at threshold t (ev :: h).
Proof. intros (l & e & -> & He). exists (ev :: l), e. done. Qed.

(** What a call may rely on between its steps. *)
Definition call_ok (threshold now : Z) (h : list Effect) (t : BreakerThread) : Prop :=
  match t with
  | inl (OpenClock t) => opened_at threshold t h
  | inl FailureClock => reached threshold h
  | inl (FailureExchange t) => reached threshold h /\ 0 < t <= now
  | _ => True
  end.

Definition breaker_ok (config : CircuitBreakerConfig) (h : list Effect) (w : BreakerWorld) : Prop :=
  let b := bw_breaker w in
  br_threshold b = cb_failure_threshold config /\ br_recovery_ms b = cb_recovery_ms config /\
  (counted h < 2 ^ 32 -> br_failures b = counted h) /\ 0 < bw_now w /\
  (br_opened_at_ms b <> 0 -> 0 < br_opened_at_ms b <= bw_now w /\
     opened_at (cb_failure_threshold config) (br_opened_at_ms b) h /\
     exists later earlier, h = later ++ Opened (br_opened_at_ms b) :: earlier /\
       Forall (fun ev => ev <> Closed) later) /\
  Forall (call_ok (cb_failure_threshold config) (bw_now w) h) (bw_calls w).

Lemma counted_nonneg h : 0 <= counted h.
Proof. induction h as [|[] h IH]; cbn; lia. Qed.
Lemma counted_length h : counted h <= Z.of_nat (length h).
Proof. induction h as [|[] h IH]; cbn [counted length]; lia. Qed.

Lemma call_ok_mono threshold now now' ev h t :
  now <= now' -> call_ok threshold now h t -> call_ok threshold now' (ev ++ h) t.
Proof.
  intros Hn. assert (forall h', reached threshold h' -> reached threshold (ev ++ h')) as Hr
    by (intros h' (l & e & -> & He); exists (ev ++ l), e; by rewrite <- app_assoc).
  assert (forall x h', opened_at threshold x h' -> opened_at threshold x (ev ++ h')) as Ho
    by (intros x h' (l & e & -> & He); exists (ev ++ l), e; by rewrite <- app_assoc).
  destruct t as [[]|]; cbn; auto. intros [? ?]. split; [auto|lia].
Qed.

Lemma calls_ok_mono threshold now now' ev h calls :
  now <= now' -> Forall (call_ok threshold now h) calls -> Forall (call_ok threshold now' (ev ++ h)) calls.
Proof. intros Hn Hc. eapply Forall_impl; [exact Hc|]. intros t. by apply call_ok_mono. Qed.

(** The stored opening stays explained by the effects when nothing closes it. *)
Lemma still_open t ev h :
  ev <> Closed ->
  (exists later earlier, h = later ++ Opened t :: earlier /\ Forall (fun ev => ev <> Closed) later) ->
  exists later earlier, ev :: h = later ++ Opened t :: earlier /\ Forall (fun ev => ev <> Closed) later.
Proof. intros Hev (l & e & -> & Hl). exists (ev :: l), e. split; [done|by constructor]. Qed.

Lemma breaker_call_ok config h b now calls i c b' t ev :
  Z.of_nat (length (ev :: h)) < 2 ^ 32 ->
  breaker_ok config h (mkBreakerWorld b now calls) -> calls !! i = Some (inl c) ->
  call_step now c b = (b', t, ev) ->
  breaker_ok config (ev :: h) (mkBreakerWorld b' now (<[i := t]> calls)).
Proof.
  intros Hlen (Hth & Hrec & Hcount & Hnow & Hopen & Hcalls) Hi Hstep. cbn [bw_breaker bw_now bw_calls] in *.
  pose proof (counted_length h) as Hcl. pose proof (counted_nonneg h) as Hcn. cbn [length] in Hlen.
  specialize (Hcount ltac:(lia)).
  assert (Forall (call_ok (cb_failure_threshold config) now (ev :: h)) calls) as Hcalls'
    by (by apply (calls_ok_mono _ now now [ev])).
  pose proof (Forall_lookup_1 _ _ _ _ Hcalls Hi) as Hc. cbn [call_ok] in Hc.
  assert (ev <> Closed -> br_opened_at_ms b <> 0 -> 0 < br_opened_at_ms b <= now /\
    opened_at (cb_failure_threshold config) (br_opened_at_ms b) (ev :: h) /\
    exists later earlier, ev :: h = later ++ Opened (br_opened_at_ms b) :: earlier /\
      Forall (fun ev => ev <> Closed) later) as Hkeep.
  { intros Hev Hne. destruct (Hopen Hne) as (? & ? & ?).
    split_and!; [lia|lia|by apply opened_at_cons|by apply still_open]. }
  unfold breaker_ok. cbn [bw_breaker bw_now bw_calls].
  destruct c; cbn [call_step] in Hstep.
  - destruct (Z.eqb_spec (br_opened_at_ms b) 0) as [E|E]; injection Hstep as <- <- <-;
      (split_and!; [done|done|done|done| |]).
    + done.
    + by apply Forall_insert.
    + by apply Hkeep.
    + apply Forall_insert; [done|]. cbn. by apply opened_at_cons, Hopen.
  - injection Hstep as <- <- <-. split_and!; [done|done|done|done| |by apply Forall_insert].
    by apply Hkeep.
  - injection Hstep as <- <- <-. cbn. split_and!; [done|done|done|done| |by apply Forall_insert].
    by apply Hkeep.
  - injection Hstep as <- <- <-. cbn. split_and!; [done|done|done|done|done|by apply Forall_insert].
  - injection Hstep as <- <- <-. cbn [set_failures br_threshold br_recovery_ms br_failures br_opened_at_ms].
    rewrite Hcount, wrap_id by (unfold in_width; lia).
    split_and!; [done|done|by cbn|done| |].
    + by apply Hkeep.
    + apply Forall_insert; [done|]. rewrite Hth.
      destruct (Z.leb_spec (cb_failure_threshold config) (counted h + 1)); [|done].
      exists [], h. by split.
  - injection Hstep as <- <- <-. split_and!; [done|done|done|done| |].
    + by apply Hkeep.
    + apply Forall_insert; [done|]. cbn. split; [by apply reached_cons|lia].
  - destruct Hc as [Hr Ht]. destruct (Z.eqb_spec (br_opened_at_ms b) 0) as [E|E]; injection Hstep as <- <- <-; cbn.
    + split_and!; [done|done|done|done| |by apply Forall_insert]. intros _. split_and!; [lia|lia| |].
      * exists [], h. by split.
      * exists [], h. split; [done|by constructor].
    + split_and!; [done|done|done|done| |by apply Forall_insert].
      by apply Hkeep.
Qed.

(** A call about to begin. *)
Definition beginning (c : BreakerCall) : Prop :=
  match c with OpenLoad | SuccessCount | FailureAdd => True | _ => False end.

Lemma breaker_steps_ok config now0 calls h w :
  0 < now0 -> Forall beginning calls ->
  breaker_steps h (mkBreakerWorld (breaker_new config) now0 (inl <$> calls)) w ->
  Z.of_nat (length h) < 2 ^ 32 -> breaker_ok config h w.
Proof.
  intros Hnow Hcalls Hrun. remember (mkBreakerWorld _ _ _) as w0 eqn:E0.
  induction Hrun as [w|h w b now calls' now' _ IH Hle|h w b now calls' i c b' t ev _ IH Hi Hstep];
    intros Hlen; subst.
  - unfold breaker_ok. cbn. split_and!; try done. apply Forall_fmap. eapply Forall_impl; [exact Hcalls|].
    by intros [].
  - destruct (IH eq_refl Hlen) as (H1 & H2 & H3 & H4 & H5 & H6). cbn in *. split_and!; cbn; try done; [lia| |].
    + intros Hne. destruct (H5 Hne) as ([? ?] & ? & ?). split_and!; [done|lia|done|done].
    + by apply (calls_ok_mono _ now now' []).
  - eapply breaker_call_ok; [done| |exact Hi|exact Hstep]. apply IH; [done|]. cbn [length] in Hlen. lia.
Qed.


