(* ===== verification/Testing.v ===== *)
(** Running the repository's unit tests on the model: assertions, as
    computations on a file system that starts empty.  The files [Tests...]
    translate the [#\[test\]] functions of the crates one by one, and run them
    on the instances of the interfaces that the witnesses use.  Left out are
    the tests that depend on the real stemmers and Unicode tables. *)
From Stdlib Require Import Floats.SpecFloat.
From S2P Require Import Prelude Bytes Order Float Types Config Breaker Routing Text Decimal Analysis.
From S2P Require Import Posting Disk Inverted Column DocStore Segment Scorer Object.

Local Open Scope Z_scope.

(** [assert!], [assert_eq!], [unwrap]: a test that panics fails. *)
Definition assert (ok : bool) : IO unit := lift (if ok then Ret tt else Panic).
Definition assert_eq {A} `{EqDecision A} (a b : A) : IO unit := assert (bool_decide (a = b)).
Definition unwrap {A} (a : option A) : IO A := lift (match a with Some a => Ret a | None => Panic end).
Definition is_some {A} (a : option A) : bool := match a with Some _ => true | None => false end.
Definition is_none {A} (a : option A) : bool := negb (is_some a).

(** [tempfile::TempDir::new()]. *)
Definition temp_dir : IO path := _ ← create_dir_all ["tmp"%string]; mret ["tmp"%string].

Definition passes (test : IO unit) : bool :=
  match result_of test disk_empty with Ret _ => true | _ => false end.

(** [(a - b).abs() < c]. *)
Definition near (a b c : f32) : bool :=
  let d := f32_sub a b in f_lt (if f_lt d f_zero then f32_sub f_zero d else d) c.

(** A natural logarithm near enough for the tests: [x = m * 2^k] with
    [1 <= m < 2], and the series of the inverse hyperbolic tangent at
    [(m - 1) / (m + 1)]. *)
Module SeriesLn.
Definition atanh_series (s : f32) : f32 :=
  f32_mul s (foldr (fun k acc => f32_add (f32_lit 1 k) (f32_mul (f32_mul s s) acc)) f_zero
    [1; 3; 5; 7; 9; 11; 13; 15]).
Definition ln (x : f32) : f32 :=
  match x with
  | S754_finite false m e =>
      let k := Z.of_nat (Pos.size_nat m) - 1 in
      let m := binary_normalize 24 128 (Zpos m) (- k) false in
      let s := f32_div (f32_sub m one) (f32_add m one) in
      f32_add (f32_mul (f32_of_Z (e + k)) (f32_lit 6931472 10000000))
        (f32_mul (f32_of_Z 2) (atanh_series s))
  | S754_zero _ => f_neg_infinity
  | S754_infinity false => x
  | _ => S754_nan
  end.
#[export] Instance lib : MathLib := {| f32_ln := ln |}.
End SeriesLn.

(** [x as f64]. *)
Definition f64_of_f32 (x : f32) : f64 :=
  match x with
  | S754_finite s m e => binary_normalize 53 1024 (if s then Zneg m else Zpos m) e s
  | _ => x
  end.

(** The methods of an object, and assertions between them. *)
Definition on_object {S A} (s : S) (m : Obj S A) : IO A := fun d =>
  let '((_, d), r) := m (s, d) in (d, r).
Definition check {S} (ok : bool) : Obj S unit := obj_io (assert ok).
Definition check_eq {S A} `{EqDecision A} (a b : A) : Obj S unit := obj_io (assert_eq a b).
Definition obj_unwrap {S A} (a : option A) : Obj S A := obj_io (unwrap a).

(** [SearchRequest { query, limit, ..Default::default() }]. *)
Definition query_request (query : string) (limit : Z) : SearchRequest := {|
  rq_query := query; rq_filters := ∅; rq_aggregations := []; rq_sort := None; rq_offset := 0;
  rq_limit := limit; rq_typo_tolerance := rq_typo_tolerance SearchRequest_default;
  rq_language := None; rq_destination_zone := None; rq_include_docs := false |}.
Definition with_aggregations (l : list string) (r : SearchRequest) : SearchRequest := {|
  rq_query := rq_query r; rq_filters := rq_filters r; rq_aggregations := l; rq_sort := rq_sort r;
  rq_offset := rq_offset r; rq_limit := rq_limit r; rq_typo_tolerance := rq_typo_tolerance r;
  rq_language := rq_language r; rq_destination_zone := rq_destination_zone r;
  rq_include_docs := rq_include_docs r |}.
Definition with_filters (f : gmap string FilterValue) (r : SearchRequest) : SearchRequest := {|
  rq_query := rq_query r; rq_filters := f; rq_aggregations := rq_aggregations r; rq_sort := rq_sort r;
  rq_offset := rq_offset r; rq_limit := rq_limit r; rq_typo_tolerance := rq_typo_tolerance r;
  rq_language := rq_language r; rq_destination_zone := rq_destination_zone r;
  rq_include_docs := rq_include_docs r |}.
