(* ===== verification/TestsIndex.v ===== *)
(** The unit tests of [crates/index/src], run on the model. *)
From S2P Require Import Prelude Bytes Order Float Types Config Text Decimal Analysis Posting Disk.
From S2P Require Import Inverted Column DocStore Segment Testing.
Import TestLibs StableOrder.

Local Open Scope Z_scope.
Local Open Scope string_scope.

(** ** posting.rs *)
Definition test_posting_list_roundtrip : IO unit :=
  let pl := pl_add (pl_add (pl_add (pl_add pl_new 5 2 10) 10 1 8) 100 3 12) 105 1 6 in
  let pl := rebuild_blocks pl (f32_of_Z 9) in
  let encoded := pl_encode pl in
  decoded ← lift (pl_decode encoded);
  _ ← assert_eq (postings pl) (postings decoded);
  assert_eq (length (blocks pl)) (length (blocks decoded)).

Definition test_empty_posting_list : IO unit :=
  let pl := rebuild_blocks pl_new (f32_of_Z 1) in
  decoded ← lift (pl_decode (pl_encode pl));
  assert (pl_is_empty decoded).

Definition test_block_max_scores : IO unit :=
  let pl := rebuild_blocks (pl_add (pl_add pl_new 0 1 3) 1 1 20) (f32_of_Z 10) in
  _ ← assert_eq (length (blocks pl)) 1%nat;
  let short_impact := bm25_impact 1 3 (f32_of_Z 10) in
  let long_impact := bm25_impact 1 20 (f32_of_Z 10) in
  _ ← assert (f_gt short_impact long_impact);
  block ← unwrap (blocks pl !! 0%nat);
  assert (near (max_impact block) short_impact (f32_lit 1 1000000)).

Definition test_multiple_blocks : IO unit :=
  let pl := foldl (fun pl i => pl_add pl (Z.of_nat i) 1 8) pl_new (seq 0 130) in
  assert_eq (length (blocks (rebuild_blocks pl (f32_of_Z 8)))) 3%nat.

Definition test_merge_deduplicates : IO unit :=
  let pl1 := pl_add (pl_add pl_new 1 1 5) 3 1 5 in
  let pl2 := pl_add (pl_add pl_new 2 1 5) 3 2 5 in
  let merged := rebuild_blocks (pl_merge [pl1; pl2]) (f32_of_Z 5) in
  _ ← assert_eq (pl_len merged) 3%nat;
  p ← unwrap (postings merged !! 2%nat);
  _ ← assert_eq (p_doc_id p) 3;
  assert_eq (p_term_freq p) 3.

Definition test_varint_roundtrip : IO unit :=
  io_fold (fun _ val =>
    decoded ← lift (decode_varint (encode_varint val) 0);
    assert_eq decoded.1 val) tt [0; 1; 127; 128; 255; 256; 16383; 16384; u32_max].

(** ** docstore.rs *)
Definition make_doc (id : Z) (title : string) : Document := {|
  doc_id := id;
  doc_title := title;
  doc_description := "Description for " +:+ title;
  doc_price := f64_mul (f64_of_Z id) (f64_of_Z 100);
  doc_category := "test";
  doc_attributes := ∅;
|}.

Definition test_docstore_roundtrip : IO unit :=
  dir ← temp_dir;
  let writer := dw_add (dw_add (dw_add dw_new (make_doc 1 "Samsung Galaxy"))
    (make_doc 2 "Apple iPhone")) (make_doc 3 "Google Pixel") in
  _ ← dw_write writer dir;
  reader ← dr_open dir;
  _ ← assert_eq (dr_doc_count reader) 3;
  _ ← assert_eq (live_doc_count reader) 3;
  doc ← lift (dr_get reader 0); doc0 ← unwrap doc;
  _ ← assert_eq (doc_id doc0) 1;
  _ ← assert_eq (doc_title doc0) "Samsung Galaxy";
  doc ← lift (dr_get reader 2); doc2 ← unwrap doc;
  _ ← assert_eq (doc_id doc2) 3;
  _ ← assert_eq (doc_title doc2) "Google Pixel";
  doc3 ← lift (dr_get reader 3);
  assert (is_none doc3).

Definition test_deletion_bitmap : IO unit :=
  dir ← temp_dir;
  let writer := dw_add (dw_add (dw_add dw_new (make_doc 1 "Doc A")) (make_doc 2 "Doc B")) (make_doc 3 "Doc C") in
  _ ← dw_write writer dir;
  _ ← mark_deleted dir 1;
  reader ← dr_open dir;
  _ ← assert_eq (dr_doc_count reader) 3;
  _ ← assert_eq (live_doc_count reader) 2;
  doc0 ← lift (dr_get reader 0); _ ← assert (is_some doc0);
  doc1 ← lift (dr_get reader 1); _ ← assert (is_none doc1);
  doc2 ← lift (dr_get reader 2); _ ← assert (is_some doc2);
  assert (is_deleted reader 1).

Definition test_empty_docstore : IO unit :=
  dir ← temp_dir;
  _ ← dw_write dw_new dir;
  reader ← dr_open dir;
  _ ← assert_eq (dr_doc_count reader) 0;
  doc ← lift (dr_get reader 0);
  assert (is_none doc).

(** ** inverted.rs *)
Definition add_terms (l : list (string * Z * Z)) : InvertedIndexWriter :=
  foldl (fun w '(term, doc_id, doc_len) => add_term w term doc_id doc_len) iw_new l.

Definition test_write_and_read : IO unit :=
  dir ← temp_dir;
  let seg := join dir "seg" in
  let w := add_terms [("samsung", 0, 5); ("galaxy", 0, 5); ("samsung", 1, 6); ("phone", 1, 6);
    ("samsung", 2, 4); ("galaxy", 2, 4); ("galaxy", 2, 4)] in
  _ ← iw_write w seg (f32_of_Z 5);
  r ← ir_open seg;
  samsung ← lift (get_postings r "samsung"); samsung ← unwrap samsung;
  _ ← assert_eq (pl_len samsung) 3%nat;
  galaxy ← lift (get_postings r "galaxy"); galaxy ← unwrap galaxy;
  p ← unwrap (postings galaxy !! 1%nat);
  _ ← assert_eq (p_term_freq p) 2;
  assert_eq (ir_term_count r) 3%nat.

Definition test_blocks_written : IO unit :=
  dir ← temp_dir;
  let seg := join dir "seg" in
  let w := foldl (fun w i => add_term w "common" (Z.of_nat i) 8) iw_new (seq 0 100) in
  _ ← iw_write w seg (f32_of_Z 8);
  r ← ir_open seg;
  pl ← lift (get_postings r "common"); pl ← unwrap pl;
  _ ← assert_eq (pl_len pl) 100%nat;
  _ ← assert_eq (length (blocks pl)) 2%nat;
  block ← unwrap (blocks pl !! 0%nat);
  assert (f_gt (max_impact block) f_zero).

Definition test_fuzzy_search : IO unit :=
  dir ← temp_dir;
  let seg := join dir "seg" in
  _ ← iw_write (add_terms [("samsung", 0, 5); ("samsnug", 1, 5); ("apple", 2, 4)]) seg (f32_of_Z 5);
  r ← ir_open seg;
  results ← lift (fuzzy_search r "samsung" 2);
  let terms := results.*1 in
  _ ← assert (bool_decide ("samsung" ∈ terms));
  assert (bool_decide ("samsnug" ∈ terms)).

Definition test_prefix_search : IO unit :=
  dir ← temp_dir;
  let seg := join dir "seg" in
  _ ← iw_write (add_terms [("samsung", 0, 5); ("sandisk", 1, 5); ("apple", 2, 4)]) seg (f32_of_Z 5);
  r ← ir_open seg;
  results ← lift (prefix_search r "sam");
  assert_eq results.*1 ["samsung"].

(** ** column.rs *)
Definition build_test_store : ColumnStore :=
  let cat_writer := foldl kw_add kw_new
    ["electronics"; "electronics"; "clothing"; "electronics"; "clothing"] in
  let price_writer := foldl nw_add nw_new
    [f64_lit 79999 100; f64_lit 29999 100; f64_lit 4999 100; f64_lit 99999 100; f64_lit 2999 100] in
  let brand_writer := foldl kw_add kw_new ["samsung"; "apple"; "nike"; "samsung"; "adidas"] in
  {| keyword_columns := <["brand" := kw_build brand_writer]> (<["category" := kw_build cat_writer]> ∅);
     numeric_columns := <["price" := nw_build price_writer]> ∅ |}.

Definition test_filter_eq : IO unit :=
  let result := cs_filter_eq build_test_store "category" "electronics" in
  _ ← assert_eq (rb_len result) 3%nat;
  _ ← assert (rb_contains result 0);
  _ ← assert (rb_contains result 1);
  assert (rb_contains result 3).

Definition test_filter_eq_no_match : IO unit :=
  assert (rb_is_empty (cs_filter_eq build_test_store "category" "food")).

Definition test_filter_in : IO unit :=
  let result := cs_filter_in build_test_store "brand" ["samsung"; "apple"] in
  _ ← assert_eq (rb_len result) 3%nat;
  _ ← assert (rb_contains result 0);
  _ ← assert (rb_contains result 1);
  assert (rb_contains result 3).

Definition test_filter_range : IO unit :=
  let result := cs_filter_range build_test_store "price" (Some (f64_of_Z 100)) (Some (f64_of_Z 800)) in
  _ ← assert_eq (rb_len result) 2%nat;
  _ ← assert (rb_contains result 0);
  assert (rb_contains result 1).

Definition test_filter_range_open : IO unit :=
  assert_eq (rb_len (cs_filter_range build_test_store "price" (Some (f64_of_Z 500)) None)) 2%nat.

Definition test_filter_combination : IO unit :=
  let cat := cs_filter_eq build_test_store "category" "electronics" in
  let price := cs_filter_range build_test_store "price" (Some (f64_of_Z 500)) None in
  let combined := rb_and cat price in
  _ ← assert_eq (rb_len combined) 2%nat;
  _ ← assert (rb_contains combined 0);
  assert (rb_contains combined 3).

(** [counts.iter().find(|(v, _)| v == value).unwrap().1]. *)
Definition count_of (counts : list (string * Z)) (value : string) : IO Z :=
  unwrap (snd <$> find (fun c => bool_decide (c.1 = value)) counts).

Definition test_aggregate_counts : IO unit :=
  let all := rb_from [0; 1; 2; 3; 4] in
  let counts := cs_aggregate_counts build_test_store "category" all in
  electronics ← count_of counts "electronics";
  clothing ← count_of counts "clothing";
  _ ← assert_eq electronics 3;
  assert_eq clothing 2.

Definition test_aggregate_counts_with_filter : IO unit :=
  let expensive := cs_filter_range build_test_store "price" (Some (f64_of_Z 200)) None in
  let counts := cs_aggregate_counts build_test_store "brand" expensive in
  samsung ← count_of counts "samsung";
  assert_eq samsung 2.

Definition test_column_store_roundtrip : IO unit :=
  dir ← temp_dir;
  _ ← cs_write build_test_store dir;
  loaded ← cs_read dir;
  assert_eq (rb_len (cs_filter_eq loaded "category" "electronics")) 3%nat.

(** ** segment.rs *)
Definition test_schema : IndexSchema := default_product_schema.

Definition make_docs (n : nat) : list Document :=
  (fun i : nat =>
    {| doc_id := Z.of_nat i;
       doc_title := "Product " +:+ format_u64 (Z.of_nat i) +:+ " Samsung Galaxy";
       doc_description := "This is product number " +:+ format_u64 (Z.of_nat i) +:+ " with great features";
       doc_price := f64_add (f64_mul (f64_of_Z (Z.of_nat i)) (f64_of_Z 100)) (f64_lit 999 100);
       doc_category := nth (i mod 2) ["electronics"; "clothing"] "";
       doc_attributes := {["brand" := VString (nth (i mod 4) ["samsung"; "apple"; "nike"; "adidas"] "")]} |})
  <$> seq 0 n.

Definition test_segment_write_and_read : IO unit :=
  dir ← temp_dir;
  let seg_dir := join dir "seg-0001" in
  _ ← sw_write (mkSegmentWriter test_schema) "seg-0001" (make_docs 100) seg_dir;
  reader ← sr_open seg_dir;
  _ ← assert_eq (sm_doc_count (sr_meta reader)) 100;
  _ ← assert_eq (sm_segment_id (sr_meta reader)) "seg-0001";
  pl ← lift (search_term reader "samsung"); pl ← unwrap pl;
  _ ← assert (negb (pl_is_empty pl));
  doc ← lift (get_doc reader 0); doc ← unwrap doc;
  _ ← assert_eq (doc_id doc) 0;
  assert (str_contains (doc_title doc) "Samsung").

Definition test_segment_filters : IO unit :=
  dir ← temp_dir;
  let seg_dir := join dir "seg" in
  _ ← sw_write (mkSegmentWriter test_schema) "seg" (make_docs 10) seg_dir;
  reader ← sr_open seg_dir;
  _ ← assert_eq (rb_len (sr_filter_eq reader "category" "electronics")) 5%nat;
  assert (negb (rb_is_empty (sr_filter_range reader "price" (Some (f64_of_Z 500)) None))).

Definition test_segment_aggregations : IO unit :=
  dir ← temp_dir;
  let seg_dir := join dir "seg" in
  _ ← sw_write (mkSegmentWriter test_schema) "seg" (make_docs 20) seg_dir;
  reader ← sr_open seg_dir;
  let counts := sr_aggregate_counts reader "category" (all_live_docs reader) in
  electronics ← count_of counts "electronics";
  clothing ← count_of counts "clothing";
  _ ← assert_eq electronics 10;
  assert_eq clothing 10.

Definition test_segment_with_deletions : IO unit :=
  dir ← temp_dir;
  let seg_dir := join dir "seg" in
  _ ← sw_write (mkSegmentWriter test_schema) "seg" (make_docs 10) seg_dir;
  _ ← mark_deleted seg_dir 0;
  _ ← mark_deleted seg_dir 1;
  reader ← sr_open seg_dir;
  _ ← assert_eq (live_doc_count (sr_docs reader)) 8;
  doc0 ← lift (get_doc reader 0); _ ← assert (is_none doc0);
  doc1 ← lift (get_doc reader 1); _ ← assert (is_none doc1);
  doc2 ← lift (get_doc reader 2); _ ← assert (is_some doc2);
  let all := all_live_docs reader in
  _ ← assert_eq (rb_len all) 8%nat;
  _ ← assert (negb (rb_contains all 0));
  assert (negb (rb_contains all 1)).

Definition test_segment_fuzzy_search : IO unit :=
  dir ← temp_dir;
  let seg_dir := join dir "seg" in
  _ ← sw_write (mkSegmentWriter test_schema) "seg" (make_docs 5) seg_dir;
  reader ← sr_open seg_dir;
  results ← lift (fuzzy_search_term reader "samsnug" 2);
  assert (bool_decide ("samsung" ∈ results.*1)).

(** The test of a thousand documents is too long to run here. *)
Definition index_tests : list (IO unit) := [
  test_posting_list_roundtrip; test_empty_posting_list; test_block_max_scores; test_multiple_blocks;
  test_merge_deduplicates; test_varint_roundtrip;
  test_docstore_roundtrip; test_deletion_bitmap; test_empty_docstore;
  test_write_and_read; test_blocks_written; test_fuzzy_search; test_prefix_search;
  test_filter_eq; test_filter_eq_no_match; test_filter_in; test_filter_range; test_filter_range_open;
  test_filter_combination; test_aggregate_counts; test_aggregate_counts_with_filter;
  test_column_store_roundtrip;
  test_segment_write_and_read; test_segment_filters; test_segment_aggregations;
  test_segment_with_deletions; test_segment_fuzzy_search
].

Lemma index_tests_pass : forallb passes index_tests = true.
Proof. vm_compute. reflexivity. Qed.
