(* ===== verification/TestsQuery.v ===== *)
(** The unit tests of [crates/query/src], run on the model. *)
From S2P Require Import Prelude Bytes Order Float Types Config Text Decimal Analysis Posting Disk.
From S2P Require Import Inverted Column DocStore Segment Scorer Collector Understanding Wand.
From S2P Require Import Executor Multi Testing.
Import TestLibs StableOrder SeriesLn.

Local Open Scope Z_scope.
Local Open Scope string_scope.

(** ** understanding.rs *)
Definition test_tokenizer_analyzer : IO unit :=
  let pipeline := qu_default_for_schema default_product_schema in
  let pq := qu_run pipeline "Computadora gamer i7" in
  _ ← assert (negb (bool_decide (pq_tokens pq = [])));
  assert (match pq_boolean_mode pq with BmAnd => true | BmOrFallback => false end).

Definition test_empty_query_produces_no_tokens : IO unit :=
  let pipeline := qu_default_for_schema default_product_schema in
  assert_eq (pq_tokens (qu_run pipeline "")) [].

Definition test_language_override : IO unit :=
  let pipeline := mkQUPipeline
    [TokenizerAnalyzer default_product_schema; LanguageAnalyzer (Some Portuguese)] in
  assert_eq (pq_language (qu_run pipeline "computador")) Portuguese.

(** ** scorer.rs *)
Definition test_idf_rare_term : IO unit := assert (f_gt (idf 10000 1) (f32_of_Z 5)).
Definition test_idf_common_term : IO unit := assert (f_lt (idf 100 100) (f32_lit 1 100)).
Definition test_bm25_score_basic : IO unit :=
  assert (f_gt (term_score Bm25Scorer_default 2 10 (f32_of_Z 10) (idf 100 10)) f_zero).
Definition test_short_doc_scores_higher : IO unit :=
  let short := term_score Bm25Scorer_default 1 5 (f32_of_Z 20) one in
  let long := term_score Bm25Scorer_default 1 40 (f32_of_Z 20) one in
  assert (f_gt short long).

(** ** collector.rs *)
Definition scored (scores : list f32) : list ScoredDoc :=
  imap (fun i score =>
    {| sd_segment_ord := 0; sd_local_doc_id := Z.of_nat i; sd_global_doc_id := Z.of_nat i;
       sd_score := score; sd_sort_value := Some (f64_of_f32 score) |}) scores.

Definition test_top_n_by_score : IO unit :=
  let docs := scored [f32_lit 1 10; f32_lit 9 10; f32_lit 5 10; f32_lit 3 10; f32_lit 8 10] in
  let '(page, total) := collect docs None 0 3 in
  _ ← assert_eq total 5;
  _ ← assert_eq (length page) 3%nat;
  a ← unwrap (page !! 0%nat); b ← unwrap (page !! 1%nat); c ← unwrap (page !! 2%nat);
  _ ← assert (f_ge (sd_score a) (sd_score b) && f_ge (sd_score b) (sd_score c));
  assert (f_eq (sd_score a) (f32_lit 9 10)).

Definition test_pagination : IO unit :=
  let '(page, total) := collect (scored (f32_of_Z <$> [5; 4; 3; 2; 1])) None 2 2 in
  _ ← assert_eq total 5;
  assert_eq (sd_score <$> page) (f32_of_Z <$> [3; 2]).

Definition test_sort_asc : IO unit :=
  let sort := mkSortSpec "price" Asc in
  let '(page, _) := collect (scored (f32_of_Z <$> [3; 1; 2])) (Some sort) 0 10 in
  a ← unwrap (page !! 0%nat); c ← unwrap (page !! 2%nat);
  _ ← assert_eq (sd_sort_value a) (Some (f64_of_Z 1));
  assert_eq (sd_sort_value c) (Some (f64_of_Z 3)).

Definition test_sort_desc : IO unit :=
  let sort := mkSortSpec "price" Desc in
  let '(page, _) := collect (scored (f32_of_Z <$> [3; 1; 2])) (Some sort) 0 10 in
  a ← unwrap (page !! 0%nat);
  assert_eq (sd_sort_value a) (Some (f64_of_Z 3)).

Definition test_offset_beyond_results : IO unit :=
  let '(page, total) := collect (scored (f32_of_Z <$> [1; 2])) None 10 5 in
  _ ← assert_eq total 2;
  assert (bool_decide (length page = 0%nat)).

(** ** wand.rs *)
Definition make_cursor (doc_ids : list Z) (avgdl idf : f32) : TermCursor :=
  let pl := foldl (fun pl id => pl_add pl id 1 8) pl_new doc_ids in
  tc_new (rebuild_blocks pl avgdl) idf avgdl Bm25Scorer_default.

Definition test_wand_single_term : IO unit :=
  let cursors := [make_cursor [0; 1; 2; 3; 4] (f32_of_Z 8) (f32_of_Z 2)] in
  results ← lift (wand_top_k cursors 3 (f32_of_Z 2) one (fun doc_id => Ret (Some (f32_of_Z doc_id))));
  _ ← assert_eq (length results) 3%nat;
  first ← unwrap (head results);
  assert_eq first.1 4.

(** A document other than 1 and 3 that is evaluated would fail the test. *)
Definition test_wand_and_semantics : IO unit :=
  let cursors := [make_cursor [0; 1; 2; 3] (f32_of_Z 8) (f32_of_Z 2);
                  make_cursor [1; 3; 5] (f32_of_Z 8) (f32_of_Z 3)] in
  results ← lift (wand_top_k cursors 10 (f32_of_Z 2) one (fun doc_id =>
    if bool_decide (doc_id ∈ [1; 3]) then Ret (Some one) else Panic));
  assert_eq (sort_by Z.compare results.*1) [1; 3].

Definition test_wand_empty_result_when_no_intersection : IO unit :=
  let cursors := [make_cursor [0; 2; 4] (f32_of_Z 8) one; make_cursor [1; 3; 5] (f32_of_Z 8) one] in
  results ← lift (wand_top_k cursors 10 (f32_of_Z 2) one (fun _ => Ret (Some one)));
  assert (bool_decide (length results = 0%nat)).

(** ** multi.rs *)
Definition make_doc (id : Z) (title category : string) : Document := {|
  doc_id := id;
  doc_title := title;
  doc_description := "desc";
  doc_price := f64_mul (f64_of_Z id) (f64_of_Z 10);
  doc_category := category;
  doc_attributes := ∅;
|}.

(** Each segment has its directory, as each test has its own [TempDir]. *)
Definition open_segment (name : string) (docs : list Document) : IO (SegmentReader * SegmentStatistics) :=
  dir ← temp_dir;
  let seg_dir := join dir name in
  let schema := default_product_schema in
  _ ← sw_write (mkSegmentWriter schema) "seg" docs seg_dir;
  reader ← sr_open seg_dir;
  stats ← lift (stats_compute reader schema);
  mret (reader, stats).

Definition test_two_segment_search : IO unit :=
  s1 ← open_segment "1" [make_doc 1 "Samsung Galaxy" "electronics"];
  s2 ← open_segment "2" [make_doc 2 "Samsung Note" "electronics"];
  response ← lift (multi_search (ms_new default_product_schema) [s1; s2] (query_request "samsung" 10) 0);
  _ ← assert_eq (rs_total_hits response) 2;
  assert_eq (length (rs_hits response)) 2%nat.

Definition bucket_count (buckets : list AggregationBucket) (value : string) : IO Z :=
  unwrap (ab_count <$> find (fun b => bool_decide (ab_value b = value)) buckets).

Definition test_aggregation_merge : IO unit :=
  s1 ← open_segment "1" [make_doc 1 "Samsung phone" "electronics"; make_doc 2 "Nike shoes" "clothing"];
  s2 ← open_segment "2" [make_doc 3 "Apple phone" "electronics"];
  let req := with_aggregations ["category"] (query_request "" 10) in
  response ← lift (multi_search (ms_new default_product_schema) [s1; s2] req 0);
  cats ← unwrap (rs_aggregations response !! "category");
  elec ← bucket_count cats "electronics";
  cloth ← bucket_count cats "clothing";
  _ ← assert_eq elec 2;
  assert_eq cloth 1.

Definition test_pagination_across_segments : IO unit :=
  let phones := fun n m => (fun i => make_doc (Z.of_nat i) "samsung phone" "electronics") <$> seq n m in
  s1 ← open_segment "1" (phones 1%nat 5%nat);
  s2 ← open_segment "2" (phones 6%nat 5%nat);
  response ← lift (multi_search (ms_new default_product_schema) [s1; s2] (query_request "samsung" 3) 0);
  _ ← assert_eq (rs_total_hits response) 10;
  assert_eq (length (rs_hits response)) 3%nat.

(** ** executor.rs *)
Definition make_product (id : Z) (title description category : string) (price : Z) : Document := {|
  doc_id := id; doc_title := title; doc_description := description; doc_price := f64_of_Z price;
  doc_category := category; doc_attributes := ∅ |}.

(** [write_and_open], the statistics and the executor, then [execute]. *)
Definition execute_on (docs : list Document) (req : SearchRequest) : IO SegmentSearchResult :=
  s ← open_segment "seg" docs;
  lift (execute (qe_new default_product_schema) s.1 s.2 0 req).

Definition default_request (query : string) : SearchRequest := query_request query 10.

Definition found (r : SegmentSearchResult) : list Z := sd_global_doc_id <$> ssr_scored_docs r.
Definition score_of (r : SegmentSearchResult) (id : Z) : IO f32 :=
  unwrap (sd_score <$> find (fun d => (sd_global_doc_id d =? id)%Z) (ssr_scored_docs r)).

Definition test_single_term_query : IO unit :=
  result ← execute_on [
    make_product 1 "Samsung Galaxy phone" "Great Android phone" "electronics" 999;
    make_product 2 "Apple iPhone" "iOS device" "electronics" 1199;
    make_product 3 "Nike shoes" "Running shoes" "clothing" 89] (default_request "samsung");
  assert_eq (found result) [1].

Definition test_title_boost_over_description : IO unit :=
  result ← execute_on [
    make_product 1 "samsung phone" "generic device" "electronics" 100;
    make_product 2 "generic phone" "samsung android" "electronics" 100] (default_request "samsung");
  _ ← assert_eq (length (ssr_scored_docs result)) 2%nat;
  title_score ← score_of result 1;
  desc_score ← score_of result 2;
  assert (f_gt title_score desc_score).

Definition test_with_filter : IO unit :=
  result ← execute_on [
    make_product 1 "Samsung phone" "Android" "electronics" 500;
    make_product 2 "Samsung shirt" "Cotton" "clothing" 30]
    (with_filters {["category" := FEquality "electronics"]} (default_request "samsung"));
  assert_eq (found result) [1].

Definition test_with_aggregations : IO unit :=
  result ← execute_on [
    make_product 1 "Samsung phone" "Android" "electronics" 500;
    make_product 2 "Apple phone" "iOS" "electronics" 800;
    make_product 3 "Nike shoes" "Running" "clothing" 90]
    (with_aggregations ["category"] (default_request "phone"));
  cats ← unwrap (ssr_aggregations result !! "category");
  elec ← unwrap (snd <$> find (fun c => bool_decide (c.1 = "electronics")) cats);
  assert_eq elec 2.

Definition test_empty_query_returns_all : IO unit :=
  result ← execute_on [
    make_product 1 "Samsung" "desc" "electronics" 100;
    make_product 2 "Apple" "desc" "electronics" 200] (default_request "");
  assert_eq (length (ssr_scored_docs result)) 2%nat.

Definition test_fuzzy_query : IO unit :=
  result ← execute_on [make_product 1 "samsung phone" "Android" "electronics" 500]
    (default_request "samsang");
  assert_eq (length (ssr_scored_docs result)) 1%nat.

Definition test_and_semantics_multi_term : IO unit :=
  result ← execute_on [
    make_product 1 "Apple iPhone 15" "" "electronics" 1000;
    make_product 2 "Bafle Iron 15 Pulgadas" "" "audio" 200;
    make_product 3 "iPhone case accessories" "" "accessories" 20] (default_request "iphone 15");
  assert_eq (found result) [1].

Definition query_tests : list (IO unit) := [
  test_tokenizer_analyzer; test_empty_query_produces_no_tokens; test_language_override;
  test_idf_rare_term; test_idf_common_term; test_bm25_score_basic; test_short_doc_scores_higher;
  test_top_n_by_score; test_pagination; test_sort_asc; test_sort_desc; test_offset_beyond_results;
  test_wand_single_term; test_wand_and_semantics; test_wand_empty_result_when_no_intersection;
  test_two_segment_search; test_aggregation_merge; test_pagination_across_segments;
  test_single_term_query; test_title_boost_over_description; test_with_filter; test_with_aggregations;
  test_empty_query_returns_all; test_fuzzy_query; test_and_semantics_multi_term
].

Lemma query_tests_pass : forallb passes query_tests = true.
Proof. vm_compute. reflexivity. Qed.
