(* ===== verification/TestsShard.v ===== *)
(** The unit tests of [crates/shard/src], run on the model. *)
From S2P Require Import Prelude Bytes Order Float Types Config Text Decimal Analysis Posting Disk.
From S2P Require Import Inverted Column DocStore Segment Scorer Collector Understanding Wand.
From S2P Require Import Executor Multi Object Wal WriteBuffer SegmentList Proto Replication Shard.
From S2P Require Import ShardSpecs Async ShardGrpc Testing.
Import TestLibs StableOrder CountableSerde FreshTemp SeriesLn.

Local Open Scope Z_scope.
Local Open Scope string_scope.

(** ** wal.rs *)
Definition wal_doc (id : Z) : Document := {|
  doc_id := id; doc_title := "Doc " +:+ format_u64 id; doc_description := "test";
  doc_price := f64_of_Z id; doc_category := "test"; doc_attributes := ∅ |}.

Definition indexes (entry : option WalEntry) (id : Z) : bool :=
  match entry with Some (WalIndex d) => (doc_id d =? id)%Z | _ => false end.
Definition deletes (entry : option WalEntry) (id : Z) : bool :=
  match entry with Some (WalDelete i) => (i =? id)%Z | _ => false end.

Definition test_append_and_read : IO unit :=
  dir ← temp_dir;
  wal ← wal_open (join dir "test.wal");
  on_object wal (
    _ ← append (WalIndex (wal_doc 1));
    _ ← append (WalDelete 42);
    _ ← append (WalIndex (wal_doc 2));
    entries ← read_all;
    _ ← check_eq (length entries) 3%nat;
    _ ← check (indexes (entries !! 0%nat) 1);
    _ ← check (deletes (entries !! 1%nat) 42);
    check (indexes (entries !! 2%nat) 2)).

Definition test_truncate : IO unit :=
  dir ← temp_dir;
  wal ← wal_open (join dir "test.wal");
  on_object wal (
    _ ← append (WalIndex (wal_doc 1));
    _ ← truncate;
    entries ← read_all;
    check (bool_decide (length entries = 0%nat))).

Definition test_empty_wal : IO unit :=
  dir ← temp_dir;
  wal ← wal_open (join dir "test.wal");
  on_object wal (
    entries ← read_all;
    check (bool_decide (length entries = 0%nat))).

Definition test_persist_and_reopen : IO unit :=
  dir ← temp_dir;
  let path := join dir "test.wal" in
  wal ← wal_open path;
  _ ← on_object wal (
    _ ← append (WalIndex (wal_doc 10));
    append (WalDelete 99));
  wal ← wal_open path;
  on_object wal (
    entries ← read_all;
    _ ← check_eq (length entries) 2%nat;
    _ ← check (indexes (entries !! 0%nat) 10);
    check (deletes (entries !! 1%nat) 99)).

(** ** segment_list.rs and merge.rs *)
Definition listed_doc (id : Z) (title : string) : Document := {|
  doc_id := id; doc_title := title; doc_description := "desc"; doc_price := f_zero;
  doc_category := "test"; doc_attributes := ∅ |}.

Definition list_entry (dir : path) (seg_id : string) (docs : list Document) (schema : IndexSchema)
  : IO SegmentEntry :=
  let seg_dir := join dir seg_id in
  _ ← sw_write (mkSegmentWriter schema) seg_id docs seg_dir;
  reader ← sr_open seg_dir;
  stats ← lift (stats_compute reader schema);
  mret {| se_segment_id := seg_id; se_dir := seg_dir; se_reader := reader; se_stats := stats |}.

Definition schema : IndexSchema := default_product_schema.

(** [list.get_doc(id)]. *)
Definition doc_of (id : Z) : Obj SegmentList (option Document) :=
  list ← get_self; obj_lift (sl_get_doc list id).

Definition test_open_empty_dir : IO unit :=
  dir ← temp_dir;
  list ← sl_open dir schema;
  _ ← assert_eq (segment_count list) 0%nat;
  assert_eq (total_live_docs list) 0.

Definition test_add_and_get_doc : IO unit :=
  dir ← temp_dir;
  list ← sl_open dir schema;
  entry ← list_entry dir "seg-000001" [listed_doc 1 "Samsung"; listed_doc 2 "Apple"] schema;
  on_object list (
    _ ← add_segment entry;
    list ← get_self;
    _ ← check_eq (segment_count list) 1%nat;
    _ ← check_eq (total_live_docs list) 2;
    doc ← doc_of 1; _ ← check (is_some doc);
    doc ← doc_of 99; check (is_none doc)).

Definition test_mark_deleted : IO unit :=
  dir ← temp_dir;
  list ← sl_open dir schema;
  entry ← list_entry dir "seg-000001" [listed_doc 1 "Samsung"; listed_doc 2 "Apple"] schema;
  on_object list (
    _ ← add_segment entry;
    found ← sl_mark_deleted 1;
    _ ← check found;
    doc ← doc_of 1; check (is_none doc)).

Definition test_replace_segments : IO unit :=
  dir ← temp_dir;
  list ← sl_open dir schema;
  e1 ← list_entry dir "seg-000001" [listed_doc 1 "Samsung"] schema;
  e2 ← list_entry dir "seg-000002" [listed_doc 2 "Apple"] schema;
  merged ← list_entry dir "seg-000003" [listed_doc 1 "Samsung"; listed_doc 2 "Apple"] schema;
  on_object list (
    _ ← add_segment e1;
    _ ← add_segment e2;
    list ← get_self;
    _ ← check_eq (segment_count list) 2%nat;
    _ ← replace_segments ["seg-000001"; "seg-000002"] merged;
    list ← get_self;
    _ ← check_eq (segment_count list) 1%nat;
    doc ← doc_of 1; _ ← check (is_some doc);
    doc ← doc_of 2; check (is_some doc)).

Definition test_open_existing_segments : IO unit :=
  dir ← temp_dir;
  _ ← sw_write (mkSegmentWriter schema) "seg-000001" [listed_doc 10 "Samsung"; listed_doc 20 "Apple"]
        (join dir "seg-000001");
  list ← sl_open dir schema;
  _ ← assert_eq (segment_count list) 1%nat;
  on_object list (doc ← doc_of 10; check (is_some doc)).

Definition merge_doc (id : Z) (title : string) : Document := {|
  doc_id := id; doc_title := title; doc_description := "desc"; doc_price := f64_of_Z id;
  doc_category := "test"; doc_attributes := ∅ |}.

Definition test_tiered_policy_no_merge_needed : IO unit :=
  dir ← temp_dir;
  let docs := [merge_doc 1 "Samsung"] in
  e1 ← list_entry dir "seg-000001" docs schema;
  e2 ← list_entry dir "seg-000002" docs schema;
  let policy := {| min_segments_to_merge := 3; max_merge_at_once := 10 |} in
  merges ← lift (find_merges policy [e1; e2]);
  assert_eq merges [].

Definition test_tiered_policy_triggers_merge : IO unit :=
  dir ← temp_dir;
  let docs := [merge_doc 1 "Samsung"] in
  e1 ← list_entry dir "seg-000001" docs schema;
  e2 ← list_entry dir "seg-000002" docs schema;
  e3 ← list_entry dir "seg-000003" docs schema;
  merges ← lift (find_merges TieredMergePolicy_default [e1; e2; e3]);
  _ ← assert_eq (length merges) 1%nat;
  first ← unwrap (head merges);
  assert_eq (length first) 3%nat.

Definition test_merge_execution : IO unit :=
  dir ← temp_dir;
  e1 ← list_entry dir "seg-000001" [merge_doc 1 "Samsung"; merge_doc 2 "Apple"] schema;
  e2 ← list_entry dir "seg-000002" [merge_doc 3 "Nike"] schema;
  merged ← execute_merge schema [e1; e2] "seg-000003" (join dir "seg-000003");
  _ ← assert_eq (sm_doc_count (sr_meta (se_reader merged))) 3;
  doc ← lift (get_doc (se_reader merged) 0); _ ← assert (is_some doc);
  doc ← lift (get_doc (se_reader merged) 2); assert (is_some doc).

Definition test_merge_excludes_deleted : IO unit :=
  dir ← temp_dir;
  e1 ← list_entry dir "seg-000001" [merge_doc 1 "Samsung"; merge_doc 2 "Apple"] schema;
  _ ← mark_deleted (se_dir e1) 0;
  reader ← sr_open (se_dir e1);
  stats ← lift (stats_compute reader schema);
  let e1 := {| se_segment_id := "seg-000001"; se_dir := se_dir e1; se_reader := reader; se_stats := stats |} in
  merged ← execute_merge schema [e1] "seg-000002" (join dir "seg-000002");
  assert_eq (sm_doc_count (sr_meta (se_reader merged))) 1.

(** ** write_buffer.rs *)
Definition buffered_doc (id : Z) (title : string) : Document := {|
  doc_id := id; doc_title := title; doc_description := "test desc";
  doc_price := f64_mul (f64_of_Z id) (f64_of_Z 10); doc_category := "electronics"; doc_attributes := ∅ |}.

Definition add (doc : Document) : Obj WriteBuffer bool := call_self (wb_add doc).

(** The search of the tests, over the buffer's segment alone. *)
Definition search_buffer (query : string) : Obj WriteBuffer SearchResponse :=
  segment ← reader_and_stats;
  segment ← obj_unwrap segment;
  obj_lift (multi_search (ms_new schema) [segment] (query_request query 10) 0).

Definition test_add_and_search : IO unit :=
  on_object (wb_new schema (1024 * 1024)%Z) (
    _ ← add (buffered_doc 1 "Samsung Galaxy");
    _ ← add (buffered_doc 2 "Apple iPhone");
    resp ← search_buffer "samsung";
    check_eq (hit_id <$> rs_hits resp) [1]).

Definition test_capacity : IO unit :=
  on_object (wb_new schema 100) (
    full ← add (buffered_doc 1 "Samsung Galaxy phone with great camera and display");
    check full).

Definition test_drain : IO unit :=
  on_object (wb_new schema (1024 * 1024)%Z) (
    _ ← add (buffered_doc 1 "Samsung");
    _ ← add (buffered_doc 2 "Apple");
    '(docs, _) ← drain;
    _ ← check_eq (length docs) 2%nat;
    buf ← get_self;
    _ ← check (wb_is_empty buf);
    check_eq (wb_doc_count buf) 0%nat).

Definition test_delete_in_buffer : IO unit :=
  on_object (wb_new schema (1024 * 1024)%Z) (
    _ ← add (buffered_doc 1 "Samsung Galaxy");
    _ ← add (buffered_doc 2 "Apple iPhone");
    _ ← modify_self (wb_mark_deleted 1);
    resp ← search_buffer "";
    check_eq (hit_id <$> rs_hits resp) [2]).

Definition storage_tests : list (IO unit) := [
  test_append_and_read; test_truncate; test_empty_wal;
  test_persist_and_reopen;
  test_open_empty_dir; test_add_and_get_doc;
  test_mark_deleted; test_replace_segments;
  test_open_existing_segments; test_tiered_policy_no_merge_needed;
  test_tiered_policy_triggers_merge; test_merge_execution;
  test_merge_excludes_deleted;
  test_add_and_search; test_capacity; test_drain;
  test_delete_in_buffer
].

Lemma storage_tests_pass : forallb passes storage_tests = true.
Proof. vm_compute. reflexivity. Qed.
