(* ===== verification/TestsEngine.v ===== *)
(** The tests of the shard engine ([crates/shard/src/shard.rs]) and of its
    replication ([replication_tests.rs]), run on the model.  Where a test starts
    a server, the handler is called; where it waits for the background task, the
    task sends what is in its queue. *)
From S2P Require Import Prelude Bytes Order Float Types Config Text Decimal Analysis Posting Disk.
From S2P Require Import Inverted Column DocStore Segment Scorer Collector Understanding Wand.
From S2P Require Import Executor Multi Object Wal WriteBuffer SegmentList Proto Replication Shard.
From S2P Require Import ShardSpecs Async ShardGrpc Testing.
Import TestLibs StableOrder CountableSerde FreshTemp SeriesLn.

Local Open Scope Z_scope.
Local Open Scope string_scope.

(** ** shard.rs *)
Definition with_role (role : ShardRole) (c : ShardConfig) : ShardConfig :=
  mkShardConfig (sc_grpc_port c) (sc_shard_id c) (sc_data_dir c) (sc_num_shards c)
    (sc_write_buffer_size c) (sc_merge_threads c) role (sc_replica_endpoints c)
    (sc_replica_endpoint_template c) (sc_primary_endpoint c) (sc_primary_endpoint_template c).
Definition with_endpoints (replicas : list string) (primary : option string) (c : ShardConfig) : ShardConfig :=
  mkShardConfig (sc_grpc_port c) (sc_shard_id c) (sc_data_dir c) (sc_num_shards c)
    (sc_write_buffer_size c) (sc_merge_threads c) (sc_role c) replicas
    (sc_replica_endpoint_template c) primary (sc_primary_endpoint_template c).
Definition with_buffer_size (n : Z) (c : ShardConfig) : ShardConfig :=
  mkShardConfig (sc_grpc_port c) (sc_shard_id c) (sc_data_dir c) (sc_num_shards c)
    n (sc_merge_threads c) (sc_role c) (sc_replica_endpoints c)
    (sc_replica_endpoint_template c) (sc_primary_endpoint c) (sc_primary_endpoint_template c).

Definition make_config (data_dir : string) : ShardConfig :=
  let c := ShardConfig_default in
  with_buffer_size (1024 * 1024)%Z
    (mkShardConfig (sc_grpc_port c) (sc_shard_id c) data_dir (sc_num_shards c)
      (sc_write_buffer_size c) (sc_merge_threads c) (sc_role c) (sc_replica_endpoints c)
      (sc_replica_endpoint_template c) (sc_primary_endpoint c) (sc_primary_endpoint_template c)).

Definition make_doc (id : Z) (title category : string) : Document := {|
  doc_id := id; doc_title := title; doc_description := "a great product";
  doc_price := f64_mul (f64_of_Z id) (f64_of_Z 100); doc_category := category; doc_attributes := ∅ |}.

(** [ShardEngine::open(config, schema).await.unwrap()]. *)
Definition open (config : ShardConfig) : IO ShardEngine :=
  shard_open no_primary config default_product_schema.

Definition search (query : string) (limit : Z) : Obj ShardEngine SearchResponse :=
  shard_search (query_request query limit) 0.
Definition stats_of {A} (field : ShardStats -> A) : Obj ShardEngine A :=
  s ← get_self; mret (field (shard_stats s)).

(** [for i in 1..=n { shard.index(make_doc(i, title, "electronics")) }]. *)
Definition index_all (make_doc : Z -> string -> string -> Document) (n : nat) (title : string)
  : Obj ShardEngine unit :=
  obj_for (fun i => shard_index (make_doc (Z.of_nat i) title "electronics")) (seq 1 n).

Definition test_index_and_search : IO unit :=
  shard ← open (make_config "tmp");
  on_object shard (
    _ ← shard_index (make_doc 1 "Samsung Galaxy phone" "electronics");
    _ ← shard_index (make_doc 2 "Apple iPhone device" "electronics");
    _ ← shard_index (make_doc 3 "Nike running shoes" "clothing");
    resp ← search "samsung" 10;
    check_eq (hit_id <$> rs_hits resp) [1]).

Definition test_delete_and_search : IO unit :=
  shard ← open (make_config "tmp");
  on_object shard (
    _ ← shard_index (make_doc 1 "Samsung Galaxy" "electronics");
    _ ← shard_index (make_doc 2 "Samsung Note" "electronics");
    _ ← shard_delete 1;
    resp ← search "samsung" 10;
    check_eq (hit_id <$> rs_hits resp) [2]).

Definition test_flush_and_search : IO unit :=
  shard ← open (make_config "tmp");
  on_object shard (
    _ ← index_all make_doc 10 "Samsung Galaxy product";
    _ ← flush;
    segments ← stats_of ss_segment_count;
    _ ← check_eq segments 1;
    buffered ← stats_of ss_buffer_doc_count;
    _ ← check_eq buffered 0%nat;
    resp ← search "samsung" 20;
    check_eq (length (rs_hits resp)) 10%nat).

Definition test_wal_recovery : IO unit :=
  shard ← open (make_config "tmp");
  _ ← on_object shard (
    _ ← shard_index (make_doc 1 "Samsung Galaxy" "electronics");
    shard_index (make_doc 2 "Apple iPhone" "electronics"));
  shard ← open (make_config "tmp");
  on_object shard (
    resp ← search "samsung" 10;
    check_eq (hit_id <$> rs_hits resp) [1]).

Definition test_merge_triggered : IO unit :=
  shard ← open (with_buffer_size 1 (make_config "tmp"));
  on_object shard (
    _ ← index_all make_doc 5 "Samsung product";
    segments ← stats_of ss_segment_count;
    _ ← check (segments <? 5)%Z;
    resp ← search "samsung" 20;
    check_eq (length (rs_hits resp)) 5%nat).

Definition test_reindex_self : IO unit :=
  shard ← open (make_config "tmp");
  on_object shard (
    _ ← index_all make_doc 10 "Samsung Galaxy product";
    _ ← flush;
    segments ← stats_of ss_segment_count;
    _ ← check_eq segments 1;
    stats ← reindex_self 0;
    _ ← check_eq (rx_docs_reindexed stats) 10;
    segments ← stats_of ss_segment_count;
    _ ← check_eq segments 1;
    resp ← search "samsung" 20;
    check_eq (length (rs_hits resp)) 10%nat).

Definition test_reindex_deletes_old_segments_from_disk : IO unit :=
  shard ← open (with_buffer_size 1 (make_config "tmp"));
  on_object shard (
    _ ← index_all make_doc 5 "Samsung product";
    before ← stats_of ss_segment_count;
    _ ← check (1 <=? before)%Z;
    _ ← reindex_self 0;
    segments ← stats_of ss_segment_count;
    _ ← check_eq segments 1;
    seg_dirs ← obj_io (fun d => (d, Ret (subdirs (join ["tmp"] "segments") d)));
    check_eq (length seg_dirs) 1%nat).

Definition test_replication_manager_noop_on_empty : IO unit :=
  let rm := rm_start [] in
  _ ← assert_eq (rm_replica_count rm) 0%nat;
  assert_eq (rm_replica_count (rm_enqueue 0 (WalDelete 42) rm)) 0%nat.

Definition test_replication_manager_replica_count : IO unit :=
  let rm := rm_start ["http://127.0.0.1:1"] in
  _ ← assert_eq (rm_replica_count rm) 1%nat;
  assert_eq (rm_replica_count (rm_enqueue 1 (WalDelete 1) rm)) 1%nat.

Definition test_apply_replicated_does_not_write_wal : IO unit :=
  shard ← open (with_role Replica (make_config "tmp"));
  on_object shard (
    _ ← apply_replicated (WalIndex (make_doc 1 "Samsung Galaxy" "electronics"));
    resp ← search "samsung" 10;
    _ ← check_eq (hit_id <$> rs_hits resp) [1];
    records ← wal_records_since 0;
    check (bool_decide (length records = 0%nat))).

Definition test_is_replica_flag : IO unit :=
  primary ← open (make_config "dir1");
  _ ← assert (negb (is_replica primary));
  replica ← open (with_role Replica (make_config "dir2"));
  assert (is_replica replica).

(** ** replication_tests.rs *)
Definition great_doc (id : Z) (title category : string) : Document := {|
  doc_id := id; doc_title := title; doc_description := "great product";
  doc_price := f64_mul (f64_of_Z id) (f64_of_Z 100); doc_category := category; doc_attributes := ∅ |}.

(** A remote procedure of the shard, with its answer. *)
Definition rpc {A} (handler : Rpc (ShardEngine * Disk) A) : Obj ShardEngine (outcome Status A) :=
  fun w => let '(w, r) := handler w in (w, Ret r).

Definition test_replicate_rpc_rejected_on_primary : IO unit :=
  primary ← open (make_config "tmp");
  on_object primary (
    result ← rpc (grpc_replicate {| rp_operation := Some (OpDeleteDocId 99); rp_wal_seq := 0 |});
    check (match result with
           | Fail status => bool_decide (st_code status = CFailedPrecondition)
           | _ => false
           end)).

(** The client of a primary that does not change while it is asked. *)
Definition stream {A} (r : outcome Status (list A)) : Result (list (Result A)) :=
  match r with
  | Ret l => Ret (Ret <$> l)
  | Fail s => Fail (EGrpc (st_message s))
  | Panic => Panic
  end.
Definition primary_client (primary : ShardEngine) (d : Disk) (endpoint : string) : PrimaryClient := {|
  pc_connect := Ret tt;
  pc_catch_up seq := stream (grpc_replicate_catch_up seq (primary, d)).2;
  pc_full_sync := stream (grpc_full_sync (primary, d)).2;
|}.

Definition test_replica_catches_up_on_startup : IO unit :=
  primary ← open (make_config "primary");
  primary ← on_object primary (_ ← index_all great_doc 5 "Samsung Galaxy product"; get_self);
  let replica_cfg := with_endpoints [] (Some "http://primary") (with_role Replica (make_config "replica")) in
  replica ← (fun d => shard_open (primary_client primary d) replica_cfg default_product_schema d);
  on_object replica (
    resp ← search "samsung" 10;
    check_eq (rs_total_hits resp) 5).

(** A primary and its replica; the replica's background task sends the queue. *)
Abbreviation Pair := (Obj (ShardEngine * ShardEngine)).
Definition on_primary {A} (m : Obj ShardEngine A) : Pair A := zoom fst (fun p s => (p, s.2)) m.
Definition on_replica {A} (m : Obj ShardEngine A) : Pair A := zoom snd (fun r s => (s.1, r)) m.

Definition take_queue : Obj ShardEngine (list ReplicaEntry) :=
  s ← get_self;
  match sh_replication s with
  | Some rm =>
      _ ← modify_self (set_replication (Some {| rm_senders := (fun _ => []) <$> rm_senders rm |}));
      mret (default [] (head (rm_senders rm)))
  | None => mret []
  end.
Definition replicate_queue : Pair unit :=
  entries ← on_primary take_queue;
  on_replica (obj_for (fun e =>
    ok ← rpc (grpc_replicate (entry_to_proto e));
    check (bool_decide (ok = Ret true))) entries).

Definition open_pair : IO (ShardEngine * ShardEngine) :=
  replica ← open (with_role Replica (make_config "replica"));
  primary ← open (with_endpoints ["http://replica"] None (make_config "primary"));
  mret (primary, replica).

Definition test_primary_replicates_to_replica : IO unit :=
  pair ← open_pair;
  on_object pair (
    _ ← on_primary (shard_index (great_doc 1 "Samsung Galaxy phone" "electronics"));
    _ ← on_primary (shard_index (great_doc 2 "Apple iPhone device" "electronics"));
    _ ← replicate_queue;
    resp ← on_replica (search "samsung" 10);
    check_eq (hit_id <$> rs_hits resp) [1]).

Definition test_delete_replicates_to_replica : IO unit :=
  pair ← open_pair;
  on_object pair (
    _ ← on_primary (shard_index (great_doc 1 "Samsung Galaxy" "electronics"));
    _ ← on_primary (shard_index (great_doc 2 "Apple iPhone" "electronics"));
    _ ← replicate_queue;
    resp ← on_replica (search "samsung" 5);
    _ ← check_eq (rs_total_hits resp) 1;
    _ ← on_primary (shard_delete 1);
    _ ← replicate_queue;
    resp ← on_replica (search "samsung" 5);
    check_eq (rs_total_hits resp) 0).

Definition engine_tests : list (IO unit) := [
  test_index_and_search; test_delete_and_search; test_flush_and_search; test_wal_recovery;
  test_merge_triggered; test_reindex_self; test_reindex_deletes_old_segments_from_disk;
  test_replication_manager_noop_on_empty; test_replication_manager_replica_count;
  test_apply_replicated_does_not_write_wal; test_is_replica_flag;
  test_replicate_rpc_rejected_on_primary; test_replica_catches_up_on_startup;
  test_primary_replicates_to_replica; test_delete_replicates_to_replica
].

Lemma engine_tests_pass : forallb passes engine_tests = true.
Proof. vm_compute. reflexivity. Qed.
