(* ===== verification/TestsRouter.v ===== *)
(** The tests of the router crate ([crates/router/src]), run on the model.  The
    world holds the clock, the shards with their disks, the counters of the
    groups, the query cache and the suggest engines; a sleeping task moves the
    clock, and a time-out strikes when it moved further than allowed.  Left out
    are the load test, which the repository ignores too, and the two of
    thousands of keys (the range of the hash is [jump_hash_correct]). *)
From Stdlib Require Import Strings.Ascii.
From S2P Require Import Prelude Bytes Order Float Types Config Breaker Routing Text Decimal Analysis.
From S2P Require Import Posting Disk Inverted Column DocStore Segment Scorer Collector Understanding.
From S2P Require Import Wand Executor Multi Object Wal WriteBuffer SegmentList Proto Replication.
From S2P Require Import Shard ShardSpecs Async ShardGrpc Suggest Ranker Cache Availability Client.
From S2P Require Import Router RouterSearch Testing.
Import TestLibs StableOrder CountableSerde FreshTemp SeriesLn KeepAll BitsDebug.

Local Open Scope Z_scope.
Local Open Scope string_scope.

(** ** The world of a test *)
Record TestWorld := mkTestWorld {
  tw_clock : Z;
  tw_shards : list (ShardEngine * Disk);
  tw_counters : list Z;
  tw_cache : QueryCache;
  tw_suggest : list SuggestShardEngine;
  tw_breaker : CircuitBreaker;
}.

Definition set_clock (t : Z) (w : TestWorld) : TestWorld :=
  mkTestWorld t (tw_shards w) (tw_counters w) (tw_cache w) (tw_suggest w) (tw_breaker w).

#[local] Instance clocked : Runtime TestWorld := {
  now_ms := tw_clock;
  elapsed_ms := fun _ => 0;
  timeout := fun A ms m w =>
    let '(w', r) := m w in
    if (ms <? tw_clock w' - tw_clock w)%Z then (set_clock (tw_clock w + ms)%Z w, Ret None)
    else (w', match r with Ret a => Ret (Some a) | Fail e => Fail e | Panic => Panic end);
}.
Definition sleep (ms : Z) : Task TestWorld unit := fun w => (set_clock (tw_clock w + ms)%Z w, Ret tt).

Definition blank_shard : ShardEngine * Disk :=
  (engine_new ShardConfig_default default_product_schema (mkWal [] 0)
     (wb_new default_product_schema 0) (mkSegmentList [] ∅ [] 0), disk_empty).

Definition shard_place (i : nat) : Lens TestWorld (ShardEngine * Disk) :=
  mkLens (fun w => nth i (tw_shards w) blank_shard)
    (fun s w => mkTestWorld (tw_clock w) (<[i := s]> (tw_shards w)) (tw_counters w) (tw_cache w)
                  (tw_suggest w) (tw_breaker w)).
Definition counter (i : nat) : Lens TestWorld Z :=
  mkLens (fun w => nth i (tw_counters w) 0)
    (fun n w => mkTestWorld (tw_clock w) (tw_shards w) (<[i := n]> (tw_counters w)) (tw_cache w)
                  (tw_suggest w) (tw_breaker w)).
Definition cache_place : Lens TestWorld QueryCache :=
  mkLens tw_cache (fun c w => mkTestWorld (tw_clock w) (tw_shards w) (tw_counters w) c
                                (tw_suggest w) (tw_breaker w)).
Definition suggest_place (i : nat) : Lens TestWorld SuggestShardEngine :=
  mkLens (fun w => nth i (tw_suggest w) (sge_new SuggestShardConfig_default))
    (fun e w => mkTestWorld (tw_clock w) (tw_shards w) (tw_counters w) (tw_cache w)
                  (<[i := e]> (tw_suggest w)) (tw_breaker w)).
Definition breaker_place : Lens TestWorld CircuitBreaker :=
  mkLens tw_breaker (fun b w => mkTestWorld (tw_clock w) (tw_shards w) (tw_counters w) (tw_cache w)
                                  (tw_suggest w) b).

Definition start_world : TestWorld :=
  mkTestWorld 1 (replicate 4 blank_shard) (replicate 4 0) (mkQueryCache [])
    (replicate 2 (sge_new SuggestShardConfig_default)) (breaker_new CircuitBreakerConfig_default).

Definition ensure_that (ok : bool) : Task TestWorld unit := async_lift (if ok then Ret tt else Panic).
Definition ensure_eq {A} `{EqDecision A} (a b : A) : Task TestWorld unit := ensure_that (bool_decide (a = b)).
Definition async_unwrap {A} (a : option A) : Task TestWorld A :=
  async_lift (match a with Some a => Ret a | None => Panic end).
Definition task_passes (test : Task TestWorld unit) : bool :=
  match (test start_world).2 with Ret _ => true | _ => false end.

(** [for x in l { f(x).await }]. *)
Fixpoint async_for {A} (f : A -> Task TestWorld unit) (l : list A) : Task TestWorld unit :=
  match l with [] => mret tt | x :: l => _ ← f x; async_for f l end.

(** ** lib.rs *)
Definition make_config (shard_id : nat) : ShardConfig :=
  let c := ShardConfig_default in
  mkShardConfig (sc_grpc_port c) (Z.of_nat shard_id) ("shard-" +:+ format_u64 (Z.of_nat shard_id))
    (sc_num_shards c) (1024 * 1024)%Z (sc_merge_threads c) (sc_role c) (sc_replica_endpoints c)
    (sc_replica_endpoint_template c) (sc_primary_endpoint c) (sc_primary_endpoint_template c).

Definition make_doc (id : Z) (title category : string) : Document := {|
  doc_id := id; doc_title := title; doc_description := "great product";
  doc_price := f64_mul (f64_of_Z id) (f64_of_Z 100); doc_category := category; doc_attributes := ∅ |}.

(** [ShardEngine::open(make_config(dir, i), schema)]: the shard opens what is on
    its disk. *)
Definition open_client (i : nat) : Task TestWorld (ShardClient TestWorld) := fun w =>
  match shard_open no_primary (make_config i) default_product_schema (lget (shard_place i) w).2 with
  | (d, Ret s) => (lset (shard_place i) (s, d) w, Ret (LocalShardClient (shard_place i)))
  | (_, Fail e) => (w, Fail e)
  | (_, Panic) => (w, Panic)
  end.

Definition simple (clients : list (ShardClient TestWorld)) (ranker : Ranker TestWorld)
    (ranker_timeout_ms : Z) : Task TestWorld (Router TestWorld) :=
  new_simple (imap (fun i c => (counter i, c)) clients) ranker ranker_timeout_ms 200 5000 cache_place.

Definition make_router (num_shards : nat) : Task TestWorld (Router TestWorld) :=
  clients ← mapM open_client (seq 0 num_shards);
  simple clients NoopRanker 30.

Definition make_router_with_strategy (num_shards : nat) (strategy : AvailabilityStrategy TestWorld)
  : Task TestWorld (Router TestWorld) :=
  clients ← mapM open_client (seq 0 num_shards);
  groups ← mapM (fun p : nat * ShardClient TestWorld => call (primary_only (counter p.1) p.2))
             (imap pair clients);
  call (router_new groups NoopRanker 30 200 5000 strategy cache_place).

(** [for i in 1..=n { router.index(make_doc(i, title, "electronics")) }]. *)
Definition index_all (router : Router TestWorld) (n : nat) (title : string) : Task TestWorld unit :=
  async_for (fun i => index router (make_doc (Z.of_nat i) title "electronics")) (seq 1 n).

Definition test_index_and_search : Task TestWorld unit :=
  router ← make_router 2;
  _ ← index router (make_doc 1 "Samsung Galaxy phone" "electronics");
  _ ← index router (make_doc 2 "Apple iPhone device" "electronics");
  _ ← index router (make_doc 3 "Nike shoes" "clothing");
  resp ← router_search router (query_request "samsung" 10);
  ensure_eq (hit_id <$> rs_hits resp) [1].

Definition test_delete_via_router : Task TestWorld unit :=
  router ← make_router 2;
  _ ← index router (make_doc 1 "Samsung Galaxy" "electronics");
  _ ← delete_doc router 1;
  resp ← router_search router (query_request "samsung" 10);
  ensure_eq (hit_id <$> rs_hits resp) [].

Definition test_multi_shard_search : Task TestWorld unit :=
  router ← make_router 4;
  _ ← index_all router 20 "Samsung Galaxy product";
  resp ← router_search router (query_request "samsung" 20);
  _ ← ensure_eq (rs_total_hits resp) 20;
  ensure_eq (length (rs_hits resp)) 20%nat.

Definition test_aggregations_across_shards : Task TestWorld unit :=
  router ← make_router 2;
  _ ← async_for (fun i =>
        let cat := if (i <=? 4)%nat then "electronics" else "clothing" in
        index router (make_doc (Z.of_nat i) "product item" cat)) (seq 1 6);
  resp ← router_search router (with_aggregations ["category"] (query_request "" 10));
  cats ← async_unwrap (rs_aggregations resp !! "category");
  let count value := ab_count <$> find (fun b => bool_decide (ab_value b = value)) cats in
  elec ← async_unwrap (count "electronics");
  cloth ← async_unwrap (count "clothing");
  _ ← ensure_eq elec 4;
  ensure_eq cloth 2.

Definition test_jump_hash_routing : Task TestWorld unit :=
  async_for (fun id => ensure_eq (jump_consistent_hash id 4) (jump_consistent_hash id 4))
    [1; 42; 999; 10000].

Definition test_wal_recovery_no_flush : Task TestWorld unit :=
  client ← open_client 0;
  router ← simple [client] NoopRanker 30;
  _ ← index_all router 10 "Samsung Galaxy product";
  client ← open_client 0;
  router ← simple [client] NoopRanker 30;
  resp ← router_search router (query_request "samsung" 20);
  ensure_eq (rs_total_hits resp) 10.

Definition unavailable {A} : Task TestWorld A := async_lift (Fail (EShard "shard unavailable")).
Definition FailingShardClient : ShardClient TestWorld := {|
  is_circuit_open := no_breaker;
  cl_search _ := unavailable; cl_index _ := unavailable; cl_bulk _ := unavailable;
  cl_delete _ := unavailable; cl_get_docs _ := mret []; cl_stats := unavailable;
  cl_flush := unavailable; cl_reindex := unavailable; cl_health w := (w, false);
  cl_suggest := no_suggest |}.

Definition test_partial_shard_failure_returns_results : Task TestWorld unit :=
  healthy ← open_client 0;
  router ← simple [healthy; FailingShardClient] NoopRanker 30;
  _ ← async_for (fun i =>
        _ ← attempt (E' := Error) (index router (make_doc (Z.of_nat i) "Samsung product" "electronics"));
        mret tt) (seq 1 20);
  resp ← router_search router (query_request "samsung" 20);
  ensure_that (0 <? rs_total_hits resp)%Z.

Definition SlowRanker (delay_ms : Z) : Ranker TestWorld :=
  mkRanker (fun _query candidates => _ ← sleep delay_ms; mret (bm25_results candidates)).

(** The clock moves by the time-out, not by the ranker's delay. *)
Definition test_ranker_fallback_overhead_under_30ms : Task TestWorld unit :=
  clients ← mapM open_client (seq 0 2);
  router ← simple clients (SlowRanker 200) 10;
  _ ← index_all router 5 "Samsung Galaxy product";
  _ ← router_search router (query_request "samsung" 5);
  t0 ← reads tw_clock;
  resp ← router_search router (query_request "samsung" 5);
  t1 ← reads tw_clock;
  _ ← ensure_that (negb (rs_reranked resp));
  ensure_that (t1 - t0 <? 100)%Z.

Definition cached_router : Task TestWorld (Router TestWorld) :=
  client ← open_client 0;
  group ← call (primary_only (counter 0) client);
  call (with_cache [group] NoopRanker 30 200 5000 NoopStrategy cache_place
          {| qc_enabled := true; qc_max_entries := 100; qc_ttl_seconds := 60 |}).

Definition test_cache_hit_skips_scatter : Task TestWorld unit :=
  router ← cached_router;
  _ ← index router (make_doc 1 "Samsung Galaxy phone" "electronics");
  let req := query_request "samsung" 10 in
  resp1 ← router_search router req;
  _ ← ensure_that (negb (rs_cache_hit resp1));
  _ ← ensure_eq (length (rs_hits resp1)) 1%nat;
  resp2 ← router_search router req;
  _ ← ensure_that (rs_cache_hit resp2);
  _ ← ensure_eq (length (rs_hits resp2)) 1%nat;
  ensure_eq (hit_id <$> rs_hits resp2) (hit_id <$> rs_hits resp1).

Definition in_zone (zone : string) (r : SearchRequest) : SearchRequest :=
  with_routing (Some zone) (rq_include_docs r) r.

Definition test_cache_different_zone_is_miss : Task TestWorld unit :=
  router ← cached_router;
  _ ← index router (make_doc 1 "Samsung Galaxy phone" "electronics");
  resp_a ← router_search router (in_zone "zone_a" (query_request "samsung" 10));
  resp_b ← router_search router (in_zone "zone_b" (query_request "samsung" 10));
  _ ← ensure_that (negb (rs_cache_hit resp_a));
  ensure_that (negb (rs_cache_hit resp_b)).

#[local] Instance integers : ParseF64 := { parse_f64 s := f64_of_Z <$> parse_unsigned u64_max s }.

Definition with_stock (attribute : string) (stock : f64) (doc : Document) : Document := {|
  doc_id := doc_id doc; doc_title := doc_title doc; doc_description := doc_description doc;
  doc_price := doc_price doc; doc_category := doc_category doc;
  doc_attributes := <[attribute := VNumber stock]> (doc_attributes doc) |}.

Definition test_search_with_destination_zone : Task TestWorld unit :=
  let strategy := StaticAvailabilityStrategy {|
    sa_stock_attribute_prefix := "stock_"; sa_default_available := false; sa_min_stock := f64_of_Z 1 |} in
  router ← make_router_with_strategy 2 strategy;
  _ ← index router (with_stock "stock_buenos_aires" (f64_of_Z 10)
                      (make_doc 1 "Samsung Galaxy phone" "electronics"));
  _ ← index router (with_stock "stock_buenos_aires" (f64_of_Z 0)
                      (make_doc 2 "Apple iPhone device" "electronics"));
  _ ← index router (make_doc 3 "Samsung tablet" "electronics");
  resp ← router_search router (in_zone "buenos_aires" (query_request "samsung" 10));
  ensure_eq (hit_id <$> rs_hits resp) [1].

Definition test_shard_group_read_roundrobin : Task TestWorld unit :=
  let plain id title := mkDocument id title "" f_zero "x" ∅ in
  c_primary ← open_client 0;
  c_replica ← open_client 1;
  _ ← at_ (shard_place 0) (shard_index (plain 1 "samsung"));
  _ ← at_ (shard_place 1) (shard_index (plain 2 "motorola"));
  group ← call (group_new (counter 0) c_primary [c_replica]);
  _ ← ensure_eq (replica_count group) 1%nat;
  counts ← (fix reads_of (n : nat) (counts : nat * nat) : Task TestWorld (nat * nat) :=
      match n with
      | O => mret counts
      | S n =>
          target ← call (read_target group);
          a ← cl_search target (query_request "samsung" 5);
          b ← cl_search target (query_request "motorola" 5);
          let bump (r : ShardSearchResult) c := if bool_decide (shr_hits r = []) then c else S c in
          reads_of n (bump a counts.1, bump b counts.2)
      end) 4%nat (0, 0)%nat;
  _ ← ensure_eq counts.1 2%nat;
  ensure_eq counts.2 2%nat.

Definition suggest_shard_config (shard_id : nat) : SuggestShardConfig :=
  {| su_grpc_port := su_grpc_port SuggestShardConfig_default; su_shard_id := Z.of_nat shard_id;
     su_num_suggest_shards := 2; su_min_doc_frequency := 1; su_max_terms_per_shard := 1000;
     su_fields := ["title"] |}.

Definition test_suggest_index_and_query_via_router : Task TestWorld unit :=
  router ← make_router 2;
  suggest_clients ← mapM (fun i => call (fun w =>
      (lset (suggest_place i) (sge_new (suggest_shard_config i)) w, LocalSuggestClient (suggest_place i))))
    (seq 0 2);
  let router := with_suggest_shards suggest_clients 500 500 router in
  _ ← async_for (fun i => index router (make_doc (Z.of_nat i) "wireless mouse" "electronics")) (seq 1 5);
  _ ← async_for (fun i => index router (make_doc (Z.of_nat i) "wired mouse" "electronics")) (seq 6 2);
  _ ← async_for (fun i => _ ← at_ (suggest_place i) (call sge_flush); mret tt) (seq 0 2);
  r ← suggest router "wire" "title" 5;
  let terms := stm_term <$> r in
  let position term := fst <$> list_find (fun t => t = term) terms in
  wireless ← async_unwrap (position "wireless");
  wired ← async_unwrap (position "wired");
  ensure_that (wireless <? wired)%nat.

Definition suggest_down {A} : Task TestWorld A := async_lift (Fail (EShard "suggest down")).
Definition FailingSuggestClient : ShardClient TestWorld := {|
  is_circuit_open := no_breaker;
  cl_search _ := mret (mkShardSearchResult [] 0 ∅ false); cl_index _ := suggest_down;
  cl_bulk _ := suggest_down; cl_delete _ := mret tt; cl_get_docs _ := mret [];
  cl_stats := suggest_down; cl_flush := mret tt; cl_reindex := suggest_down;
  cl_health w := (w, false); cl_suggest := no_suggest |}.

Definition test_suggest_write_failure_does_not_fail_index : Task TestWorld unit :=
  router ← make_router 1;
  let router := with_suggest_shards [FailingSuggestClient] 50 50 router in
  index router (make_doc 1 "wireless mouse" "electronics").

(** ** breaker.rs *)
Definition breaker_config (threshold recovery_ms : Z) : CircuitBreakerConfig :=
  {| cb_enabled := true; cb_failure_threshold := threshold; cb_recovery_ms := recovery_ms |}.

(** The methods of the breaker, at the clock of the test. *)
Definition breaker_open : Task TestWorld bool := reads (fun w => is_open (tw_clock w) (tw_breaker w)).
Definition fail_once : Task TestWorld unit := fun w =>
  (lset breaker_place (record_failure (tw_clock w) (tw_breaker w)) w, Ret tt).
Definition succeed_once : Task TestWorld unit := fun w =>
  (lset breaker_place (record_success (tw_breaker w)) w, Ret tt).
Definition new_breaker (threshold recovery_ms : Z) : Task TestWorld unit := fun w =>
  (lset breaker_place (breaker_new (breaker_config threshold recovery_ms)) w, Ret tt).

Definition test_closed_by_default : Task TestWorld unit :=
  _ ← new_breaker 3 10000;
  open ← breaker_open; ensure_that (negb open).

Definition test_opens_after_threshold : Task TestWorld unit :=
  _ ← new_breaker 3 10000;
  _ ← fail_once; _ ← fail_once;
  open ← breaker_open; _ ← ensure_that (negb open);
  _ ← fail_once;
  open ← breaker_open; ensure_that open.

Definition test_closes_on_success : Task TestWorld unit :=
  _ ← new_breaker 2 10000;
  _ ← fail_once; _ ← fail_once;
  open ← breaker_open; _ ← ensure_that open;
  _ ← succeed_once;
  open ← breaker_open; ensure_that (negb open).

Definition test_half_open_after_recovery_window : Task TestWorld unit :=
  _ ← new_breaker 1 0;
  _ ← fail_once;
  open ← breaker_open; ensure_that (negb open).

(** ** cache.rs *)
Definition with_query (query : string) : SearchRequest := query_request query (rq_limit SearchRequest_default).
Definition make_key (query : string) : QueryCacheKey := from_request (with_query query).

Definition test_include_docs_not_in_key : Task TestWorld unit :=
  let req docs := with_routing None docs (with_query "test") in
  ensure_eq (from_request (req false)) (from_request (req true)).

Definition test_different_zone_different_key : Task TestWorld unit :=
  let key zone := from_request (in_zone zone (with_query "test")) in
  ensure_that (negb (bool_decide (key "zone_a" = key "zone_b"))).

Definition test_filter_order_independent : Task TestWorld unit :=
  let filters_a := <["brand" := FEquality "sony"]> (<["category" := FEquality "phones"]> ∅) in
  let filters_b := <["category" := FEquality "phones"]> (<["brand" := FEquality "sony"]> ∅) in
  let key filters := from_request (with_filters filters (with_query "x")) in
  ensure_eq (key filters_a) (key filters_b).

Definition test_cache_hit_and_miss : Task TestWorld unit :=
  cache ← async_unwrap (cache_build {| qc_enabled := true; qc_max_entries := 100; qc_ttl_seconds := 60 |});
  let key := make_key "samsung" in
  let '(cache, miss) := cache_get key cache in
  _ ← ensure_that (is_none miss);
  let cache := cache_insert key {| cd_hits := [(1, f32_lit 9 10); (2, f32_lit 5 10)]; cd_total_hits := 2;
    cd_aggregations := ∅; cd_reranked := false; cd_retrieval_mode := RmAnd |} cache in
  hit ← async_unwrap (cache_get key cache).2;
  _ ← ensure_eq (length (cd_hits hit)) 2%nat;
  ensure_eq (head (cd_hits hit)) (Some (1, f32_lit 9 10)).

Definition test_cache_disabled_returns_none : Task TestWorld unit :=
  ensure_that (is_none (cache_build {| qc_enabled := false;
    qc_max_entries := qc_max_entries QueryCacheConfig_default;
    qc_ttl_seconds := qc_ttl_seconds QueryCacheConfig_default |})).

(** ** routing.rs *)
Definition test_deterministic : Task TestWorld unit :=
  ensure_eq (jump_consistent_hash 42 4) (jump_consistent_hash 42 4).

Definition test_single_shard : Task TestWorld unit :=
  async_for (fun i => ensure_eq (jump_consistent_hash (Z.of_nat i) 1) (Some 0)) (seq 0 100).

(** ** availability.rs *)
Definition no_stock_doc (id : Z) : Document := mkDocument id "test" "" f_zero "x" ∅.
Definition doc_with_stock (id : Z) (zone : string) (stock : f64) : Document :=
  with_stock ("stock_" +:+ zone) stock (no_stock_doc id).

(** What [strat.apply(&mut candidates, &doc_map(&docs), zone)] leaves of the candidates. *)
Definition kept_by (strategy : AvailabilityStrategy TestWorld) (docs : list Document) (ids : list Z)
    (zone : string) : Task TestWorld (list Z) :=
  kept ← av_apply strategy ((fun id => (id, one)) <$> ids) (doc_map docs) zone;
  mret kept.*1.

Definition test_noop_passes_all : Task TestWorld unit :=
  kept ← kept_by NoopStrategy [] [1; 2] "buenos_aires";
  ensure_eq (length kept) 2%nat.

Definition test_static_filters_zero_stock : Task TestWorld unit :=
  let docs := [doc_with_stock 1 "buenos_aires" (f64_of_Z 5); doc_with_stock 2 "buenos_aires" (f64_of_Z 0);
               doc_with_stock 3 "buenos_aires" (f64_of_Z 3)] in
  kept ← kept_by (StaticAvailabilityStrategy StaticAvailabilityConfig_default) docs [1; 2; 3] "buenos_aires";
  _ ← ensure_eq (length kept) 2%nat;
  ensure_that (negb (bool_decide (2%Z ∈ kept))).

Definition static_default (available : bool) : StaticAvailabilityConfig := {|
  sa_stock_attribute_prefix := sa_stock_attribute_prefix StaticAvailabilityConfig_default;
  sa_default_available := available;
  sa_min_stock := sa_min_stock StaticAvailabilityConfig_default |}.

Definition test_static_default_available_true : Task TestWorld unit :=
  kept ← kept_by (StaticAvailabilityStrategy (static_default true)) [no_stock_doc 1] [1] "santa_cruz";
  ensure_eq (length kept) 1%nat.

Definition test_static_default_available_false : Task TestWorld unit :=
  kept ← kept_by (StaticAvailabilityStrategy (static_default false)) [no_stock_doc 1] [1] "santa_cruz";
  ensure_eq (length kept) 0%nat.

(** No server listens at the address of the stock service. *)
#[local] Instance no_server : StockService TestWorld := {
  stock_response := unit;
  stock_get _ _ _ := fun w => (w, Fail "connection refused");
  stock_is_success _ := false;
  stock_json _ := fun w => (w, Fail "no body");
}.

Definition test_region_stock_fail_open : Task TestWorld unit :=
  let strategy := RegionStockStrategy {| rsc_base_url := "http://127.0.0.1:19999"; rsc_timeout_ms := 50 |} in
  kept ← kept_by strategy [no_stock_doc 1; no_stock_doc 2] [1; 2] "buenos_aires";
  ensure_eq (length kept) 2%nat.

Definition router_tests : list (Task TestWorld unit) := [
  test_index_and_search; test_delete_via_router; test_multi_shard_search; test_aggregations_across_shards;
  test_jump_hash_routing; test_wal_recovery_no_flush; test_partial_shard_failure_returns_results;
  test_ranker_fallback_overhead_under_30ms; test_cache_hit_skips_scatter; test_cache_different_zone_is_miss;
  test_search_with_destination_zone; test_shard_group_read_roundrobin;
  test_suggest_index_and_query_via_router; test_suggest_write_failure_does_not_fail_index;
  test_closed_by_default; test_opens_after_threshold; test_closes_on_success;
  test_half_open_after_recovery_window;
  test_include_docs_not_in_key; test_different_zone_different_key; test_filter_order_independent;
  test_cache_hit_and_miss; test_cache_disabled_returns_none;
  test_deterministic; test_single_shard;
  test_noop_passes_all; test_static_filters_zero_stock; test_static_default_available_true;
  test_static_default_available_false; test_region_stock_fail_open
].

Lemma router_tests_pass : forallb task_passes router_tests = true.
Proof. vm_compute. reflexivity. Qed.
