(* ===== verification/TestsServices.v ===== *)
(** The unit tests of [crates/suggest/src], [crates/meli/src], [crates/ranker/src]
    and, as far as they do not depend on the tables of the real stemmers and of
    Unicode, of [crates/analysis/src], run on the model. *)
From S2P Require Import Prelude Bytes Order Float Types Config Breaker Routing Text Decimal Analysis.
From S2P Require Import Posting Disk Inverted Column DocStore Segment Scorer Collector Understanding.
From S2P Require Import Wand Executor Multi Object Wal WriteBuffer SegmentList Proto Replication.
From S2P Require Import Shard Async ShardGrpc Suggest Ranker Meli Testing TestsRouter.
Import TestLibs StableOrder.
#[local] Existing Instance clocked.

Local Open Scope Z_scope.
Local Open Scope string_scope.

(** ** suggest: index.rs *)
Definition idx (pairs : list (string * f32)) : SuggestIndex := si_new pairs.
Definition tenths (n : Z) : f32 := f32_lit n 10.
Definition terms_of (r : list SuggestTerm) : list string := stm_term <$> r.

Definition prefix_match : IO unit :=
  let i := idx [("wired", tenths 6); ("wireless", tenths 9); ("wood", tenths 3)] in
  assert_eq (terms_of (si_query i "wire" 5)) ["wireless"; "wired"].

Definition case_insensitive : IO unit :=
  let i := idx [("wireless", tenths 9)] in
  _ ← assert_eq (length (si_query i "WIRE" 5)) 1%nat;
  assert_eq (length (si_query i "Wire" 5)) 1%nat.

Definition empty_prefix : IO unit := assert_eq (terms_of (si_query (idx [("wireless", tenths 9)]) "" 5)) [].

Definition score_ordering : IO unit :=
  let i := idx [("wire", tenths 1); ("wired", tenths 6); ("wireless", tenths 9)] in
  assert_eq (terms_of (si_query i "w" 3)) ["wireless"; "wired"; "wire"].

Definition respects_limit : IO unit :=
  let i := idx [("wa", tenths 1); ("wb", tenths 2); ("wc", tenths 3)] in
  assert_eq (length (si_query i "w" 2)) 2%nat.

Definition no_match : IO unit := assert_eq (terms_of (si_query (idx [("wireless", tenths 9)]) "zz" 5)) [].

(** ** suggest: builder.rs *)
Definition titled (id : Z) (title : string) : Document := mkDocument id title "" f_zero "" ∅.
Definition built (titles : list string) (min_doc_frequency : Z) : SuggestIndex :=
  builder_build (foldl (fun b d => add_document d ["title"] b) builder_new
    (imap (fun i t => titled (Z.of_nat i + 1)%Z t) titles)) min_doc_frequency 100.

Definition counts_doc_frequency : IO unit :=
  let r := si_query (built ["wireless mouse"; "wireless keyboard"; "wired mouse"] 1) "wire" 5 in
  _ ← assert_eq (terms_of r) ["wireless"; "wired"];
  a ← unwrap (r !! 0%nat); b ← unwrap (r !! 1%nat);
  assert (f_ge (stm_score a) (stm_score b)).

Definition min_doc_frequency_filter : IO unit :=
  assert_eq (length (si_query (built ["wireless"; "wired"; "wireless"] 2) "wire" 5)) 1%nat.

Definition term_counted_once_per_doc : IO unit :=
  let r := si_query (built ["wireless wireless wireless"] 1) "wireless" 5 in
  _ ← assert_eq (length r) 1%nat;
  t ← unwrap (head r);
  assert (near (stm_score t) one (f32_lit 1 1000000)).

(** ** suggest: engine.rs *)
Definition cfg : SuggestShardConfig := {|
  su_grpc_port := su_grpc_port SuggestShardConfig_default;
  su_shard_id := su_shard_id SuggestShardConfig_default;
  su_num_suggest_shards := su_num_suggest_shards SuggestShardConfig_default;
  su_min_doc_frequency := 1; su_max_terms_per_shard := 100; su_fields := ["title"] |}.

Definition index_then_flush_then_query : IO unit :=
  let eng := sge_index_doc (titled 2 "wired mouse") (sge_index_doc (titled 1 "wireless mouse") (sge_new cfg)) in
  _ ← assert_eq (terms_of (sge_suggest eng "wire" "title" 5)) [];
  let '(eng, _) := sge_flush eng in
  assert_eq (length (sge_suggest eng "wire" "title" 5)) 2%nat.

Definition builder_persists_across_flushes : IO unit :=
  let '(eng, _) := sge_flush (sge_index_doc (titled 1 "wireless") (sge_new cfg)) in
  let '(eng, _) := sge_flush (sge_index_doc (titled 2 "wired") eng) in
  assert_eq (length (sge_suggest eng "wire" "title" 5)) 2%nat.

(** ** meli: mapper.rs *)
Definition make_item (id : string) : MeliItem := {|
  mi_id := id; mi_site_id := "MLA"; mi_title := "Zapatillas Avid Fof"; mi_price := f64_of_Z 15000;
  mi_category_id := "MLA109027"; mi_condition := "new";
  mi_thumbnail := "http://example.com/img.jpg"; mi_status := "active";
  mi_attributes := [mkMeliAttribute "BRAND" "Marca" (Some "Propia"); mkMeliAttribute "GENDER" "Género" (Some "Hombre");
                    mkMeliAttribute "MODEL" "Modelo" None] |}.
Definition mapped : IO Document :=
  unwrap (match map_item (make_item "MLA1136716168") with Ret d => Some d | _ => None end).

Definition test_id_stripped : IO unit := doc ← mapped; assert_eq (doc_id doc) 1136716168.
Definition test_category_stripped : IO unit := doc ← mapped; assert_eq (doc_category doc) "109027".
Definition test_attributes_mapped : IO unit :=
  doc ← mapped;
  _ ← assert_eq (doc_attributes doc !! "brand") (Some (VString "Propia"));
  _ ← assert_eq (doc_attributes doc !! "gender") (Some (VString "Hombre"));
  assert (is_none (doc_attributes doc !! "model")).
Definition test_invalid_id : IO unit :=
  assert (match map_item (make_item "MLAINVALID") with Fail (InvalidId _) => true | _ => false end).
Definition test_map_batch_partial_errors : IO unit :=
  let '(docs, errors) := map_batch [make_item "MLA1136716168"; make_item "MLAINVALID"] in
  _ ← assert_eq (length docs) 1%nat;
  assert_eq (length errors) 1%nat.

(** ** ranker *)
Definition make_candidates (label : string) (scores : list (Z * f32)) : list RankCandidate :=
  (fun s : Z * f32 =>
    {| rc_doc_id := s.1; rc_bm25_score := s.2; rc_title := label +:+ format_u64 s.1;
       rc_category := "test"; rc_price := f_zero; rc_attributes := ∅ |}) <$> scores.

Definition test_noop_preserves_order : Task TestWorld unit :=
  results ← rerank NoopRanker "query" (make_candidates "Doc " [(1, tenths 9); (2, tenths 5); (3, tenths 1)]);
  ensure_eq (rr_doc_id <$> results) [1; 2; 3].

Definition test_noop_preserves_scores : Task TestWorld unit :=
  results ← rerank NoopRanker "q" (make_candidates "Doc " [(10, tenths 25); (20, one)]);
  ensure_eq (rr_score <$> results) [tenths 25; one].

Definition test_noop_empty_candidates : Task TestWorld unit :=
  results ← rerank NoopRanker "q" [];
  ensure_that (bool_decide (length results = 0%nat)).

Definition slow_99 : Ranker TestWorld :=
  mkRanker (fun _query candidates =>
    _ ← sleep 200;
    mret ((fun c => {| rr_doc_id := rc_doc_id c; rr_score := f32_of_Z 99 |}) <$> candidates)).

Definition test_fallback_on_timeout : Task TestWorld unit :=
  '(results, reranked) ← rerank_with_fallback slow_99 "q" (make_candidates "doc" [(1, tenths 9); (2, tenths 5)]) 10;
  _ ← ensure_that (negb reranked);
  first ← async_unwrap (head results);
  _ ← ensure_eq (rr_doc_id first) 1;
  ensure_eq (rr_score first) (tenths 9).

Definition test_no_fallback_when_fast : Task TestWorld unit :=
  '(results, reranked) ← rerank_with_fallback NoopRanker "q" (make_candidates "doc" [(1, tenths 9)]) 100;
  _ ← ensure_that reranked;
  ensure_eq (length results) 1%nat.

Definition AlwaysFail : Ranker TestWorld :=
  mkRanker (fun _ _ => async_lift (Fail (EInternal "boom"))).
Definition cands : list RankCandidate := [
  {| rc_doc_id := 1; rc_bm25_score := tenths 5; rc_title := "x"; rc_category := "y";
     rc_price := f_zero; rc_attributes := ∅ |}].

Definition fails {A} (m : Task TestWorld A) : Task TestWorld bool :=
  r ← attempt (E' := Error) m; mret (match r with Ret _ => false | _ => true end).

Definition opens_after_failures_then_short_circuits : Task TestWorld unit :=
  r ← breaker_ranker_new AlwaysFail breaker_place (breaker_config 2 10000);
  failed ← fails (rerank r "q" cands); _ ← ensure_that failed;
  failed ← fails (rerank r "q" cands); _ ← ensure_that failed;
  open ← breaker_open; _ ← ensure_that open;
  failed ← fails (rerank r "q" cands); ensure_that failed.

Definition passes_through_when_closed : Task TestWorld unit :=
  r ← breaker_ranker_new NoopRanker breaker_place (breaker_config 3 10000);
  failed ← fails (rerank r "q" cands); ensure_that (negb failed).

(** No ranking service is reached by the factory's tests. *)
#[local] Instance no_ranking : RankerNet TestWorld := {
  ranker_connect _ := fun w => (w, Fail "unreachable");
  ranker_rpc _ _ := fun w => (w, Fail (mkStatus CUnavailable "unreachable"));
  ranker_status_text s := st_message s;
}.
Definition factory (type : RankerType) (endpoint : option string) : Task TestWorld (Ranker TestWorld) :=
  ranker_build (fun _ => Fail (EInternal "no module")) breaker_place {|
    rk_type := type; rk_grpc_endpoint := endpoint; rk_wasm_module := None;
    rk_timeout_ms := rk_timeout_ms RankerConfig_default;
    rk_candidates := rk_candidates RankerConfig_default;
    rk_circuit_breaker := rk_circuit_breaker RankerConfig_default |}.

Definition test_factory_none : Task TestWorld unit :=
  failed ← fails (factory RtNone None); ensure_that (negb failed).
Definition test_factory_grpc_requires_endpoint : Task TestWorld unit :=
  failed ← fails (factory RtGrpc None); ensure_that failed.
Definition test_factory_grpc_with_endpoint : Task TestWorld unit :=
  failed ← fails (factory RtGrpc (Some "http://localhost:50051")); ensure_that (negb failed).
Definition test_factory_wasm_requires_path : Task TestWorld unit :=
  failed ← fails (factory RtWasm None); ensure_that failed.

(** ** analysis *)
Definition texts (tokens : list Token) : list string := tok_text <$> tokens.
Definition words_of (text : string) : list string := texts (tokenize UnicodeTokenizer text).
Definition has_all (ws : list string) (text : string) : IO unit :=
  assert (forallb (fun w => bool_decide (w ∈ words_of text)) ws).

Definition test_lowercase_basic : IO unit :=
  let tokens := [{| tok_text := "Hello"; tok_start := 0; tok_end := 5; tok_position := 0 |};
                 {| tok_text := "WORLD"; tok_start := 6; tok_end := 11; tok_position := 1 |}] in
  assert_eq (texts (filter_apply LowercaseFilter tokens)) ["hello"; "world"].

Definition test_basic_tokenization : IO unit :=
  let tokens := tokenize UnicodeTokenizer "hello world" in
  _ ← assert_eq (texts tokens) ["hello"; "world"];
  assert_eq (tok_position <$> tokens) [0; 1]%nat.

Definition test_punctuation : IO unit :=
  has_all ["hello"; "world"; "How's"; "going"] "hello, world! How's it going?".
Definition test_numbers : IO unit :=
  has_all ["Samsung"; "Galaxy"; "S24"; "256GB"] "Samsung Galaxy S24 256GB $799.99".
Definition test_unicode_spanish : IO unit :=
  has_all ["teléfono"; "móvil"; "Samsung"] "teléfono móvil Samsung".
Definition test_unicode_portuguese : IO unit :=
  has_all ["computação"; "gráfica"; "avançada"] "computação gráfica avançada".
Definition test_empty_input : IO unit := assert_eq (words_of "") [].
Definition test_only_punctuation : IO unit := assert_eq (words_of "!!! --- ???") [].
Definition test_positions_are_sequential : IO unit :=
  let tokens := tokenize UnicodeTokenizer "one two three four five" in
  assert_eq (tok_position <$> tokens) (seq 0 (length tokens)).

Definition test_keyword_analyzer : IO unit :=
  assert_eq (analyze_to_terms (analyzer_build AtKeyword) "Electronics > Phones > Samsung")
    ["Electronics > Phones > Samsung"].
Definition test_keyword_analyzer_empty : IO unit :=
  assert_eq (analyze_to_terms (analyzer_build AtKeyword) "") [].
Definition test_case_insensitive_matching : IO unit :=
  let terms := analyze_to_terms (analyzer_build (AtStandard English)) in
  _ ← assert_eq (terms "LAPTOP") (terms "laptop");
  assert_eq (terms "laptop") (terms "Laptop").

(** Left out: the suggest test that measures ten thousand terms, and the tests
    of the stemmers. *)
Definition service_tests : list (IO unit) := [
  prefix_match; case_insensitive; empty_prefix; score_ordering; respects_limit; no_match;
  counts_doc_frequency; min_doc_frequency_filter; term_counted_once_per_doc;
  index_then_flush_then_query; builder_persists_across_flushes;
  test_id_stripped; test_category_stripped; test_attributes_mapped; test_invalid_id;
  test_map_batch_partial_errors;
  test_lowercase_basic; test_basic_tokenization; test_punctuation; test_numbers; test_unicode_spanish;
  test_unicode_portuguese; test_empty_input; test_only_punctuation; test_positions_are_sequential;
  test_keyword_analyzer; test_keyword_analyzer_empty; test_case_insensitive_matching
].
Definition ranker_tests : list (Task TestWorld unit) := [
  test_noop_preserves_order; test_noop_preserves_scores; test_noop_empty_candidates;
  test_fallback_on_timeout; test_no_fallback_when_fast;
  opens_after_failures_then_short_circuits; passes_through_when_closed;
  test_factory_none; test_factory_grpc_requires_endpoint; test_factory_grpc_with_endpoint;
  test_factory_wasm_requires_path
].

Lemma service_tests_pass : forallb passes service_tests = true.
Proof. vm_compute. reflexivity. Qed.
Lemma ranker_tests_pass : forallb task_passes ranker_tests = true.
Proof. vm_compute. reflexivity. Qed.
